(** * number-dispenser: the dispenser engine and its durability model

    A shallow embedding of the Go packages [dispenser], [storage] and
    [server] of nicexiaonie/number-dispenser, and the properties of the
    specification that are stated about them.

    Conventions of the embedding.
    - Go's [int] and [int64] are [Z] with the two's complement wrap-around
      of 64-bit arithmetic written out ([wrap64]).
    - Go strings are [string]; the typed strings [IncrementalMode],
      [Charset], [UUIDFormat] and [PersistenceStrategy] stay strings.
    - A method with a pointer receiver is a function that takes the
      receiver's value and returns the updated one.
    - Mutexes are not modelled: every method runs atomically, and a
      goroutine started with [go] is an event that a schedule fires later.
    - The wall clock, math/rand, crypto/rand and the outcome of disk
      writes are oracles: streams indexed by a read position. *)

From Stdlib Require Import ZArith Lia List Bool String Ascii DecimalString.
From Stdlib Require Import SpecFloat.
From Stdlib Require DecimalFacts DecimalPos DecimalN Sorted.
From stdpp Require Import gmap strings list sorting.

Local Open Scope string_scope.
Local Open Scope Z_scope.

(** ** Machine integers *)

Module Int64.

Definition min_int : Z := - 2 ^ 63.
Definition max_int : Z := 2 ^ 63 - 1.

(** The value an [int64] holds after an operation whose mathematical
    result is [z]. *)
Definition wrap64 (z : Z) : Z := (z + 2 ^ 63) mod 2 ^ 64 - 2 ^ 63.

Definition in_range (z : Z) : Prop := min_int <= z <= max_int.

Definition add (a b : Z) : Z := wrap64 (a + b).
Definition sub (a b : Z) : Z := wrap64 (a - b).
Definition mul (a b : Z) : Z := wrap64 (a * b).
Definition shl (a n : Z) : Z := wrap64 (Z.shiftl a n).

End Int64.

(** ** The fmt verbs the dispensers use *)

Module Fmt.

(** [fmt.Sprintf("%d", n)]. *)
Definition sprintf_d (n : Z) : string :=
  NilZero.string_of_int (Z.to_int n).

Fixpoint repeat_char (c : ascii) (n : nat) : string :=
  match n with
  | O => EmptyString
  | S k => String c (repeat_char c k)
  end.

(** [fmt.Sprintf("%0*d", w, n)]: the sign first, then zeros up to the
    width [w]; a negative [w] means left justification, padded with
    spaces on the right. *)
Definition sprintf_0wd (w n : Z) : string :=
  let digits := NilZero.string_of_uint (N.to_uint (Z.abs_N n)) in
  let sign := if n <? 0 then "-" else "" in
  let len := Z.of_nat (String.length sign + String.length digits) in
  if w <? 0 then
    sign +:+ digits +:+ repeat_char " "%char (Z.to_nat (- w - len))
  else
    sign +:+ repeat_char "0"%char (Z.to_nat (w - len)) +:+ digits.

End Fmt.

(** ** package dispenser: errors, configuration *)

Inductive error : Type :=
| ErrInvalidType
| ErrInvalidLength
| ErrInvalidStarting
| ErrInvalidStep
| ErrInvalidMachine
| ErrNumberExhausted
| ErrInvalidCharset
| ErrInvalidFormat
| ErrNew (msg : string)      (* errors.New / fmt.Errorf at the call site *)
| ErrIO                      (* an *os.PathError of the storage layer *)
| ErrPanic (msg : string).   (* not an error value: a run-time panic *)

(** A function whose result is [ErrPanic] does not return: it panics.
    Nothing in the package recovers a panic, so a caller that meets one
    does not go on, and the process ends. *)

(** [err.Error()]. *)
Definition Error (e : error) : string :=
  match e with
  | ErrInvalidType => "invalid dispenser type"
  | ErrInvalidLength => "invalid length"
  | ErrInvalidStarting => "invalid starting value"
  | ErrInvalidStep => "invalid step value"
  | ErrInvalidMachine => "invalid machine id"
  | ErrNumberExhausted => "number range exhausted"
  | ErrInvalidCharset => "invalid charset"
  | ErrInvalidFormat => "invalid format"
  | ErrNew msg => msg
  | ErrIO => "input/output error"
  | ErrPanic msg => msg
  end.

(** A Go result [(T, error)] with the usual discipline: exactly one of
    the two is meaningful. *)
Inductive result (A : Type) : Type :=
| Ok (a : A)
| Err (e : error).
Arguments Ok {A} a.
Arguments Err {A} e.

Definition TypeNumericRandom : Z := 1.
Definition TypeNumericIncremental : Z := 2.
Definition TypeAlphanumericRandom : Z := 3.
Definition TypeSnowflake : Z := 4.
Definition TypeUUID : Z := 5.

Definition IncrModeFixed : string := "fixed".
Definition IncrModeSequence : string := "sequence".

Definition CharsetHex : string := "hex".
Definition CharsetBase62 : string := "base62".

Definition UUIDFormatStandard : string := "standard".
Definition UUIDFormatCompact : string := "compact".

Definition StrategyMemory : string := "memory".
Definition StrategyPreBase : string := "pre-base".
Definition StrategyPreCheckpoint : string := "pre-checkpoint".
Definition StrategyElegantClose : string := "elegant_close".
Definition StrategyPreClose : string := "pre_close".

(** [ValidPersistenceStrategies[s]]: a missing key reads as [false]. *)
Definition ValidPersistenceStrategies (s : string) : bool :=
  bool_decide (s = StrategyMemory) || bool_decide (s = StrategyPreBase)
  || bool_decide (s = StrategyPreCheckpoint)
  || bool_decide (s = StrategyElegantClose)
  || bool_decide (s = StrategyPreClose).

Record Config : Type := mkConfig {
  Type_ : Z;
  Length : Z;
  Starting : Z;
  Step : Z;
  MachineID : Z;
  DatacenterID : Z;
  IncrMode : string;
  Charset : string;
  UUIDFormat : string;
  AutoDisk : string;
  UniqueCheck : bool;
  UniqueCacheSize : Z
}.

(** The zero value [Config{}]. *)
Definition Config_zero : Config :=
  mkConfig 0 0 0 0 0 0 "" "" "" "" false 0.

Definition set_Step (c : Config) (v : Z) : Config :=
  mkConfig (Type_ c) (Length c) (Starting c) v (MachineID c) (DatacenterID c)
           (IncrMode c) (Charset c) (UUIDFormat c) (AutoDisk c)
           (UniqueCheck c) (UniqueCacheSize c).
Definition set_MachineID (c : Config) (v : Z) : Config :=
  mkConfig (Type_ c) (Length c) (Starting c) (Step c) v (DatacenterID c)
           (IncrMode c) (Charset c) (UUIDFormat c) (AutoDisk c)
           (UniqueCheck c) (UniqueCacheSize c).
Definition set_IncrMode (c : Config) (v : string) : Config :=
  mkConfig (Type_ c) (Length c) (Starting c) (Step c) (MachineID c)
           (DatacenterID c) v (Charset c) (UUIDFormat c) (AutoDisk c)
           (UniqueCheck c) (UniqueCacheSize c).
Definition set_Charset (c : Config) (v : string) : Config :=
  mkConfig (Type_ c) (Length c) (Starting c) (Step c) (MachineID c)
           (DatacenterID c) (IncrMode c) v (UUIDFormat c) (AutoDisk c)
           (UniqueCheck c) (UniqueCacheSize c).
Definition set_UUIDFormat (c : Config) (v : string) : Config :=
  mkConfig (Type_ c) (Length c) (Starting c) (Step c) (MachineID c)
           (DatacenterID c) (IncrMode c) (Charset c) v (AutoDisk c)
           (UniqueCheck c) (UniqueCacheSize c).
Definition set_AutoDisk (c : Config) (v : string) : Config :=
  mkConfig (Type_ c) (Length c) (Starting c) (Step c) (MachineID c)
           (DatacenterID c) (IncrMode c) (Charset c) (UUIDFormat c) v
           (UniqueCheck c) (UniqueCacheSize c).
Definition set_UniqueCheck (c : Config) (v : bool) : Config :=
  mkConfig (Type_ c) (Length c) (Starting c) (Step c) (MachineID c)
           (DatacenterID c) (IncrMode c) (Charset c) (UUIDFormat c)
           (AutoDisk c) v (UniqueCacheSize c).

(** [pow10]: ten to the [n], computed by [n] multiplications in [int64];
    one for [n <= 0]. *)
Fixpoint pow10_loop (i : nat) (acc : Z) : Z :=
  match i with
  | O => acc
  | S k => pow10_loop k (Int64.mul acc 10)
  end.

Definition pow10 (n : Z) : Z :=
  if n <=? 0 then 1 else pow10_loop (Z.to_nat n) 1.

Definition validateConfig (cfg : Config) : option error :=
  if (Type_ cfg <? TypeNumericRandom) || (Type_ cfg >? TypeUUID) then
    Some ErrInvalidType
  else if Type_ cfg =? TypeNumericRandom then
    if (Length cfg <=? 0) || (Length cfg >? 18) then Some ErrInvalidLength
    else None
  else if Type_ cfg =? TypeNumericIncremental then
    if bool_decide (IncrMode cfg = IncrModeFixed)
       && ((Length cfg <=? 0) || (Length cfg >? 18)) then
      Some ErrInvalidLength
    else if bool_decide (IncrMode cfg = IncrModeFixed)
            && (Starting cfg >=? pow10 (Length cfg)) then
      Some ErrInvalidStarting
    else if Starting cfg <? 0 then Some ErrInvalidStarting
    else if Step cfg <? 0 then Some ErrInvalidStep
    else None
  else if Type_ cfg =? TypeAlphanumericRandom then
    if (Length cfg <=? 0) || (Length cfg >? 64) then Some ErrInvalidLength
    else if negb (bool_decide (Charset cfg = ""))
            && negb (bool_decide (Charset cfg = CharsetHex))
            && negb (bool_decide (Charset cfg = CharsetBase62)) then
      Some ErrInvalidCharset
    else None
  else if Type_ cfg =? TypeSnowflake then
    if (MachineID cfg <? 0) || (MachineID cfg >? 31) then
      Some ErrInvalidMachine
    else if (DatacenterID cfg <? 0) || (DatacenterID cfg >? 31) then
      Some ErrInvalidMachine
    else None
  else
    if negb (bool_decide (UUIDFormat cfg = ""))
       && negb (bool_decide (UUIDFormat cfg = UUIDFormatStandard))
       && negb (bool_decide (UUIDFormat cfg = UUIDFormatCompact)) then
      Some ErrInvalidFormat
    else None.


(** ** segment.go: the kinds it tells apart

    segment.go names the kinds as the first type system of the package
    did: [TypeRandomFixed], [TypeIncrFixed], [TypeIncrZero]. The package
    as it stands declares none of the three (an older dispenser.go
    declared them as 1, 2 and 3), so their values are a parameter of
    everything that segment.go does. *)
Record Kinds : Type := mkKinds {
  TypeRandomFixed : Z;
  TypeIncrFixed : Z;
  TypeIncrZero : Z
}.

(** ** package storage: the snapshot and the world around the process *)

Record DispenserData : Type := mkData {
  dConfig : Config;
  dCurrent : Z;
  dUpdated : Z
}.

(** [FileStorage] without its mutex and its directory name. *)
Record FileStorage : Type := mkFS {
  data : gmap string DispenserData;
  autoSave : bool;
  dirty : bool
}.

(** Everything a dispenser or the server reaches outside its own fields:
    the wall clock in milliseconds, the bytes of crypto/rand, the streams
    math/rand is seeded with, the outcome of each attempt to write the
    snapshot file, the file dispensers.json ([None]: no file yet), and the
    one [FileStorage] object that the server and the persistence hooks
    share; and, fixed when the process was built, the kinds of
    segment.go. *)
Record World : Type := mkWorld {
  kinds : Kinds;
  clock : nat -> Z;
  ticks : nat;
  entropy : nat -> Z;
  epos : nat;
  seeds : nat -> nat -> Z;
  nseed : nat;
  disk_ok : nat -> bool;
  ios : nat;
  disk : option (gmap string DispenserData);
  fs : FileStorage
}.

Definition set_fs (w : World) (f : FileStorage) : World :=
  mkWorld (kinds w) (clock w) (ticks w) (entropy w) (epos w) (seeds w) (nseed w)
          (disk_ok w) (ios w) (disk w) f.

(** [time.Now()] in milliseconds. *)
Definition now (w : World) : Z * World :=
  (clock w (ticks w),
   mkWorld (kinds w) (clock w) (S (ticks w)) (entropy w) (epos w) (seeds w) (nseed w)
           (disk_ok w) (ios w) (disk w) (fs w)).

(** [rand.Read(b)] for a slice of [n] bytes. *)
Definition rand_Read (n : nat) (w : World) : list Z * World :=
  (map (fun i => entropy w (epos w + i)%nat mod 256) (seq 0 n),
   mkWorld (kinds w) (clock w) (ticks w) (entropy w) (epos w + n)%nat (seeds w)
           (nseed w) (disk_ok w) (ios w) (disk w) (fs w)).

(** A [*rand.Rand]: the stream its seed determines and how far it was
    read. *)
Record Rng : Type := mkRng {
  draws : nat -> Z;
  rpos : nat
}.

(** [mathrand.New(mathrand.NewSource(time.Now().UnixNano()))]. *)
Definition new_Rng (w : World) : Rng * World :=
  (mkRng (seeds w (nseed w)) 0,
   mkWorld (kinds w) (clock w) (ticks w) (entropy w) (epos w) (seeds w) (S (nseed w))
           (disk_ok w) (ios w) (disk w) (fs w)).

(** [r.Int63n(n)] and [r.Intn(n)]: some value of [[0, n)]; both panic
    when [n <= 0]. *)
Definition Int63n (r : Rng) (n : Z) : Z * Rng :=
  (draws r (rpos r) mod n, mkRng (draws r) (S (rpos r))).

(** ** encoding/json, as far as the snapshot file goes through it

    [saveToDisk] marshals the map of the storage, [loadFromDisk]
    unmarshals the file. Integers, booleans and times come back as they
    were written: a reading of the system clock, and a time decoded from
    a file, lie in the years a [time.Time] marshals. A string does not
    always come back: the encoder replaces every byte that starts no
    valid UTF-8 sequence by U+FFFD. It writes the entries of the map
    sorted by key, and the decoder keeps, of two equal keys, the one it
    reads last. *)

Module JSON.


(** A byte within [[lo, hi]]. *)
Definition between (lo hi : N) (c : ascii) : bool :=
  ((lo <=? N_of_ascii c) && (N_of_ascii c <=? hi))%N.

(** [utf8.DecodeRuneInString]: the number of bytes of the encoding at
    the head of [s], and 0 where there is none, which the library
    reports as [RuneError] of width 1. *)
Definition rune_width (s : string) : nat :=
  match s with
  | EmptyString => 0
  | String b0 rest =>
    if between 0 127 b0 then 1
    else if between 194 223 b0 then
      match rest with
      | String b1 _ => if between 128 191 b1 then 2 else 0
      | _ => 0
      end
    else if between 224 239 b0 then
      match rest with
      | String b1 (String b2 _) =>
        if between (if between 224 224 b0 then 160 else 128)
                   (if between 237 237 b0 then 159 else 191) b1
           && between 128 191 b2
        then 3 else 0
      | _ => 0
      end
    else if between 240 244 b0 then
      match rest with
      | String b1 (String b2 (String b3 _)) =>
        if between (if between 240 240 b0 then 144 else 128)
                   (if between 244 244 b0 then 143 else 191) b1
           && between 128 191 b2 && between 128 191 b3
        then 4 else 0
      | _ => 0
      end
    else 0
  end.

(** U+FFFD in UTF-8. *)
Definition replacement : string :=
  String "239" (String "191" (String "189" EmptyString)).

(** A string after the encoder and the decoder: a byte that starts no
    encoding has become U+FFFD. [skip] counts the bytes still to copy
    of the encoding begun. *)
Fixpoint coerce (skip : nat) (s : string) : string :=
  match s with
  | EmptyString => EmptyString
  | String c rest =>
    match skip with
    | S k => String c (coerce k rest)
    | O =>
      match rune_width s with
      | O => replacement +:+ coerce 0 rest
      | S k => String c (coerce k rest)
      end
    end
  end.

Definition roundtrip (s : string) : string := coerce 0 s.

(** [utf8.ValidString] *)
Fixpoint valid_from (skip : nat) (s : string) : bool :=
  match s with
  | EmptyString => true
  | String c rest =>
    match skip with
    | S k => valid_from k rest
    | O =>
      match rune_width s with
      | O => false
      | S k => valid_from k rest
      end
    end
  end.

Definition ValidString (s : string) : bool := valid_from 0 s.


Definition roundtrip_config (cfg : Config) : Config :=
  mkConfig (Type_ cfg) (Length cfg) (Starting cfg) (Step cfg)
           (MachineID cfg) (DatacenterID cfg)
           (roundtrip (IncrMode cfg)) (roundtrip (Charset cfg))
           (roundtrip (UUIDFormat cfg)) (roundtrip (AutoDisk cfg))
           (UniqueCheck cfg) (UniqueCacheSize cfg).

Definition roundtrip_entry (e : string * DispenserData)
  : string * DispenserData :=
  (roundtrip (fst e),
   mkData (roundtrip_config (dConfig (snd e))) (dCurrent (snd e))
          (dUpdated (snd e))).

(** The order of the keys: Go's [<] on strings, byte by byte. *)
Definition key_le (a b : string * DispenserData) : Prop :=
  String.leb (fst a) (fst b) = true.

#[global] Instance key_le_dec : RelDecision key_le.
Proof. intros a b. unfold key_le. apply _. Defined.

(** The entries as [MarshalIndent] writes them and as the decoder reads
    them. *)
Definition written (m : gmap string DispenserData)
  : list (string * DispenserData) :=
  roundtrip_entry <$> merge_sort key_le (map_to_list m).

(** The map [Unmarshal] builds from the file that [MarshalIndent] wrote
    for [m]. *)
Definition file (m : gmap string DispenserData) : gmap string DispenserData :=
  foldl (fun acc e => <[fst e := snd e]> acc) ∅ (written m).

Definition valid_config (cfg : Config) : bool :=
  ValidString (IncrMode cfg) && ValidString (Charset cfg)
  && ValidString (UUIDFormat cfg) && ValidString (AutoDisk cfg).

(** A snapshot all of whose names and strings are valid UTF-8. *)
Definition clean (m : gmap string DispenserData) : bool :=
  forallb (fun e => ValidString (fst e) && valid_config (dConfig (snd e)))
          (map_to_list m).

End JSON.

Module Storage.

(** [saveToDisk]: marshal, write the temporary file, rename. The file
    is kept as what [loadFromDisk] decodes from it. *)
Definition saveToDisk (w : World) : option error * World :=
  if disk_ok w (ios w) then
    (None,
     mkWorld (kinds w) (clock w) (ticks w) (entropy w) (epos w) (seeds w) (nseed w)
             (disk_ok w) (S (ios w)) (Some (JSON.file (data (fs w))))
             (mkFS (data (fs w)) (autoSave (fs w)) false))
  else
    (Some ErrIO,
     mkWorld (kinds w) (clock w) (ticks w) (entropy w) (epos w) (seeds w) (nseed w)
             (disk_ok w) (S (ios w)) (disk w) (fs w)).

Definition Save (name : string) (cfg : Config) (current : Z) (w : World)
  : option error * World :=
  let '(t, w1) := now w in
  let f := fs w1 in
  let w2 := set_fs w1 (mkFS (<[name := mkData cfg current t]> (data f))
                            (autoSave f) true) in
  if negb (autoSave f) then saveToDisk w2 else (None, w2).

Definition Load (name : string) (w : World) : result (Config * Z) :=
  match data (fs w) !! name with
  | Some d => Ok (dConfig d, dCurrent d)
  | None => Err (ErrNew "file does not exist")
  end.

Definition Delete (name : string) (w : World) : option error * World :=
  let f := fs w in
  let w1 := set_fs w (mkFS (delete name (data f)) (autoSave f) true) in
  if negb (autoSave f) then saveToDisk w1 else (None, w1).

Definition ListAll (w : World) : gmap string DispenserData :=
  data (fs w).

Definition Flush (w : World) : option error * World :=
  if negb (dirty (fs w)) then (None, w) else saveToDisk w.

(** [loadFromDisk] into a storage whose map is still empty. *)
Definition loadFromDisk (f : FileStorage) (w : World) : FileStorage :=
  match disk w with
  | None => f
  | Some m => mkFS m (autoSave f) (dirty f)
  end.

(** [NewFileStorage]: the directory is taken to exist; the auto-save
    goroutine is the event [autoSaveTick]. *)
Definition NewFileStorage (autoSave : bool) (w : World) : World :=
  set_fs w (loadFromDisk (mkFS ∅ autoSave false) w).

(** One tick of [autoSaveLoop]. *)
Definition autoSaveTick (w : World) : World :=
  if dirty (fs w) then snd (saveToDisk w) else w.

End Storage.

(** ** float64, as far as the dispensers use it *)

Module Float64.

(** [float64(z)] for an integer [z]: the nearest binary64 value. *)
Definition of_int64 (z : Z) : spec_float :=
  binary_normalize 53 1024 z 0 false.

Definition div (x y : spec_float) : spec_float := SFdiv 53 1024 x y.

(** The constants 0.8, 0.2 and 0.1 as Go rounds them to binary64
    (0x1.999999999999ap-1, p-3 and p-4). *)
Definition c0_8 : spec_float := S754_finite false 7205759403792794 (-53).
Definition c0_2 : spec_float := S754_finite false 7205759403792794 (-55).
Definition c0_1 : spec_float := S754_finite false 7205759403792794 (-56).
Definition zero : spec_float := S754_zero false.
Definition one : spec_float := S754_finite false 4503599627370496 (-52).

(** [x > y], [x <= y], [x >= y]; all false on NaN. *)
Definition gt (x y : spec_float) : bool := SFltb y x.
Definition le (x y : spec_float) : bool := SFleb x y.
Definition ge (x y : spec_float) : bool := SFleb y x.

End Float64.

(** ** encoding/hex *)

Module Hex.

Definition digit (n : Z) : ascii :=
  match String.get (Z.to_nat n) "0123456789abcdef" with
  | Some c => c
  | None => "0"%char
  end.

Definition byte (b : Z) : string :=
  String (digit (b / 16)) (String (digit (b mod 16)) EmptyString).

Definition EncodeToString (bs : list Z) : string :=
  fold_right (fun b acc => byte b +:+ acc) "" bs.

End Hex.

(** ** dispenser.go: the five algorithm kernels *)

Module Dispenser.

(** [used] is a [map[string]bool]; a nil map reads like the empty one,
    and the only writer makes the map first, so nil is [∅] here. *)
Record t : Type := mk {
  config : Config;
  current : Z;
  rng : Rng;
  segmentStart : Z;
  segmentEnd : Z;
  used : gmap string bool;
  seqCounter : Z;
  lastTimestamp : Z;
  snowflakeEpoch : Z;
  totalGenerated : Z
}.

Definition set_config (d : t) (c : Config) : t :=
  mk c (current d) (rng d) (segmentStart d) (segmentEnd d) (used d)
     (seqCounter d) (lastTimestamp d) (snowflakeEpoch d) (totalGenerated d).
Definition set_current (d : t) (v : Z) : t :=
  mk (config d) v (rng d) (segmentStart d) (segmentEnd d) (used d)
     (seqCounter d) (lastTimestamp d) (snowflakeEpoch d) (totalGenerated d).
Definition set_rng (d : t) (g : Rng) : t :=
  mk (config d) (current d) g (segmentStart d) (segmentEnd d) (used d)
     (seqCounter d) (lastTimestamp d) (snowflakeEpoch d) (totalGenerated d).
Definition set_used (d : t) (u : gmap string bool) : t :=
  mk (config d) (current d) (rng d) (segmentStart d) (segmentEnd d) u
     (seqCounter d) (lastTimestamp d) (snowflakeEpoch d) (totalGenerated d).
Definition set_clockstate (d : t) (sq ts : Z) : t :=
  mk (config d) (current d) (rng d) (segmentStart d) (segmentEnd d) (used d)
     sq ts (snowflakeEpoch d) (totalGenerated d).
(** [d.totalGenerated++] *)
Definition count (d : t) : t :=
  mk (config d) (current d) (rng d) (segmentStart d) (segmentEnd d) (used d)
     (seqCounter d) (lastTimestamp d) (snowflakeEpoch d)
     (Int64.add (totalGenerated d) 1).

Definition NewDispenser (cfg : Config) (w : World) : result t * World :=
  match validateConfig cfg with
  | Some e => (Err e, w)
  | None =>
    let '(g, w1) := new_Rng w in
    let d := mk cfg 0 g 0 0 ∅ 0 0 1288834974657 0 in
    let d :=
      if Type_ cfg =? TypeNumericRandom then
        if negb (UniqueCheck cfg) then
          set_config d (set_UniqueCheck (config d) true)
        else d
      else if Type_ cfg =? TypeNumericIncremental then
        let d := set_current d (Starting cfg) in
        let d := if Step (config d) =? 0
                 then set_config d (set_Step (config d) 1) else d in
        if bool_decide (IncrMode (config d) = "") then
          if Length cfg >? 0
          then set_config d (set_IncrMode (config d) IncrModeFixed)
          else set_config d (set_IncrMode (config d) IncrModeSequence)
        else d
      else if Type_ cfg =? TypeAlphanumericRandom then
        if bool_decide (Charset (config d) = "")
        then set_config d (set_Charset (config d) CharsetHex) else d
      else if Type_ cfg =? TypeSnowflake then
        if MachineID (config d) =? 0
        then set_config d (set_MachineID (config d) 1) else d
      else if Type_ cfg =? TypeUUID then
        if bool_decide (UUIDFormat (config d) = "")
        then set_config d (set_UUIDFormat (config d) UUIDFormatStandard)
        else d
      else d in
    (Ok d, w1)
  end.

(** *** Type 1: numeric random with the de-duplication map *)

(** The retry loop of [nextNumericRandom]; [retry] counts the attempts
    that are left. *)
Fixpoint draw_unique (retry : nat) (min max : Z) (d : t) : result string * t :=
  match retry with
  | O =>
    (Err (ErrNew "failed to generate unique number after 100 retries"), d)
  | S k =>
    let n := Int64.add (Int64.sub max min) 1 in
    if n <=? 0 then (Err (ErrPanic "invalid argument to Int63n"), d)
    else
      let '(r, g) := Int63n (rng d) n in
      let d := set_rng d g in
      let num := Int64.add min r in
      let numStr := Fmt.sprintf_0wd (Length (config d)) num in
      if negb (default false (used d !! numStr)) then
        (Ok numStr, count (set_used d (<[numStr := true]> (used d))))
      else draw_unique k min max d
  end.

(** The refusal test: [float64(usedCount)/float64(totalSpace) > 0.8]. *)
Definition over_threshold (usedCount totalSpace : Z) : bool :=
  Float64.gt (Float64.div (Float64.of_int64 usedCount)
                          (Float64.of_int64 totalSpace))
             Float64.c0_8.

Definition nextNumericRandom (d : t) : result string * t :=
  let min := pow10 (Int64.sub (Length (config d)) 1) in
  let max := Int64.sub (pow10 (Length (config d))) 1 in
  let totalSpace := Int64.add (Int64.sub max min) 1 in
  let usedCount := Z.of_nat (size (used d)) in
  if over_threshold usedCount totalSpace then (Err ErrNumberExhausted, d)
  else draw_unique 100 min max d.

(** *** Type 2: numeric monotonic *)

Definition nextIncrFixed (d : t) : result string * t :=
  let maxValue := Int64.sub (pow10 (Length (config d))) 1 in
  if current d >? maxValue then (Err ErrNumberExhausted, d)
  else
    let num := current d in
    let d := set_current d (Int64.add (current d) (Step (config d))) in
    let d := count d in
    (Ok (Fmt.sprintf_0wd (Length (config d)) num), d).

Definition nextIncrSequence (d : t) : result string * t :=
  let num := current d in
  let d := set_current d (Int64.add (current d) (Step (config d))) in
  let d := count d in
  (Ok (Fmt.sprintf_d num), d).

Definition nextNumericIncremental (d : t) : result string * t :=
  if bool_decide (IncrMode (config d) = IncrModeFixed) then nextIncrFixed d
  else nextIncrSequence d.

(** *** Type 3: alphanumeric random *)

Definition nextHex (d : t) (w : World) : result string * t * World :=
  let '(bytes, w1) :=
    rand_Read (Z.to_nat (Z.quot (Int64.add (Length (config d)) 1) 2)) w in
  let hexStr := Hex.EncodeToString bytes in
  let hexStr :=
    if Z.of_nat (String.length hexStr) >? Length (config d)
    then String.substring 0 (Z.to_nat (Length (config d))) hexStr
    else hexStr in
  (Ok hexStr, count d, w1).

Definition base62Chars : string :=
  "0123456789ABCDEFGHIJKLMNOPQRSTUVWXYZabcdefghijklmnopqrstuvwxyz".

Fixpoint base62_loop (i : nat) (g : Rng) : string * Rng :=
  match i with
  | O => ("", g)
  | S k =>
    let '(r, g1) := Int63n g 62 in
    let c := match String.get (Z.to_nat r) base62Chars with
             | Some c => c
             | None => "0"%char
             end in
    let '(rest, g2) := base62_loop k g1 in
    (String c rest, g2)
  end.

Definition nextBase62 (d : t) : result string * t :=
  let '(s, g) := base62_loop (Z.to_nat (Length (config d))) (rng d) in
  (Ok s, count (set_rng d g)).

Definition nextAlphanumericRandom (d : t) (w : World)
  : result string * t * World :=
  if bool_decide (Charset (config d) = CharsetBase62) then
    let '(r, d1) := nextBase62 d in (r, d1, w)
  else nextHex d w.

(** *** Type 4: snowflake *)

(** [for timestamp <= d.lastTimestamp { timestamp = now() }]; [None]
    when the clock has not passed [last] after [fuel] more readings. *)
Fixpoint spin (fuel : nat) (last timestamp : Z) (w : World)
  : option (Z * World) :=
  if timestamp <=? last then
    match fuel with
    | O => None
    | S k => let '(t1, w1) := now w in spin k last t1 w1
    end
  else Some (timestamp, w).

(** The identifier composed from the timestamp (already relative to
    the epoch), the two 5-bit ids and the sequence counter. *)
Definition snowflakeID (timestamp : Z) (cfg : Config) (seq : Z) : Z :=
  let datacenterID := Z.land (DatacenterID cfg) 31 in
  let machineID := Z.land (MachineID cfg) 31 in
  Z.lor (Z.lor (Z.lor (Int64.shl timestamp 22) (Int64.shl datacenterID 17))
               (Int64.shl machineID 12))
        seq.

Definition nextSnowflake (fuel : nat) (d : t) (w : World)
  : option (result string * t * World) :=
  let '(timestamp, w1) := now w in
  let step1 :=
    if timestamp =? lastTimestamp d then
      let sq := Z.land (Int64.add (seqCounter d) 1) 4095 in
      if sq =? 0 then
        match spin fuel (lastTimestamp d) timestamp w1 with
        | Some (t1, w2) => Some (sq, t1, w2)
        | None => None
        end
      else Some (sq, timestamp, w1)
    else Some (0, timestamp, w1) in
  match step1 with
  | None => None
  | Some (sq, timestamp, w2) =>
    let d := set_clockstate d sq timestamp in
    let timestamp := Int64.sub timestamp (snowflakeEpoch d) in
    let id := snowflakeID timestamp (config d) (seqCounter d) in
    Some (Ok (Fmt.sprintf_d id), count d, w2)
  end.

(** *** Type 5: UUID v4 *)

Definition nextUUID (d : t) (w : World) : result string * t * World :=
  let '(uuid, w1) := rand_Read 16 w in
  let uuid := alter (fun b => Z.lor (Z.land b 15) 64) 6%nat uuid in
  let uuid := alter (fun b => Z.lor (Z.land b 63) 128) 8%nat uuid in
  let d := count d in
  if bool_decide (UUIDFormat (config d) = UUIDFormatCompact) then
    (Ok (Hex.EncodeToString uuid), d, w1)
  else
    (Ok (Hex.EncodeToString (firstn 4 uuid) +:+ "-" +:+
         Hex.EncodeToString (firstn 2 (skipn 4 uuid)) +:+ "-" +:+
         Hex.EncodeToString (firstn 2 (skipn 6 uuid)) +:+ "-" +:+
         Hex.EncodeToString (firstn 2 (skipn 8 uuid)) +:+ "-" +:+
         Hex.EncodeToString (firstn 6 (skipn 10 uuid))), d, w1).

(** [Next]; [fuel] bounds the busy-wait of the snowflake kernel, the
    only place where the call may fail to return. *)
Definition Next (fuel : nat) (d : t) (w : World)
  : option (result string * t * World) :=
  if Type_ (config d) =? TypeNumericRandom then
    let '(r, d1) := nextNumericRandom d in Some (r, d1, w)
  else if Type_ (config d) =? TypeNumericIncremental then
    let '(r, d1) := nextNumericIncremental d in Some (r, d1, w)
  else if Type_ (config d) =? TypeAlphanumericRandom then
    Some (nextAlphanumericRandom d w)
  else if Type_ (config d) =? TypeSnowflake then
    nextSnowflake fuel d w
  else if Type_ (config d) =? TypeUUID then
    Some (nextUUID d w)
  else Some (Err ErrInvalidType, d, w).

Definition GetConfig (d : t) : Config := config d.
Definition GetCurrent (d : t) : Z := current d.
Definition SetCurrent (d : t) (current : Z) : t := set_current d current.
Definition Shutdown (d : t) : option error := None.

End Dispenser.

(** ** segment.go: segment pre-allocation (strategy pre-base)

    The persistence hook is a closure over something outside the
    dispenser; [W] is the type of that something, and a hook is a
    function [Z -> W -> option error * W].

    [Next] starts the goroutine [preloadNextSegment] with [go]; here
    [Next] reports that it did, and [preloadNextSegment] is a step of its
    own, which a schedule runs later. *)

Module SegmentDispenser.

Record t (W : Type) : Type := mk {
  config : Config;
  currentNumber : Z;
  segmentEnd : Z;
  segmentSize : Z;
  threshold : spec_float;
  nextSegmentStart : Z;
  nextSegmentEnd : Z;
  nextSegmentReady : bool;
  persistFunc : option (Z -> W -> option error * W)
}.
Arguments mk {W}.
Arguments config {W}.
Arguments currentNumber {W}.
Arguments segmentEnd {W}.
Arguments segmentSize {W}.
Arguments threshold {W}.
Arguments nextSegmentStart {W}.
Arguments nextSegmentEnd {W}.
Arguments nextSegmentReady {W}.
Arguments persistFunc {W}.

Section Methods.
Context {W : Type} (K : Kinds).

Definition set_segment (sd : t W) (cur e : Z) : t W :=
  mk (config sd) cur e (segmentSize sd) (threshold sd)
     (nextSegmentStart sd) (nextSegmentEnd sd) (nextSegmentReady sd)
     (persistFunc sd).
Definition set_next (sd : t W) (s e : Z) (ready : bool) : t W :=
  mk (config sd) (currentNumber sd) (segmentEnd sd) (segmentSize sd)
     (threshold sd) s e ready (persistFunc sd).

(** [allocateSegment]: the end of the new segment is persisted before
    the segment is installed. *)
Definition allocateSegment (sd : t W) (start : Z) (w : W)
  : option error * t W * W :=
  let end_ := Int64.add start (Int64.mul (segmentSize sd) (Step (config sd))) in
  let maxValue := Int64.sub (pow10_loop (Z.to_nat (Length (config sd))) 1) 1 in
  let fixed := Type_ (config sd) =? TypeIncrFixed K in
  if fixed && (start >=? maxValue) then (Some ErrNumberExhausted, sd, w)
  else
    let end_ := if fixed && (end_ >? maxValue)
                then Int64.add maxValue 1 else end_ in
    match persistFunc sd with
    | Some persist =>
      match persist end_ w with
      | (Some e, w1) => (Some e, sd, w1)
      | (None, w1) => (None, set_segment sd start end_, w1)
      end
    | None => (None, set_segment sd start end_, w)
    end.

Definition NewSegmentDispenser (cfg : Config) (segmentSize : Z)
           (threshold : spec_float)
           (persistFunc : option (Z -> W -> option error * W)) (w : W)
  : result (t W) * W :=
  match validateConfig cfg with
  | Some e => (Err e, w)
  | None =>
    let segmentSize := if segmentSize <=? 0 then 100 else segmentSize in
    let threshold :=
      if Float64.le threshold Float64.zero || Float64.ge threshold Float64.one
      then Float64.c0_2 else threshold in
    let sd := mk cfg 0 0 segmentSize threshold 0 0 false persistFunc in
    let sd := if Step (config sd) =? 0
              then mk (set_Step cfg 1) 0 0 segmentSize threshold 0 0 false
                      persistFunc
              else sd in
    let start := Starting cfg in
    match allocateSegment sd start w with
    | (Some e, _, w1) => (Err e, w1)
    | (None, sd1, w1) => (Ok sd1, w1)
    end
  end.

(** [nextRandom]: the lower end of the range, every time. *)
Definition nextRandom (sd : t W) : result string :=
  let min := pow10_loop (Z.to_nat (Length (config sd) - 1)) 1 in
  Ok (Fmt.sprintf_0wd (Length (config sd)) min).

(** The switch to the next segment at the head of [Next]. *)
Definition rollover (sd : t W) (w : W) : option error * t W * W :=
  if currentNumber sd >=? segmentEnd sd then
    if nextSegmentReady sd then
      (None,
       mk (config sd) (nextSegmentStart sd) (nextSegmentEnd sd)
          (segmentSize sd) (threshold sd) (nextSegmentStart sd)
          (nextSegmentEnd sd) false (persistFunc sd), w)
    else allocateSegment sd (segmentEnd sd) w
  else (None, sd, w).

(** [Next] for the incremental kinds up to the formatting: the number
    handed out, and whether the preload goroutine was started. *)
Definition take (sd : t W) (w : W) : result Z * bool * t W * W :=
  match rollover sd w with
  | (Some e, sd1, w1) => (Err e, false, sd1, w1)
  | (None, sd1, w1) =>
    let num := currentNumber sd1 in
    let sd2 := set_segment sd1 (Int64.add (currentNumber sd1)
                                          (Step (config sd1)))
                           (segmentEnd sd1) in
    let remaining :=
      Float64.div
        (Float64.of_int64 (Int64.sub (segmentEnd sd2) (currentNumber sd2)))
        (Float64.of_int64 (Int64.mul (segmentSize sd2) (Step (config sd2)))) in
    let spawn := Float64.le remaining (threshold sd2)
                 && negb (nextSegmentReady sd2) in
    (Ok num, spawn, sd2, w1)
  end.

Definition render (cfg : Config) (num : Z) : result string :=
  if Type_ cfg =? TypeIncrFixed K then Ok (Fmt.sprintf_0wd (Length cfg) num)
  else if Type_ cfg =? TypeIncrZero K then Ok (Fmt.sprintf_d num)
  else Err ErrInvalidType.

Definition Next (sd : t W) (w : W) : result string * bool * t W * W :=
  if Type_ (config sd) =? TypeRandomFixed K then (nextRandom sd, false, sd, w)
  else
    match take sd w with
    | (Ok num, spawn, sd1, w1) => (render (config sd1) num, spawn, sd1, w1)
    | (Err e, spawn, sd1, w1) => (Err e, spawn, sd1, w1)
    end.

Definition preloadNextSegment (sd : t W) (w : W) : t W * W :=
  if nextSegmentReady sd then (sd, w)
  else
    let start := segmentEnd sd in
    let end_ := Int64.add start (Int64.mul (segmentSize sd) (Step (config sd))) in
    match persistFunc sd with
    | Some persist =>
      match persist end_ w with
      | (Some _, w1) => (sd, w1)
      | (None, w1) => (set_next sd start end_ true, w1)
      end
    | None => (set_next sd start end_ true, w)
    end.

(** *** [Next] and [preloadNextSegment] in steps

    [Next] holds [mu] from its first line to its return, but takes
    [nextSegmentMu] only for its test of the prepared segment;
    [preloadNextSegment] holds [nextSegmentMu] alone and reads
    [segmentEnd] without [mu]. A preload goroutine can therefore run
    between the lines of a call that allocates its segment itself. The
    definitions below are the pieces of the two functions between which
    that can happen. *)

(** [allocateSegment] up to and including the hook: the end of the
    segment, or the error with which the call returns. *)
Definition persistSegment (sd : t W) (start : Z) (w : W) : result Z * W :=
  let end_ := Int64.add start (Int64.mul (segmentSize sd) (Step (config sd))) in
  let maxValue := Int64.sub (pow10_loop (Z.to_nat (Length (config sd))) 1) 1 in
  let fixed := Type_ (config sd) =? TypeIncrFixed K in
  if fixed && (start >=? maxValue) then (Err ErrNumberExhausted, w)
  else
    let end_ := if fixed && (end_ >? maxValue)
                then Int64.add maxValue 1 else end_ in
    match persistFunc sd with
    | Some persist =>
      match persist end_ w with
      | (Some e, w1) => (Err e, w1)
      | (None, w1) => (Ok end_, w1)
      end
    | None => (Ok end_, w)
    end.

(** [Next] from [num := sd.currentNumber] on: the number, whether the
    preload goroutine is started, the dispenser. *)
Definition issue (sd1 : t W) : Z * bool * t W :=
  let num := currentNumber sd1 in
  let sd2 := set_segment sd1 (Int64.add (currentNumber sd1)
                                        (Step (config sd1)))
                         (segmentEnd sd1) in
  let remaining :=
    Float64.div
      (Float64.of_int64 (Int64.sub (segmentEnd sd2) (currentNumber sd2)))
      (Float64.of_int64 (Int64.mul (segmentSize sd2) (Step (config sd2)))) in
  let spawn := Float64.le remaining (threshold sd2)
               && negb (nextSegmentReady sd2) in
  (num, spawn, sd2).

(** [preloadNextSegment] from the computation of [end] to the hook, for
    the [start] it has read: the end to publish, if the hook took it. *)
Definition persistNext (sd : t W) (start : Z) (w : W) : option Z * W :=
  let end_ := Int64.add start (Int64.mul (segmentSize sd) (Step (config sd))) in
  match persistFunc sd with
  | Some persist =>
    match persist end_ w with
    | (Some _, w1) => (None, w1)
    | (None, w1) => (Some end_, w1)
    end
  | None => (Some end_, w)
  end.

Definition GetConfig (sd : t W) : Config := config sd.
(** [GetCurrent] returns the end of the segment, not the number that
    comes next. *)
Definition GetCurrent (sd : t W) : Z := segmentEnd sd.
Definition SetCurrent (sd : t W) (current : Z) : t W :=
  set_segment sd current (segmentEnd sd).
Definition Shutdown (sd : t W) : option error := None.

End Methods.

End SegmentDispenser.

(** ** segment_optimized.go: segments with checkpoints and a graceful
    shutdown (strategies pre-checkpoint and pre_close) *)

Module OptimizedSegmentDispenser.

(** [checkpointTicker] records whether the ticker goroutine was started,
    [stopChan] whether the channel was closed. *)
Record t (W : Type) : Type := mk {
  config : Config;
  currentNumber : Z;
  segmentEnd : Z;
  segmentSize : Z;
  threshold : spec_float;
  nextSegmentStart : Z;
  nextSegmentEnd : Z;
  nextSegmentReady : bool;
  persistFunc : option (Z -> W -> option error * W);
  lastPersisted : Z;
  checkpointTicker : bool;
  stopChan : bool;
  totalGenerated : Z;
  totalWasted : Z
}.
Arguments mk {W}.
Arguments config {W}.
Arguments currentNumber {W}.
Arguments segmentEnd {W}.
Arguments segmentSize {W}.
Arguments threshold {W}.
Arguments nextSegmentStart {W}.
Arguments nextSegmentEnd {W}.
Arguments nextSegmentReady {W}.
Arguments persistFunc {W}.
Arguments lastPersisted {W}.
Arguments checkpointTicker {W}.
Arguments stopChan {W}.
Arguments totalGenerated {W}.
Arguments totalWasted {W}.

Section Methods.
Context {W : Type}.

Definition set_segment (osd : t W) (cur e lp : Z) : t W :=
  mk (config osd) cur e (segmentSize osd) (threshold osd)
     (nextSegmentStart osd) (nextSegmentEnd osd) (nextSegmentReady osd)
     (persistFunc osd) lp (checkpointTicker osd) (stopChan osd)
     (totalGenerated osd) (totalWasted osd).
Definition set_next (osd : t W) (s e : Z) (ready : bool) : t W :=
  mk (config osd) (currentNumber osd) (segmentEnd osd) (segmentSize osd)
     (threshold osd) s e ready (persistFunc osd) (lastPersisted osd)
     (checkpointTicker osd) (stopChan osd) (totalGenerated osd)
     (totalWasted osd).
Definition set_counters (osd : t W) (g wasted : Z) : t W :=
  mk (config osd) (currentNumber osd) (segmentEnd osd) (segmentSize osd)
     (threshold osd) (nextSegmentStart osd) (nextSegmentEnd osd)
     (nextSegmentReady osd) (persistFunc osd) (lastPersisted osd)
     (checkpointTicker osd) (stopChan osd) g wasted.
Definition set_lifecycle (osd : t W) (ticker stopped : bool) : t W :=
  mk (config osd) (currentNumber osd) (segmentEnd osd) (segmentSize osd)
     (threshold osd) (nextSegmentStart osd) (nextSegmentEnd osd)
     (nextSegmentReady osd) (persistFunc osd) (lastPersisted osd)
     ticker stopped (totalGenerated osd) (totalWasted osd).

Definition allocateSegment (osd : t W) (start : Z) (w : W)
  : option error * t W * W :=
  let end_ := Int64.add start (Int64.mul (segmentSize osd) (Step (config osd))) in
  let maxValue := Int64.sub (pow10 (Length (config osd))) 1 in
  let fixed := bool_decide (IncrMode (config osd) = IncrModeFixed) in
  if fixed && (start >=? maxValue) then (Some ErrNumberExhausted, osd, w)
  else
    let end_ := if fixed && (end_ >? maxValue)
                then Int64.add maxValue 1 else end_ in
    match persistFunc osd with
    | Some persist =>
      match persist end_ w with
      | (Some e, w1) => (Some e, osd, w1)
      | (None, w1) => (None, set_segment osd start end_ end_, w1)
      end
    | None => (None, set_segment osd start end_ end_, w)
    end.

(** [checkpointInterval] is a [time.Duration]; only its sign matters
    here. *)
Definition NewOptimizedSegmentDispenser (cfg : Config) (segmentSize : Z)
           (threshold : spec_float) (checkpointInterval : Z)
           (persistFunc : option (Z -> W -> option error * W)) (w : W)
  : result (t W) * W :=
  match validateConfig cfg with
  | Some e => (Err e, w)
  | None =>
    let segmentSize := if segmentSize <=? 0 then 100 else segmentSize in
    let threshold :=
      if Float64.le threshold Float64.zero || Float64.ge threshold Float64.one
      then Float64.c0_2 else threshold in
    let cfg1 := if Step cfg =? 0 then set_Step cfg 1 else cfg in
    let osd := mk cfg1 0 0 segmentSize threshold 0 0 false persistFunc
                  0 false false 0 0 in
    let start := Starting cfg in
    match allocateSegment osd start w with
    | (Some e, _, w1) => (Err e, w1)
    | (None, osd1, w1) =>
      if checkpointInterval >? 0
      then (Ok (set_lifecycle osd1 true (stopChan osd1)), w1)
      else (Ok osd1, w1)
    end
  end.

(** The switch to the next segment at the head of [Next]. *)
Definition rollover (osd : t W) (w : W) : option error * t W * W :=
  if currentNumber osd >=? segmentEnd osd then
    if nextSegmentReady osd then
      let wasted := Int64.sub (segmentEnd osd) (lastPersisted osd) in
      (None,
       mk (config osd) (nextSegmentStart osd) (nextSegmentEnd osd)
          (segmentSize osd) (threshold osd) (nextSegmentStart osd)
          (nextSegmentEnd osd) false (persistFunc osd) (lastPersisted osd)
          (checkpointTicker osd) (stopChan osd) (totalGenerated osd)
          (Int64.add (totalWasted osd) wasted), w)
    else allocateSegment osd (segmentEnd osd) w
  else (None, osd, w).

(** [Next] after the type test and up to the formatting: the number
    handed out, and whether the preload goroutine was started. *)
Definition take (osd : t W) (w : W) : result Z * bool * t W * W :=
  match rollover osd w with
  | (Some e, osd1, w1) => (Err e, false, osd1, w1)
  | (None, osd1, w1) =>
    let num := currentNumber osd1 in
    let osd2 := set_segment osd1 (Int64.add (currentNumber osd1)
                                            (Step (config osd1)))
                            (segmentEnd osd1) (lastPersisted osd1) in
    let osd2 := set_counters osd2 (Int64.add (totalGenerated osd2) 1)
                             (totalWasted osd2) in
    let remaining :=
      Float64.div
        (Float64.of_int64 (Int64.sub (segmentEnd osd2) (currentNumber osd2)))
        (Float64.of_int64 (Int64.mul (segmentSize osd2) (Step (config osd2)))) in
    let spawn := Float64.le remaining (threshold osd2)
                 && negb (nextSegmentReady osd2) in
    (Ok num, spawn, osd2, w1)
  end.

Definition render (cfg : Config) (num : Z) : string :=
  if bool_decide (IncrMode cfg = IncrModeFixed)
  then Fmt.sprintf_0wd (Length cfg) num
  else Fmt.sprintf_d num.

Definition Next (osd : t W) (w : W) : result string * bool * t W * W :=
  if negb (Type_ (config osd) =? TypeNumericIncremental) then
    (Err (ErrNew "segment allocation only supported for incremental type"),
     false, osd, w)
  else
    match take osd w with
    | (Ok num, spawn, osd1, w1) => (Ok (render (config osd1) num), spawn, osd1, w1)
    | (Err e, spawn, osd1, w1) => (Err e, spawn, osd1, w1)
    end.

Definition preloadNextSegment (osd : t W) (w : W) : t W * W :=
  if nextSegmentReady osd then (osd, w)
  else
    let start := segmentEnd osd in
    let end_ := Int64.add start (Int64.mul (segmentSize osd) (Step (config osd))) in
    match persistFunc osd with
    | Some persist =>
      match persist end_ w with
      | (Some _, w1) => (osd, w1)
      | (None, w1) => (set_next osd start end_ true, w1)
      end
    | None => (set_next osd start end_ true, w)
    end.

(** [checkpoint]: saves the position actually reached. *)
Definition checkpoint (osd : t W) (w : W) : option error * t W * W :=
  let current := currentNumber osd in
  match persistFunc osd with
  | Some persist =>
    if negb (current =? lastPersisted osd) then
      match persist current w with
      | (Some e, w1) => (Some e, osd, w1)
      | (None, w1) =>
        (None, set_segment osd (currentNumber osd) (segmentEnd osd) current, w1)
      end
    else (None, osd, w)
  | None => (None, osd, w)
  end.

(** *** [Next], [preloadNextSegment] and [checkpoint] in steps

    As in segment.go, [Next] holds [mu] throughout and
    [preloadNextSegment] only [nextSegmentMu]; [checkpoint] holds [mu]
    while it reads [currentNumber] and nothing afterwards. *)

(** [allocateSegment] up to and including the hook: the end of the
    segment, or the error with which the call returns. *)
Definition persistSegment (osd : t W) (start : Z) (w : W) : result Z * W :=
  let end_ := Int64.add start (Int64.mul (segmentSize osd) (Step (config osd))) in
  let maxValue := Int64.sub (pow10 (Length (config osd))) 1 in
  let fixed := bool_decide (IncrMode (config osd) = IncrModeFixed) in
  if fixed && (start >=? maxValue) then (Err ErrNumberExhausted, w)
  else
    let end_ := if fixed && (end_ >? maxValue)
                then Int64.add maxValue 1 else end_ in
    match persistFunc osd with
    | Some persist =>
      match persist end_ w with
      | (Some e, w1) => (Err e, w1)
      | (None, w1) => (Ok end_, w1)
      end
    | None => (Ok end_, w)
    end.

(** [Next] from [num := osd.currentNumber] on: the number, whether the
    preload goroutine is started, the dispenser. *)
Definition issue (osd1 : t W) : Z * bool * t W :=
  let num := currentNumber osd1 in
  let osd2 := set_segment osd1 (Int64.add (currentNumber osd1)
                                          (Step (config osd1)))
                          (segmentEnd osd1) (lastPersisted osd1) in
  let osd2 := set_counters osd2 (Int64.add (totalGenerated osd2) 1)
                           (totalWasted osd2) in
  let remaining :=
    Float64.div
      (Float64.of_int64 (Int64.sub (segmentEnd osd2) (currentNumber osd2)))
      (Float64.of_int64 (Int64.mul (segmentSize osd2) (Step (config osd2)))) in
  let spawn := Float64.le remaining (threshold osd2)
               && negb (nextSegmentReady osd2) in
  (num, spawn, osd2).

(** [preloadNextSegment] from the computation of [end] to the hook, for
    the [start] it has read: the end to publish, if the hook took it. *)
Definition persistNext (osd : t W) (start : Z) (w : W) : option Z * W :=
  let end_ := Int64.add start (Int64.mul (segmentSize osd) (Step (config osd))) in
  match persistFunc osd with
  | Some persist =>
    match persist end_ w with
    | (Some _, w1) => (None, w1)
    | (None, w1) => (Some end_, w1)
    end
  | None => (Some end_, w)
  end.

(** [checkpoint] from its test to the hook, for the [current] it has
    read: whether [lastPersisted] is then written. *)
Definition persistCheckpoint (osd : t W) (current : Z) (w : W) : bool * W :=
  match persistFunc osd with
  | Some persist =>
    if negb (current =? lastPersisted osd) then
      match persist current w with
      | (Some _, w1) => (false, w1)
      | (None, w1) => (true, w1)
      end
    else (false, w)
  | None => (false, w)
  end.

Definition GracefulShutdown (osd : t W) (w : W) : option error * t W * W :=
  if stopChan osd then (Some (ErrPanic "close of closed channel"), osd, w)
  else
    let osd := set_lifecycle osd (checkpointTicker osd) true in
    let current := currentNumber osd in
    let lastPersisted := lastPersisted osd in
    let account (o : t W) :=
      if lastPersisted >? current
      then set_counters o (totalGenerated o)
             (Int64.add (totalWasted o) (Int64.sub lastPersisted current))
      else o in
    match persistFunc osd with
    | Some persist =>
      match persist current w with
      | (Some e, w1) => (Some e, osd, w1)
      | (None, w1) => (None, account osd, w1)
      end
    | None => (None, account osd, w)
    end.

Definition GetConfig (osd : t W) : Config := config osd.
Definition GetCurrent (osd : t W) : Z := currentNumber osd.
Definition SetCurrent (osd : t W) (current : Z) : t W :=
  set_segment osd current (segmentEnd osd) (lastPersisted osd).
Definition Shutdown (osd : t W) (w : W) : option error * t W * W :=
  GracefulShutdown osd w.

End Methods.

End OptimizedSegmentDispenser.

(** ** interface.go and factory.go *)

(** The values behind the interface [NumberDispenser]. *)
Inductive NumberDispenser : Type :=
| Basic (d : Dispenser.t)
| Segment (sd : SegmentDispenser.t World)
| Optimized (osd : OptimizedSegmentDispenser.t World).

Module ND.

(** [d.Next()]; the goroutine a segment dispenser may start is not
    tracked at this level. *)
Definition Next (fuel : nat) (d : NumberDispenser) (w : World)
  : option (result string * NumberDispenser * World) :=
  match d with
  | Basic k =>
    match Dispenser.Next fuel k w with
    | Some (r, k1, w1) => Some (r, Basic k1, w1)
    | None => None
    end
  | Segment sd =>
    let '(r, _, sd1, w1) := SegmentDispenser.Next (kinds w) sd w in
    Some (r, Segment sd1, w1)
  | Optimized osd =>
    let '(r, _, osd1, w1) := OptimizedSegmentDispenser.Next osd w in
    Some (r, Optimized osd1, w1)
  end.

Definition GetConfig (d : NumberDispenser) : Config :=
  match d with
  | Basic k => Dispenser.GetConfig k
  | Segment sd => SegmentDispenser.GetConfig sd
  | Optimized osd => OptimizedSegmentDispenser.GetConfig osd
  end.

Definition GetCurrent (d : NumberDispenser) : Z :=
  match d with
  | Basic k => Dispenser.GetCurrent k
  | Segment sd => SegmentDispenser.GetCurrent sd
  | Optimized osd => OptimizedSegmentDispenser.GetCurrent osd
  end.

Definition SetCurrent (d : NumberDispenser) (current : Z) : NumberDispenser :=
  match d with
  | Basic k => Basic (Dispenser.SetCurrent k current)
  | Segment sd => Segment (SegmentDispenser.SetCurrent sd current)
  | Optimized osd => Optimized (OptimizedSegmentDispenser.SetCurrent osd current)
  end.

Definition Shutdown (d : NumberDispenser) (w : World)
  : option error * NumberDispenser * World :=
  match d with
  | Basic k => (Dispenser.Shutdown k, d, w)
  | Segment sd => (SegmentDispenser.Shutdown sd, d, w)
  | Optimized osd =>
    let '(e, osd1, w1) := OptimizedSegmentDispenser.Shutdown osd w in
    (e, Optimized osd1, w1)
  end.

End ND.

Record DispenserFactory : Type := mkFactory {
  factoryPersist : option (string -> Config -> Z -> World -> option error * World)
}.

Module Factory.

(** The closure every segment strategy builds around the factory's
    hook. *)
Definition hook (f : DispenserFactory) (name : string) (cfg : Config)
  : Z -> World -> option error * World :=
  fun val w =>
    match factoryPersist f with
    | Some p => p name cfg val w
    | None => (None, w)
    end.

Definition lift {A : Type} (inj : A -> NumberDispenser) (r : result A * World)
  : result NumberDispenser * World :=
  match r with
  | (Ok a, w) => (Ok (inj a), w)
  | (Err e, w) => (Err e, w)
  end.

Definition createMemoryDispenser (cfg : Config) (w : World) :=
  lift Basic (Dispenser.NewDispenser cfg w).

Definition createPreBaseDispenser (f : DispenserFactory) (name : string)
           (cfg : Config) (w : World) :=
  lift Segment
       (SegmentDispenser.NewSegmentDispenser (kinds w) cfg 1000 Float64.c0_1
          (Some (hook f name cfg)) w).

(** [2 * time.Second] in nanoseconds. *)
Definition createPreCheckpointDispenser (f : DispenserFactory) (name : string)
           (cfg : Config) (w : World) :=
  lift Optimized
       (OptimizedSegmentDispenser.NewOptimizedSegmentDispenser cfg 1000
          Float64.c0_1 2000000000 (Some (hook f name cfg)) w).

Definition createElegantCloseDispenser (cfg : Config) (w : World) :=
  lift Basic (Dispenser.NewDispenser cfg w).

Definition createPreCloseDispenser (f : DispenserFactory) (name : string)
           (cfg : Config) (w : World) :=
  lift Optimized
       (OptimizedSegmentDispenser.NewOptimizedSegmentDispenser cfg 1000
          Float64.c0_1 2000000000 (Some (hook f name cfg)) w).

Definition CreateDispenser (f : DispenserFactory) (name : string)
           (cfg : Config) (w : World) : result NumberDispenser * World :=
  let cfg := if bool_decide (AutoDisk cfg = "")
             then set_AutoDisk cfg StrategyElegantClose else cfg in
  if negb (ValidPersistenceStrategies (AutoDisk cfg)) then
    (Err (ErrNew ("invalid persistence strategy: " +:+ AutoDisk cfg)), w)
  else if bool_decide (AutoDisk cfg = StrategyMemory) then
    createMemoryDispenser cfg w
  else if bool_decide (AutoDisk cfg = StrategyPreBase) then
    createPreBaseDispenser f name cfg w
  else if bool_decide (AutoDisk cfg = StrategyPreCheckpoint) then
    createPreCheckpointDispenser f name cfg w
  else if bool_decide (AutoDisk cfg = StrategyElegantClose) then
    createElegantCloseDispenser cfg w
  else if bool_decide (AutoDisk cfg = StrategyPreClose) then
    createPreCloseDispenser f name cfg w
  else
    (Err (ErrNew ("unknown persistence strategy: " +:+ AutoDisk cfg)), w).

End Factory.

(** ** package server: the registry and the command handlers *)

(** [protocol.Value], as far as the handlers build it. [Panics] is not
    a value: the handler panics, no reply is written, and the process
    ends with the state as it was at that moment. *)
Inductive Value : Type :=
| SimpleString (s : string)
| ErrorReply (s : string)
| Integer (n : Z)
| BulkString (s : string)
| Panics (msg : string).

(** The server without its listener; its [storage] is the [fs] of the
    world. *)
Record Server : Type := mkServer {
  dispensers : gmap string NumberDispenser;
  factory : DispenserFactory
}.

Module Srv.

Definition set_dispensers (s : Server) (m : gmap string NumberDispenser) : Server :=
  mkServer m (factory s).

(** [strings.Join(xs, sep)] *)
Fixpoint Join (xs : list string) (sep : string) : string :=
  match xs with
  | [] => ""
  | [x] => x
  | x :: rest => x +:+ sep +:+ Join rest sep
  end.

(** The names [handleHSet] collects in [changedFields], in its order. *)
Definition changedFields (cfg existingCfg : Config) : list string :=
  (if negb (Length cfg =? 0) && negb (Length cfg =? Length existingCfg)
   then ["length"] else [])
  ++ (if negb (Starting cfg =? 0) && negb (Starting cfg =? Starting existingCfg)
      then ["starting"] else [])
  ++ (if negb (Step cfg =? 0) && negb (Step cfg =? Step existingCfg)
      then ["step"] else [])
  ++ (if negb (bool_decide (IncrMode cfg = ""))
         && negb (bool_decide (IncrMode cfg = IncrMode existingCfg))
      then ["incr_mode"] else [])
  ++ (if negb (bool_decide (Charset cfg = ""))
         && negb (bool_decide (Charset cfg = Charset existingCfg))
      then ["charset"] else [])
  ++ (if negb (bool_decide (UUIDFormat cfg = ""))
         && negb (bool_decide (UUIDFormat cfg = UUIDFormat existingCfg))
      then ["uuid_format"] else [])
  ++ (if negb (MachineID cfg =? 0) && negb (MachineID cfg =? MachineID existingCfg)
      then ["machine_id"] else [])
  ++ (if negb (DatacenterID cfg =? 0)
         && negb (DatacenterID cfg =? DatacenterID existingCfg)
      then ["datacenter_id"] else []).

Definition msg_type_changed (existing new : Z) : string :=
  "ERR cannot change dispenser type (existing: " +:+ Fmt.sprintf_d existing
  +:+ ", new: " +:+ Fmt.sprintf_d new
  +:+ "). Use DEL first if you want to recreate".

Definition msg_core_changed (fields : list string) : string :=
  "ERR cannot change core parameters (" +:+ Join fields ", "
  +:+ ") for existing dispenser. Only 'auto_disk' can be modified. Use DEL first if you want to recreate".

(** [handleHSet] from the point where the field/value pairs have been
    parsed: [cfg] and [hasType] are what the parsing loop leaves, and
    [pairs] is [len(fields)/2]. *)
Definition handleHSet (s : Server) (name : string) (cfg : Config)
           (hasType : bool) (pairs : Z) (w : World) : Value * Server * World :=
  if negb hasType then (ErrorReply "ERR type field is required", s, w)
  else
    let cfg := if bool_decide (AutoDisk cfg = "")
               then set_AutoDisk cfg StrategyElegantClose else cfg in
    match dispensers s !! name with
    | Some existingDispenser =>
      let existingCfg := ND.GetConfig existingDispenser in
      if negb (Type_ cfg =? Type_ existingCfg) then
        (ErrorReply (msg_type_changed (Type_ existingCfg) (Type_ cfg)), s, w)
      else
        match changedFields cfg existingCfg with
        | (_ :: _) as fields => (ErrorReply (msg_core_changed fields), s, w)
        | [] =>
          if negb (bool_decide (AutoDisk cfg = AutoDisk existingCfg)) then
            let currentValue := ND.GetCurrent existingDispenser in
            let newCfg := set_AutoDisk existingCfg (AutoDisk cfg) in
            match Factory.CreateDispenser (factory s) name newCfg w with
            | (Err e, w1) => (ErrorReply ("ERR " +:+ Error e), s, w1)
            | (Ok d, w1) =>
              let d := if Type_ newCfg =? TypeNumericIncremental
                       then ND.SetCurrent d currentValue else d in
              match ND.Shutdown existingDispenser w1 with
              | (Some (ErrPanic msg), old, w2) =>
                (Panics msg,
                 set_dispensers s (<[name := old]> (dispensers s)), w2)
              | (Some e, old, w2) =>
                (ErrorReply ("ERR failed to shutdown old dispenser: " +:+ Error e),
                 set_dispensers s (<[name := old]> (dispensers s)), w2)
              | (None, _, w2) =>
                let s1 := set_dispensers s (<[name := d]> (dispensers s)) in
                match Storage.Save name newCfg (ND.GetCurrent d) w2 with
                | (Some e, w3) =>
                  (ErrorReply ("ERR failed to save: " +:+ Error e), s1, w3)
                | (None, w3) => (Integer pairs, s1, w3)
                end
              end
            end
          else (Integer pairs, s, w)
        end
    | None =>
      match Factory.CreateDispenser (factory s) name cfg w with
      | (Err e, w1) => (ErrorReply ("ERR " +:+ Error e), s, w1)
      | (Ok d, w1) =>
        let s1 := set_dispensers s (<[name := d]> (dispensers s)) in
        match Storage.Save name cfg (ND.GetCurrent d) w1 with
        | (Some e, w2) => (ErrorReply ("ERR failed to save: " +:+ Error e), s1, w2)
        | (None, w2) => (Integer pairs, s1, w2)
        end
      end
    end.

(** [handleGet] for one argument. *)
Definition handleGet (fuel : nat) (s : Server) (name : string) (w : World)
  : option (Value * Server * World) :=
  match dispensers s !! name with
  | None => Some (ErrorReply "ERR dispenser not found", s, w)
  | Some d =>
    match ND.Next fuel d w with
    | None => None
    | Some (Err (ErrPanic msg), d1, w1) =>
      Some (Panics msg, set_dispensers s (<[name := d1]> (dispensers s)), w1)
    | Some (Err e, d1, w1) =>
      Some (ErrorReply ("ERR " +:+ Error e),
            set_dispensers s (<[name := d1]> (dispensers s)), w1)
    | Some (Ok number, d1, w1) =>
      let s1 := set_dispensers s (<[name := d1]> (dispensers s)) in
      let cfg := ND.GetConfig d1 in
      let w2 :=
        if bool_decide (AutoDisk cfg = StrategyElegantClose)
           && (Type_ cfg =? TypeNumericIncremental)
        then snd (Storage.Save name cfg (ND.GetCurrent d1) w1)
        else w1 in
      Some (BulkString number, s1, w2)
    end
  end.

(** [handleDel] for one argument. *)
Definition handleDel (s : Server) (name : string) (w : World)
  : Value * Server * World :=
  match dispensers s !! name with
  | None => (Integer 0, s, w)
  | Some _ =>
    let s1 := set_dispensers s (delete name (dispensers s)) in
    match Storage.Delete name w with
    | (Some e, w1) => (ErrorReply ("ERR failed to delete: " +:+ Error e), s1, w1)
    | (None, w1) => (Integer 1, s1, w1)
    end
  end.

(** One iteration of the loop of [loadDispensers]. *)
Definition loadOne (entry : string * DispenserData) (acc : Server * World)
  : Server * World :=
  let '(name, dat) := entry in
  let '(s, w) := acc in
  match Factory.CreateDispenser (factory s) name (dConfig dat) w with
  | (Err _, w1) => (s, w1)
  | (Ok d, w1) =>
    let d := ND.SetCurrent d (dCurrent dat) in
    (set_dispensers s (<[name := d]> (dispensers s)), w1)
  end.

Definition loadDispensers (s : Server) (w : World) : Server * World :=
  let all := Storage.ListAll w in
  foldr loadOne (s, w) (map_to_list all).

Definition persistOne (entry : string * NumberDispenser) (w : World) : World :=
  let '(name, d) := entry in
  snd (Storage.Save name (ND.GetConfig d) (ND.GetCurrent d) w).

Definition persistAll (s : Server) (w : World) : option error * World :=
  Storage.Flush (foldr persistOne w (map_to_list (dispensers s))).

(** [NewServer]: a storage with auto-save, a factory whose hook is the
    storage's [Save], and the dispensers of the snapshot. *)
Definition NewServer (w : World) : Server * World :=
  let w1 := Storage.NewFileStorage true w in
  let factory := mkFactory (Some Storage.Save) in
  loadDispensers (mkServer ∅ factory) w1.

End Srv.

(** ** Sample worlds for the concrete scenarios *)

Module Scenario.

(** The kinds of segment.go as the older dispenser.go declared them:
    every numeric-monotonic configuration is of the fixed-width kind. *)
Definition old_kinds : Kinds := mkKinds 1 2 3.

(** Kinds under which the segment tests of the package pass: a
    numeric-monotonic configuration is of the plain kind, and no type
    of the package is of the fixed-width kind. *)
Definition plain_kinds : Kinds := mkKinds 1 0 2.

(** A world whose clock advances by one millisecond per reading, whose
    random streams count 0, 1, 2, ..., whose disk writes all succeed
    ([ok = true]) or all fail, and whose snapshot file is [snapshot].
    The storage object saves through on every [Save] when
    [auto = false], as in the package's tests. The kinds of segment.go
    are the old ones. *)
Definition world (auto ok : bool) (snapshot : option (gmap string DispenserData))
  : World :=
  mkWorld old_kinds (fun n => 1700000000000 + Z.of_nat n) 0
          (fun n => Z.of_nat n) 0
          (fun _ n => Z.of_nat n) 0
          (fun _ => ok) 0
          snapshot
          (mkFS ∅ auto false).

(** The same world from the moment on at which the disk has taken [k]
    more writes and refuses every later one. *)
Definition disk_fails_after (k : nat) (w : World) : World :=
mkWorld (kinds w) (clock w) (ticks w) (entropy w) (epos w) (seeds w) (nseed w)
        (fun n => (n <? ios w + k)%nat) (ios w) (disk w) (fs w).

Definition server : Server := mkServer ∅ (mkFactory (Some Storage.Save)).

(** [n] GET commands in a row; the replies, first to last. *)
Fixpoint gets (n : nat) (name : string) (s : Server) (w : World)
  : list Value * Server * World :=
  match n with
  | O => ([], s, w)
  | S k =>
    match Srv.handleGet 1 s name w with
    | Some (v, s1, w1) =>
      let '(vs, s2, w2) := gets k name s1 w1 in (v :: vs, s2, w2)
    | None => ([], s, w)
    end
  end.

End Scenario.

(** * Properties *)

(** ** Arithmetic of the embedding *)

Lemma wrap64_id (z : Z) : Int64.in_range z -> Int64.wrap64 z = z.
Proof.
  unfold Int64.in_range, Int64.min_int, Int64.max_int, Int64.wrap64.
  intros H. rewrite Z.mod_small; lia.
Qed.

Lemma wrap64_range (z : Z) : Int64.in_range (Int64.wrap64 z).
Proof.
  unfold Int64.in_range, Int64.min_int, Int64.max_int, Int64.wrap64.
  pose proof (Z.mod_pos_bound (z + 2 ^ 63) (2 ^ 64) ltac:(lia)). lia.
Qed.

Lemma pow10_loop_small (n : nat) :
  (n <= 18)%nat -> pow10_loop n 1 = 10 ^ Z.of_nat n.
Proof.
  intros H.
  do 19 (destruct n as [|n]; [vm_compute; reflexivity|]).
  lia.
Qed.

Lemma pow10_small (L : Z) : 0 <= L <= 18 -> pow10 L = 10 ^ L.
Proof.
  intros H. unfold pow10.
  destruct (L <=? 0) eqn:E.
  - apply Z.leb_le in E. replace L with 0 by lia. reflexivity.
  - rewrite pow10_loop_small by lia. f_equal. lia.
Qed.

Lemma pow10_bounds (L : Z) : 0 <= L <= 18 -> 1 <= 10 ^ L <= 10 ^ 18.
Proof.
  intros H. split.
  - pose proof (Z.pow_pos_nonneg 10 L ltac:(lia) ltac:(lia)). lia.
  - apply Z.pow_le_mono_r; lia.
Qed.

Lemma maxValue_small (L : Z) :
  0 <= L <= 18 -> Int64.sub (pow10 L) 1 = 10 ^ L - 1.
Proof.
  intros H. rewrite pow10_small by lia.
  pose proof (pow10_bounds L H) as B.
  assert (10 ^ 18 < 2 ^ 62) by (vm_compute; reflexivity).
  unfold Int64.sub. apply wrap64_id.
  unfold Int64.in_range, Int64.min_int, Int64.max_int. lia.
Qed.

Ltac int64_simpl :=
  unfold Int64.add, Int64.sub, Int64.mul;
  repeat match goal with
         | |- context [Int64.wrap64 ?z] =>
           rewrite (wrap64_id z)
             by (unfold Int64.in_range, Int64.min_int, Int64.max_int; lia)
         end.

(** ** The fixed-width cap (C3) *)

(** The basic kernel on a fixed-width configuration: at or below the cap
    the call hands out the padded current value and advances by the
    step; above the cap it refuses and changes nothing. *)
Lemma nextIncrFixed_spec (d : Dispenser.t) :
  0 <= Length (Dispenser.config d) <= 18 ->
  (Dispenser.current d <= 10 ^ Length (Dispenser.config d) - 1 ->
   Dispenser.nextIncrFixed d =
     (Ok (Fmt.sprintf_0wd (Length (Dispenser.config d)) (Dispenser.current d)),
      Dispenser.count
        (Dispenser.set_current d
           (Int64.add (Dispenser.current d) (Step (Dispenser.config d))))))
  /\ (Dispenser.current d > 10 ^ Length (Dispenser.config d) - 1 ->
      Dispenser.nextIncrFixed d = (Err ErrNumberExhausted, d)).
Proof.
  intros HL. unfold Dispenser.nextIncrFixed.
  rewrite maxValue_small by exact HL.
  split; intros H.
  - destruct (Z.gtb_spec (Dispenser.current d)
                (10 ^ Length (Dispenser.config d) - 1)) as [G|G]; [lia|].
    reflexivity.
  - destruct (Z.gtb_spec (Dispenser.current d)
                (10 ^ Length (Dispenser.config d) - 1)) as [G|G]; [|lia].
    reflexivity.
Qed.

Lemma validate_fixed_at_cap (cfg : Config) :
  Type_ cfg = TypeNumericIncremental ->
  IncrMode cfg = IncrModeFixed ->
  1 <= Length cfg <= 18 ->
  Starting cfg = 10 ^ Length cfg - 1 ->
  0 <= Step cfg ->
  validateConfig cfg = None.
Proof.
  intros HT HM HL HS Hstep. unfold validateConfig.
  rewrite HT, HM. cbn [Z.ltb Z.gtb Z.eqb Z.compare TypeNumericIncremental
    TypeNumericRandom TypeUUID Pos.compare Pos.compare_cont orb].
  rewrite bool_decide_eq_true_2 by reflexivity.
  rewrite pow10_small by lia.
  pose proof (pow10_bounds (Length cfg) ltac:(lia)) as B.
  replace (Length cfg <=? 0) with false by (symmetry; apply Z.leb_gt; lia).
  replace (Length cfg >? 18) with false
    by (symmetry; rewrite Z.gtb_ltb; apply Z.ltb_ge; lia).
  replace (Starting cfg >=? 10 ^ Length cfg) with false
    by (symmetry; rewrite Z.geb_leb; apply Z.leb_gt; lia).
  replace (Starting cfg <? 0) with false by (symmetry; apply Z.ltb_ge; lia).
  replace (Step cfg <? 0) with false by (symmetry; apply Z.ltb_ge; lia).
  reflexivity.
Qed.

(** C3 (the claim fails on the segment allocator). A fixed-width
    dispenser of length [L] that starts at the cap [10^L - 1]: the basic
    kernel hands out the padded cap and refuses the next call, as the
    claim says; the segment allocator of pre-checkpoint and pre_close
    refuses to allocate the segment that starts at the cap (its test is
    [start >= maxValue] where the kernel has [current > maxValue]), so
    the dispenser is not even created and the cap is never handed out. *)
Theorem C3_segment_allocator_refuses_the_cap
        (cfg : Config) (segmentSize interval : Z) (thr : spec_float)
        (persist : option (Z -> World -> option error * World)) (w : World) :
  Type_ cfg = TypeNumericIncremental ->
  IncrMode cfg = IncrModeFixed ->
  1 <= Length cfg <= 18 ->
  Starting cfg = 10 ^ Length cfg - 1 ->
  1 <= Step cfg <= 2 ^ 62 ->
  (exists d, fst (Dispenser.NewDispenser cfg w) = Ok d
     /\ exists d1,
         Dispenser.nextNumericIncremental d =
           (Ok (Fmt.sprintf_0wd (Length cfg) (10 ^ Length cfg - 1)), d1)
         /\ Dispenser.nextNumericIncremental d1 = (Err ErrNumberExhausted, d1))
  /\ OptimizedSegmentDispenser.NewOptimizedSegmentDispenser
       cfg segmentSize thr interval persist w = (Err ErrNumberExhausted, w).
Proof.
  intros HT HM HL HS Hstep.
  pose proof (validate_fixed_at_cap cfg HT HM HL HS ltac:(lia)) as HV.
  pose proof (pow10_bounds (Length cfg) ltac:(lia)) as B.
  assert (B18 : 10 ^ 18 < 2 ^ 62) by (vm_compute; reflexivity).
  assert (Hnz : (Step cfg =? 0) = false) by (apply Z.eqb_neq; lia).
  split.
  - unfold Dispenser.NewDispenser. rewrite HV.
    destruct (new_Rng w) as [g w1]. rewrite HT.
    cbn [Z.eqb TypeNumericRandom TypeNumericIncremental Pos.eqb].
    cbv beta iota delta [Dispenser.set_current Dispenser.config Dispenser.current
         Dispenser.rng Dispenser.segmentStart Dispenser.segmentEnd Dispenser.used
         Dispenser.seqCounter Dispenser.lastTimestamp Dispenser.snowflakeEpoch
         Dispenser.totalGenerated].
    rewrite Hnz, HM.
    rewrite bool_decide_eq_false_2 by discriminate.
    eexists. split; [reflexivity|].
    set (d := Dispenser.mk _ _ _ _ _ _ _ _ _ _).
    assert (Hc : Dispenser.config d = cfg) by reflexivity.
    assert (Hcur : Dispenser.current d = 10 ^ Length cfg - 1)
      by (subst d; cbn; exact HS).
    unfold Dispenser.nextNumericIncremental.
    rewrite Hc, HM, bool_decide_eq_true_2 by reflexivity.
    destruct (nextIncrFixed_spec d) as [Hle _]; [rewrite Hc; lia|].
    rewrite Hc, Hcur in Hle. specialize (Hle ltac:(lia)).
    eexists. split; [exact Hle|].
    set (d1 := Dispenser.count _).
    assert (Hc1 : Dispenser.config d1 = cfg) by reflexivity.
    rewrite Hc1, HM, bool_decide_eq_true_2 by reflexivity.
    destruct (nextIncrFixed_spec d1) as [_ Hgt]; [rewrite Hc1; lia|].
    apply Hgt. rewrite Hc1.
    subst d1. cbn [Dispenser.count Dispenser.set_current Dispenser.current].
    unfold Int64.add. rewrite wrap64_id
      by (unfold Int64.in_range, Int64.min_int, Int64.max_int; lia).
    lia.
  - unfold OptimizedSegmentDispenser.NewOptimizedSegmentDispenser.
    rewrite HV, Hnz.
    unfold OptimizedSegmentDispenser.allocateSegment.
    cbn [OptimizedSegmentDispenser.config].
    rewrite HM, bool_decide_eq_true_2 by reflexivity.
    rewrite maxValue_small by lia.
    replace (Starting cfg >=? 10 ^ Length cfg - 1) with true
      by (symmetry; rewrite Z.geb_leb; apply Z.leb_le; lia).
    reflexivity.
Qed.

Definition C3_cfg : Config :=
  mkConfig TypeNumericIncremental 1 9 1 0 0 IncrModeFixed "" "" StrategyPreClose
           false 0.

Lemma C3_segment_allocator_refuses_the_cap_witness :
  (exists d, fst (Dispenser.NewDispenser C3_cfg (Scenario.world true true None)) = Ok d
     /\ exists d1,
         Dispenser.nextNumericIncremental d = (Ok "9", d1)
         /\ Dispenser.nextNumericIncremental d1 = (Err ErrNumberExhausted, d1))
  /\ OptimizedSegmentDispenser.NewOptimizedSegmentDispenser
       C3_cfg 1000 Float64.c0_1 2000000000 None (Scenario.world true true None)
     = (Err ErrNumberExhausted, Scenario.world true true None).
Proof.
  apply (C3_segment_allocator_refuses_the_cap C3_cfg 1000 2000000000
           Float64.c0_1 None (Scenario.world true true None));
    try reflexivity; cbn; lia.
Defined.

(** The same defect seen from the wire, with the factory's segment size
    of 1000: length 4, starting at 999, step 9. The segment [[999, 9999)]
    is handed out in full; the next number would be 9999, the cap itself,
    and the call is refused. *)
Example C3_cap_not_reached_after_rollover :
  let cfg := mkConfig TypeNumericIncremental 4 999 9 0 0 IncrModeFixed "" ""
                      StrategyPreClose false 0 in
  let '(created, s1, w1) :=
    Srv.handleHSet Scenario.server "f" cfg true 6 (Scenario.world true true None) in
  let '(replies, s2, _) := Scenario.gets 1001 "f" s1 w1 in
  created = Integer 6
  /\ skipn 999 replies = [BulkString "9990"; ErrorReply "ERR number range exhausted"]
  /\ ND.GetCurrent <$> (dispensers s2 !! "f") = Some 9999.
Proof. vm_compute. repeat split. Qed.

(** ** Restart from the snapshot (C1) *)

(** What [loadDispensers] does to a segment dispenser: [SetCurrent] puts
    the saved position [p] into [currentNumber] but leaves the segment
    that the constructor has just allocated from [Starting]. When [p] is
    at or beyond the end of that segment, the first [Next] takes it as
    "segment used up" and allocates the next segment from the old end,
    which overwrites [currentNumber]: the number handed out is the old
    end, whatever [p] was. *)
Lemma restored_position_is_discarded
      {W : Type} (osd : OptimizedSegmentDispenser.t W) (w : W) (p : Z) :
  OptimizedSegmentDispenser.nextSegmentReady osd = false ->
  IncrMode (OptimizedSegmentDispenser.config osd) <> IncrModeFixed ->
  OptimizedSegmentDispenser.segmentEnd osd <= p ->
  (forall persist v,
      OptimizedSegmentDispenser.persistFunc osd = Some persist ->
      fst (persist v w) = None) ->
  fst (fst (fst (OptimizedSegmentDispenser.take
                   (OptimizedSegmentDispenser.SetCurrent osd p) w)))
  = Ok (OptimizedSegmentDispenser.segmentEnd osd).
Proof.
  intros Hready Hmode Hle Hok.
  unfold OptimizedSegmentDispenser.take, OptimizedSegmentDispenser.rollover,
    OptimizedSegmentDispenser.SetCurrent, OptimizedSegmentDispenser.set_segment.
  cbn [OptimizedSegmentDispenser.currentNumber OptimizedSegmentDispenser.segmentEnd
       OptimizedSegmentDispenser.nextSegmentReady].
  rewrite Hready.
  replace (p >=? OptimizedSegmentDispenser.segmentEnd osd) with true
    by (symmetry; rewrite Z.geb_leb; apply Z.leb_le; exact Hle).
  unfold OptimizedSegmentDispenser.allocateSegment.
  cbn [OptimizedSegmentDispenser.config OptimizedSegmentDispenser.persistFunc
       OptimizedSegmentDispenser.segmentSize].
  rewrite bool_decide_eq_false_2 by exact Hmode.
  cbn [andb].
  destruct (OptimizedSegmentDispenser.persistFunc osd) as [persist|] eqn:Hp.
  - specialize (Hok persist
      (Int64.add (OptimizedSegmentDispenser.segmentEnd osd)
         (Int64.mul (OptimizedSegmentDispenser.segmentSize osd)
            (Step (OptimizedSegmentDispenser.config osd)))) eq_refl).
    destruct (persist _ w) as [[e|] w1]; [discriminate Hok|].
    reflexivity.
  - reflexivity.
Qed.

Definition C1_cfg : Config :=
  mkConfig TypeNumericIncremental 0 0 1 0 0 IncrModeSequence "" ""
           StrategyPreCheckpoint false 0.

(** The snapshot a previous run left: dispenser "c", saved position
    5000. *)
Definition C1_snapshot : gmap string DispenserData :=
  {[ "c" := mkData C1_cfg 5000 0 ]}.

(** C1 (the claim fails on the segment strategies). Startup from a
    snapshot with saved position 5000 for a pre-checkpoint dispenser that
    started at 0 with step 1: [loadDispensers] does set the live current
    to 5000, but the constructor has already written the end of a fresh
    first segment, 1000, over the saved position, and the first GET
    answers "1000", then "1001": values below the saved position. *)
Theorem C1_restart_hands_out_below_saved_position :
  let '(s, w) := Srv.NewServer (Scenario.world true true (Some C1_snapshot)) in
  ND.GetCurrent <$> (dispensers s !! "c") = Some 5000
  /\ dCurrent <$> (data (fs w) !! "c") = Some 1000
  /\ fst (fst (Scenario.gets 2 "c" s w)) = [BulkString "1000"; BulkString "1001"]
  /\ 1000 < 5000.
Proof. vm_compute. repeat split. Qed.

(** The basic kernel, which serves memory and elegant_close, keeps the
    restored position: it hands out the position itself. *)
Lemma restart_basic_kernel_sequence (d : Dispenser.t) (p : Z) :
  IncrMode (Dispenser.config d) <> IncrModeFixed ->
  fst (Dispenser.nextNumericIncremental (Dispenser.SetCurrent d p))
  = Ok (Fmt.sprintf_d p).
Proof.
  intros Hmode. unfold Dispenser.nextNumericIncremental.
  cbn [Dispenser.SetCurrent Dispenser.set_current Dispenser.config].
  unfold Dispenser.SetCurrent, Dispenser.set_current. cbn [Dispenser.config].
  rewrite bool_decide_eq_false_2 by exact Hmode. reflexivity.
Qed.

(** ** Numeric random: the refusal threshold (C4) *)

(** [n] calls of [Next] in a row on the basic kernel, with their results
    first to last; [None] if one of them does not return. *)
Fixpoint calls (fuel n : nat) (d : Dispenser.t) (w : World)
  : option (list (result string) * Dispenser.t * World) :=
  match n with
  | O => Some ([], d, w)
  | S k =>
    match Dispenser.Next fuel d w with
    | None => None
    | Some (r, d1, w1) =>
      match calls fuel k d1 w1 with
      | None => None
      | Some (rs, d2, w2) => Some (r :: rs, d2, w2)
      end
    end
  end.

Definition is_Ok {A : Type} (r : result A) : bool :=
  match r with Ok _ => true | Err _ => false end.

Lemma draw_unique_not_exhausted (retry : nat) (min max : Z) (d : Dispenser.t) :
  fst (Dispenser.draw_unique retry min max d) <> Err ErrNumberExhausted.
Proof.
  revert d. induction retry as [|k IH]; intros d; cbn [Dispenser.draw_unique].
  - discriminate.
  - destruct (_ <=? 0); [discriminate|].
    destruct (Int63n _ _) as [r g].
    destruct (negb _); [discriminate|]. apply IH.
Qed.

Lemma random_space (L : Z) :
  1 <= L <= 18 ->
  Int64.add (Int64.sub (Int64.sub (pow10 L) 1) (pow10 (Int64.sub L 1))) 1
  = 10 ^ L - 10 ^ (L - 1).
Proof.
  intros HL.
  rewrite maxValue_small by lia.
  replace (Int64.sub L 1) with (L - 1)
    by (unfold Int64.sub; rewrite wrap64_id;
        [reflexivity | unfold Int64.in_range, Int64.min_int, Int64.max_int; lia]).
  rewrite pow10_small by lia.
  pose proof (pow10_bounds L ltac:(lia)) as B1.
  pose proof (pow10_bounds (L - 1) ltac:(lia)) as B2.
  assert (10 ^ (L - 1) <= 10 ^ L) by (apply Z.pow_le_mono_r; lia).
  assert (10 ^ 18 < 2 ^ 62) by (vm_compute; reflexivity).
  int64_simpl. lia.
Qed.

Lemma over_threshold_90 (n : nat) :
  (n <= 90)%nat ->
  Dispenser.over_threshold (Z.of_nat n) 90 = (73 <=? Z.of_nat n).
Proof.
  intros Hn.
  assert (H : forallb (fun k => Bool.eqb (Dispenser.over_threshold (Z.of_nat k) 90)
                                         (73 <=? Z.of_nat k)) (seq 0 91) = true)
    by (vm_compute; reflexivity).
  rewrite forallb_forall in H.
  specialize (H n ltac:(apply in_seq; lia)).
  apply Bool.eqb_prop in H. exact H.
Qed.

(** C4, as the code has it. A numeric-random dispenser of length [L]
    refuses with exhausted exactly when the binary64 quotient of the
    number of issued strings by the space [10^L - 10^(L-1)] is greater
    than 0.8. For [L = 2] the space is 90 and 72/90 is not greater than
    0.8: a dispenser that has issued up to 72 strings is not refused, one
    that has issued 73 or more is. *)
Theorem C4_refusal_threshold (d : Dispenser.t) :
  1 <= Length (Dispenser.config d) <= 18 ->
  (fst (Dispenser.nextNumericRandom d) = Err ErrNumberExhausted
   <-> Dispenser.over_threshold
         (Z.of_nat (size (Dispenser.used d)))
         (10 ^ Length (Dispenser.config d) - 10 ^ (Length (Dispenser.config d) - 1))
       = true)
  /\ (Length (Dispenser.config d) = 2 ->
      (size (Dispenser.used d) <= 90)%nat ->
      (fst (Dispenser.nextNumericRandom d) = Err ErrNumberExhausted
       <-> (73 <= size (Dispenser.used d))%nat)).
Proof.
  intros HL.
  assert (Hiff :
    fst (Dispenser.nextNumericRandom d) = Err ErrNumberExhausted
    <-> Dispenser.over_threshold
          (Z.of_nat (size (Dispenser.used d)))
          (10 ^ Length (Dispenser.config d) - 10 ^ (Length (Dispenser.config d) - 1))
        = true).
  { unfold Dispenser.nextNumericRandom.
    rewrite random_space by exact HL.
    destruct (Dispenser.over_threshold _ _).
    - split; reflexivity.
    - split; [|discriminate].
      intros H. exfalso. exact (draw_unique_not_exhausted _ _ _ _ H). }
  split; [exact Hiff|].
  intros H2 Hsize. rewrite Hiff, H2.
  change (10 ^ 2 - 10 ^ (2 - 1)) with 90.
  rewrite over_threshold_90 by exact Hsize.
  rewrite Z.leb_le. lia.
Qed.

Definition C4_cfg : Config :=
  mkConfig TypeNumericRandom 2 0 0 0 0 "" "" "" StrategyMemory false 0.

(** The dispenser of scenario 4, freshly created ([type 1 length 2]). *)
Definition C4_fresh : Dispenser.t :=
  match Dispenser.NewDispenser C4_cfg (Scenario.world true true None) with
  | (Ok d, _) => d
  | (Err _, _) => Dispenser.mk C4_cfg 0 (mkRng (fun _ => 0) 0) 0 0 ∅ 0 0 0 0
  end.

Lemma C4_refusal_threshold_witness :
  fst (Dispenser.nextNumericRandom C4_fresh) = Err ErrNumberExhausted
  <-> (73 <= size (Dispenser.used C4_fresh))%nat.
Proof.
  apply (C4_refusal_threshold C4_fresh).
  - vm_compute. split; discriminate.
  - reflexivity.
  - vm_compute. lia.
Defined.

(** C4 as stated fails: on the dispenser of scenario 4, whose random
    stream happens to yield 0, 1, 2, ..., 72 calls succeed and the 73rd
    succeeds too (with "82"); the first refusal is the 74th call. *)
Lemma C4_counterexample :
  match calls 1 74 C4_fresh (Scenario.world true true None) with
  | Some (rs, _, _) =>
    forallb is_Ok (firstn 72 rs) = true
    /\ skipn 72 rs = [Ok "82"; Err ErrNumberExhausted]
  | None => False
  end.
Proof. vm_compute. split; reflexivity. Qed.

(** ** Numeric random: no string twice (C5) *)

(** The strings among the results of a run. *)
Fixpoint successes (rs : list (result string)) : list string :=
  match rs with
  | [] => []
  | Ok s :: rest => s :: successes rest
  | Err _ :: rest => successes rest
  end.

(** What one call does to the issued set: entries stay, and a string
    that is handed out was not in the set before and is in it after. *)
Definition issues_fresh (d : Dispenser.t) (r : result string) (d' : Dispenser.t)
  : Prop :=
  Dispenser.config d' = Dispenser.config d
  /\ (forall k, Dispenser.used d !! k = Some true ->
                Dispenser.used d' !! k = Some true)
  /\ match r with
     | Ok s => default false (Dispenser.used d !! s) = false
               /\ Dispenser.used d' !! s = Some true
     | Err _ => True
     end.

Lemma draw_unique_fresh (retry : nat) (min max : Z) (d : Dispenser.t) :
  issues_fresh d (fst (Dispenser.draw_unique retry min max d))
               (snd (Dispenser.draw_unique retry min max d)).
Proof.
  revert d. induction retry as [|k IH]; intros d; cbn [Dispenser.draw_unique].
  - repeat split; auto.
  - destruct (_ <=? 0); [repeat split; auto|].
    destruct (Int63n (Dispenser.rng d) _) as [r g].
    set (d1 := Dispenser.set_rng d g).
    set (numStr := Fmt.sprintf_0wd _ _).
    destruct (default false (Dispenser.used d1 !! numStr)) eqn:E; cbn [negb].
    + specialize (IH d1). destruct IH as (Hc & Hm & Hr).
      split; [exact Hc|]. split; [exact Hm|]. exact Hr.
    + cbn [fst snd]. split; [reflexivity|]. split.
      * intros key Hk. cbn.
        destruct (decide (numStr = key)) as [<-|Hne].
        -- apply lookup_insert_eq.
        -- rewrite lookup_insert_ne by exact Hne. exact Hk.
      * split; [exact E|]. cbn. apply lookup_insert_eq.
Qed.

Lemma Next_random_fresh (fuel : nat) (d : Dispenser.t) (w : World) :
  Type_ (Dispenser.config d) = TypeNumericRandom ->
  exists r d',
    Dispenser.Next fuel d w = Some (r, d', w) /\ issues_fresh d r d'.
Proof.
  intros HT. unfold Dispenser.Next. rewrite HT.
  cbn [Z.eqb TypeNumericRandom Pos.eqb].
  destruct (Dispenser.nextNumericRandom d) as [r d'] eqn:E.
  exists r, d'. split; [reflexivity|].
  unfold Dispenser.nextNumericRandom in E.
  destruct (Dispenser.over_threshold _ _).
  - injection E as <- <-. repeat split; auto.
  - pose proof (draw_unique_fresh 100
      (pow10 (Int64.sub (Length (Dispenser.config d)) 1))
      (Int64.sub (pow10 (Length (Dispenser.config d))) 1) d) as H.
    rewrite E in H. exact H.
Qed.

(** C5. Any number of [Next] calls on a numeric-random dispenser return
    (the kernel does not wait for anything), and the strings they hand
    out are pairwise distinct: each one was absent from the issued set
    when it was drawn and is recorded in the set from then on. *)
Theorem C5_random_results_are_distinct
        (fuel n : nat) (d : Dispenser.t) (w : World) :
  Type_ (Dispenser.config d) = TypeNumericRandom ->
  exists rs d',
    calls fuel n d w = Some (rs, d', w)
    /\ List.NoDup (successes rs)
    /\ (forall s, In s (successes rs) ->
                  default false (Dispenser.used d !! s) = false
                  /\ Dispenser.used d' !! s = Some true).
Proof.
  intros HT.
  enough (H : exists rs d',
             calls fuel n d w = Some (rs, d', w)
             /\ Dispenser.config d' = Dispenser.config d
             /\ (forall k, Dispenser.used d !! k = Some true ->
                           Dispenser.used d' !! k = Some true)
             /\ List.NoDup (successes rs)
             /\ (forall s, In s (successes rs) ->
                           default false (Dispenser.used d !! s) = false
                           /\ Dispenser.used d' !! s = Some true)).
  { destruct H as (rs & d' & H1 & _ & _ & H4 & H5). eauto. }
  revert d HT. induction n as [|k IH]; intros d HT; cbn [calls].
  - exists [], d. repeat split; auto; [constructor | contradiction | contradiction].
  - destruct (Next_random_fresh fuel d w HT) as (r & d1 & HN & Hc1 & Hm1 & Hr1).
    rewrite HN.
    destruct (IH d1 ltac:(rewrite Hc1; exact HT))
      as (rs & d2 & HC & Hc2 & Hm2 & Hnd & Hin).
    rewrite HC. exists (r :: rs), d2.
    split; [reflexivity|]. split; [congruence|].
    split; [auto|].
    assert (Hold : forall s, In s (successes rs) ->
                     default false (Dispenser.used d !! s) = false).
    { intros s Hs. destruct (Hin s Hs) as [Hf _].
      destruct (Dispenser.used d !! s) as [[|]|] eqn:E; auto.
      rewrite (Hm1 s E) in Hf. discriminate. }
    destruct r as [s0|e]; cbn [successes].
    + destruct Hr1 as [Hf0 Ht0]. split.
      * constructor; [|exact Hnd].
        intros Hs0. destruct (Hin s0 Hs0) as [Hf _].
        rewrite Ht0 in Hf. discriminate.
      * intros s [<-|Hs].
        -- split; [exact Hf0 | apply Hm2; exact Ht0].
        -- split; [apply Hold; exact Hs | apply Hin; exact Hs].
    + split; [exact Hnd|].
      intros s Hs. split; [apply Hold; exact Hs | apply Hin; exact Hs].
Qed.

Lemma C5_random_results_are_distinct_witness :
  exists rs d',
    calls 1 5 C4_fresh (Scenario.world true true None)
    = Some (rs, d', Scenario.world true true None)
    /\ List.NoDup (successes rs)
    /\ (forall s, In s (successes rs) ->
                  default false (Dispenser.used C4_fresh !! s) = false
                  /\ Dispenser.used d' !! s = Some true).
Proof.
  apply (C5_random_results_are_distinct 1 5 C4_fresh
           (Scenario.world true true None)).
  reflexivity.
Defined.

(** ** The immediate save of elegant_close (C6) *)

Lemma nextNumericIncremental_config (d d1 : Dispenser.t) (r : result string) :
  Dispenser.nextNumericIncremental d = (r, d1) ->
  Dispenser.config d1 = Dispenser.config d.
Proof.
  unfold Dispenser.nextNumericIncremental, Dispenser.nextIncrFixed,
    Dispenser.nextIncrSequence.
  destruct (bool_decide _); [destruct (_ >? _)|];
    intros H; injection H as _ <-; reflexivity.
Qed.

Lemma Save_records (name : string) (cfg : Config) (current : Z) (w : World) :
  dCurrent <$> (data (fs (snd (Storage.Save name cfg current w))) !! name)
  = Some current.
Proof.
  unfold Storage.Save, now, set_fs, Storage.saveToDisk. cbn.
  destruct (autoSave (fs w)); [|destruct (disk_ok w (ios w))]; cbn;
    rewrite lookup_insert_eq; reflexivity.
Qed.

(** C6, as the code has it. Under elegant_close every successful [Next]
    of a numeric-monotonic dispenser is followed by a [Save] of the new
    current, which the in-memory snapshot then holds; the result of that
    [Save] is dropped, and the reply is the identifier whether the save
    failed or not. *)
Theorem C6_immediate_save_error_is_dropped
        (fuel : nat) (s : Server) (name : string) (d d1 : Dispenser.t)
        (number : string) (w : World) :
  dispensers s !! name = Some (Basic d) ->
  Type_ (Dispenser.config d) = TypeNumericIncremental ->
  AutoDisk (Dispenser.config d) = StrategyElegantClose ->
  Dispenser.nextNumericIncremental d = (Ok number, d1) ->
  Srv.handleGet fuel s name w
  = Some (BulkString number,
          Srv.set_dispensers s (<[name := Basic d1]> (dispensers s)),
          snd (Storage.Save name (Dispenser.config d1) (Dispenser.current d1) w))
  /\ dCurrent <$> (data (fs (snd (Storage.Save name (Dispenser.config d1)
                                     (Dispenser.current d1) w))) !! name)
     = Some (Dispenser.current d1).
Proof.
  intros Hlook HT HA HN.
  pose proof (nextNumericIncremental_config d d1 _ HN) as Hc.
  split; [|apply Save_records].
  unfold Srv.handleGet. rewrite Hlook.
  cbn [ND.Next]. unfold Dispenser.Next. rewrite HT.
  cbn [Z.eqb TypeNumericRandom TypeNumericIncremental Pos.eqb].
  rewrite HN. cbn [ND.GetConfig ND.GetCurrent].
  unfold Dispenser.GetConfig, Dispenser.GetCurrent.
  rewrite Hc, HA, HT.
  rewrite bool_decide_eq_true_2 by reflexivity.
  reflexivity.
Qed.

Definition C6_cfg : Config :=
  mkConfig TypeNumericIncremental 8 10001000 0 0 0 IncrModeFixed "" ""
           StrategyElegantClose false 0.

(** The dispenser "b" of scenario 2 on a storage that writes through,
    right after its creation; from here on the disk refuses writes. *)
Definition C6_state : Server * World :=
  let '(_, s, w) :=
    Srv.handleHSet Scenario.server "b" C6_cfg true 5
                   (Scenario.world false true None) in
  (s, Scenario.disk_fails_after 0 w).

Definition C6_kernel : Dispenser.t :=
  match dispensers (fst C6_state) !! "b" with
  | Some (Basic d) => d
  | _ => Dispenser.mk C6_cfg 0 (mkRng (fun _ => 0) 0) 0 0 ∅ 0 0 0 0
  end.

Lemma C6_immediate_save_error_is_dropped_witness :
  Srv.handleGet 1 (fst C6_state) "b" (snd C6_state)
  = Some (BulkString "10001000",
          Srv.set_dispensers (fst C6_state)
            (<["b" := Basic (snd (Dispenser.nextNumericIncremental C6_kernel))]>
               (dispensers (fst C6_state))),
          snd (Storage.Save "b"
                 (Dispenser.config (snd (Dispenser.nextNumericIncremental C6_kernel)))
                 (Dispenser.current (snd (Dispenser.nextNumericIncremental C6_kernel)))
                 (snd C6_state)))
  /\ dCurrent <$>
       (data (fs (snd (Storage.Save "b"
                 (Dispenser.config (snd (Dispenser.nextNumericIncremental C6_kernel)))
                 (Dispenser.current (snd (Dispenser.nextNumericIncremental C6_kernel)))
                 (snd C6_state)))) !! "b")
     = Some (Dispenser.current (snd (Dispenser.nextNumericIncremental C6_kernel))).
Proof.
  apply (C6_immediate_save_error_is_dropped 1 (fst C6_state) "b" C6_kernel
           (snd (Dispenser.nextNumericIncremental C6_kernel))
           "10001000" (snd C6_state)).
  - vm_compute. reflexivity.
  - reflexivity.
  - reflexivity.
  - vm_compute. reflexivity.
Defined.

(** C6 as stated fails: the save that follows the first GET returns an
    error (the disk refuses the write and the file still holds
    10001000), and the GET is answered with the identifier all the
    same. *)
Lemma C6_counterexample :
  match Srv.handleGet 1 (fst C6_state) "b" (snd C6_state) with
  | Some (reply, s1, w1) =>
    reply = BulkString "10001000"
    /\ fst (Storage.Save "b" (Dispenser.config C6_kernel) 10001001 (snd C6_state))
       = Some ErrIO
    /\ ND.GetCurrent <$> (dispensers s1 !! "b") = Some 10001001
    /\ dCurrent <$> (disk w1 ≫= (.!! "b")) = Some 10001000
  | None => False
  end.
Proof. vm_compute. repeat split. Qed.

(** ** Reconfiguration of an existing dispenser (C7, C8) *)

(** The request names field [f] with a value that differs from the
    stored one; a zero integer and an empty string count as absent. *)
Definition field_differs (f : string) (cfg ex : Config) : Prop :=
  (f = "length" /\ Length cfg <> 0 /\ Length cfg <> Length ex)
  \/ (f = "starting" /\ Starting cfg <> 0 /\ Starting cfg <> Starting ex)
  \/ (f = "step" /\ Step cfg <> 0 /\ Step cfg <> Step ex)
  \/ (f = "incr_mode" /\ IncrMode cfg <> "" /\ IncrMode cfg <> IncrMode ex)
  \/ (f = "charset" /\ Charset cfg <> "" /\ Charset cfg <> Charset ex)
  \/ (f = "uuid_format" /\ UUIDFormat cfg <> "" /\ UUIDFormat cfg <> UUIDFormat ex)
  \/ (f = "machine_id" /\ MachineID cfg <> 0 /\ MachineID cfg <> MachineID ex)
  \/ (f = "datacenter_id" /\ DatacenterID cfg <> 0
      /\ DatacenterID cfg <> DatacenterID ex).

(** The configuration a request stands for once the default strategy is
    filled in. *)
Definition with_default_strategy (cfg : Config) : Config :=
  if bool_decide (AutoDisk cfg = "")
  then set_AutoDisk cfg StrategyElegantClose else cfg.


Lemma In_single_if (b : bool) (x f : string) :
  In f (if b then [x] else []) <-> f = x /\ b = true.
Proof.
  destruct b; cbn; split.
  - intros [H|[]]; auto.
  - intros [-> _]; auto.
  - intros [].
  - intros [_ H]; discriminate.
Qed.

Lemma Z_ne_both (a b : Z) :
  negb (a =? 0) && negb (a =? b) = true <-> a <> 0 /\ a <> b.
Proof.
  rewrite andb_true_iff, !negb_true_iff, !Z.eqb_neq. reflexivity.
Qed.

Lemma string_ne_both (a b : string) :
  negb (bool_decide (a = "")) && negb (bool_decide (a = b)) = true
  <-> a <> "" /\ a <> b.
Proof.
  rewrite andb_true_iff, !negb_true_iff, !bool_decide_eq_false. reflexivity.
Qed.

Lemma changedFields_spec (cfg ex : Config) (f : string) :
  In f (Srv.changedFields cfg ex) <-> field_differs f cfg ex.
Proof.
  unfold Srv.changedFields, field_differs.
  rewrite !in_app_iff, !In_single_if, !Z_ne_both, !string_ne_both.
  reflexivity.
Qed.

Lemma changedFields_default (cfg ex : Config) :
  Srv.changedFields (with_default_strategy cfg) ex = Srv.changedFields cfg ex.
Proof.
  unfold with_default_strategy. destruct (bool_decide _); reflexivity.
Qed.

Lemma Type_default (cfg : Config) :
  Type_ (with_default_strategy cfg) = Type_ cfg.
Proof.
  unfold with_default_strategy. destruct (bool_decide _); reflexivity.
Qed.

(** The core fields in the order in which a request is checked, and a
    list of names as an error message enumerates it: the names in their
    order, a comma and a space between two of them. *)
Definition core_fields : list string :=
  ["length"; "starting"; "step"; "incr_mode"; "charset"; "uuid_format";
   "machine_id"; "datacenter_id"].

Fixpoint enumerated (names : list string) : string :=
  match names with
  | [] => ""
  | [x] => x
  | x :: rest => x +:+ ", " +:+ enumerated rest
  end.

(** A name that occurs in a message. *)
Definition occurs_in (name msg : string) : Prop :=
  exists before after, msg = before +:+ name +:+ after.

Lemma Join_enumerated (names : list string) :
  Srv.Join names ", " = enumerated names.
Proof.
  induction names as [|x [|y rest] IH]; [reflexivity | reflexivity |].
  cbn [Srv.Join enumerated] in *. rewrite IH. reflexivity.
Qed.

Lemma string_app_assoc (a b c : string) : (a +:+ b) +:+ c = a +:+ (b +:+ c).
Proof.
  induction a as [|x a IH]; [reflexivity|].
  change ((String x a +:+ b) +:+ c) with (String x ((a +:+ b) +:+ c)).
  rewrite IH. reflexivity.
Qed.

Lemma string_app_nil_r (a : string) : a +:+ "" = a.
Proof.
  induction a as [|x a IH]; [reflexivity|].
  change (String x a +:+ "") with (String x (a +:+ "")).
  rewrite IH. reflexivity.
Qed.

Lemma enumerated_occurs (names : list string) (f : string) :
  In f names -> occurs_in f (enumerated names).
Proof.
  induction names as [|x [|y rest] IH]; intros Hin.
  - destruct Hin.
  - destruct Hin as [->|[]]. exists "", "".
    rewrite string_app_nil_r. reflexivity.
  - destruct Hin as [->|Hin].
    + exists "", (", " +:+ enumerated (y :: rest)). reflexivity.
    + destruct (IH Hin) as (before & after & E).
      exists (x +:+ ", " +:+ before), after.
      change (enumerated (x :: y :: rest))
        with (x +:+ ", " +:+ enumerated (y :: rest)).
      rewrite E, !string_app_assoc. reflexivity.
Qed.

Lemma occurs_in_context (name msg before after : string) :
  occurs_in name msg -> occurs_in name (before +:+ msg +:+ after).
Proof.
  intros (b & a & ->). exists (before +:+ b), (a +:+ after).
  rewrite !string_app_assoc. reflexivity.
Qed.

Lemma changedFields_sublist (cfg ex : Config) :
  sublist (Srv.changedFields cfg ex) core_fields.
Proof.
  unfold Srv.changedFields, core_fields.
  repeat match goal with
         | |- context [if ?b then _ else _] => destruct b
         end;
    cbn [app];
    repeat first [ apply sublist_nil_l | apply sublist_skip
                 | apply sublist_cons ].
Qed.

(** C8. On an existing dispenser, a request whose type differs from the
    stored one, or that names a core field with a different value, is
    answered with an error and changes neither the registry nor the
    world. The error names what was rejected. When the type differs it
    is the type error, which names the type and gives the stored and the
    requested one. Otherwise
    it is the core-parameter error, which enumerates exactly the fields
    that differ, each by its name, in the order of [core_fields]. *)
Theorem C8_core_fields_are_immutable
        (s : Server) (name : string) (cfg : Config) (pairs : Z) (w : World)
        (existing : NumberDispenser) :
  dispensers s !! name = Some existing ->
  Type_ cfg <> Type_ (ND.GetConfig existing)
  \/ (exists f, field_differs f cfg (ND.GetConfig existing)) ->
  exists msg,
    Srv.handleHSet s name cfg true pairs w = (ErrorReply msg, s, w)
    /\ ((Type_ cfg <> Type_ (ND.GetConfig existing)
         /\ msg = "ERR cannot change dispenser type (existing: "
                  +:+ Fmt.sprintf_d (Type_ (ND.GetConfig existing))
                  +:+ ", new: " +:+ Fmt.sprintf_d (Type_ cfg)
                  +:+ "). Use DEL first if you want to recreate"
         /\ occurs_in "type" msg)
        \/ (Type_ cfg = Type_ (ND.GetConfig existing)
            /\ exists fields,
                (forall f, In f fields
                           <-> field_differs f cfg (ND.GetConfig existing))
                /\ sublist fields core_fields
                /\ msg = "ERR cannot change core parameters ("
                         +:+ enumerated fields
                         +:+ ") for existing dispenser. Only 'auto_disk' can be modified. Use DEL first if you want to recreate"
                /\ forall f, field_differs f cfg (ND.GetConfig existing) ->
                             occurs_in f msg)).
Proof.
  intros Hlook Hrej.
  unfold Srv.handleHSet. cbn [negb].
  fold (with_default_strategy cfg). rewrite Hlook.
  rewrite Type_default, changedFields_default.
  destruct (Z.eqb_spec (Type_ cfg) (Type_ (ND.GetConfig existing))) as [E|E];
    cbn [negb].
  - destruct Hrej as [Hne|[f Hf]]; [contradiction|].
    apply changedFields_spec in Hf.
    pose proof (changedFields_sublist cfg (ND.GetConfig existing)) as Hsub.
    destruct (Srv.changedFields cfg (ND.GetConfig existing)) as [|x rest] eqn:EC;
      [contradiction|].
    eexists. split; [reflexivity|]. right. split; [exact E|].
    exists (x :: rest).
    split; [intros g; rewrite <- EC; apply changedFields_spec|].
    split; [exact Hsub|].
    unfold Srv.msg_core_changed. rewrite Join_enumerated.
    split; [reflexivity|].
    intros g Hg. apply occurs_in_context. apply enumerated_occurs.
    rewrite <- EC. apply changedFields_spec. exact Hg.
  - eexists. split; [reflexivity|]. left. split; [exact E|].
    split; [reflexivity|].
    exists "ERR cannot change dispenser ",
           (" (existing: " +:+ Fmt.sprintf_d (Type_ (ND.GetConfig existing))
            +:+ ", new: " +:+ Fmt.sprintf_d (Type_ cfg)
            +:+ "). Use DEL first if you want to recreate").
    reflexivity.
Qed.

Definition C8_cfg : Config :=
  mkConfig TypeNumericIncremental 0 100 0 0 0 IncrModeSequence "" ""
           StrategyMemory false 0.

(** Scenario 7 after [hset g type 2 incr_mode sequence starting 100
    auto_disk memory] and five GETs, on a storage that writes through. *)
Definition C8_state : Server * World :=
  let '(_, s, w) :=
    Srv.handleHSet Scenario.server "g" C8_cfg true 4
                   (Scenario.world false true None) in
  let '(_, s1, w1) := Scenario.gets 5 "g" s w in
  (s1, w1).

Definition C8_existing : NumberDispenser :=
  match dispensers (fst C8_state) !! "g" with
  | Some d => d
  | None => Basic (Dispenser.mk C8_cfg 0 (mkRng (fun _ => 0) 0) 0 0 ∅ 0 0 0 0)
  end.

(** [hset g type 2 starting 200 step 2] *)
Definition C8_request : Config :=
  mkConfig TypeNumericIncremental 0 200 2 0 0 "" "" "" "" false 0.

Lemma C8_core_fields_are_immutable_witness :
  exists msg,
    Srv.handleHSet (fst C8_state) "g" C8_request true 3 (snd C8_state)
    = (ErrorReply msg, fst C8_state, snd C8_state)
    /\ ((Type_ C8_request <> Type_ (ND.GetConfig C8_existing)
         /\ msg = "ERR cannot change dispenser type (existing: "
                  +:+ Fmt.sprintf_d (Type_ (ND.GetConfig C8_existing))
                  +:+ ", new: " +:+ Fmt.sprintf_d (Type_ C8_request)
                  +:+ "). Use DEL first if you want to recreate"
         /\ occurs_in "type" msg)
        \/ (Type_ C8_request = Type_ (ND.GetConfig C8_existing)
            /\ exists fields,
                (forall f, In f fields
                           <-> field_differs f C8_request
                                             (ND.GetConfig C8_existing))
                /\ sublist fields core_fields
                /\ msg = "ERR cannot change core parameters ("
                         +:+ enumerated fields
                         +:+ ") for existing dispenser. Only 'auto_disk' can be modified. Use DEL first if you want to recreate"
                /\ forall f, field_differs f C8_request
                                           (ND.GetConfig C8_existing) ->
                             occurs_in f msg)).
Proof.
  apply (C8_core_fields_are_immutable (fst C8_state) "g" C8_request 3
           (snd C8_state) C8_existing).
  - vm_compute. reflexivity.
  - right. exists "starting". unfold field_differs. right. left.
    split; [reflexivity|]. vm_compute. split; discriminate.
Defined.

(** [hset g type 1 length 7] *)
Definition C8_type_request : Config :=
  mkConfig TypeNumericRandom 7 0 0 0 0 "" "" "" "" false 0.

(** Scenario 7 from end to end: five numbers from 100, the rejected
    [hset g type 1 length 7], and the next GET answers "105". *)
Example C8_scenario_7 :
  let '(created, s, w) :=
    Srv.handleHSet Scenario.server "g" C8_cfg true 4
                   (Scenario.world false true None) in
  let '(issued, s1, w1) := Scenario.gets 5 "g" s w in
  let '(rejected, s2, w2) := Srv.handleHSet s1 "g" C8_type_request true 2 w1 in
  created = Integer 4
  /\ issued = [BulkString "100"; BulkString "101"; BulkString "102";
               BulkString "103"; BulkString "104"]
  /\ rejected = ErrorReply
       "ERR cannot change dispenser type (existing: 2, new: 1). Use DEL first if you want to recreate"
  /\ fst (fst (Scenario.gets 1 "g" s2 w2)) = [BulkString "105"].
Proof. vm_compute. repeat split. Qed.

(** A request that keeps the type and changes two core fields is
    answered with both names. *)
Example C8_two_fields_named :
  fst (fst (Srv.handleHSet (fst C8_state) "g"
              (mkConfig TypeNumericIncremental 0 200 2 0 0 "" "" "" "" false 0)
              true 3 (snd C8_state)))
  = ErrorReply
      "ERR cannot change core parameters (starting, step) for existing dispenser. Only 'auto_disk' can be modified. Use DEL first if you want to recreate".
Proof. vm_compute. reflexivity. Qed.


Lemma SD_allocateSegment_config {W : Type} (K : Kinds)
      (sd sd1 : SegmentDispenser.t W)
      (start : Z) (w w1 : W) (e : option error) :
  SegmentDispenser.allocateSegment K sd start w = (e, sd1, w1) ->
  SegmentDispenser.config sd1 = SegmentDispenser.config sd.
Proof.
  unfold SegmentDispenser.allocateSegment.
  destruct (_ && _); [intros H; injection H as _ <- _; reflexivity|].
  destruct (SegmentDispenser.persistFunc sd) as [p|].
  - destruct (p _ w) as [[e1|] w2]; intros H; injection H as _ <- _; reflexivity.
  - intros H; injection H as _ <- _; reflexivity.
Qed.







Lemma CreateDispenser_basic (f : DispenserFactory) (name : string)
      (cfg : Config) (w : World) :
  AutoDisk (with_default_strategy cfg) = StrategyMemory
  \/ AutoDisk (with_default_strategy cfg) = StrategyElegantClose ->
  Factory.CreateDispenser f name cfg w
  = Factory.lift Basic (Dispenser.NewDispenser (with_default_strategy cfg) w).
Proof.
  unfold Factory.CreateDispenser. fold (with_default_strategy cfg).
  cbv zeta. intros [H|H]; rewrite H; reflexivity.
Qed.








(** [hset g type 2 incr_mode sequence auto_disk elegant_close] *)
Definition C7_request : Config :=
  mkConfig TypeNumericIncremental 0 0 0 0 0 IncrModeSequence "" ""
           StrategyElegantClose false 0.



(** The test of the package: after five numbers from 100 under memory,
    the switch to elegant_close is accepted, repeating it is accepted
    and changes nothing, and the next number is "105". *)
Example C7_switch_then_repeat :
  let '(switched, s1, w1) :=
    Srv.handleHSet (fst C8_state) "g" C7_request true 3 (snd C8_state) in
  let '(repeated, s2, w2) := Srv.handleHSet s1 "g" C7_request true 3 w1 in
  switched = Integer 3
  /\ repeated = Integer 3
  /\ ND.GetCurrent <$> (dispensers s2 !! "g") = Some 105
  /\ AutoDisk <$> (ND.GetConfig <$> (dispensers s2 !! "g"))
     = Some StrategyElegantClose
  /\ fst (fst (Scenario.gets 1 "g" s2 w2)) = [BulkString "105"].
Proof. vm_compute. repeat split. Qed.

(** A switch to a segment strategy is another matter. The replacement
    is given the position, but its first segment is the one the
    constructor allocated from the starting value, and its first call
    starts the segment after that: a dispenser that stood at 1600 goes
    on from 1100. *)
Definition C7_far_server : Server :=
  mkServer (<["g" := Basic (Dispenser.mk C8_cfg 1600 (mkRng (fun _ => 0) 0)
                                         0 0 ∅ 0 0 1288834974657 1500)]> ∅)
           (mkFactory (Some Storage.Save)).

(** [hset g type 2 incr_mode sequence auto_disk pre-checkpoint] *)
Definition C7_segment_request : Config :=
  mkConfig TypeNumericIncremental 0 0 0 0 0 IncrModeSequence "" ""
           StrategyPreCheckpoint false 0.

Example C7_switch_to_a_segment_strategy :
  let r := Srv.handleHSet C7_far_server "g" C7_segment_request true 3
                          (Scenario.world true true None) in
  fst (fst r) = Integer 3
  /\ fst (fst (Scenario.gets 2 "g" (snd (fst r)) (snd r)))
     = [BulkString "1100"; BulkString "1101"].
Proof. vm_compute. split; reflexivity. Qed.


(** ** Snowflake: the configured ids (C9) *)

(** The 5-bit fields of an identifier. *)
Definition machine_field (id : Z) : Z := Z.land (Z.shiftr id 12) 31.
Definition datacenter_field (id : Z) : Z := Z.land (Z.shiftr id 17) 31.

Lemma testbit_wrap64 (z i : Z) :
  0 <= i < 64 -> Z.testbit (Int64.wrap64 z) i = Z.testbit z i.
Proof.
  intros Hi.
  rewrite <- (Z.mod_pow2_bits_low (Int64.wrap64 z) 64 i) by lia.
  rewrite <- (Z.mod_pow2_bits_low z 64 i) by lia.
  f_equal. unfold Int64.wrap64.
  rewrite Zminus_mod_idemp_l. f_equal. lia.
Qed.

Lemma testbit_small (a k m : Z) :
  0 <= a < 2 ^ k -> 0 <= k <= m -> Z.testbit a m = false.
Proof.
  intros Ha Hk.
  destruct (Z.eq_dec a 0) as [->|Hne]; [apply Z.bits_0|].
  apply Z.bits_above_log2; [lia|].
  assert (Z.log2 a < k) by (apply Z.log2_lt_pow2; lia). lia.
Qed.

Lemma testbit_31 (n : Z) : 0 <= n -> Z.testbit 31 n = (n <? 5).
Proof.
  intros Hn. destruct (Z.ltb_spec n 5).
  - assert (n = 0 \/ n = 1 \/ n = 2 \/ n = 3 \/ n = 4) as H' by lia.
    destruct H' as [->|[->|[->|[->| ->]]]]; reflexivity.
  - apply (testbit_small 31 5 n); lia.
Qed.

Lemma snowflakeID_fields (timestamp : Z) (cfg : Config) (seq : Z) :
  0 <= seq < 4096 ->
  0 <= MachineID cfg <= 31 ->
  0 <= DatacenterID cfg <= 31 ->
  machine_field (Dispenser.snowflakeID timestamp cfg seq) = MachineID cfg
  /\ datacenter_field (Dispenser.snowflakeID timestamp cfg seq) = DatacenterID cfg.
Proof.
  intros Hseq Hm Hd.
  unfold machine_field, datacenter_field, Dispenser.snowflakeID, Int64.shl.
  split; apply Z.bits_inj'; intros n Hn;
    rewrite Z.land_spec, Z.shiftr_spec, !Z.lor_spec, testbit_31 by lia;
    (destruct (Z.ltb_spec n 5) as [H5|H5];
     [ rewrite !testbit_wrap64 by lia;
       rewrite andb_true_r
     | rewrite andb_false_r; symmetry;
       first [ apply (testbit_small (MachineID cfg) 5 n); lia
             | apply (testbit_small (DatacenterID cfg) 5 n); lia ] ]).
  - rewrite (Z.shiftl_spec_low timestamp) by lia.
    rewrite (Z.shiftl_spec_low (Z.land (DatacenterID cfg) 31)) by lia.
    rewrite Z.shiftl_spec by lia.
    rewrite (testbit_small seq 12 (n + 12)) by lia.
    rewrite Z.land_spec, testbit_31 by lia.
    replace (n + 12 - 12) with n by lia.
    replace (n <? 5) with true by (symmetry; apply Z.ltb_lt; lia).
    rewrite ?andb_true_r, ?andb_false_r, ?orb_false_r, ?orb_false_l.
    reflexivity.
  - rewrite (Z.shiftl_spec_low timestamp) by lia.
    rewrite (Z.shiftl_spec (Z.land (DatacenterID cfg) 31)) by lia.
    rewrite (Z.shiftl_spec (Z.land (MachineID cfg) 31)) by lia.
    rewrite (testbit_small seq 12 (n + 17)) by lia.
    rewrite !Z.land_spec, !testbit_31 by lia.
    replace (n + 17 - 17) with n by lia.
    replace (n + 17 - 12) with (n + 5) by lia.
    replace (n <? 5) with true by (symmetry; apply Z.ltb_lt; lia).
    replace (n + 5 <? 5) with false by (symmetry; apply Z.ltb_ge; lia).
    rewrite ?andb_true_r, ?andb_false_r, ?orb_false_r, ?orb_false_l.
    reflexivity.
Qed.

Lemma land_4095_range (x : Z) : 0 <= Z.land x 4095 < 4096.
Proof.
  change 4095 with (Z.ones 12). rewrite Z.land_ones by lia.
  change (2 ^ 12) with 4096. apply Z.mod_pos_bound. lia.
Qed.

(** What a returning call of the snowflake kernel hands out: the decimal
    rendering of an identifier composed from the dispenser's own
    configuration and a sequence number of 12 bits. *)
Lemma nextSnowflake_result (fuel : nat) (d d' : Dispenser.t) (w w' : World)
      (r : result string) :
  Dispenser.nextSnowflake fuel d w = Some (r, d', w') ->
  Dispenser.config d' = Dispenser.config d
  /\ exists timestamp seq,
      0 <= seq < 4096
      /\ r = Ok (Fmt.sprintf_d
                   (Dispenser.snowflakeID timestamp (Dispenser.config d) seq)).
Proof.
  unfold Dispenser.nextSnowflake.
  destruct (now w) as [t0 w1].
  destruct (t0 =? Dispenser.lastTimestamp d).
  - pose proof (land_4095_range (Int64.add (Dispenser.seqCounter d) 1)) as R.
    destruct (Z.land _ 4095 =? 0).
    + destruct (Dispenser.spin _ _ _ _) as [[t1 w2]|]; [|discriminate].
      intros H. injection H as <- <- _.
      split; [reflexivity|]. eexists _, _. split; [exact R|reflexivity].
    + intros H. injection H as <- <- _.
      split; [reflexivity|]. eexists _, _. split; [exact R|reflexivity].
  - intros H. injection H as <- <- _.
    split; [reflexivity|]. eexists _, 0. split; [lia|reflexivity].
Qed.

(** C9, as the code has it. Every machine id and datacenter id in 0..31
    is accepted. The dispenser keeps the datacenter id as configured and
    the machine id as configured unless it is 0, which is taken as "not
    set" and replaced by 1; every identifier it generates carries these
    two kept values in its 5-bit fields. *)
Theorem C9_snowflake_ids (cfg : Config) (w : World) :
  Type_ cfg = TypeSnowflake ->
  0 <= MachineID cfg <= 31 ->
  0 <= DatacenterID cfg <= 31 ->
  exists d w1,
    Dispenser.NewDispenser cfg w = (Ok d, w1)
    /\ DatacenterID (Dispenser.GetConfig d) = DatacenterID cfg
    /\ MachineID (Dispenser.GetConfig d)
       = (if MachineID cfg =? 0 then 1 else MachineID cfg)
    /\ forall fuel d0 w0 r d' w',
        Dispenser.config d0 = Dispenser.config d ->
        Dispenser.Next fuel d0 w0 = Some (r, d', w') ->
        Dispenser.config d' = Dispenser.config d
        /\ exists id,
            r = Ok (Fmt.sprintf_d id)
            /\ machine_field id = MachineID (Dispenser.GetConfig d)
            /\ datacenter_field id = DatacenterID cfg.
Proof.
  intros HT Hm Hd.
  assert (HV : validateConfig cfg = None).
  { unfold validateConfig. rewrite HT.
    cbn [Z.ltb Z.gtb Z.eqb Z.compare TypeSnowflake TypeNumericRandom TypeUUID
         TypeNumericIncremental TypeAlphanumericRandom
         Pos.compare Pos.compare_cont Pos.eqb orb].
    replace (MachineID cfg <? 0) with false by (symmetry; apply Z.ltb_ge; lia).
    replace (MachineID cfg >? 31) with false
      by (symmetry; rewrite Z.gtb_ltb; apply Z.ltb_ge; lia).
    replace (DatacenterID cfg <? 0) with false by (symmetry; apply Z.ltb_ge; lia).
    replace (DatacenterID cfg >? 31) with false
      by (symmetry; rewrite Z.gtb_ltb; apply Z.ltb_ge; lia).
    reflexivity. }
  unfold Dispenser.NewDispenser. rewrite HV.
  destruct (new_Rng w) as [g w1]. rewrite HT.
  cbn [Z.eqb TypeSnowflake TypeNumericRandom TypeNumericIncremental
       TypeAlphanumericRandom Pos.eqb].
  cbn [Dispenser.config].
  eexists _, w1. split; [reflexivity|].
  set (d := if MachineID cfg =? 0 then _ else _).
  assert (Hdc : DatacenterID (Dispenser.config d) = DatacenterID cfg)
    by (subst d; destruct (MachineID cfg =? 0); reflexivity).
  assert (Hmc : MachineID (Dispenser.config d)
                = if MachineID cfg =? 0 then 1 else MachineID cfg)
    by (subst d; destruct (MachineID cfg =? 0); reflexivity).
  assert (Hty : Type_ (Dispenser.config d) = TypeSnowflake)
    by (subst d; destruct (MachineID cfg =? 0); exact HT).
  split; [exact Hdc|]. split; [exact Hmc|].
  intros fuel d0 w0 r d' w' Hc0 HN.
  unfold Dispenser.Next in HN. rewrite Hc0, Hty in HN.
  cbn [Z.eqb TypeSnowflake TypeNumericRandom TypeNumericIncremental
       TypeAlphanumericRandom Pos.eqb] in HN.
  destruct (nextSnowflake_result _ _ _ _ _ _ HN) as (Hc' & t & seq & Hseq & ->).
  split; [congruence|].
  rewrite Hc0. eexists. split; [reflexivity|].
  unfold Dispenser.GetConfig. rewrite <- Hdc.
  apply snowflakeID_fields; [exact Hseq| |].
  - rewrite Hmc. destruct (Z.eqb_spec (MachineID cfg) 0); lia.
  - rewrite Hdc. lia.
Qed.

(** [hset e type 4 machine_id 0 datacenter_id 3] *)
Definition C9_cfg : Config :=
  mkConfig TypeSnowflake 0 0 0 0 3 "" "" "" StrategyMemory false 0.

Lemma C9_snowflake_ids_witness :
  exists d w1,
    Dispenser.NewDispenser C9_cfg (Scenario.world true true None) = (Ok d, w1)
    /\ DatacenterID (Dispenser.GetConfig d) = DatacenterID C9_cfg
    /\ MachineID (Dispenser.GetConfig d)
       = (if MachineID C9_cfg =? 0 then 1 else MachineID C9_cfg)
    /\ forall fuel d0 w0 r d' w',
        Dispenser.config d0 = Dispenser.config d ->
        Dispenser.Next fuel d0 w0 = Some (r, d', w') ->
        Dispenser.config d' = Dispenser.config d
        /\ exists id,
            r = Ok (Fmt.sprintf_d id)
            /\ machine_field id = MachineID (Dispenser.GetConfig d)
            /\ datacenter_field id = DatacenterID C9_cfg.
Proof.
  apply (C9_snowflake_ids C9_cfg (Scenario.world true true None)).
  - reflexivity.
  - cbn. lia.
  - cbn. lia.
Defined.

(** C9 as stated fails for machine id 0: the dispenser created with
    machine id 0 reports machine id 1, and its first identifier carries 1
    in the machine-id field. *)
Lemma C9_counterexample :
  match Dispenser.NewDispenser C9_cfg (Scenario.world true true None) with
  | (Ok d, w1) =>
    MachineID C9_cfg = 0
    /\ MachineID (Dispenser.GetConfig d) = 1
    /\ option_map (fun x => fst (fst x)) (Dispenser.Next 1 d w1)
       = Some (Ok (Fmt.sprintf_d 1724551110456643584))
    /\ machine_field 1724551110456643584 = 1
  | (Err _, _) => False
  end.
Proof. vm_compute. repeat split. Qed.

(** ** Schedules of a segment dispenser *)

(** What happens to one dispenser, in the order in which the steps take
    effect.

    [CallNext], [RunPreload] and [Tick] are a call of [Next], a run of
    a preload goroutine that an earlier [Next] has started, and a tick
    of the checkpoint timer, each from its first line to its last with
    nothing else of the dispenser in between.

    The others are the same three in steps. [NextEnter] is a call of
    [Next] that finds its segment used up and none prepared, up to the
    point where it has released [nextSegmentMu]; [NextPersist] is its
    [allocateSegment] up to the hook; [NextFinish] the rest of the
    call. [PreloadEnter] is a preload goroutine up to its reading of
    [segmentEnd], [PreloadPersist] its hook, [PreloadFinish] the
    publication of the segment. [TickRead] is a checkpoint up to its
    reading of [currentNumber], [TickPersist] its test and its hook,
    [TickFinish] the writing of [lastPersisted]. *)
Inductive event : Type :=
| CallNext
| RunPreload
| Tick
| NextEnter
| NextPersist
| NextFinish
| PreloadEnter
| PreloadPersist
| PreloadFinish
| TickRead
| TickPersist
| TickFinish.

(** What a dispenser has under way between two events: the call of
    [Next] that holds [mu], the preload goroutine that holds
    [nextSegmentMu], the checkpoint of the timer goroutine. *)
Inductive calling : Type :=
| NoCall
| Entered
| Persisted (start end_ : Z).

Inductive loading : Type :=
| NoLoad
| Started (start : Z)
| Saved (start end_ : Z).

Inductive ticking : Type :=
| NoTick
| Read (current : Z)
| Logged (current : Z).

Record flight : Type := mkFlight {
  call : calling;
  load : loading;
  tick : ticking
}.

Definition idle : flight := mkFlight NoCall NoLoad NoTick.

Definition set_call (f : flight) (c : calling) : flight :=
  mkFlight c (load f) (tick f).
Definition set_load (f : flight) (l : loading) : flight :=
  mkFlight (call f) l (tick f).
Definition set_tick (f : flight) (t : ticking) : flight :=
  mkFlight (call f) (load f) t.

(** One event on a pre-base dispenser. [pending] counts the preload
    goroutines started and not yet run. An event that cannot take place
    is skipped: a step of something that is not under way, a call or a
    checkpoint while another call holds [mu], a call that needs
    [nextSegmentMu] or a preload while a preload goroutine holds it, a
    preload that no [Next] has started; every tick, for there is no
    timer. The first component is what a call of [Next] returned, and
    the world at its return, when the event ends one. *)
Definition sd_step {W : Type} (K : Kinds) (ev : event)
           (sd : SegmentDispenser.t W) (pending : nat) (f : flight) (w : W)
  : option (result Z * W) * SegmentDispenser.t W * nat * flight * W :=
  let skip := (None, sd, pending, f, w) in
  match ev with
  | CallNext =>
    match call f with
    | NoCall =>
      if (SegmentDispenser.currentNumber sd >=? SegmentDispenser.segmentEnd sd)
         && negb match load f with NoLoad => true | _ => false end
      then skip
      else
        let '(r, spawn, sd1, w1) := SegmentDispenser.take K sd w in
        (Some (r, w1), sd1, if spawn then S pending else pending, f, w1)
    | _ => skip
    end
  | NextEnter =>
    match call f, load f with
    | NoCall, NoLoad =>
      if (SegmentDispenser.currentNumber sd >=? SegmentDispenser.segmentEnd sd)
         && negb (SegmentDispenser.nextSegmentReady sd)
      then (None, sd, pending, set_call f Entered, w)
      else skip
    | _, _ => skip
    end
  | NextPersist =>
    match call f with
    | Entered =>
      match SegmentDispenser.persistSegment K sd
              (SegmentDispenser.segmentEnd sd) w with
      | (Err e, w1) => (Some (Err e, w1), sd, pending, set_call f NoCall, w1)
      | (Ok end_, w1) =>
        (None, sd, pending,
         set_call f (Persisted (SegmentDispenser.segmentEnd sd) end_), w1)
      end
    | _ => skip
    end
  | NextFinish =>
    match call f with
    | Persisted start end_ =>
      let '(num, spawn, sd1) :=
        SegmentDispenser.issue (SegmentDispenser.set_segment sd start end_) in
      (Some (Ok num, w), sd1, if spawn then S pending else pending,
       set_call f NoCall, w)
    | _ => skip
    end
  | RunPreload =>
    match pending, load f with
    | S p, NoLoad =>
      let '(sd1, w1) := SegmentDispenser.preloadNextSegment sd w in
      (None, sd1, p, f, w1)
    | _, _ => skip
    end
  | PreloadEnter =>
    match pending, load f with
    | S p, NoLoad =>
      if SegmentDispenser.nextSegmentReady sd then (None, sd, p, f, w)
      else (None, sd, p,
            set_load f (Started (SegmentDispenser.segmentEnd sd)), w)
    | _, _ => skip
    end
  | PreloadPersist =>
    match load f with
    | Started start =>
      match SegmentDispenser.persistNext sd start w with
      | (None, w1) => (None, sd, pending, set_load f NoLoad, w1)
      | (Some end_, w1) =>
        (None, sd, pending, set_load f (Saved start end_), w1)
      end
    | _ => skip
    end
  | PreloadFinish =>
    match load f with
    | Saved start end_ =>
      (None, SegmentDispenser.set_next sd start end_ true, pending,
       set_load f NoLoad, w)
    | _ => skip
    end
  | Tick | TickRead | TickPersist | TickFinish => skip
  end.

(** The same for pre-checkpoint and pre_close; the events of a tick
    take place when the timer was started. *)
Definition osd_step {W : Type} (ev : event)
           (osd : OptimizedSegmentDispenser.t W) (pending : nat) (f : flight)
           (w : W)
  : option (result Z * W) * OptimizedSegmentDispenser.t W * nat * flight * W :=
  let skip := (None, osd, pending, f, w) in
  match ev with
  | CallNext =>
    match call f with
    | NoCall =>
      if (OptimizedSegmentDispenser.currentNumber osd
          >=? OptimizedSegmentDispenser.segmentEnd osd)
         && negb match load f with NoLoad => true | _ => false end
      then skip
      else
        let '(r, spawn, osd1, w1) := OptimizedSegmentDispenser.take osd w in
        (Some (r, w1), osd1, if spawn then S pending else pending, f, w1)
    | _ => skip
    end
  | NextEnter =>
    match call f, load f with
    | NoCall, NoLoad =>
      if (OptimizedSegmentDispenser.currentNumber osd
          >=? OptimizedSegmentDispenser.segmentEnd osd)
         && negb (OptimizedSegmentDispenser.nextSegmentReady osd)
      then (None, osd, pending, set_call f Entered, w)
      else skip
    | _, _ => skip
    end
  | NextPersist =>
    match call f with
    | Entered =>
      match OptimizedSegmentDispenser.persistSegment osd
              (OptimizedSegmentDispenser.segmentEnd osd) w with
      | (Err e, w1) => (Some (Err e, w1), osd, pending, set_call f NoCall, w1)
      | (Ok end_, w1) =>
        (None, osd, pending,
         set_call f (Persisted (OptimizedSegmentDispenser.segmentEnd osd) end_),
         w1)
      end
    | _ => skip
    end
  | NextFinish =>
    match call f with
    | Persisted start end_ =>
      let '(num, spawn, osd1) :=
        OptimizedSegmentDispenser.issue
          (OptimizedSegmentDispenser.set_segment osd start end_ end_) in
      (Some (Ok num, w), osd1, if spawn then S pending else pending,
       set_call f NoCall, w)
    | _ => skip
    end
  | RunPreload =>
    match pending, load f with
    | S p, NoLoad =>
      let '(osd1, w1) := OptimizedSegmentDispenser.preloadNextSegment osd w in
      (None, osd1, p, f, w1)
    | _, _ => skip
    end
  | PreloadEnter =>
    match pending, load f with
    | S p, NoLoad =>
      if OptimizedSegmentDispenser.nextSegmentReady osd
      then (None, osd, p, f, w)
      else (None, osd, p,
            set_load f (Started (OptimizedSegmentDispenser.segmentEnd osd)), w)
    | _, _ => skip
    end
  | PreloadPersist =>
    match load f with
    | Started start =>
      match OptimizedSegmentDispenser.persistNext osd start w with
      | (None, w1) => (None, osd, pending, set_load f NoLoad, w1)
      | (Some end_, w1) =>
        (None, osd, pending, set_load f (Saved start end_), w1)
      end
    | _ => skip
    end
  | PreloadFinish =>
    match load f with
    | Saved start end_ =>
      (None, OptimizedSegmentDispenser.set_next osd start end_ true, pending,
       set_load f NoLoad, w)
    | _ => skip
    end
  | Tick =>
    match call f, tick f with
    | NoCall, NoTick =>
      if OptimizedSegmentDispenser.checkpointTicker osd then
        let '(_, osd1, w1) := OptimizedSegmentDispenser.checkpoint osd w in
        (None, osd1, pending, f, w1)
      else skip
    | _, _ => skip
    end
  | TickRead =>
    match call f, tick f with
    | NoCall, NoTick =>
      if OptimizedSegmentDispenser.checkpointTicker osd then
        (None, osd, pending,
         set_tick f (Read (OptimizedSegmentDispenser.currentNumber osd)), w)
      else skip
    | _, _ => skip
    end
  | TickPersist =>
    match tick f with
    | Read current =>
      match OptimizedSegmentDispenser.persistCheckpoint osd current w with
      | (true, w1) => (None, osd, pending, set_tick f (Logged current), w1)
      | (false, w1) => (None, osd, pending, set_tick f NoTick, w1)
      end
    | _ => skip
    end
  | TickFinish =>
    match tick f with
    | Logged current =>
      (None,
       OptimizedSegmentDispenser.set_segment osd
         (OptimizedSegmentDispenser.currentNumber osd)
         (OptimizedSegmentDispenser.segmentEnd osd) current,
       pending, set_tick f NoTick, w)
    | _ => skip
    end
  end.

(** What an event adds to the list of the calls returned. *)
Definition observed {A : Type} (o : option A) (obs : list A) : list A :=
  match o with
  | Some x => x :: obs
  | None => obs
  end.

Fixpoint sd_steps {W : Type} (K : Kinds) (evs : list event)
         (sd : SegmentDispenser.t W) (pending : nat) (f : flight) (w : W)
  : list (result Z * W) * SegmentDispenser.t W * W :=
  match evs with
  | [] => ([], sd, w)
  | ev :: rest =>
    let '(o, sd1, p1, f1, w1) := sd_step K ev sd pending f w in
    let '(obs, sd2, w2) := sd_steps K rest sd1 p1 f1 w1 in
    (observed o obs, sd2, w2)
  end.

Fixpoint osd_steps {W : Type} (evs : list event)
         (osd : OptimizedSegmentDispenser.t W) (pending : nat) (f : flight)
         (w : W)
  : list (result Z * W) * OptimizedSegmentDispenser.t W * W :=
  match evs with
  | [] => ([], osd, w)
  | ev :: rest =>
    let '(o, osd1, p1, f1, w1) := osd_step ev osd pending f w in
    let '(obs, osd2, w2) := osd_steps rest osd1 p1 f1 w1 in
    (observed o obs, osd2, w2)
  end.

(** The run of a schedule on a pre-base dispenser that has nothing
    under way. The result lists, for every call of [Next] that
    returned, what it returned and the world at its return. *)
Definition sd_run {W : Type} (K : Kinds) (evs : list event)
           (sd : SegmentDispenser.t W) (pending : nat) (w : W)
  : list (result Z * W) * SegmentDispenser.t W * W :=
  sd_steps K evs sd pending idle w.

(** The same for pre-checkpoint and pre_close. *)
Definition osd_run {W : Type} (evs : list event)
           (osd : OptimizedSegmentDispenser.t W) (pending : nat) (w : W)
  : list (result Z * W) * OptimizedSegmentDispenser.t W * W :=
  osd_steps evs osd pending idle w.

(** The number of calls of [Next] that a schedule begins. *)
Fixpoint calls_in (evs : list event) : nat :=
  match evs with
  | [] => O
  | CallNext :: rest => S (calls_in rest)
  | NextEnter :: rest => S (calls_in rest)
  | _ :: rest => calls_in rest
  end.

(** The steps put together are the functions of the source. *)
Lemma SD_allocateSegment_steps {W : Type} (K : Kinds)
      (sd : SegmentDispenser.t W) (start : Z) (w : W) :
  SegmentDispenser.allocateSegment K sd start w
  = match SegmentDispenser.persistSegment K sd start w with
    | (Err e, w1) => (Some e, sd, w1)
    | (Ok end_, w1) => (None, SegmentDispenser.set_segment sd start end_, w1)
    end.
Proof.
  unfold SegmentDispenser.allocateSegment, SegmentDispenser.persistSegment.
  destruct (_ && _); [reflexivity|].
  destruct (SegmentDispenser.persistFunc sd) as [p|]; [|reflexivity].
  destruct (p _ w) as [[e|] w1]; reflexivity.
Qed.

Lemma SD_take_steps {W : Type} (K : Kinds) (sd : SegmentDispenser.t W)
      (w : W) :
  SegmentDispenser.take K sd w
  = match SegmentDispenser.rollover K sd w with
    | (Some e, sd1, w1) => (Err e, false, sd1, w1)
    | (None, sd1, w1) =>
      let '(num, spawn, sd2) := SegmentDispenser.issue sd1 in
      (Ok num, spawn, sd2, w1)
    end.
Proof.
  unfold SegmentDispenser.take.
  destruct (SegmentDispenser.rollover K sd w) as [[[e|] sd1] w1]; reflexivity.
Qed.

Lemma SD_preload_steps {W : Type} (sd : SegmentDispenser.t W) (w : W) :
  SegmentDispenser.preloadNextSegment sd w
  = if SegmentDispenser.nextSegmentReady sd then (sd, w)
    else match SegmentDispenser.persistNext sd
                 (SegmentDispenser.segmentEnd sd) w with
         | (None, w1) => (sd, w1)
         | (Some end_, w1) =>
           (SegmentDispenser.set_next sd (SegmentDispenser.segmentEnd sd)
              end_ true, w1)
         end.
Proof.
  unfold SegmentDispenser.preloadNextSegment, SegmentDispenser.persistNext.
  destruct (SegmentDispenser.nextSegmentReady sd); [reflexivity|].
  destruct (SegmentDispenser.persistFunc sd) as [p|]; [|reflexivity].
  destruct (p _ w) as [[e|] w1]; reflexivity.
Qed.

Lemma OSD_allocateSegment_steps {W : Type}
      (osd : OptimizedSegmentDispenser.t W) (start : Z) (w : W) :
  OptimizedSegmentDispenser.allocateSegment osd start w
  = match OptimizedSegmentDispenser.persistSegment osd start w with
    | (Err e, w1) => (Some e, osd, w1)
    | (Ok end_, w1) =>
      (None, OptimizedSegmentDispenser.set_segment osd start end_ end_, w1)
    end.
Proof.
  unfold OptimizedSegmentDispenser.allocateSegment,
    OptimizedSegmentDispenser.persistSegment.
  destruct (_ && _); [reflexivity|].
  destruct (OptimizedSegmentDispenser.persistFunc osd) as [p|]; [|reflexivity].
  destruct (p _ w) as [[e|] w1]; reflexivity.
Qed.

Lemma OSD_take_steps {W : Type} (osd : OptimizedSegmentDispenser.t W)
      (w : W) :
  OptimizedSegmentDispenser.take osd w
  = match OptimizedSegmentDispenser.rollover osd w with
    | (Some e, osd1, w1) => (Err e, false, osd1, w1)
    | (None, osd1, w1) =>
      let '(num, spawn, osd2) := OptimizedSegmentDispenser.issue osd1 in
      (Ok num, spawn, osd2, w1)
    end.
Proof.
  unfold OptimizedSegmentDispenser.take.
  destruct (OptimizedSegmentDispenser.rollover osd w) as [[[e|] osd1] w1];
    reflexivity.
Qed.

Lemma OSD_preload_steps {W : Type} (osd : OptimizedSegmentDispenser.t W)
      (w : W) :
  OptimizedSegmentDispenser.preloadNextSegment osd w
  = if OptimizedSegmentDispenser.nextSegmentReady osd then (osd, w)
    else match OptimizedSegmentDispenser.persistNext osd
                 (OptimizedSegmentDispenser.segmentEnd osd) w with
         | (None, w1) => (osd, w1)
         | (Some end_, w1) =>
           (OptimizedSegmentDispenser.set_next osd
              (OptimizedSegmentDispenser.segmentEnd osd) end_ true, w1)
         end.
Proof.
  unfold OptimizedSegmentDispenser.preloadNextSegment,
    OptimizedSegmentDispenser.persistNext.
  destruct (OptimizedSegmentDispenser.nextSegmentReady osd); [reflexivity|].
  destruct (OptimizedSegmentDispenser.persistFunc osd) as [p|]; [|reflexivity].
  destruct (p _ w) as [[e|] w1]; reflexivity.
Qed.

Lemma OSD_checkpoint_steps {W : Type} (osd : OptimizedSegmentDispenser.t W)
      (w : W) :
  snd (fst (OptimizedSegmentDispenser.checkpoint osd w))
  = (if fst (OptimizedSegmentDispenser.persistCheckpoint osd
               (OptimizedSegmentDispenser.currentNumber osd) w)
     then OptimizedSegmentDispenser.set_segment osd
            (OptimizedSegmentDispenser.currentNumber osd)
            (OptimizedSegmentDispenser.segmentEnd osd)
            (OptimizedSegmentDispenser.currentNumber osd)
     else osd)
  /\ snd (OptimizedSegmentDispenser.checkpoint osd w)
     = snd (OptimizedSegmentDispenser.persistCheckpoint osd
              (OptimizedSegmentDispenser.currentNumber osd) w).
Proof.
  unfold OptimizedSegmentDispenser.checkpoint,
    OptimizedSegmentDispenser.persistCheckpoint.
  destruct (OptimizedSegmentDispenser.persistFunc osd) as [p|];
    [|split; reflexivity].
  destruct (negb _); [|split; reflexivity].
  destruct (p _ w) as [[e|] w1]; split; reflexivity.
Qed.

(** On whole events a run is the three functions of the source, one
    after the other. *)
Lemma osd_run_whole {W : Type} (rest : list event)
      (osd : OptimizedSegmentDispenser.t W) (pending : nat) (w : W) :
  osd_run (CallNext :: rest) osd pending w
  = (let '(r, spawn, osd1, w1) := OptimizedSegmentDispenser.take osd w in
     let '(obs, osd2, w2) :=
       osd_run rest osd1 (if spawn then S pending else pending) w1 in
     ((r, w1) :: obs, osd2, w2))
  /\ osd_run (RunPreload :: rest) osd pending w
     = match pending with
       | O => osd_run rest osd O w
       | S p =>
         let '(osd1, w1) :=
           OptimizedSegmentDispenser.preloadNextSegment osd w in
         osd_run rest osd1 p w1
       end
  /\ osd_run (Tick :: rest) osd pending w
     = if OptimizedSegmentDispenser.checkpointTicker osd then
         let '(_, osd1, w1) := OptimizedSegmentDispenser.checkpoint osd w in
         osd_run rest osd1 pending w1
       else osd_run rest osd pending w.
Proof.
  unfold osd_run. cbn [osd_steps osd_step call load tick idle].
  rewrite andb_false_r. split; [|split].
  - destruct (OptimizedSegmentDispenser.take osd w) as [[[r spawn] osd1] w1].
    reflexivity.
  - destruct pending as [|p].
    + destruct (osd_steps rest osd 0 idle w) as [[obs osd2] w2]. reflexivity.
    + destruct (OptimizedSegmentDispenser.preloadNextSegment osd w)
        as [osd1 w1].
      destruct (osd_steps rest osd1 p idle w1) as [[obs osd2] w2].
      reflexivity.
  - destruct (OptimizedSegmentDispenser.checkpointTicker osd).
    + destruct (OptimizedSegmentDispenser.checkpoint osd w) as [[e osd1] w1].
      destruct (osd_steps rest osd1 pending idle w1) as [[obs osd2] w2].
      reflexivity.
    + destruct (osd_steps rest osd pending idle w) as [[obs osd2] w2].
      reflexivity.
Qed.

Lemma sd_run_whole {W : Type} (K : Kinds) (rest : list event)
      (sd : SegmentDispenser.t W) (pending : nat) (w : W) :
  sd_run K (CallNext :: rest) sd pending w
  = (let '(r, spawn, sd1, w1) := SegmentDispenser.take K sd w in
     let '(obs, sd2, w2) :=
       sd_run K rest sd1 (if spawn then S pending else pending) w1 in
     ((r, w1) :: obs, sd2, w2))
  /\ sd_run K (RunPreload :: rest) sd pending w
     = match pending with
       | O => sd_run K rest sd O w
       | S p =>
         let '(sd1, w1) := SegmentDispenser.preloadNextSegment sd w in
         sd_run K rest sd1 p w1
       end
  /\ sd_run K (Tick :: rest) sd pending w = sd_run K rest sd pending w.
Proof.
  unfold sd_run. cbn [sd_steps sd_step call load tick idle].
  rewrite andb_false_r. split; [|split].
  - destruct (SegmentDispenser.take K sd w) as [[[r spawn] sd1] w1].
    reflexivity.
  - destruct pending as [|p].
    + destruct (sd_steps K rest sd 0 idle w) as [[obs sd2] w2]. reflexivity.
    + destruct (SegmentDispenser.preloadNextSegment sd w) as [sd1 w1].
      destruct (sd_steps K rest sd1 p idle w1) as [[obs sd2] w2].
      reflexivity.
  - destruct (sd_steps K rest sd pending idle w) as [[obs sd2] w2].
    reflexivity.
Qed.

(** For the counting kinds [Next] is [take] followed by the formatting. *)
Lemma SD_Next_take {W : Type} (K : Kinds) (sd : SegmentDispenser.t W) (w : W) :
  Type_ (SegmentDispenser.config sd) <> TypeRandomFixed K ->
  SegmentDispenser.Next K sd w =
  match SegmentDispenser.take K sd w with
  | (Ok num, spawn, sd1, w1) =>
    (SegmentDispenser.render K (SegmentDispenser.config sd) num, spawn, sd1, w1)
  | (Err e, spawn, sd1, w1) => (Err e, spawn, sd1, w1)
  end.
Proof.
  intros HT. unfold SegmentDispenser.Next.
  destruct (Z.eqb_spec (Type_ (SegmentDispenser.config sd)) (TypeRandomFixed K))
    as [E0|_]; [contradiction|].
  destruct (SegmentDispenser.take K sd w) as [[[[num|e] spawn] sd1] w1] eqn:E;
    [|reflexivity].
  assert (Hc : SegmentDispenser.config sd1 = SegmentDispenser.config sd).
  { unfold SegmentDispenser.take, SegmentDispenser.rollover in E.
    destruct (_ >=? _).
    - destruct (SegmentDispenser.nextSegmentReady sd).
      + injection E as _ _ <- _. reflexivity.
      + destruct (SegmentDispenser.allocateSegment K sd _ w) as [[[e|] sd2] w2] eqn:EA;
          [discriminate|].
        injection E as _ _ <- _.
        exact (SD_allocateSegment_config _ _ _ _ _ _ _ EA).
    - injection E as _ _ <- _. reflexivity. }
  rewrite Hc. reflexivity.
Qed.

(** For the numeric kinds [Next] is [take] followed by the formatting. *)
Lemma OSD_Next_take {W : Type} (osd : OptimizedSegmentDispenser.t W) (w : W) :
  Type_ (OptimizedSegmentDispenser.config osd) = TypeNumericIncremental ->
  OptimizedSegmentDispenser.Next osd w =
  match OptimizedSegmentDispenser.take osd w with
  | (Ok num, spawn, osd1, w1) =>
    (Ok (OptimizedSegmentDispenser.render
           (OptimizedSegmentDispenser.config osd1) num), spawn, osd1, w1)
  | (Err e, spawn, osd1, w1) => (Err e, spawn, osd1, w1)
  end.
Proof.
  intros HT. unfold OptimizedSegmentDispenser.Next. rewrite HT. reflexivity.
Qed.

(** ** The end of a segment is committed before a number of it is
    handed out (C2) *)

Lemma add64_id (a b : Z) :
  Int64.min_int <= a + b <= Int64.max_int -> Int64.add a b = a + b.
Proof. intros H. apply wrap64_id. exact H. Qed.

Lemma mul64_id (a b : Z) :
  Int64.min_int <= a * b <= Int64.max_int -> Int64.mul a b = a * b.
Proof. intros H. apply wrap64_id. exact H. Qed.

Lemma min_int_neg : Int64.min_int < 0.
Proof. reflexivity. Qed.

Section Commit.

Context {W : Type}.

(** The kinds of segment.go, whatever they are. *)
Variable K : Kinds.

(** [log w]: the positions the hook has committed so far, latest first.
    The hook may do anything else to its world and may fail at will; a
    call that fails commits nothing. *)
Variable log : W -> list Z.
Variable hook : Z -> W -> option error * W.
Hypothesis hook_log : forall v w,
  log (snd (hook v w)) =
  match fst (hook v w) with
  | None => v :: log w
  | Some _ => log w
  end.

(** The configuration after the constructor's defaults and the segment
    size. *)
Variable cfgN : Config.
Variable size : Z.
Hypothesis Hstep : 1 <= Step cfgN.
Hypothesis Hsize : 1 <= size.

(** A number handed out lies below a committed position; outside the
    fixed-width mode a whole step lies below it. *)
Definition committed (fixed : bool) (r : result Z) (w : W) : Prop :=
  forall v, r = Ok v ->
            exists e, In e (log w)
                      /\ v < e
                      /\ (fixed = false -> v + Step cfgN <= e).

(** The log only grows. *)
Definition grows (w w1 : W) : Prop :=
  forall e, In e (log w) -> In e (log w1).

Lemma grows_refl (w : W) : grows w w.
Proof. intros e He. exact He. Qed.

Lemma hook_grows (v : Z) (w : W) : grows w (snd (hook v w)).
Proof using hook_log.
  intros e He. rewrite hook_log. destruct (fst (hook v w)); [exact He|].
  right. exact He.
Qed.

Lemma hook_logged (v : Z) (w : W) :
  fst (hook v w) = None -> In v (log (snd (hook v w))).
Proof using hook_log.
  intros H. rewrite hook_log, H. left. reflexivity.
Qed.

(** What is under way respects the frontier [F]: a segment that a call
    has persisted and not yet installed, or that a preload goroutine
    has persisted and not yet published, has its end in the log. *)
Definition fl_inv (fixed : bool) (F : Z) (f : flight) (w : W) : Prop :=
  match call f with
  | Persisted s e =>
    0 <= s <= F /\ s < e <= F /\ In e (log w)
    /\ (fixed = false -> e = s + size * Step cfgN)
  | _ => True
  end
  /\ match load f with
     | Started s => 0 <= s <= F
     | Saved s e => 0 <= s <= F /\ e = s + size * Step cfgN /\ In e (log w)
     | NoLoad => True
     end.

Lemma fl_inv_mono (fixed : bool) (F F' : Z) (f : flight) (w w' : W) :
  F <= F' -> grows w w' -> fl_inv fixed F f w -> fl_inv fixed F' f w'.
Proof.
  intros HF Hg [Hc Hl]. split.
  - destruct (call f) as [| |s e]; auto.
    destruct Hc as (H1 & H2 & H3 & H4). repeat split; auto; lia.
  - destruct (load f) as [|s|s e]; [auto|lia|].
    destruct Hl as (H1 & H2 & H3). repeat split; auto; lia.
Qed.

Definition osd_inv (F : Z) (osd : OptimizedSegmentDispenser.t W) (w : W) : Prop :=
  OptimizedSegmentDispenser.config osd = cfgN
  /\ OptimizedSegmentDispenser.segmentSize osd = size
  /\ OptimizedSegmentDispenser.persistFunc osd = Some hook
  /\ In (OptimizedSegmentDispenser.segmentEnd osd) (log w)
  /\ 0 <= OptimizedSegmentDispenser.currentNumber osd
  /\ OptimizedSegmentDispenser.currentNumber osd
     < OptimizedSegmentDispenser.segmentEnd osd + Step cfgN
  /\ 0 < OptimizedSegmentDispenser.segmentEnd osd <= F
  /\ (OptimizedSegmentDispenser.nextSegmentReady osd = true ->
      0 <= OptimizedSegmentDispenser.nextSegmentStart osd <= F
      /\ OptimizedSegmentDispenser.nextSegmentEnd osd
         = OptimizedSegmentDispenser.nextSegmentStart osd + size * Step cfgN
      /\ In (OptimizedSegmentDispenser.nextSegmentEnd osd) (log w))
  /\ (IncrMode cfgN <> IncrModeFixed ->
      exists m, 0 <= m
                /\ OptimizedSegmentDispenser.segmentEnd osd
                   = OptimizedSegmentDispenser.currentNumber osd + m * Step cfgN).

Ltac osd_fields :=
  unfold OptimizedSegmentDispenser.set_segment, OptimizedSegmentDispenser.set_next,
    OptimizedSegmentDispenser.set_counters, OptimizedSegmentDispenser.set_lifecycle;
  cbn [fst snd OptimizedSegmentDispenser.config
       OptimizedSegmentDispenser.currentNumber OptimizedSegmentDispenser.segmentEnd
       OptimizedSegmentDispenser.segmentSize OptimizedSegmentDispenser.threshold
       OptimizedSegmentDispenser.nextSegmentStart
       OptimizedSegmentDispenser.nextSegmentEnd
       OptimizedSegmentDispenser.nextSegmentReady
       OptimizedSegmentDispenser.persistFunc OptimizedSegmentDispenser.lastPersisted
       OptimizedSegmentDispenser.checkpointTicker OptimizedSegmentDispenser.stopChan
       OptimizedSegmentDispenser.totalGenerated OptimizedSegmentDispenser.totalWasted].

(** [allocateSegment] from a position [start] below the frontier [F]:
    either it fails and leaves the dispenser alone, or it installs a
    non-empty segment that starts at [start] and whose end is in the
    log. *)
Lemma osd_allocate_spec (F : Z) (osd : OptimizedSegmentDispenser.t W)
      (start : Z) (w : W) :
  OptimizedSegmentDispenser.config osd = cfgN ->
  OptimizedSegmentDispenser.segmentSize osd = size ->
  OptimizedSegmentDispenser.persistFunc osd = Some hook ->
  0 <= start <= F ->
  F + size * Step cfgN <= Int64.max_int ->
  match OptimizedSegmentDispenser.allocateSegment osd start w with
  | (Some _, osd1, w1) => osd1 = osd /\ (w1 = w \/ log w1 = log w)
  | (None, osd1, w1) =>
    osd1 = OptimizedSegmentDispenser.set_segment osd start
             (OptimizedSegmentDispenser.segmentEnd osd1)
             (OptimizedSegmentDispenser.segmentEnd osd1)
    /\ log w1 = OptimizedSegmentDispenser.segmentEnd osd1 :: log w
    /\ start < OptimizedSegmentDispenser.segmentEnd osd1
       <= start + size * Step cfgN
    /\ (IncrMode cfgN <> IncrModeFixed ->
        OptimizedSegmentDispenser.segmentEnd osd1 = start + size * Step cfgN)
  end.
Proof using hook_log Hstep Hsize.
  intros Hc Hsz Hp Hs HF.
  assert (HB : 1 <= size * Step cfgN) by nia.
  pose proof min_int_neg as Hmin.
  unfold OptimizedSegmentDispenser.allocateSegment.
  rewrite Hc, Hsz, Hp.
  rewrite (mul64_id size (Step cfgN)) by lia.
  rewrite (add64_id start (size * Step cfgN)) by lia.
  set (M := Int64.sub (pow10 (Length cfgN)) 1).
  destruct (bool_decide (IncrMode cfgN = IncrModeFixed)) eqn:Efix; cbn [andb].
  - destruct (Z.geb_spec start M) as [Hge|Hlt].
    + split; [reflexivity | left; reflexivity].
    + destruct (Z.gtb_spec (start + size * Step cfgN) M) as [Hgt|Hle].
      * rewrite (add64_id M 1) by lia.
        pose proof (hook_log (M + 1) w) as HL.
        destruct (hook (M + 1) w) as [[e|] w1]; cbn [fst snd] in HL.
        -- split; [reflexivity | right; exact HL].
        -- osd_fields. split; [reflexivity|]. split; [exact HL|].
           split; [lia|]. intros Hne. apply bool_decide_eq_true in Efix.
           contradiction.
      * pose proof (hook_log (start + size * Step cfgN) w) as HL.
        destruct (hook (start + size * Step cfgN) w) as [[e|] w1];
          cbn [fst snd] in HL.
        -- split; [reflexivity | right; exact HL].
        -- osd_fields. split; [reflexivity|]. split; [exact HL|].
           split; [lia|]. intros _. reflexivity.
  - pose proof (hook_log (start + size * Step cfgN) w) as HL.
    destruct (hook (start + size * Step cfgN) w) as [[e|] w1];
      cbn [fst snd] in HL.
    + split; [reflexivity | right; exact HL].
    + osd_fields. split; [reflexivity|]. split; [exact HL|].
      split; [lia|]. intros _. reflexivity.
Qed.

Ltac conjuncts := repeat match goal with |- _ /\ _ => split end.

Ltac ready_clause Hrdy :=
  let H := fresh in
  intros H; destruct (Hrdy H) as (? & ? & ?); repeat split; auto; lia.

Lemma osd_take_keeps (F : Z) (osd : OptimizedSegmentDispenser.t W) (w : W) :
  osd_inv F osd w ->
  F + size * Step cfgN <= Int64.max_int ->
  osd_inv (F + size * Step cfgN)
          (snd (fst (OptimizedSegmentDispenser.take osd w)))
          (snd (OptimizedSegmentDispenser.take osd w))
  /\ committed (bool_decide (IncrMode cfgN = IncrModeFixed))
               (fst (fst (fst (OptimizedSegmentDispenser.take osd w))))
               (snd (OptimizedSegmentDispenser.take osd w)).
Proof using hook_log Hstep Hsize.
  intros (Hc & Hsz & Hp & Hlog & Hc0 & Hc1 & He & Hrdy & Hal) HF.
  assert (HB : Step cfgN <= size * Step cfgN) by nia.
  pose proof min_int_neg as Hmin.
  unfold OptimizedSegmentDispenser.take, OptimizedSegmentDispenser.rollover.
  destruct (Z.geb_spec (OptimizedSegmentDispenser.currentNumber osd)
                       (OptimizedSegmentDispenser.segmentEnd osd)) as [Hge|Hlt].
  - destruct (OptimizedSegmentDispenser.nextSegmentReady osd) eqn:Er.
    + (* the prepared segment is taken *)
      destruct (Hrdy eq_refl) as (Hns & Hne & Hnl).
      osd_fields. rewrite Hc.
      rewrite (add64_id (OptimizedSegmentDispenser.nextSegmentStart osd)
                        (Step cfgN)) by lia.
      split.
      * unfold osd_inv; conjuncts; osd_fields; auto; try lia;
        try (ready_clause Hrdy).
        intros _. exists (size - 1). split; [lia|]. rewrite Hne. ring.
      * intros v Hv. injection Hv as <-.
        exists (OptimizedSegmentDispenser.nextSegmentEnd osd).
        split; [exact Hnl|]. split; [lia|]. intros _. lia.
    + (* synchronous allocation *)
      pose proof (osd_allocate_spec F osd
                    (OptimizedSegmentDispenser.segmentEnd osd) w Hc Hsz Hp
                    ltac:(lia) HF) as HA.
      destruct (OptimizedSegmentDispenser.allocateSegment osd _ w)
        as [[[e|] osd1] w1].
      * destruct HA as [-> Hw]. cbn [fst snd]. split.
        -- assert (Hl : log w1 = log w) by (destruct Hw as [->|Hw]; auto).
           unfold osd_inv; conjuncts; auto; try lia; rewrite ?Hl; auto.
           intros H. rewrite Er in H. discriminate.
        -- intros v Hv. discriminate.
      * destruct HA as (Hosd & HL & Hrange & Hseq).
        set (E := OptimizedSegmentDispenser.segmentEnd osd1) in *.
        rewrite Hosd. osd_fields. rewrite Hc.
        rewrite (add64_id (OptimizedSegmentDispenser.segmentEnd osd) (Step cfgN))
          by lia.
        split.
        -- unfold osd_inv; conjuncts; osd_fields; auto; try lia;
        try (ready_clause Hrdy).
           ++ rewrite HL. left. reflexivity.
           ++ intros H. rewrite Er in H. discriminate.
           ++ intros Hm. exists (size - 1). split; [lia|].
              rewrite (Hseq Hm). ring.
        -- intros v Hv. injection Hv as <-.
           exists E. split; [rewrite HL; left; reflexivity|].
           split; [lia|]. intros Hm.
           apply bool_decide_eq_false in Hm. rewrite (Hseq Hm). lia.
  - (* inside the segment *)
    osd_fields. rewrite Hc.
    rewrite (add64_id (OptimizedSegmentDispenser.currentNumber osd) (Step cfgN))
      by lia.
    split.
    + unfold osd_inv; conjuncts; osd_fields; auto; try lia;
        try (ready_clause Hrdy).
      intros Hm. destruct (Hal Hm) as (m & Hm0 & Hm1).
      assert (1 <= m) by (destruct (Z.eq_dec m 0); [subst m; lia | lia]).
      exists (m - 1). split; [lia|]. rewrite Hm1. ring.
    + intros v Hv. injection Hv as <-.
      exists (OptimizedSegmentDispenser.segmentEnd osd).
      split; [exact Hlog|]. split; [lia|]. intros Hm.
      apply bool_decide_eq_false in Hm.
      destruct (Hal Hm) as (m & Hm0 & Hm1).
      assert (1 <= m) by (destruct (Z.eq_dec m 0); [subst m; lia | lia]).
      assert (Step cfgN <= m * Step cfgN) by (clear - H Hstep; nia).
      lia.
Qed.

Lemma osd_preload_keeps (F : Z) (osd : OptimizedSegmentDispenser.t W) (w : W) :
  osd_inv F osd w ->
  F + size * Step cfgN <= Int64.max_int ->
  osd_inv F (fst (OptimizedSegmentDispenser.preloadNextSegment osd w))
          (snd (OptimizedSegmentDispenser.preloadNextSegment osd w)).
Proof using hook_log Hstep Hsize.
  intros (Hc & Hsz & Hp & Hlog & Hc0 & Hc1 & He & Hrdy & Hal) HF.
  assert (HB : Step cfgN <= size * Step cfgN) by nia.
  pose proof min_int_neg as Hmin.
  unfold OptimizedSegmentDispenser.preloadNextSegment.
  destruct (OptimizedSegmentDispenser.nextSegmentReady osd) eqn:Er.
  - cbn [fst snd]. unfold osd_inv; conjuncts; auto; lia.
  - rewrite Hc, Hsz, Hp.
    rewrite (mul64_id size (Step cfgN)) by lia.
    rewrite (add64_id (OptimizedSegmentDispenser.segmentEnd osd)
                      (size * Step cfgN)) by lia.
    pose proof (hook_log (OptimizedSegmentDispenser.segmentEnd osd
                          + size * Step cfgN) w) as HL.
    destruct (hook _ w) as [[e|] w1]; cbn [fst snd] in HL;
      unfold osd_inv; conjuncts; osd_fields; auto; try lia;
        try (ready_clause Hrdy); rewrite ?HL; auto.
    + intros H. rewrite Er in H. discriminate.
    + right. exact Hlog.
    + intros _. split; [lia|]. split; [reflexivity|]. left. reflexivity.
Qed.

Lemma osd_checkpoint_keeps (F : Z) (osd : OptimizedSegmentDispenser.t W) (w : W) :
  osd_inv F osd w ->
  osd_inv F (snd (fst (OptimizedSegmentDispenser.checkpoint osd w)))
          (snd (OptimizedSegmentDispenser.checkpoint osd w)).
Proof using hook_log.
  intros (Hc & Hsz & Hp & Hlog & Hc0 & Hc1 & He & Hrdy & Hal).
  unfold OptimizedSegmentDispenser.checkpoint. rewrite Hp.
  destruct (negb _).
  - pose proof (hook_log (OptimizedSegmentDispenser.currentNumber osd) w) as HL.
    destruct (hook _ w) as [[e|] w1]; cbn [fst snd] in HL;
      unfold osd_inv; conjuncts; osd_fields; auto; try lia;
        try (ready_clause Hrdy); rewrite ?HL; auto.
    + right. exact Hlog.
    + intros H. destruct (Hrdy H) as (H1 & H2 & H3).
      split; [exact H1|]. split; [exact H2|]. right. exact H3.
  - cbn [fst snd]. unfold osd_inv; conjuncts; auto; lia.
Qed.

Lemma osd_inv_mono (F F' : Z) (osd : OptimizedSegmentDispenser.t W)
      (w w' : W) :
  F <= F' -> grows w w' -> osd_inv F osd w -> osd_inv F' osd w'.
Proof.
  intros HF Hg (Hc & Hsz & Hp & Hlog & Hc0 & Hc1 & He & Hrdy & Hal).
  unfold osd_inv; conjuncts; auto; try lia.
  intros H. destruct (Hrdy H) as (H1 & H2 & H3). repeat split; auto; lia.
Qed.

Ltac grows_tac :=
  repeat match goal with
         | |- context [hook ?v ?w] =>
           let G := fresh "G" in
           pose proof (hook_grows v w) as G;
           destruct (hook v w) as [[?|] ?]; cbn [fst snd] in G
         | |- context [if ?b then _ else _] => destruct b
         end;
  cbn [fst snd]; first [apply grows_refl | assumption].

Lemma osd_take_grows (osd : OptimizedSegmentDispenser.t W) (w : W) :
  OptimizedSegmentDispenser.persistFunc osd = Some hook ->
  grows w (snd (OptimizedSegmentDispenser.take osd w)).
Proof using hook_log.
  intros Hp.
  unfold OptimizedSegmentDispenser.take, OptimizedSegmentDispenser.rollover,
    OptimizedSegmentDispenser.allocateSegment.
  rewrite Hp. grows_tac.
Qed.

Lemma osd_preload_grows (osd : OptimizedSegmentDispenser.t W) (w : W) :
  OptimizedSegmentDispenser.persistFunc osd = Some hook ->
  grows w (snd (OptimizedSegmentDispenser.preloadNextSegment osd w)).
Proof using hook_log.
  intros Hp. unfold OptimizedSegmentDispenser.preloadNextSegment.
  rewrite Hp. grows_tac.
Qed.

Lemma osd_checkpoint_grows (osd : OptimizedSegmentDispenser.t W) (w : W) :
  OptimizedSegmentDispenser.persistFunc osd = Some hook ->
  grows w (snd (OptimizedSegmentDispenser.checkpoint osd w)).
Proof using hook_log.
  intros Hp. unfold OptimizedSegmentDispenser.checkpoint.
  rewrite Hp. grows_tac.
Qed.

Lemma osd_persistCheckpoint_grows (osd : OptimizedSegmentDispenser.t W)
      (c : Z) (w : W) :
  OptimizedSegmentDispenser.persistFunc osd = Some hook ->
  grows w (snd (OptimizedSegmentDispenser.persistCheckpoint osd c w)).
Proof using hook_log.
  intros Hp. unfold OptimizedSegmentDispenser.persistCheckpoint.
  rewrite Hp. grows_tac.
Qed.

(** The hook of [allocateSegment] from a position below the frontier. *)
Lemma osd_persistSegment_spec (F : Z) (osd : OptimizedSegmentDispenser.t W)
      (start : Z) (w : W) :
  OptimizedSegmentDispenser.config osd = cfgN ->
  OptimizedSegmentDispenser.segmentSize osd = size ->
  OptimizedSegmentDispenser.persistFunc osd = Some hook ->
  0 <= start <= F ->
  F + size * Step cfgN <= Int64.max_int ->
  match OptimizedSegmentDispenser.persistSegment osd start w with
  | (Err _, w1) => grows w w1
  | (Ok e, w1) =>
    grows w w1 /\ In e (log w1)
    /\ start < e <= start + size * Step cfgN
    /\ (IncrMode cfgN <> IncrModeFixed -> e = start + size * Step cfgN)
  end.
Proof using hook_log Hstep Hsize.
  intros Hc Hsz Hp Hs HF.
  pose proof (osd_allocate_spec F osd start w Hc Hsz Hp Hs HF) as HA.
  rewrite OSD_allocateSegment_steps in HA.
  destruct (OptimizedSegmentDispenser.persistSegment osd start w)
    as [[e|err] w1].
  - destruct HA as (_ & HL & Hr & Hseq). revert HL Hr Hseq. osd_fields.
    intros HL Hr Hseq. split.
    + intros x Hx. rewrite HL. right. exact Hx.
    + split; [rewrite HL; left; reflexivity|]. split; [exact Hr | exact Hseq].
  - destruct HA as [_ [->|HL]]; [apply grows_refl|].
    intros x Hx. rewrite HL. exact Hx.
Qed.

Lemma osd_persistNext_spec (F : Z) (osd : OptimizedSegmentDispenser.t W)
      (start : Z) (w : W) :
  OptimizedSegmentDispenser.config osd = cfgN ->
  OptimizedSegmentDispenser.segmentSize osd = size ->
  OptimizedSegmentDispenser.persistFunc osd = Some hook ->
  0 <= start <= F ->
  F + size * Step cfgN <= Int64.max_int ->
  match OptimizedSegmentDispenser.persistNext osd start w with
  | (None, w1) => grows w w1
  | (Some e, w1) =>
    grows w w1 /\ In e (log w1) /\ e = start + size * Step cfgN
  end.
Proof using hook_log Hstep Hsize.
  intros Hc Hsz Hp Hs HF.
  assert (HB : 1 <= size * Step cfgN) by nia.
  pose proof min_int_neg as Hmin.
  unfold OptimizedSegmentDispenser.persistNext. rewrite Hc, Hsz, Hp.
  rewrite (mul64_id size (Step cfgN)) by lia.
  rewrite (add64_id start (size * Step cfgN)) by lia.
  pose proof (hook_grows (start + size * Step cfgN) w) as G.
  pose proof (hook_logged (start + size * Step cfgN) w) as L.
  destruct (hook _ w) as [[e|] w1]; cbn [fst snd] in G, L; [exact G|].
  split; [exact G|]. split; [apply L; reflexivity | reflexivity].
Qed.

(** One event keeps the invariants, with the frontier one segment
    further, and a call that it ends has handed out a number below a
    position of the log. *)
Lemma osd_step_keeps (ev : event) (F : Z)
      (osd : OptimizedSegmentDispenser.t W) (pending : nat) (f : flight)
      (w : W) :
  let fixed := bool_decide (IncrMode cfgN = IncrModeFixed) in
  osd_inv F osd w ->
  fl_inv fixed F f w ->
  F + size * Step cfgN <= Int64.max_int ->
  let r := osd_step ev osd pending f w in
  osd_inv (F + size * Step cfgN) (snd (fst (fst (fst r)))) (snd r)
  /\ fl_inv fixed (F + size * Step cfgN) (snd (fst r)) (snd r)
  /\ match fst (fst (fst (fst r))) with
     | Some o => committed fixed (fst o) (snd o)
     | None => True
     end.
Proof using hook_log Hstep Hsize.
  intros fixed Hinv Hfl HF.
  assert (HB : Step cfgN <= size * Step cfgN) by nia.
  pose proof min_int_neg as Hmin.
  assert (Hkeep : forall f1 w1,
             grows w w1 ->
             fl_inv fixed (F + size * Step cfgN) f1 w1 ->
             osd_inv (F + size * Step cfgN) osd w1
             /\ fl_inv fixed (F + size * Step cfgN) f1 w1 /\ True).
  { intros f1 w1 Hg Hf1. split; [|split; [exact Hf1 | exact I]].
    apply (osd_inv_mono F _ osd w w1); [lia | exact Hg | exact Hinv]. }
  assert (Hfl' : forall w1, grows w w1 ->
                            fl_inv fixed (F + size * Step cfgN) f w1).
  { intros w1 Hg. apply (fl_inv_mono fixed F _ f w w1); [lia|exact Hg|exact Hfl]. }
  assert (Hskip : osd_inv (F + size * Step cfgN) osd w
                  /\ fl_inv fixed (F + size * Step cfgN) f w /\ True).
  { apply Hkeep; [apply grows_refl | apply Hfl'; apply grows_refl]. }
  pose proof Hinv as (Hc & Hsz & Hp & Hlog & Hc0 & Hc1 & He & Hrdy & Hal).
  pose proof Hfl as [Hcall Hload].
  cbv zeta. destruct ev; cbn [osd_step].
  - (* CallNext *)
    destruct (call f); try exact Hskip.
    destruct (_ && _); [exact Hskip|].
    destruct (osd_take_keeps F osd w Hinv HF) as [Hinv1 Hobs].
    pose proof (osd_take_grows osd w Hp) as Hg.
    destruct (OptimizedSegmentDispenser.take osd w) as [[[r spawn] osd1] w1].
    cbn [fst snd] in *.
    split; [exact Hinv1|]. split; [apply Hfl'; exact Hg | exact Hobs].
  - (* RunPreload *)
    destruct pending as [|p]; [exact Hskip|].
    destruct (load f); try exact Hskip.
    pose proof (osd_preload_keeps F osd w Hinv HF) as Hinv1.
    pose proof (osd_preload_grows osd w Hp) as Hg.
    destruct (OptimizedSegmentDispenser.preloadNextSegment osd w) as [osd1 w1].
    cbn [fst snd] in *.
    split; [apply (osd_inv_mono F _ osd1 w1 w1);
            [lia | apply grows_refl | exact Hinv1]|].
    split; [apply Hfl'; exact Hg | exact I].
  - (* Tick *)
    destruct (call f); try exact Hskip.
    destruct (tick f); try exact Hskip.
    destruct (OptimizedSegmentDispenser.checkpointTicker osd); [|exact Hskip].
    pose proof (osd_checkpoint_keeps F osd w Hinv) as Hinv1.
    pose proof (osd_checkpoint_grows osd w Hp) as Hg.
    destruct (OptimizedSegmentDispenser.checkpoint osd w) as [[e osd1] w1].
    cbn [fst snd] in *.
    split; [apply (osd_inv_mono F _ osd1 w1 w1);
            [lia | apply grows_refl | exact Hinv1]|].
    split; [apply Hfl'; exact Hg | exact I].
  - (* NextEnter *)
    destruct (call f) eqn:Ec; try exact Hskip.
    destruct (load f) eqn:El; try exact Hskip.
    destruct (_ && _); [|exact Hskip].
    cbn [fst snd]. apply Hkeep; [apply grows_refl|].
    split; cbn [call load set_call]; [exact I|].
    rewrite El. exact I.
  - (* NextPersist *)
    destruct (call f) eqn:Ec; try exact Hskip.
    pose proof (osd_persistSegment_spec F osd
                  (OptimizedSegmentDispenser.segmentEnd osd) w Hc Hsz Hp
                  ltac:(lia) HF) as HS.
    destruct (OptimizedSegmentDispenser.persistSegment osd _ w)
      as [[e|err] w1]; cbn [fst snd].
    + destruct HS as (Hg & Hin & Hr & Hseq).
      apply Hkeep; [exact Hg|].
      destruct (Hfl' w1 Hg) as [_ Hl1].
      split; cbn [call load set_call]; [|exact Hl1].
      split; [lia|]. split; [lia|]. split; [exact Hin|].
      intros Hm. unfold fixed in Hm. apply bool_decide_eq_false in Hm.
      exact (Hseq Hm).
    + destruct (Hfl' w1 HS) as [_ Hl1].
      split; [apply (osd_inv_mono F _ osd w w1); [lia | exact HS | exact Hinv]|].
      split; [split; cbn [call load set_call]; [exact I | exact Hl1]|].
      intros v Hv. discriminate Hv.
  - (* NextFinish *)
    destruct (call f) as [| |s e] eqn:Ec; try exact Hskip.
    destruct Hcall as (Hs & Hse & Hin & Hseq).
    unfold OptimizedSegmentDispenser.issue. osd_fields. rewrite Hc.
    rewrite (add64_id s (Step cfgN)) by lia.
    destruct (Hfl' w (grows_refl w)) as [_ Hl1].
    split; [|split].
    + unfold osd_inv; conjuncts; osd_fields; auto; try lia;
        try (ready_clause Hrdy).
      intros Hm. exists (size - 1). split; [lia|].
      rewrite (Hseq (bool_decide_eq_false_2 _ Hm)). ring.
    + split; cbn [call load set_call]; [exact I | exact Hl1].
    + intros v Hv. injection Hv as <-. exists e.
      split; [exact Hin|]. split; [lia|]. intros Hm. rewrite (Hseq Hm). lia.
  - (* PreloadEnter *)
    destruct pending as [|p]; [exact Hskip|].
    destruct (load f) eqn:El; try exact Hskip.
    destruct (OptimizedSegmentDispenser.nextSegmentReady osd);
      cbn [fst snd]; [exact Hskip|].
    apply Hkeep; [apply grows_refl|].
    destruct (Hfl' w (grows_refl w)) as [Hc1' _].
    split; cbn [call load set_load]; [exact Hc1' | lia].
  - (* PreloadPersist *)
    destruct (load f) as [|s|s e] eqn:El; try exact Hskip.
    pose proof (osd_persistNext_spec F osd s w Hc Hsz Hp Hload HF) as HS.
    destruct (OptimizedSegmentDispenser.persistNext osd s w) as [[e|] w1];
      cbn [fst snd].
    + destruct HS as (Hg & Hin & ->).
      apply Hkeep; [exact Hg|].
      destruct (Hfl' w1 Hg) as [Hc1' _].
      split; cbn [call load set_load]; [exact Hc1'|].
      split; [lia|]. split; [reflexivity | exact Hin].
    + apply Hkeep; [exact HS|].
      destruct (Hfl' w1 HS) as [Hc1' _].
      split; cbn [call load set_load]; [exact Hc1' | exact I].
  - (* PreloadFinish *)
    destruct (load f) as [|s|s e] eqn:El; try exact Hskip.
    destruct Hload as (Hs & He' & Hin).
    cbn [fst snd].
    destruct (Hfl' w (grows_refl w)) as [Hc1' _].
    split; [|split; [split; cbn [call load set_load]; [exact Hc1' | exact I]
                    | exact I]].
    unfold osd_inv; conjuncts; osd_fields; auto; try lia;
        try (ready_clause Hrdy).
    intros _. split; [lia|]. split; [exact He' | exact Hin].
  - (* TickRead *)
    destruct (call f) eqn:Ec; try exact Hskip.
    destruct (tick f); try exact Hskip.
    destruct (OptimizedSegmentDispenser.checkpointTicker osd); [|exact Hskip].
    cbn [fst snd]. apply Hkeep; [apply grows_refl|].
    exact (Hfl' w (grows_refl w)).
  - (* TickPersist *)
    destruct (tick f) as [|c|c]; try exact Hskip.
    pose proof (osd_persistCheckpoint_grows osd c w Hp) as Hg.
    destruct (OptimizedSegmentDispenser.persistCheckpoint osd c w)
      as [[|] w1]; cbn [fst snd] in *;
      (apply Hkeep; [exact Hg | exact (Hfl' w1 Hg)]).
  - (* TickFinish: only [lastPersisted] changes *)
    destruct (tick f) as [|c|c]; exact Hskip.
Qed.

Lemma osd_steps_committed (evs : list event) :
  forall (F : Z) (osd : OptimizedSegmentDispenser.t W) (pending : nat)
         (f : flight) (w : W),
    osd_inv F osd w ->
    fl_inv (bool_decide (IncrMode cfgN = IncrModeFixed)) F f w ->
    F + Z.of_nat (length evs) * (size * Step cfgN) <= Int64.max_int ->
    Forall (fun o => committed (bool_decide (IncrMode cfgN = IncrModeFixed))
                               (fst o) (snd o))
           (fst (fst (osd_steps evs osd pending f w))).
Proof using hook_log Hstep Hsize.
  assert (HB : 1 <= size * Step cfgN) by nia.
  induction evs as [|ev rest IH]; intros F osd pending f w Hinv Hfl HF.
  - constructor.
  - change (length (ev :: rest)) with (S (length rest)) in HF.
    rewrite Nat2Z.inj_succ in HF. cbn [osd_steps].
    pose proof (osd_step_keeps ev F osd pending f w Hinv Hfl ltac:(nia))
      as (Hinv1 & Hfl1 & Hobs).
    destruct (osd_step ev osd pending f w) as [[[[o osd1] p1] f1] w1].
    cbn [fst snd] in Hinv1, Hfl1, Hobs.
    specialize (IH (F + size * Step cfgN) osd1 p1 f1 w1 Hinv1 Hfl1 ltac:(nia)).
    destruct (osd_steps rest osd1 p1 f1 w1) as [[obs osd2] w2].
    cbn [fst snd] in *.
    destruct o as [o|]; cbn [observed]; [constructor; assumption | exact IH].
Qed.

Lemma fl_inv_idle (fixed : bool) (F : Z) (w : W) : fl_inv fixed F idle w.
Proof. split; exact I. Qed.

(** Along every schedule that stays below the frontier, each number
    handed out lies below a position that is in the log when the call
    returns. *)
Lemma osd_run_committed (evs : list event) :
  forall (F : Z) (osd : OptimizedSegmentDispenser.t W) (pending : nat) (w : W),
    osd_inv F osd w ->
    F + Z.of_nat (length evs) * (size * Step cfgN) <= Int64.max_int ->
    Forall (fun o => committed (bool_decide (IncrMode cfgN = IncrModeFixed))
                               (fst o) (snd o))
           (fst (fst (osd_run evs osd pending w))).
Proof using hook_log Hstep Hsize.
  intros F osd pending w Hinv HF. unfold osd_run.
  apply (osd_steps_committed evs F); [exact Hinv | apply fl_inv_idle | exact HF].
Qed.

Definition sd_inv (F : Z) (sd : SegmentDispenser.t W) (w : W) : Prop :=
  SegmentDispenser.config sd = cfgN
  /\ SegmentDispenser.segmentSize sd = size
  /\ SegmentDispenser.persistFunc sd = Some hook
  /\ In (SegmentDispenser.segmentEnd sd) (log w)
  /\ 0 <= SegmentDispenser.currentNumber sd
  /\ SegmentDispenser.currentNumber sd
     < SegmentDispenser.segmentEnd sd + Step cfgN
  /\ 0 < SegmentDispenser.segmentEnd sd <= F
  /\ (SegmentDispenser.nextSegmentReady sd = true ->
      0 <= SegmentDispenser.nextSegmentStart sd <= F
      /\ SegmentDispenser.nextSegmentEnd sd
         = SegmentDispenser.nextSegmentStart sd + size * Step cfgN
      /\ In (SegmentDispenser.nextSegmentEnd sd) (log w)).

Ltac sd_fields :=
  unfold SegmentDispenser.set_segment, SegmentDispenser.set_next;
  cbn [fst snd SegmentDispenser.config SegmentDispenser.currentNumber
       SegmentDispenser.segmentEnd SegmentDispenser.segmentSize
       SegmentDispenser.threshold SegmentDispenser.nextSegmentStart
       SegmentDispenser.nextSegmentEnd SegmentDispenser.nextSegmentReady
       SegmentDispenser.persistFunc].

Lemma sd_allocate_spec (F : Z) (sd : SegmentDispenser.t W) (start : Z) (w : W) :
  SegmentDispenser.config sd = cfgN ->
  SegmentDispenser.segmentSize sd = size ->
  SegmentDispenser.persistFunc sd = Some hook ->
  0 <= start <= F ->
  F + size * Step cfgN <= Int64.max_int ->
  match SegmentDispenser.allocateSegment K sd start w with
  | (Some _, sd1, w1) => sd1 = sd /\ (w1 = w \/ log w1 = log w)
  | (None, sd1, w1) =>
    sd1 = SegmentDispenser.set_segment sd start (SegmentDispenser.segmentEnd sd1)
    /\ log w1 = SegmentDispenser.segmentEnd sd1 :: log w
    /\ start < SegmentDispenser.segmentEnd sd1 <= start + size * Step cfgN
  end.
Proof using hook_log Hstep Hsize.
  intros Hc Hsz Hp Hs HF.
  assert (HB : 1 <= size * Step cfgN) by nia.
  pose proof min_int_neg as Hmin.
  unfold SegmentDispenser.allocateSegment.
  rewrite Hc, Hsz, Hp.
  rewrite (mul64_id size (Step cfgN)) by lia.
  rewrite (add64_id start (size * Step cfgN)) by lia.
  set (M := Int64.sub (pow10_loop (Z.to_nat (Length cfgN)) 1) 1).
  destruct (Type_ cfgN =? TypeIncrFixed K); cbn [andb].
  - destruct (Z.geb_spec start M) as [Hge|Hlt].
    + split; [reflexivity | left; reflexivity].
    + destruct (Z.gtb_spec (start + size * Step cfgN) M) as [Hgt|Hle].
      * rewrite (add64_id M 1) by lia.
        pose proof (hook_log (M + 1) w) as HL.
        destruct (hook (M + 1) w) as [[e|] w1]; cbn [fst snd] in HL.
        -- split; [reflexivity | right; exact HL].
        -- sd_fields. split; [reflexivity|]. split; [exact HL|]. lia.
      * pose proof (hook_log (start + size * Step cfgN) w) as HL.
        destruct (hook (start + size * Step cfgN) w) as [[e|] w1];
          cbn [fst snd] in HL.
        -- split; [reflexivity | right; exact HL].
        -- sd_fields. split; [reflexivity|]. split; [exact HL|]. lia.
  - pose proof (hook_log (start + size * Step cfgN) w) as HL.
    destruct (hook (start + size * Step cfgN) w) as [[e|] w1];
      cbn [fst snd] in HL.
    + split; [reflexivity | right; exact HL].
    + sd_fields. split; [reflexivity|]. split; [exact HL|]. lia.
Qed.

Lemma sd_take_keeps (F : Z) (sd : SegmentDispenser.t W) (w : W) :
  sd_inv F sd w ->
  F + size * Step cfgN <= Int64.max_int ->
  sd_inv (F + size * Step cfgN)
         (snd (fst (SegmentDispenser.take K sd w)))
         (snd (SegmentDispenser.take K sd w))
  /\ committed true (fst (fst (fst (SegmentDispenser.take K sd w))))
               (snd (SegmentDispenser.take K sd w)).
Proof using hook_log Hstep Hsize.
  intros (Hc & Hsz & Hp & Hlog & Hc0 & Hc1 & He & Hrdy) HF.
  assert (HB : Step cfgN <= size * Step cfgN) by nia.
  pose proof min_int_neg as Hmin.
  unfold SegmentDispenser.take, SegmentDispenser.rollover.
  destruct (Z.geb_spec (SegmentDispenser.currentNumber sd)
                       (SegmentDispenser.segmentEnd sd)) as [Hge|Hlt].
  - destruct (SegmentDispenser.nextSegmentReady sd) eqn:Er.
    + destruct (Hrdy eq_refl) as (Hns & Hne & Hnl).
      sd_fields. rewrite Hc.
      rewrite (add64_id (SegmentDispenser.nextSegmentStart sd) (Step cfgN))
        by lia.
      split.
      * unfold sd_inv; conjuncts; sd_fields; auto; try lia;
        try (ready_clause Hrdy).
      * intros v Hv. injection Hv as <-.
        exists (SegmentDispenser.nextSegmentEnd sd).
        split; [exact Hnl|]. split; [lia|]. discriminate.
    + pose proof (sd_allocate_spec F sd (SegmentDispenser.segmentEnd sd) w
                    Hc Hsz Hp ltac:(lia) HF) as HA.
      destruct (SegmentDispenser.allocateSegment K sd _ w) as [[[e|] sd1] w1].
      * destruct HA as [-> Hw]. cbn [fst snd]. split.
        -- assert (Hl : log w1 = log w) by (destruct Hw as [->|Hw]; auto).
           unfold sd_inv; conjuncts; auto; try lia; rewrite ?Hl; auto.
           intros H. rewrite Er in H. discriminate.
        -- intros v Hv. discriminate.
      * destruct HA as (Hsd & HL & Hrange).
        set (E := SegmentDispenser.segmentEnd sd1) in *.
        rewrite Hsd. sd_fields. rewrite Hc.
        rewrite (add64_id (SegmentDispenser.segmentEnd sd) (Step cfgN)) by lia.
        split.
        -- unfold sd_inv; conjuncts; sd_fields; auto; try lia;
        try (ready_clause Hrdy).
           ++ rewrite HL. left. reflexivity.
           ++ intros H. rewrite Er in H. discriminate.
        -- intros v Hv. injection Hv as <-.
           exists E. split; [rewrite HL; left; reflexivity|].
           split; [lia|]. discriminate.
  - sd_fields. rewrite Hc.
    rewrite (add64_id (SegmentDispenser.currentNumber sd) (Step cfgN)) by lia.
    split.
    + unfold sd_inv; conjuncts; sd_fields; auto; try lia;
        try (ready_clause Hrdy).
    + intros v Hv. injection Hv as <-.
      exists (SegmentDispenser.segmentEnd sd).
      split; [exact Hlog|]. split; [lia|]. discriminate.
Qed.

Lemma sd_preload_keeps (F : Z) (sd : SegmentDispenser.t W) (w : W) :
  sd_inv F sd w ->
  F + size * Step cfgN <= Int64.max_int ->
  sd_inv F (fst (SegmentDispenser.preloadNextSegment sd w))
         (snd (SegmentDispenser.preloadNextSegment sd w)).
Proof using hook_log Hstep Hsize.
  intros (Hc & Hsz & Hp & Hlog & Hc0 & Hc1 & He & Hrdy) HF.
  assert (HB : Step cfgN <= size * Step cfgN) by nia.
  pose proof min_int_neg as Hmin.
  unfold SegmentDispenser.preloadNextSegment.
  destruct (SegmentDispenser.nextSegmentReady sd) eqn:Er.
  - cbn [fst snd]. unfold sd_inv; conjuncts; auto; lia.
  - rewrite Hc, Hsz, Hp.
    rewrite (mul64_id size (Step cfgN)) by lia.
    rewrite (add64_id (SegmentDispenser.segmentEnd sd) (size * Step cfgN)) by lia.
    pose proof (hook_log (SegmentDispenser.segmentEnd sd + size * Step cfgN) w)
      as HL.
    destruct (hook _ w) as [[e|] w1]; cbn [fst snd] in HL;
      unfold sd_inv; conjuncts; sd_fields; auto; try lia; rewrite ?HL; auto.
    + intros H. rewrite Er in H. discriminate.
    + right. exact Hlog.
    + intros _. split; [lia|]. split; [reflexivity|]. left. reflexivity.
Qed.

Lemma sd_inv_mono (F F' : Z) (sd : SegmentDispenser.t W) (w w' : W) :
  F <= F' -> grows w w' -> sd_inv F sd w -> sd_inv F' sd w'.
Proof.
  intros HF Hg (Hc & Hsz & Hp & Hlog & Hc0 & Hc1 & He & Hrdy).
  unfold sd_inv; conjuncts; auto; try lia.
  intros H. destruct (Hrdy H) as (H1 & H2 & H3). repeat split; auto; lia.
Qed.

Lemma sd_take_grows (sd : SegmentDispenser.t W) (w : W) :
  SegmentDispenser.persistFunc sd = Some hook ->
  grows w (snd (SegmentDispenser.take K sd w)).
Proof using hook_log.
  intros Hp.
  unfold SegmentDispenser.take, SegmentDispenser.rollover,
    SegmentDispenser.allocateSegment.
  rewrite Hp. grows_tac.
Qed.

Lemma sd_preload_grows (sd : SegmentDispenser.t W) (w : W) :
  SegmentDispenser.persistFunc sd = Some hook ->
  grows w (snd (SegmentDispenser.preloadNextSegment sd w)).
Proof using hook_log.
  intros Hp. unfold SegmentDispenser.preloadNextSegment.
  rewrite Hp. grows_tac.
Qed.

Lemma sd_persistSegment_spec (F : Z) (sd : SegmentDispenser.t W)
      (start : Z) (w : W) :
  SegmentDispenser.config sd = cfgN ->
  SegmentDispenser.segmentSize sd = size ->
  SegmentDispenser.persistFunc sd = Some hook ->
  0 <= start <= F ->
  F + size * Step cfgN <= Int64.max_int ->
  match SegmentDispenser.persistSegment K sd start w with
  | (Err _, w1) => grows w w1
  | (Ok e, w1) =>
    grows w w1 /\ In e (log w1) /\ start < e <= start + size * Step cfgN
  end.
Proof using hook_log Hstep Hsize.
  intros Hc Hsz Hp Hs HF.
  pose proof (sd_allocate_spec F sd start w Hc Hsz Hp Hs HF) as HA.
  rewrite SD_allocateSegment_steps in HA.
  destruct (SegmentDispenser.persistSegment K sd start w) as [[e|err] w1].
  - destruct HA as (_ & HL & Hr). revert HL Hr. sd_fields. intros HL Hr.
    split.
    + intros x Hx. rewrite HL. right. exact Hx.
    + split; [rewrite HL; left; reflexivity | exact Hr].
  - destruct HA as [_ [->|HL]]; [apply grows_refl|].
    intros x Hx. rewrite HL. exact Hx.
Qed.

Lemma sd_persistNext_spec (F : Z) (sd : SegmentDispenser.t W)
      (start : Z) (w : W) :
  SegmentDispenser.config sd = cfgN ->
  SegmentDispenser.segmentSize sd = size ->
  SegmentDispenser.persistFunc sd = Some hook ->
  0 <= start <= F ->
  F + size * Step cfgN <= Int64.max_int ->
  match SegmentDispenser.persistNext sd start w with
  | (None, w1) => grows w w1
  | (Some e, w1) =>
    grows w w1 /\ In e (log w1) /\ e = start + size * Step cfgN
  end.
Proof using hook_log Hstep Hsize.
  intros Hc Hsz Hp Hs HF.
  assert (HB : 1 <= size * Step cfgN) by nia.
  pose proof min_int_neg as Hmin.
  unfold SegmentDispenser.persistNext. rewrite Hc, Hsz, Hp.
  rewrite (mul64_id size (Step cfgN)) by lia.
  rewrite (add64_id start (size * Step cfgN)) by lia.
  pose proof (hook_grows (start + size * Step cfgN) w) as G.
  pose proof (hook_logged (start + size * Step cfgN) w) as L.
  destruct (hook _ w) as [[e|] w1]; cbn [fst snd] in G, L; [exact G|].
  split; [exact G|]. split; [apply L; reflexivity | reflexivity].
Qed.

Lemma sd_step_keeps (ev : event) (F : Z)
      (sd : SegmentDispenser.t W) (pending : nat) (f : flight) (w : W) :
  sd_inv F sd w ->
  fl_inv true F f w ->
  F + size * Step cfgN <= Int64.max_int ->
  let r := sd_step K ev sd pending f w in
  sd_inv (F + size * Step cfgN) (snd (fst (fst (fst r)))) (snd r)
  /\ fl_inv true (F + size * Step cfgN) (snd (fst r)) (snd r)
  /\ match fst (fst (fst (fst r))) with
     | Some o => committed true (fst o) (snd o)
     | None => True
     end.
Proof using hook_log Hstep Hsize.
  intros Hinv Hfl HF.
  assert (HB : Step cfgN <= size * Step cfgN) by nia.
  pose proof min_int_neg as Hmin.
  assert (Hkeep : forall f1 w1,
             grows w w1 ->
             fl_inv true (F + size * Step cfgN) f1 w1 ->
             sd_inv (F + size * Step cfgN) sd w1
             /\ fl_inv true (F + size * Step cfgN) f1 w1 /\ True).
  { intros f1 w1 Hg Hf1. split; [|split; [exact Hf1 | exact I]].
    apply (sd_inv_mono F _ sd w w1); [lia | exact Hg | exact Hinv]. }
  assert (Hfl' : forall w1, grows w w1 ->
                            fl_inv true (F + size * Step cfgN) f w1).
  { intros w1 Hg. apply (fl_inv_mono true F _ f w w1); [lia|exact Hg|exact Hfl]. }
  assert (Hskip : sd_inv (F + size * Step cfgN) sd w
                  /\ fl_inv true (F + size * Step cfgN) f w /\ True).
  { apply Hkeep; [apply grows_refl | apply Hfl'; apply grows_refl]. }
  pose proof Hinv as (Hc & Hsz & Hp & Hlog & Hc0 & Hc1 & He & Hrdy).
  pose proof Hfl as [Hcall Hload].
  cbv zeta. destruct ev; cbn [sd_step]; try exact Hskip.
  - (* CallNext *)
    destruct (call f); try exact Hskip.
    destruct (_ && _); [exact Hskip|].
    destruct (sd_take_keeps F sd w Hinv HF) as [Hinv1 Hobs].
    pose proof (sd_take_grows sd w Hp) as Hg.
    destruct (SegmentDispenser.take K sd w) as [[[r spawn] sd1] w1].
    cbn [fst snd] in *.
    split; [exact Hinv1|]. split; [apply Hfl'; exact Hg | exact Hobs].
  - (* RunPreload *)
    destruct pending as [|p]; [exact Hskip|].
    destruct (load f); try exact Hskip.
    pose proof (sd_preload_keeps F sd w Hinv HF) as Hinv1.
    pose proof (sd_preload_grows sd w Hp) as Hg.
    destruct (SegmentDispenser.preloadNextSegment sd w) as [sd1 w1].
    cbn [fst snd] in *.
    split; [apply (sd_inv_mono F _ sd1 w1 w1);
            [lia | apply grows_refl | exact Hinv1]|].
    split; [apply Hfl'; exact Hg | exact I].
  - (* NextEnter *)
    destruct (call f) eqn:Ec; try exact Hskip.
    destruct (load f) eqn:El; try exact Hskip.
    destruct (_ && _); [|exact Hskip].
    cbn [fst snd]. apply Hkeep; [apply grows_refl|].
    split; cbn [call load set_call]; [exact I|].
    rewrite El. exact I.
  - (* NextPersist *)
    destruct (call f) eqn:Ec; try exact Hskip.
    pose proof (sd_persistSegment_spec F sd (SegmentDispenser.segmentEnd sd) w
                  Hc Hsz Hp ltac:(lia) HF) as HS.
    destruct (SegmentDispenser.persistSegment K sd _ w) as [[e|err] w1];
      cbn [fst snd].
    + destruct HS as (Hg & Hin & Hr).
      apply Hkeep; [exact Hg|].
      destruct (Hfl' w1 Hg) as [_ Hl1].
      split; cbn [call load set_call]; [|exact Hl1].
      split; [lia|]. split; [lia|]. split; [exact Hin|].
      intros Hm. discriminate Hm.
    + destruct (Hfl' w1 HS) as [_ Hl1].
      split; [apply (sd_inv_mono F _ sd w w1); [lia | exact HS | exact Hinv]|].
      split; [split; cbn [call load set_call]; [exact I | exact Hl1]|].
      intros v Hv. discriminate Hv.
  - (* NextFinish *)
    destruct (call f) as [| |s e] eqn:Ec; try exact Hskip.
    destruct Hcall as (Hs & Hse & Hin & _).
    unfold SegmentDispenser.issue. sd_fields. rewrite Hc.
    rewrite (add64_id s (Step cfgN)) by lia.
    destruct (Hfl' w (grows_refl w)) as [_ Hl1].
    split; [|split].
    + unfold sd_inv; conjuncts; sd_fields; auto; try lia;
        try (ready_clause Hrdy).
    + split; cbn [call load set_call]; [exact I | exact Hl1].
    + intros v Hv. injection Hv as <-. exists e.
      split; [exact Hin|]. split; [lia|]. intros Hm. discriminate Hm.
  - (* PreloadEnter *)
    destruct pending as [|p]; [exact Hskip|].
    destruct (load f) eqn:El; try exact Hskip.
    destruct (SegmentDispenser.nextSegmentReady sd);
      cbn [fst snd]; [exact Hskip|].
    apply Hkeep; [apply grows_refl|].
    destruct (Hfl' w (grows_refl w)) as [Hc1' _].
    split; cbn [call load set_load]; [exact Hc1' | lia].
  - (* PreloadPersist *)
    destruct (load f) as [|s|s e] eqn:El; try exact Hskip.
    pose proof (sd_persistNext_spec F sd s w Hc Hsz Hp Hload HF) as HS.
    destruct (SegmentDispenser.persistNext sd s w) as [[e|] w1];
      cbn [fst snd].
    + destruct HS as (Hg & Hin & ->).
      apply Hkeep; [exact Hg|].
      destruct (Hfl' w1 Hg) as [Hc1' _].
      split; cbn [call load set_load]; [exact Hc1'|].
      split; [lia|]. split; [reflexivity | exact Hin].
    + apply Hkeep; [exact HS|].
      destruct (Hfl' w1 HS) as [Hc1' _].
      split; cbn [call load set_load]; [exact Hc1' | exact I].
  - (* PreloadFinish *)
    destruct (load f) as [|s|s e] eqn:El; try exact Hskip.
    destruct Hload as (Hs & He' & Hin).
    cbn [fst snd].
    destruct (Hfl' w (grows_refl w)) as [Hc1' _].
    split; [|split; [split; cbn [call load set_load]; [exact Hc1' | exact I]
                    | exact I]].
    unfold sd_inv; conjuncts; sd_fields; auto; try lia;
        try (ready_clause Hrdy).
    intros _. split; [lia|]. split; [exact He' | exact Hin].
Qed.

Lemma sd_steps_committed (evs : list event) :
  forall (F : Z) (sd : SegmentDispenser.t W) (pending : nat) (f : flight)
         (w : W),
    sd_inv F sd w ->
    fl_inv true F f w ->
    F + Z.of_nat (length evs) * (size * Step cfgN) <= Int64.max_int ->
    Forall (fun o => committed true (fst o) (snd o))
           (fst (fst (sd_steps K evs sd pending f w))).
Proof using hook_log Hstep Hsize.
  assert (HB : 1 <= size * Step cfgN) by nia.
  induction evs as [|ev rest IH]; intros F sd pending f w Hinv Hfl HF.
  - constructor.
  - change (length (ev :: rest)) with (S (length rest)) in HF.
    rewrite Nat2Z.inj_succ in HF. cbn [sd_steps].
    pose proof (sd_step_keeps ev F sd pending f w Hinv Hfl ltac:(nia))
      as (Hinv1 & Hfl1 & Hobs).
    destruct (sd_step K ev sd pending f w) as [[[[o sd1] p1] f1] w1].
    cbn [fst snd] in Hinv1, Hfl1, Hobs.
    specialize (IH (F + size * Step cfgN) sd1 p1 f1 w1 Hinv1 Hfl1 ltac:(nia)).
    destruct (sd_steps K rest sd1 p1 f1 w1) as [[obs sd2] w2].
    cbn [fst snd] in *.
    destruct o as [o|]; cbn [observed]; [constructor; assumption | exact IH].
Qed.

Lemma sd_run_committed (evs : list event) :
  forall (F : Z) (sd : SegmentDispenser.t W) (pending : nat) (w : W),
    sd_inv F sd w ->
    F + Z.of_nat (length evs) * (size * Step cfgN) <= Int64.max_int ->
    Forall (fun o => committed true (fst o) (snd o))
           (fst (fst (sd_run K evs sd pending w))).
Proof using hook_log Hstep Hsize.
  intros F sd pending w Hinv HF. unfold sd_run.
  apply (sd_steps_committed evs F); [exact Hinv | apply fl_inv_idle | exact HF].
Qed.

End Commit.

(** The defaults of the two segment constructors. *)
Definition effective_step (cfg : Config) : Z :=
  if Step cfg =? 0 then 1 else Step cfg.
Definition effective_size (segmentSize : Z) : Z :=
  if segmentSize <=? 0 then 100 else segmentSize.
Definition normalized (cfg : Config) : Config :=
  if Step cfg =? 0 then set_Step cfg 1 else cfg.

Lemma validate_incremental (cfg : Config) :
  validateConfig cfg = None ->
  Type_ cfg = TypeNumericIncremental ->
  0 <= Starting cfg /\ 0 <= Step cfg.
Proof.
  unfold validateConfig. intros H HT. rewrite HT in H.
  cbn [Z.ltb Z.gtb Z.eqb Z.compare TypeNumericIncremental
       TypeNumericRandom TypeUUID Pos.compare Pos.compare_cont Pos.eqb orb] in H.
  destruct (_ && _); [discriminate|].
  destruct (_ && _); [discriminate|].
  destruct (Z.ltb_spec (Starting cfg) 0); [discriminate|].
  destruct (Z.ltb_spec (Step cfg) 0); [discriminate|].
  lia.
Qed.

Lemma normalized_step (cfg : Config) :
  0 <= Step cfg ->
  Step (normalized cfg) = effective_step cfg /\ 1 <= effective_step cfg.
Proof.
  intros H. unfold normalized, effective_step.
  destruct (Z.eqb_spec (Step cfg) 0); cbn; lia.
Qed.

Lemma effective_size_pos (segmentSize : Z) : 1 <= effective_size segmentSize.
Proof.
  unfold effective_size. destruct (Z.leb_spec segmentSize 0); lia.
Qed.

Lemma osd_created {W : Type} (log : W -> list Z)
      (hook : Z -> W -> option error * W)
      (cfg : Config) (segmentSize interval : Z) (thr : spec_float)
      (w w1 : W) (osd : OptimizedSegmentDispenser.t W) :
  (forall v w, log (snd (hook v w)) =
               match fst (hook v w) with
               | None => v :: log w
               | Some _ => log w
               end) ->
  Type_ cfg = TypeNumericIncremental ->
  OptimizedSegmentDispenser.NewOptimizedSegmentDispenser
    cfg segmentSize thr interval (Some hook) w = (Ok osd, w1) ->
  Starting cfg + effective_size segmentSize * effective_step cfg
  <= Int64.max_int ->
  osd_inv log hook (normalized cfg) (effective_size segmentSize)
          (Starting cfg + effective_size segmentSize * effective_step cfg)
          osd w1.
Proof.
  intros Hlog HT Hnew Hmax.
  unfold OptimizedSegmentDispenser.NewOptimizedSegmentDispenser in Hnew.
  destruct (validateConfig cfg) eqn:HV; [discriminate|].
  destruct (validate_incremental cfg HV HT) as [Hs0 Hst0].
  destruct (normalized_step cfg Hst0) as [Hns Hstep].
  pose proof (effective_size_pos segmentSize) as Hsize.
  fold (effective_size segmentSize) in Hnew. fold (normalized cfg) in Hnew.
  rewrite <- Hns in Hstep, Hmax |- *.
  set (osd0 := OptimizedSegmentDispenser.mk (normalized cfg) 0 0 _ _ 0 0 false
                 (Some hook) 0 false false 0 0) in Hnew.
  pose proof (osd_allocate_spec log hook Hlog (normalized cfg)
                (effective_size segmentSize) Hstep Hsize (Starting cfg) osd0
                (Starting cfg) w eq_refl eq_refl eq_refl ltac:(lia) Hmax) as HA.
  destruct (OptimizedSegmentDispenser.allocateSegment osd0 (Starting cfg) w)
    as [[[e|] osd1] w2]; [discriminate|].
  destruct HA as (Hosd & HL & Hrange & Hseq).
  assert (Hshape : osd = osd1 \/
                   osd = OptimizedSegmentDispenser.set_lifecycle osd1 true
                           (OptimizedSegmentDispenser.stopChan osd1)).
  { destruct (interval >? 0); injection Hnew as <- _; auto. }
  assert (Hw : w1 = w2) by (destruct (interval >? 0); injection Hnew as _ <-; auto).
  subst w1.
  set (E := OptimizedSegmentDispenser.segmentEnd osd1) in *.
  assert (Hinv : osd_inv log hook (normalized cfg) (effective_size segmentSize)
                   (Starting cfg + effective_size segmentSize * Step (normalized cfg))
                   osd1 w2).
  { rewrite Hosd. subst osd0.
    unfold osd_inv, OptimizedSegmentDispenser.set_segment.
    cbn [OptimizedSegmentDispenser.config OptimizedSegmentDispenser.currentNumber
         OptimizedSegmentDispenser.segmentEnd OptimizedSegmentDispenser.segmentSize
         OptimizedSegmentDispenser.nextSegmentStart
         OptimizedSegmentDispenser.nextSegmentEnd
         OptimizedSegmentDispenser.nextSegmentReady
         OptimizedSegmentDispenser.persistFunc].
    repeat match goal with |- _ /\ _ => split end; auto; try lia.
    - rewrite HL. left. reflexivity.
    - intros Hm. exists (effective_size segmentSize). split; [lia|].
      rewrite (Hseq Hm). reflexivity. }
  destruct Hshape as [->| ->]; [exact Hinv|].
  destruct Hinv as (H1 & H2 & H3 & H4 & H5 & H6 & H7 & H8 & H9).
  unfold osd_inv, OptimizedSegmentDispenser.set_lifecycle.
  cbn [OptimizedSegmentDispenser.config OptimizedSegmentDispenser.currentNumber
       OptimizedSegmentDispenser.segmentEnd OptimizedSegmentDispenser.segmentSize
       OptimizedSegmentDispenser.nextSegmentStart
       OptimizedSegmentDispenser.nextSegmentEnd
       OptimizedSegmentDispenser.nextSegmentReady
       OptimizedSegmentDispenser.persistFunc].
  repeat match goal with |- _ /\ _ => split end; auto; lia.
Qed.

Lemma sd_created {W : Type} (K : Kinds) (log : W -> list Z)
      (hook : Z -> W -> option error * W)
      (cfg : Config) (segmentSize : Z) (thr : spec_float)
      (w w1 : W) (sd : SegmentDispenser.t W) :
  (forall v w, log (snd (hook v w)) =
               match fst (hook v w) with
               | None => v :: log w
               | Some _ => log w
               end) ->
  Type_ cfg = TypeNumericIncremental ->
  SegmentDispenser.NewSegmentDispenser K cfg segmentSize thr (Some hook) w
  = (Ok sd, w1) ->
  Starting cfg + effective_size segmentSize * effective_step cfg
  <= Int64.max_int ->
  sd_inv log hook (normalized cfg) (effective_size segmentSize)
         (Starting cfg + effective_size segmentSize * effective_step cfg)
         sd w1.
Proof.
  intros Hlog HT Hnew Hmax.
  unfold SegmentDispenser.NewSegmentDispenser in Hnew.
  destruct (validateConfig cfg) eqn:HV; [discriminate|].
  destruct (validate_incremental cfg HV HT) as [Hs0 Hst0].
  destruct (normalized_step cfg Hst0) as [Hns Hstep].
  pose proof (effective_size_pos segmentSize) as Hsize.
  fold (effective_size segmentSize) in Hnew.
  rewrite <- Hns in Hstep, Hmax |- *.
  set (thr' := if _ || _ then _ else thr) in Hnew.
  assert (Hsd0 :
    (if Step cfg =? 0
     then SegmentDispenser.mk (set_Step cfg 1) 0 0 (effective_size segmentSize)
            thr' 0 0 false (Some hook)
     else SegmentDispenser.mk cfg 0 0 (effective_size segmentSize) thr' 0 0 false
            (Some hook))
    = SegmentDispenser.mk (normalized cfg) 0 0 (effective_size segmentSize)
        thr' 0 0 false (Some hook)).
  { unfold normalized. destruct (Step cfg =? 0); reflexivity. }
  cbn [SegmentDispenser.config] in Hnew. rewrite Hsd0 in Hnew.
  set (sd0 := SegmentDispenser.mk (normalized cfg) 0 0 _ _ 0 0 false (Some hook))
    in Hnew.
  pose proof (sd_allocate_spec K log hook Hlog (normalized cfg)
                (effective_size segmentSize) Hstep Hsize (Starting cfg) sd0
                (Starting cfg) w eq_refl eq_refl eq_refl ltac:(lia) Hmax) as HA.
  destruct (SegmentDispenser.allocateSegment K sd0 (Starting cfg) w)
    as [[[e|] sd1] w2]; [discriminate|].
  destruct HA as (Hsd & HL & Hrange).
  injection Hnew as <- <-.
  set (E := SegmentDispenser.segmentEnd sd1) in *.
  rewrite Hsd. subst sd0.
  unfold sd_inv, SegmentDispenser.set_segment.
  cbn [SegmentDispenser.config SegmentDispenser.currentNumber
       SegmentDispenser.segmentEnd SegmentDispenser.segmentSize
       SegmentDispenser.nextSegmentStart SegmentDispenser.nextSegmentEnd
       SegmentDispenser.nextSegmentReady SegmentDispenser.persistFunc].
  repeat match goal with |- _ /\ _ => split end; auto; try lia.
  rewrite HL. left. reflexivity.
Qed.

(** A hook that keeps nothing but the log: call number [n] succeeds when
    [ok n], and a call that succeeds puts its argument on the log. *)
Definition recording_hook (ok : nat -> bool)
  : Z -> nat * list Z -> option error * (nat * list Z) :=
  fun v st =>
    if ok (fst st) then (None, (S (fst st), v :: snd st))
    else (Some ErrIO, (S (fst st), snd st)).

(** C2, as the code has it. Take a numeric-monotonic dispenser of a
    segment strategy whose hook commits to a log that is empty at the
    start, and any schedule of calls, preloads and checkpoint ticks that
    stays inside [int64]. Whenever a call of [Next] hands out [v], the
    log holds, at the return of that call, a position [e] with [v < e]:
    the hook has committed the end of a range that contains [v]. Under
    pre-checkpoint and pre_close outside the fixed-width mode, [e] is
    at least [v + step]. *)
Theorem C2_issued_number_lies_below_a_committed_end
        {W : Type} (K : Kinds) (log : W -> list Z)
        (hook : Z -> W -> option error * W)
        (cfg : Config) (segmentSize interval : Z) (thr : spec_float)
        (w : W) (evs : list event) :
  (forall v w, log (snd (hook v w)) =
               match fst (hook v w) with
               | None => v :: log w
               | Some _ => log w
               end) ->
  log w = [] ->
  Type_ cfg = TypeNumericIncremental ->
  Starting cfg
  + (Z.of_nat (length evs) + 1) * (effective_size segmentSize * effective_step cfg)
  <= Int64.max_int ->
  (forall osd w1,
      OptimizedSegmentDispenser.NewOptimizedSegmentDispenser
        cfg segmentSize thr interval (Some hook) w = (Ok osd, w1) ->
      Forall (fun o => forall v, fst o = Ok v ->
                exists e, In e (log (snd o))
                          /\ v < e
                          /\ (IncrMode cfg <> IncrModeFixed ->
                              v + effective_step cfg <= e))
             (fst (fst (osd_run evs osd 0 w1))))
  /\ (forall sd w1,
         SegmentDispenser.NewSegmentDispenser K cfg segmentSize thr (Some hook) w
         = (Ok sd, w1) ->
         Forall (fun o => forall v, fst o = Ok v ->
                   exists e, In e (log (snd o)) /\ v < e)
                (fst (fst (sd_run K evs sd 0 w1)))).
Proof.
  intros Hlog _ HT Hmax.
  pose proof (effective_size_pos segmentSize) as Hsize.
  assert (Hfacts : forall (A : Type) (r : result A * W),
             validateConfig cfg = None ->
             Step (normalized cfg) = effective_step cfg
             /\ 1 <= effective_step cfg /\ 0 <= Starting cfg).
  { intros A r HV. destruct (validate_incremental cfg HV HT) as [H0 H1].
    destruct (normalized_step cfg H1). auto. }
  split.
  - intros osd w1 Hnew.
    assert (HV : validateConfig cfg = None).
    { unfold OptimizedSegmentDispenser.NewOptimizedSegmentDispenser in Hnew.
      destruct (validateConfig cfg); [discriminate|reflexivity]. }
    destruct (Hfacts _ (Ok osd, w1) HV) as (Hns & Hstep & Hs0).
    assert (HB : 1 <= effective_size segmentSize * effective_step cfg) by nia.
    pose proof (osd_created log hook cfg segmentSize interval thr w w1 osd
                  Hlog HT Hnew ltac:(nia)) as Hinv.
    pose proof (osd_run_committed log hook Hlog (normalized cfg)
                  (effective_size segmentSize) ltac:(lia) Hsize evs _ osd O w1
                  Hinv ltac:(rewrite Hns; nia)) as HF.
    eapply Forall_impl; [exact HF|].
    intros [r wr] Hc v Hv. cbn [fst snd] in *.
    destruct (Hc v Hv) as (e & He & Hlt & Hstepc).
    exists e. split; [exact He|]. split; [exact Hlt|].
    intros Hm. rewrite <- Hns. apply Hstepc.
    apply bool_decide_eq_false.
    unfold normalized. destruct (Step cfg =? 0); exact Hm.
  - intros sd w1 Hnew.
    assert (HV : validateConfig cfg = None).
    { unfold SegmentDispenser.NewSegmentDispenser in Hnew.
      destruct (validateConfig cfg); [discriminate|reflexivity]. }
    destruct (Hfacts _ (Ok sd, w1) HV) as (Hns & Hstep & Hs0).
    assert (HB : 1 <= effective_size segmentSize * effective_step cfg) by nia.
    pose proof (sd_created K log hook cfg segmentSize thr w w1 sd
                  Hlog HT Hnew ltac:(nia)) as Hinv.
    pose proof (sd_run_committed K log hook Hlog (normalized cfg)
                  (effective_size segmentSize) ltac:(lia) Hsize evs _ sd O w1
                  Hinv ltac:(rewrite Hns; nia)) as HF.
    eapply Forall_impl; [exact HF|].
    intros [r wr] Hc v Hv. cbn [fst snd] in *.
    destruct (Hc v Hv) as (e & He & Hlt & _).
    exists e. split; [exact He | exact Hlt].
Qed.

Definition C2_schedule : list event :=
  [CallNext; CallNext; RunPreload; Tick; CallNext].

Lemma recording_hook_log (ok : nat -> bool) (v : Z) (st : nat * list Z) :
  snd (snd (recording_hook ok v st)) =
  match fst (recording_hook ok v st) with
  | None => v :: snd st
  | Some _ => snd st
  end.
Proof. unfold recording_hook. destruct (ok (fst st)); reflexivity. Qed.

Lemma C2_issued_number_lies_below_a_committed_end_witness :
  (forall osd w1,
      OptimizedSegmentDispenser.NewOptimizedSegmentDispenser
        C1_cfg 1000 Float64.c0_1 2000000000
        (Some (recording_hook (fun _ => true))) (O, []) = (Ok osd, w1) ->
      Forall (fun o => forall v, fst o = Ok v ->
                exists e, In e (snd (snd o))
                          /\ v < e
                          /\ (IncrMode C1_cfg <> IncrModeFixed ->
                              v + effective_step C1_cfg <= e))
             (fst (fst (osd_run C2_schedule osd 0 w1))))
  /\ (forall sd w1,
         SegmentDispenser.NewSegmentDispenser Scenario.plain_kinds C1_cfg 1000
           Float64.c0_1 (Some (recording_hook (fun _ => true))) (O, [])
         = (Ok sd, w1) ->
         Forall (fun o => forall v, fst o = Ok v ->
                   exists e, In e (snd (snd o)) /\ v < e)
                (fst (fst (sd_run Scenario.plain_kinds C2_schedule sd 0 w1)))).
Proof.
  apply (C2_issued_number_lies_below_a_committed_end
           Scenario.plain_kinds snd (recording_hook (fun _ => true)) C1_cfg 1000 2000000000
           Float64.c0_1 (O, []) C2_schedule).
  - intros v st. apply recording_hook_log.
  - reflexivity.
  - reflexivity.
  - vm_compute. intros H. discriminate H.
Defined.

(** The schedule of the witness on the dispenser of the factory: three
    numbers, each below the committed end 1000. *)
Example C2_schedule_run :
  match OptimizedSegmentDispenser.NewOptimizedSegmentDispenser
          C1_cfg 1000 Float64.c0_1 2000000000
          (Some (recording_hook (fun _ => true))) (O, []) with
  | (Ok osd, w1) =>
    map (fun o => (fst o, snd (snd o))) (fst (fst (osd_run C2_schedule osd 0 w1)))
    = [(Ok 0, [1000]); (Ok 1, [1000]); (Ok 2, [2; 1000])]
  | (Err _, _) => False
  end.
Proof. vm_compute. reflexivity. Qed.

Definition C2_cfg : Config :=
  mkConfig TypeNumericIncremental 1 0 4 0 0 IncrModeFixed "" ""
           StrategyPreCheckpoint false 0.

(** C2 as stated fails in the fixed-width mode: length 1, step 4. The
    first segment is cut at the cap, its committed end is 10, and the
    third call hands out 8 while no position of at least 8 + 4 has been
    committed. *)
Lemma C2_counterexample :
  match OptimizedSegmentDispenser.NewOptimizedSegmentDispenser
          C2_cfg 1000 Float64.c0_1 2000000000
          (Some (recording_hook (fun _ => true))) (O, []) with
  | (Ok osd, w1) =>
    match fst (fst (osd_run [CallNext; CallNext; CallNext] osd 0 w1)) with
    | [_; _; (r, wr)] =>
      r = Ok 8
      /\ snd wr = [10]
      /\ ~ (exists e, In e (snd wr) /\ 8 + Step C2_cfg <= e)
    | _ => False
    end
  | (Err _, _) => False
  end.
Proof.
  vm_compute. split; [reflexivity|]. split; [reflexivity|].
  intros (e & [<-|[]] & H). apply H. reflexivity.
Qed.

(** ** What a pre-base dispenser reports as its current (C10) *)














(** The periodic persist writes, for each dispenser, what [GetCurrent]
    reports: for a pre-base dispenser that is the end of its segment. *)
Lemma persistOne_records_GetCurrent (name : string) (d : NumberDispenser)
      (w : World) :
  dCurrent <$> (data (fs (Srv.persistOne (name, d) w)) !! name)
  = Some (ND.GetCurrent d).
Proof. unfold Srv.persistOne. apply Save_records. Qed.

(** * The rest of the packages *)

(** ** storage.go: the snapshot in memory and on disk *)

(** The operations that reach a [FileStorage] after it was opened;
    [OpAutoSave] is one tick of [autoSaveLoop]. *)
Inductive storage_op : Type :=
| OpSave (name : string) (cfg : Config) (current : Z)
| OpDelete (name : string)
| OpFlush
| OpAutoSave.

Definition storage_step (w : World) (op : storage_op) : World :=
  match op with
  | OpSave name cfg current => snd (Storage.Save name cfg current w)
  | OpDelete name => snd (Storage.Delete name w)
  | OpFlush => snd (Storage.Flush w)
  | OpAutoSave => Storage.autoSaveTick w
  end.

Definition storage_run (ops : list storage_op) (w : World) : World :=
  fold_left storage_step ops w.

(** What opening the data directory again would load. *)
Definition on_disk (w : World) : gmap string DispenserData :=
  Storage.ListAll (Storage.NewFileStorage true w).

Definition in_sync (w : World) : Prop :=
  dirty (fs w) = false -> on_disk w = JSON.file (Storage.ListAll w).

Lemma on_disk_eq (w : World) :
  on_disk w = match disk w with Some m => m | None => ∅ end.
Proof.
  unfold on_disk, Storage.ListAll, Storage.NewFileStorage, Storage.loadFromDisk.
  destruct (disk w); reflexivity.
Qed.

Lemma coerce_valid (s : string) (skip : nat) :
  JSON.valid_from skip s = true -> JSON.coerce skip s = s.
Proof.
  revert skip. induction s as [|c s IH]; intros skip; [reflexivity|].
  cbn [JSON.valid_from JSON.coerce].
  destruct skip as [|k].
  - destruct (JSON.rune_width (String c s)) as [|k]; [discriminate|].
    intros H. rewrite (IH k H). reflexivity.
  - intros H. rewrite (IH k H). reflexivity.
Qed.

Lemma roundtrip_valid (s : string) :
  JSON.ValidString s = true -> JSON.roundtrip s = s.
Proof. apply coerce_valid. Qed.

Lemma roundtrip_entry_valid (e : string * DispenserData) :
  JSON.ValidString (fst e) && JSON.valid_config (dConfig (snd e)) = true ->
  JSON.roundtrip_entry e = e.
Proof.
  destruct e as [k [cfg cur upd]]. destruct cfg.
  unfold JSON.valid_config, JSON.roundtrip_entry, JSON.roundtrip_config.
  cbn. rewrite !andb_true_iff. intros (Hk & ((H1 & H2) & H3) & H4).
  rewrite !roundtrip_valid by assumption. reflexivity.
Qed.

Lemma foldl_insert_reverse (l : list (string * DispenserData))
      (acc : gmap string DispenserData) :
  foldl (fun acc e => <[fst e := snd e]> acc) acc l
  = foldr (fun e acc => <[fst e := snd e]> acc) acc (reverse l).
Proof.
  revert acc. induction l as [|e l IH]; intros acc; [reflexivity|].
  rewrite reverse_cons, foldr_app. cbn [foldl foldr]. apply IH.
Qed.

(** A snapshot of valid UTF-8 comes back from the file as it was. *)
Lemma file_clean (m : gmap string DispenserData) :
  JSON.clean m = true -> JSON.file m = m.
Proof.
  intros Hc. unfold JSON.file, JSON.written.
  assert (Hid : JSON.roundtrip_entry <$> merge_sort JSON.key_le (map_to_list m)
                = merge_sort JSON.key_le (map_to_list m)).
  { rewrite <- (list_fmap_id (merge_sort JSON.key_le (map_to_list m))) at 2.
    apply list_fmap_ext. intros i e He.
    apply roundtrip_entry_valid.
    unfold JSON.clean in Hc. rewrite forallb_forall in Hc. apply Hc.
    apply list_elem_of_In.
    rewrite <- (merge_sort_Permutation JSON.key_le (map_to_list m)).
    apply (list_elem_of_lookup_2 _ i). exact He. }
  rewrite Hid, foldl_insert_reverse.
  rewrite <- (list_to_map_to_list m) at 2.
  change (foldr (fun e acc => <[fst e := snd e]> acc) ∅
                (reverse (merge_sort JSON.key_le (map_to_list m))))
    with (list_to_map (M := gmap string DispenserData)
            (reverse (merge_sort JSON.key_le (map_to_list m)))).
  assert (Hp : reverse (merge_sort JSON.key_le (map_to_list m))
               ≡ₚ map_to_list m).
  { rewrite reverse_Permutation. apply merge_sort_Permutation. }
  apply list_to_map_proper; [|exact Hp].
  rewrite Hp. apply NoDup_fst_map_to_list.
Qed.

Lemma file_empty : JSON.file ∅ = ∅.
Proof. apply file_clean. unfold JSON.clean. rewrite map_to_list_empty. reflexivity. Qed.

Lemma saveToDisk_keeps_sync (w : World) :
  dirty (fs w) = true \/ in_sync w -> in_sync (snd (Storage.saveToDisk w)).
Proof.
  unfold in_sync, Storage.saveToDisk. rewrite !on_disk_eq.
  destruct (disk_ok w (ios w)); cbn.
  - intros _ _. reflexivity.
  - intros [Hd | Hs] Hc; [congruence | auto].
Qed.

Lemma storage_step_in_sync (w : World) (op : storage_op) :
  in_sync w -> in_sync (storage_step w op).
Proof.
  intros Hs. destruct op as [name cfg current | name | | ]; cbn [storage_step].
  - unfold Storage.Save, now. cbn.
    destruct (autoSave (fs w)); cbn.
    + unfold in_sync. cbn. discriminate.
    + apply saveToDisk_keeps_sync. left. reflexivity.
  - unfold Storage.Delete.
    destruct (autoSave (fs w)); cbn.
    + unfold in_sync. cbn. discriminate.
    + apply saveToDisk_keeps_sync. left. reflexivity.
  - unfold Storage.Flush.
    destruct (dirty (fs w)) eqn:Hd; cbn; [|exact Hs].
    apply saveToDisk_keeps_sync. left. exact Hd.
  - unfold Storage.autoSaveTick.
    destruct (dirty (fs w)) eqn:Hd; [|exact Hs].
    apply saveToDisk_keeps_sync. left. exact Hd.
Qed.

(** The storage never believes itself clean while the file lags behind:
    from the moment a directory is opened whose file holds valid UTF-8,
    as every file that decodes does, and whatever is saved, deleted,
    flushed or auto-saved afterwards, with disk writes failing at will,
    a storage whose [dirty] flag is down holds what opening the
    directory again would load, as far as the encoding of the file
    carries it: a name or a string that is not valid UTF-8 comes back
    with U+FFFD for every offending byte, and when all of them are
    valid the two snapshots are equal. *)
Theorem storage_clean_means_on_disk
        (auto : bool) (w : World) (ops : list storage_op) :
  (forall m, disk w = Some m -> JSON.clean m = true) ->
  let w' := storage_run ops (Storage.NewFileStorage auto w) in
  dirty (fs w') = false ->
  on_disk w' = JSON.file (Storage.ListAll w')
  /\ (JSON.clean (Storage.ListAll w') = true ->
      on_disk w' = Storage.ListAll w').
Proof.
  intros Hfile. cbv zeta.
  assert (H0 : in_sync (Storage.NewFileStorage auto w)).
  { unfold in_sync. rewrite on_disk_eq. intros _.
    unfold Storage.NewFileStorage, Storage.loadFromDisk, Storage.ListAll.
    destruct (disk w) as [m|] eqn:E; cbn; rewrite E.
    - symmetry. apply file_clean. apply Hfile. reflexivity.
    - symmetry. apply file_empty. }
  assert (Hs : in_sync (storage_run ops (Storage.NewFileStorage auto w))).
  { revert H0. generalize (Storage.NewFileStorage auto w).
    unfold storage_run.
    induction ops as [|op ops IH]; intros w0 H0; cbn [fold_left].
    - exact H0.
    - apply IH. apply storage_step_in_sync. exact H0. }
  intros Hd. split; [exact (Hs Hd)|].
  intros Hc. rewrite (Hs Hd). apply file_clean. exact Hc.
Qed.

Definition Sync_ops : list storage_op :=
  [OpSave "a" Config_zero 1; OpDelete "b"; OpAutoSave].

(** A directory whose file holds the entries "b" and "c". *)
Definition Sync_world : World :=
  Scenario.world true true
    (Some (<["b" := mkData Config_zero 3 0]>
             (<["c" := mkData Config_zero 5 0]> ∅))).

Lemma storage_clean_means_on_disk_witness :
  let w' := storage_run Sync_ops (Storage.NewFileStorage true Sync_world) in
  on_disk w' = JSON.file (Storage.ListAll w')
  /\ (JSON.clean (Storage.ListAll w') = true ->
      on_disk w' = Storage.ListAll w').
Proof.
  apply (storage_clean_means_on_disk true Sync_world Sync_ops).
  - intros m H. injection H as <-. vm_compute. reflexivity.
  - vm_compute. reflexivity.
Defined.

Example storage_clean_means_on_disk_run :
  let w' := storage_run Sync_ops (Storage.NewFileStorage true Sync_world) in
  dirty (fs w') = false
  /\ (fun d => (dConfig d, dCurrent d)) <$> (on_disk w' !! "a")
     = Some (Config_zero, 1)
  /\ on_disk w' !! "b" = None
  /\ (fun d => (dConfig d, dCurrent d)) <$> (on_disk w' !! "c")
     = Some (Config_zero, 5).
Proof. vm_compute. repeat split. Qed.

(** A name of one byte that is no UTF-8, 0xFF, saved with write-through:
    the file holds the entry under U+FFFD, and after the directory is
    opened again the name is not found. *)
Example Save_of_a_name_that_is_not_UTF8 :
  let w' := snd (Storage.Save (String "255" "") Config_zero 7
                              (Scenario.world false true None)) in
  fst (Storage.Save (String "255" "") Config_zero 7
                    (Scenario.world false true None)) = None
  /\ Storage.Load (String "255" "") w' = Ok (Config_zero, 7)
  /\ Storage.Load (String "255" "") (Storage.NewFileStorage true w')
     = Err (ErrNew "file does not exist")
  /\ Storage.Load JSON.replacement (Storage.NewFileStorage true w')
     = Ok (Config_zero, 7).
Proof. vm_compute. repeat split. Qed.

Lemma Save_data (name : string) (cfg : Config) (current : Z) (w : World) :
  data (fs (snd (Storage.Save name cfg current w)))
  = <[name := mkData cfg current (clock w (ticks w))]> (data (fs w)).
Proof.
  unfold Storage.Save, now, set_fs, Storage.saveToDisk. cbn.
  destruct (autoSave (fs w)); [|destruct (disk_ok w (ios w))]; reflexivity.
Qed.

Lemma Flush_data (w : World) :
  data (fs (snd (Storage.Flush w))) = data (fs w).
Proof.
  unfold Storage.Flush, Storage.saveToDisk.
  destruct (dirty (fs w)); [|reflexivity]. cbn.
  destruct (disk_ok w (ios w)); reflexivity.
Qed.

Lemma Load_after_Save (name : string) (cfg : Config) (current : Z) (w : World) :
  Storage.Load name (snd (Storage.Save name cfg current w)) = Ok (cfg, current).
Proof.
  unfold Storage.Load. rewrite Save_data, lookup_insert_eq. reflexivity.
Qed.

Lemma Delete_data (name : string) (w : World) :
  data (fs (snd (Storage.Delete name w))) = delete name (data (fs w)).
Proof.
  unfold Storage.Delete, set_fs, Storage.saveToDisk. cbn.
  destruct (autoSave (fs w)); [|destruct (disk_ok w (ios w))]; reflexivity.
Qed.

Lemma Load_after_Delete (name : string) (w : World) :
  Storage.Load name (snd (Storage.Delete name w))
  = Err (ErrNew "file does not exist").
Proof.
  unfold Storage.Load. rewrite Delete_data, lookup_delete_eq. reflexivity.
Qed.

(** [Save] then [Load]: the entry saved is the entry loaded, whether or
    not the write to disk succeeded, and no other entry is touched. *)
Theorem Save_then_Load (name other : string) (cfg : Config) (current : Z)
        (w : World) :
  let w' := snd (Storage.Save name cfg current w) in
  Storage.Load name w' = Ok (cfg, current)
  /\ (other <> name -> Storage.Load other w' = Storage.Load other w).
Proof.
  cbv zeta. unfold Storage.Load, Storage.Save, now, set_fs, Storage.saveToDisk.
  cbn. split.
  - destruct (autoSave (fs w)); [|destruct (disk_ok w (ios w))]; cbn;
      rewrite lookup_insert_eq; reflexivity.
  - intros Hne.
    destruct (autoSave (fs w)); [|destruct (disk_ok w (ios w))]; cbn;
      rewrite lookup_insert_ne by congruence; reflexivity.
Qed.

(** [Delete] then [Load]: the entry is gone from memory, whether or not
    the write to disk succeeded (a later [Load] answers that it does not
    exist), and no other entry is touched. *)
Theorem Delete_then_Load (name other : string) (w : World) :
  let w' := snd (Storage.Delete name w) in
  Storage.Load name w' = Err (ErrNew "file does not exist")
  /\ (other <> name -> Storage.Load other w' = Storage.Load other w).
Proof.
  cbv zeta. unfold Storage.Load, Storage.Delete, set_fs, Storage.saveToDisk.
  cbn. split.
  - destruct (autoSave (fs w)); [|destruct (disk_ok w (ios w))]; cbn;
      rewrite lookup_delete_eq; reflexivity.
  - intros Hne.
    destruct (autoSave (fs w)); [|destruct (disk_ok w (ios w))]; cbn;
      rewrite lookup_delete_ne by congruence; reflexivity.
Qed.

(** A write-through [Save] that reports success survives a restart,
    provided every name and string of the snapshot is valid UTF-8:
    opening the directory again and loading the name gives the entry
    back. *)
Theorem Save_survives_restart (name : string) (cfg : Config) (current : Z)
        (auto : bool) (w w' : World) :
  autoSave (fs w) = false ->
  Storage.Save name cfg current w = (None, w') ->
  JSON.clean (Storage.ListAll w') = true ->
  Storage.Load name (Storage.NewFileStorage auto w') = Ok (cfg, current).
Proof.
  intros Ha. unfold Storage.Save, now, set_fs, Storage.saveToDisk.
  cbn [fst snd fs autoSave data dirty clock ticks disk_ok ios].
  rewrite Ha. cbn [negb]. destruct (disk_ok w (ios w)); [|discriminate].
  intros [= <-].
  unfold Storage.Load, Storage.NewFileStorage, Storage.loadFromDisk,
    Storage.ListAll, set_fs.
  cbn [fs data disk]. intros Hc. rewrite (file_clean _ Hc).
  rewrite lookup_insert_eq. reflexivity.
Qed.

Lemma Save_survives_restart_witness :
  Storage.Load "a"
    (Storage.NewFileStorage true
       (snd (Storage.Save "a" Config_zero 7 (Scenario.world false true None))))
  = Ok (Config_zero, 7).
Proof.
  apply (Save_survives_restart "a" Config_zero 7 true
           (Scenario.world false true None)).
  - reflexivity.
  - reflexivity.
  - vm_compute. reflexivity.
Defined.

(** ** server.go: persisting the registry, stopping *)

Module Lifecycle.

(** One iteration of the shutdown loop of [Stop]. An error a
    [Shutdown] returns is logged and dropped. A [Shutdown] that panics
    ends the loop: the first component then holds the panic, and no
    later iteration runs. *)
Definition shutdownOne (entry : string * NumberDispenser)
           (acc : option string * Server * World)
  : option string * Server * World :=
  let '(name, d) := entry in
  let '(panicked, s, w) := acc in
  match panicked with
  | Some _ => acc
  | None =>
    let '(e, d1, w1) := ND.Shutdown d w in
    let s1 := Srv.set_dispensers s (<[name := d1]> (dispensers s)) in
    match e with
    | Some (ErrPanic msg) => (Some msg, s1, w1)
    | _ => (None, s1, w1)
    end
  end.

(** The shutdown loop. It ranges over a Go map, in no fixed order; here
    it takes the entries in one order, and whether it panics does not
    depend on which. *)
Definition shutdownAll (s : Server) (w : World)
  : option string * Server * World :=
  foldr shutdownOne (None, s, w) (map_to_list (dispensers s)).

(** [Stop] after the listener is closed and the connections are done:
    every dispenser is shut down, then the registry is persisted. When a
    [Shutdown] panics, [Stop] panics with it and [persistAll] is not
    reached. *)

Definition Stop (s : Server) (w : World) : option error * Server * World :=
  match shutdownAll s w with
  | (Some msg, s1, w1) => (Some (ErrPanic msg), s1, w1)
  | (None, s1, w1) =>
    let '(e, w2) := Srv.persistAll s1 w1 in
    (e, s1, w2)
  end.

End Lifecycle.

(** The position and the configuration of a snapshot entry. *)
Definition entry_of (w : World) (name : string) : option (Config * Z) :=
  (fun d => (dConfig d, dCurrent d)) <$> (data (fs w) !! name).

(** The first dispenser a list of registry entries holds for a name. *)
Fixpoint assoc (name : string) (l : list (string * NumberDispenser))
  : option NumberDispenser :=
  match l with
  | [] => None
  | (n, d) :: rest => if bool_decide (n = name) then Some d else assoc name rest
  end.

Lemma persist_fold (l : list (string * NumberDispenser)) (w : World)
      (name : string) :
  entry_of (foldr Srv.persistOne w l) name
  = match assoc name l with
    | Some d => Some (ND.GetConfig d, ND.GetCurrent d)
    | None => entry_of w name
    end.
Proof.
  induction l as [|[n d] l IH]; cbn [foldr assoc].
  - reflexivity.
  - unfold Srv.persistOne at 1. unfold entry_of at 1. rewrite Save_data.
    destruct (bool_decide (n = name)) eqn:E.
    + apply bool_decide_eq_true in E. subst n.
      rewrite lookup_insert_eq. reflexivity.
    + apply bool_decide_eq_false in E.
      rewrite lookup_insert_ne by exact E.
      exact IH.
Qed.

Lemma assoc_map_to_list (m : gmap string NumberDispenser) (name : string) :
  assoc name (map_to_list m) = m !! name.
Proof.
  assert (Hin : forall l d, assoc name l = Some d -> (name, d) ∈ l).
  { induction l as [|[n d'] l IH]; intros d; cbn [assoc]; [discriminate|].
    destruct (bool_decide (n = name)) eqn:E.
    - apply bool_decide_eq_true in E. subst n. intros [= ->]. left.
    - intros H. right. apply IH. exact H. }
  assert (Hout : forall l, assoc name l = None -> forall d, (name, d) ∉ l).
  { induction l as [|[n d'] l IH]; cbn [assoc]; intros H d Hel.
    - inversion Hel.
    - destruct (bool_decide (n = name)) eqn:E; [discriminate|].
      apply bool_decide_eq_false in E.
      inversion Hel; subst; [congruence|]. eapply IH; eauto. }
  destruct (assoc name (map_to_list m)) as [d|] eqn:E.
  - symmetry. apply elem_of_map_to_list. apply Hin. exact E.
  - destruct (m !! name) as [d|] eqn:Hm; [|reflexivity]. exfalso.
    apply elem_of_map_to_list in Hm. exact (Hout _ E d Hm).
Qed.

Lemma persistAll_entry (s : Server) (w : World) (name : string) :
  entry_of (snd (Srv.persistAll s w)) name
  = match dispensers s !! name with
    | Some d => Some (ND.GetConfig d, ND.GetCurrent d)
    | None => entry_of w name
    end.
Proof.
  unfold Srv.persistAll. unfold entry_of at 1. rewrite Flush_data.
  fold (entry_of (foldr Srv.persistOne w (map_to_list (dispensers s))) name).
  rewrite persist_fold, assoc_map_to_list. reflexivity.
Qed.

(** [persistAll] writes every dispenser of the registry into the
    snapshot, whatever its strategy: afterwards the entry of a
    registered name holds the configuration and the position the
    dispenser reports, and the entry of any other name is as before. *)
Theorem persistAll_records_the_registry (s : Server) (w : World)
        (name : string) :
  entry_of (snd (Srv.persistAll s w)) name
  = match dispensers s !! name with
    | Some d => Some (ND.GetConfig d, ND.GetCurrent d)
    | None => entry_of w name
    end.
Proof. apply persistAll_entry. Qed.

(** What the snapshot records of a dispenser. *)
Definition view (d : NumberDispenser) : Config * Z :=
  (ND.GetConfig d, ND.GetCurrent d).

Lemma Shutdown_view (d : NumberDispenser) (w : World) :
  view (snd (fst (ND.Shutdown d w))) = view d.
Proof.
  destruct d as [k|sd|osd]; cbn; try reflexivity.
  unfold OptimizedSegmentDispenser.Shutdown,
    OptimizedSegmentDispenser.GracefulShutdown.
  destruct (OptimizedSegmentDispenser.stopChan osd); [reflexivity|].
  cbn.
  destruct (OptimizedSegmentDispenser.persistFunc osd) as [p|].
  - destruct (p _ w) as [[e|] w1]; [reflexivity|].
    destruct (_ >? _); reflexivity.
  - destruct (_ >? _); reflexivity.
Qed.

Lemma shutdown_fold (l : list (string * NumberDispenser)) (s : Server)
      (w : World) (name : string) :
  fst (fst (foldr Lifecycle.shutdownOne (None, s, w) l)) = None ->
  view <$> (dispensers (snd (fst (foldr Lifecycle.shutdownOne (None, s, w) l)))
            !! name)
  = match assoc name l with
    | Some d => Some (view d)
    | None => view <$> (dispensers s !! name)
    end.
Proof.
  induction l as [|[n d] l IH]; cbn [foldr assoc].
  - reflexivity.
  - unfold Lifecycle.shutdownOne at 1 3.
    destruct (foldr Lifecycle.shutdownOne (None, s, w) l) as [[p s1] w1].
    cbn [fst snd] in *. destruct p as [m|]; [discriminate|].
    pose proof (Shutdown_view d w1) as Hv.
    destruct (ND.Shutdown d w1) as [[e d1] w2]. cbn [fst snd] in *.
    intros Hp.
    assert (Hreg : view <$> (<[n := d1]> (dispensers s1) !! name)
                   = (if bool_decide (n = name) then Some (view d)
                      else match assoc name l with
                           | Some d => Some (view d)
                           | None => view <$> (dispensers s !! name)
                           end)).
    { destruct (bool_decide (n = name)) eqn:E.
      - apply bool_decide_eq_true in E. subst n.
        rewrite lookup_insert_eq. cbn. rewrite Hv. reflexivity.
      - apply bool_decide_eq_false in E.
        rewrite lookup_insert_ne by exact E. apply IH. reflexivity. }
    destruct e as [[]|]; cbn [fst snd] in *; try discriminate;
      unfold Srv.set_dispensers; cbn [dispensers]; rewrite Hreg;
      destruct (bool_decide (n = name)); reflexivity.
Qed.

(** A stop in which no [Shutdown] panics leaves in the snapshot, for
    every dispenser of the registry, the configuration and the position
    the dispenser reported when the stop began: shutting the dispensers
    down changes neither, and the final [persistAll] writes each of
    them. For a dispenser of the basic kernel or of the checkpointing
    kind that position is the next number to hand out. *)
Theorem Stop_records_every_position (s : Server) (w : World) (name : string)
        (d : NumberDispenser) :
  dispensers s !! name = Some d ->
  fst (fst (Lifecycle.shutdownAll s w)) = None ->
  entry_of (snd (Lifecycle.Stop s w)) name
  = Some (ND.GetConfig d, ND.GetCurrent d).
Proof.
  intros Hd Hquiet. unfold Lifecycle.Stop. unfold Lifecycle.shutdownAll in *.
  pose proof (shutdown_fold (map_to_list (dispensers s)) s w name Hquiet)
    as Hf.
  rewrite assoc_map_to_list, Hd in Hf.
  destruct (foldr Lifecycle.shutdownOne (None, s, w)
                  (map_to_list (dispensers s))) as [[p s1] w1].
  cbn [fst snd] in *. subst p.
  pose proof (persistAll_entry s1 w1 name) as Hp.
  destruct (Srv.persistAll s1 w1) as [e w2]. cbn [fst snd] in *.
  rewrite Hp.
  destruct (dispensers s1 !! name) as [d1|]; cbn in Hf; [|discriminate].
  injection Hf as Hc Hn. rewrite Hc, Hn. reflexivity.
Qed.

Definition Stop_cfg : Config :=
  mkConfig TypeNumericIncremental 0 100 2 0 0 IncrModeSequence "" ""
           StrategyPreClose false 0.

(** A pre_close dispenser as the factory builds it under the name "o",
    after three numbers, and a registry that holds it. *)
Definition Stop_dispenser : OptimizedSegmentDispenser.t World :=
  OptimizedSegmentDispenser.mk Stop_cfg 106 2100 1000 Float64.c0_1 0 0 false
    (Some (Factory.hook (mkFactory (Some Storage.Save)) "o" Stop_cfg))
    2100 true false 3 0.

Definition Stop_server : Server :=
  mkServer (<["o" := Optimized Stop_dispenser]> ∅)
           (mkFactory (Some Storage.Save)).

Lemma Stop_records_every_position_witness :
  entry_of (snd (Lifecycle.Stop Stop_server (Scenario.world true true None)))
           "o"
  = Some (Stop_cfg, 106).
Proof.
  apply (Stop_records_every_position Stop_server
           (Scenario.world true true None) "o" (Optimized Stop_dispenser)).
  - apply lookup_insert_eq.
  - vm_compute. reflexivity.
Defined.

(** The same dispenser after a [Shutdown], still in the registry: an
    hset that changed its strategy and could not write the position
    leaves it so. *)
Definition Stop_closed_server : Server :=
  mkServer (<["o" := Optimized
                       (OptimizedSegmentDispenser.set_lifecycle
                          Stop_dispenser true true)]> ∅)
           (mkFactory (Some Storage.Save)).

(** [Stop] on that registry panics on the closed channel, and the
    position of the dispenser is not written. *)
Example Stop_panics_on_a_closed_channel :
  let r := Lifecycle.Stop Stop_closed_server (Scenario.world true true None) in
  fst (fst r) = Some (ErrPanic "close of closed channel")
  /\ entry_of (snd r) "o" = None
  /\ disk (snd r) = None.
Proof. vm_compute. repeat split. Qed.

(** So does an hset that changes its strategy once more:
    [hset o type 2 auto_disk memory]. *)
Example hset_panics_on_a_closed_channel :
  fst (fst (Srv.handleHSet Stop_closed_server "o"
              (mkConfig TypeNumericIncremental 0 0 0 0 0 "" "" ""
                        StrategyMemory false 0)
              true 2 (Scenario.world true true None)))
  = Panics "close of closed channel".
Proof. vm_compute. reflexivity. Qed.

(** ** factory.go: what a rejected creation leaves behind *)

Lemma validateConfig_AutoDisk (cfg : Config) (s : string) :
  validateConfig (set_AutoDisk cfg s) = validateConfig cfg.
Proof. reflexivity. Qed.

Lemma valid_strategy_cases (s : string) :
  ValidPersistenceStrategies s = true ->
  s = StrategyMemory \/ s = StrategyPreBase \/ s = StrategyPreCheckpoint
  \/ s = StrategyElegantClose \/ s = StrategyPreClose.
Proof.
  unfold ValidPersistenceStrategies. rewrite !orb_true_iff.
  rewrite !bool_decide_eq_true. tauto.
Qed.

(** [CreateDispenser] refuses without side effect: a strategy outside
    the five known ones is answered with the invalid-strategy error, a
    configuration that [validateConfig] rejects with that function's
    error, and in both cases nothing was persisted and no random source
    was seeded. A dispenser that is returned is of the kind its strategy
    names: the basic kernel for memory and elegant_close (the default),
    the segment dispenser for pre-base, the checkpointing one for
    pre-checkpoint and pre_close. *)
Theorem CreateDispenser_refusals_and_kinds
        (f : DispenserFactory) (name : string) (cfg : Config) (w : World) :
  let strategy := AutoDisk (with_default_strategy cfg) in
  (ValidPersistenceStrategies strategy = false ->
   Factory.CreateDispenser f name cfg w
   = (Err (ErrNew ("invalid persistence strategy: " +:+ strategy)), w))
  /\ (forall e, ValidPersistenceStrategies strategy = true ->
        validateConfig cfg = Some e ->
        Factory.CreateDispenser f name cfg w = (Err e, w))
  /\ (forall d w1, Factory.CreateDispenser f name cfg w = (Ok d, w1) ->
        match d with
        | Basic _ => strategy = StrategyMemory \/ strategy = StrategyElegantClose
        | Segment _ => strategy = StrategyPreBase
        | Optimized _ =>
          strategy = StrategyPreCheckpoint \/ strategy = StrategyPreClose
        end).
Proof.
  cbv zeta. unfold Factory.CreateDispenser.
  change (if bool_decide (AutoDisk cfg = "")
          then set_AutoDisk cfg StrategyElegantClose else cfg)
    with (with_default_strategy cfg).
  assert (HV : validateConfig (with_default_strategy cfg) = validateConfig cfg).
  { unfold with_default_strategy.
    destruct (bool_decide (AutoDisk cfg = "")); reflexivity. }
  set (cfg' := with_default_strategy cfg) in *.
  split; [|split].
  - intros ->. reflexivity.
  - intros e Hs He. rewrite Hs. cbn [negb].
    rewrite <- HV in He.
    destruct (valid_strategy_cases _ Hs) as [H|[H|[H|[H|H]]]]; rewrite H;
      unfold StrategyMemory, StrategyPreBase, StrategyPreCheckpoint,
        StrategyElegantClose, StrategyPreClose;
      repeat match goal with
             | |- context [bool_decide (?a = ?b)] =>
               first [ rewrite (bool_decide_eq_true_2 (a = b)) by reflexivity
                     | rewrite (bool_decide_eq_false_2 (a = b)) by discriminate ]
             end;
      unfold Factory.createMemoryDispenser, Factory.createPreBaseDispenser,
        Factory.createPreCheckpointDispenser,
        Factory.createElegantCloseDispenser, Factory.createPreCloseDispenser,
        Dispenser.NewDispenser, SegmentDispenser.NewSegmentDispenser,
        OptimizedSegmentDispenser.NewOptimizedSegmentDispenser;
      rewrite He; reflexivity.
  - intros d w1.
    destruct (ValidPersistenceStrategies (AutoDisk cfg')); cbn [negb];
      [|discriminate].
    unfold Factory.createMemoryDispenser, Factory.createPreBaseDispenser,
      Factory.createPreCheckpointDispenser,
      Factory.createElegantCloseDispenser, Factory.createPreCloseDispenser,
      Factory.lift.
    repeat match goal with
           | |- context [bool_decide (?a = ?b)] =>
             destruct (bool_decide_reflect (a = b))
           end;
      try discriminate;
      repeat match goal with
             | |- context [match ?x with (_, _) => _ end] =>
               destruct x as [[?|?] ?]
             end;
      intros [= <- <-] || discriminate; auto.
Qed.

(** ** handlers.go: DEL *)

(** DEL on a name the registry does not hold answers 0 and changes
    nothing, not even a snapshot entry left under that name. On a
    registered name it removes the dispenser from the registry and the
    entry from the snapshot in memory, whether or not the write to disk
    succeeds, answers 1 or the delete error, and a GET that follows
    finds no dispenser. *)
Theorem handleDel_removes (fuel : nat) (s : Server) (name : string)
        (w : World) :
  let '(v, s1, w1) := Srv.handleDel s name w in
  match dispensers s !! name with
  | None => v = Integer 0 /\ s1 = s /\ w1 = w
  | Some _ =>
    dispensers s1 !! name = None
    /\ Storage.Load name w1 = Err (ErrNew "file does not exist")
    /\ match fst (Storage.Delete name w) with
       | None => v = Integer 1
       | Some e => v = ErrorReply ("ERR failed to delete: " +:+ Error e)
       end
    /\ Srv.handleGet fuel s1 name w1
       = Some (ErrorReply "ERR dispenser not found", s1, w1)
  end.
Proof.
  unfold Srv.handleDel.
  destruct (dispensers s !! name) as [d|] eqn:Hd; [|repeat split].
  pose proof (Load_after_Delete name w) as HL.
  assert (Hgone : dispensers
                    (Srv.set_dispensers s (delete name (dispensers s)))
                  !! name = None) by apply lookup_delete_eq.
  destruct (Storage.Delete name w) as [[e|] w1]; cbn [fst snd] in *;
    (split; [exact Hgone|]); (split; [exact HL|]);
    (split; [reflexivity|]);
    unfold Srv.handleGet; rewrite Hgone; reflexivity.
Qed.

Lemma handleDel_gone (s : Server) (name : string) (w : World) :
  match dispensers s !! name with
  | Some _ =>
    Storage.Load name (snd (Srv.handleDel s name w))
    = Err (ErrNew "file does not exist")
  | None => True
  end.
Proof.
  unfold Srv.handleDel. destruct (dispensers s !! name); [|exact I].
  pose proof (Load_after_Delete name w) as HL.
  destruct (Storage.Delete name w) as [[e|] w1]; exact HL.
Qed.

(** DEL does not shut the dispenser down, so the checkpoint goroutine of
    a checkpointing dispenser outlives it: when the dispenser that the
    factory built has handed out numbers since its last save, the first
    checkpoint after the DEL writes the entry back into the snapshot, at
    the position the dispenser had reached. *)
Theorem deleted_dispenser_still_checkpoints
        (s : Server) (name : string) (cfg : Config) (w : World)
        (osd : OptimizedSegmentDispenser.t World) :
  dispensers s !! name = Some (Optimized osd) ->
  OptimizedSegmentDispenser.checkpointTicker osd = true ->
  OptimizedSegmentDispenser.stopChan osd = false ->
  OptimizedSegmentDispenser.persistFunc osd
  = Some (Factory.hook (mkFactory (Some Storage.Save)) name cfg) ->
  OptimizedSegmentDispenser.currentNumber osd
  <> OptimizedSegmentDispenser.lastPersisted osd ->
  let w1 := snd (Srv.handleDel s name w) in
  Storage.Load name w1 = Err (ErrNew "file does not exist")
  /\ Storage.Load name (snd (osd_run [Tick] osd 0 w1))
     = Ok (cfg, OptimizedSegmentDispenser.currentNumber osd).
Proof.
  intros Hd Hticker _ Hp Hne. cbv zeta.
  pose proof (handleDel_gone s name w) as Hgone. rewrite Hd in Hgone.
  split; [exact Hgone|].
  unfold osd_run. cbn [osd_steps osd_step call tick idle]. rewrite Hticker.
  unfold OptimizedSegmentDispenser.checkpoint. rewrite Hp.
  destruct (Z.eqb_spec (OptimizedSegmentDispenser.currentNumber osd)
                       (OptimizedSegmentDispenser.lastPersisted osd));
    [contradiction|]. cbn [negb].
  unfold Factory.hook. cbn [factoryPersist].
  pose proof (Load_after_Save name cfg
                (OptimizedSegmentDispenser.currentNumber osd)
                (snd (Srv.handleDel s name w))) as HL.
  destruct (Storage.Save name cfg _ _) as [[e|] w2]; exact HL.
Qed.

Definition Del_cfg : Config :=
  mkConfig TypeNumericIncremental 0 100 1 0 0 IncrModeSequence "" ""
           StrategyPreCheckpoint false 0.

(** A pre-checkpoint dispenser as the factory builds it under the name
    "c", after two numbers, and a registry that holds it. *)
Definition Del_dispenser : OptimizedSegmentDispenser.t World :=
  OptimizedSegmentDispenser.mk Del_cfg 102 1100 1000 Float64.c0_1 0 0 false
    (Some (Factory.hook (mkFactory (Some Storage.Save)) "c" Del_cfg))
    1100 true false 2 0.

Definition Del_server : Server :=
  mkServer (<["c" := Optimized Del_dispenser]> ∅)
           (mkFactory (Some Storage.Save)).

Lemma deleted_dispenser_still_checkpoints_witness :
  let w1 := snd (Srv.handleDel Del_server "c"
                               (Scenario.world true true None)) in
  Storage.Load "c" w1 = Err (ErrNew "file does not exist")
  /\ Storage.Load "c" (snd (osd_run [Tick] Del_dispenser 0 w1))
     = Ok (Del_cfg, 102).
Proof.
  apply (deleted_dispenser_still_checkpoints Del_server "c" Del_cfg
           (Scenario.world true true None) Del_dispenser).
  - apply lookup_insert_eq.
  - reflexivity.
  - reflexivity.
  - reflexivity.
  - cbn. discriminate.
Defined.

(** ** Decimal numerals *)

(** The number a numeral denotes, most significant digit first, on top
    of the digits already read. *)
Fixpoint uint_val (d : Decimal.uint) (acc : Z) : Z :=
  match d with
  | Decimal.Nil => acc
  | Decimal.D0 l => uint_val l (10 * acc)
  | Decimal.D1 l => uint_val l (10 * acc + 1)
  | Decimal.D2 l => uint_val l (10 * acc + 2)
  | Decimal.D3 l => uint_val l (10 * acc + 3)
  | Decimal.D4 l => uint_val l (10 * acc + 4)
  | Decimal.D5 l => uint_val l (10 * acc + 5)
  | Decimal.D6 l => uint_val l (10 * acc + 6)
  | Decimal.D7 l => uint_val l (10 * acc + 7)
  | Decimal.D8 l => uint_val l (10 * acc + 8)
  | Decimal.D9 l => uint_val l (10 * acc + 9)
  end.

(** A numeral that does not start with the digit 0. *)
Definition headed (d : Decimal.uint) : bool :=
  match d with
  | Decimal.Nil | Decimal.D0 _ => false
  | _ => true
  end.

Lemma of_uint_acc_val (d : Decimal.uint) (acc : positive) :
  Z.pos (Pos.of_uint_acc d acc) = uint_val d (Z.pos acc).
Proof.
  revert acc. induction d; intros acc; cbn [Pos.of_uint_acc uint_val];
    [reflexivity | rewrite IHd; f_equal; lia ..].
Qed.

Lemma of_uint_val (d : Decimal.uint) :
  Z.of_N (Pos.of_uint d) = uint_val d 0.
Proof.
  induction d; cbn [Pos.of_uint uint_val]; try reflexivity;
    [exact IHd | cbn [Z.of_N]; rewrite of_uint_acc_val; reflexivity ..].
Qed.

Lemma to_uint_val (n : N) : uint_val (N.to_uint n) 0 = Z.of_N n.
Proof.
  rewrite <- of_uint_val. f_equal. apply DecimalN.Unsigned.of_to.
Qed.

Lemma uint_val_acc (d : Decimal.uint) (acc : Z) :
  uint_val d acc = acc * 10 ^ Z.of_nat (Decimal.nb_digits d) + uint_val d 0
  /\ 0 <= uint_val d 0 < 10 ^ Z.of_nat (Decimal.nb_digits d).
Proof.
  revert acc. induction d; intros acc; cbn [uint_val Decimal.nb_digits];
    [ change (Z.of_nat 0) with 0; rewrite Z.pow_0_r; lia
    | rewrite Nat2Z.inj_succ, Z.pow_succ_r by lia;
      destruct (IHd (10 * acc + 0)) as [E1 B];
      match goal with
      | |- uint_val d ?a = _ /\ 0 <= uint_val d ?b < _ =>
        destruct (IHd a) as [Ea _]; destruct (IHd b) as [Eb _];
        rewrite Ea, ?Eb
      end; nia .. ].
Qed.

Lemma uint_val_headed (d : Decimal.uint) :
  headed d = true ->
  10 ^ (Z.of_nat (Decimal.nb_digits d) - 1) <= uint_val d 0.
Proof.
  destruct d; cbn [headed]; try discriminate; intros _;
    cbn [uint_val Decimal.nb_digits];
    rewrite Nat2Z.inj_succ;
    replace (Z.succ (Z.of_nat (Decimal.nb_digits d)) - 1)
      with (Z.of_nat (Decimal.nb_digits d)) by lia;
    match goal with
    | |- _ <= uint_val d ?a => destruct (uint_val_acc d a) as [E B]; rewrite E
    end;
    pose proof (Z.pow_pos_nonneg 10 (Z.of_nat (Decimal.nb_digits d))
                  ltac:(lia) ltac:(lia)); nia.
Qed.

Lemma nzhead_headed (d : Decimal.uint) :
  Decimal.nzhead d = Decimal.Nil \/ headed (Decimal.nzhead d) = true.
Proof.
  induction d; cbn [Decimal.nzhead headed]; auto.
Qed.

Lemma to_uint_headed (n : N) :
  (0 < n)%N -> headed (N.to_uint n) = true.
Proof.
  intros Hn.
  pose proof (DecimalN.Unsigned.to_of (N.to_uint n)) as H.
  rewrite DecimalN.Unsigned.of_to in H.
  assert (Hv : uint_val (N.to_uint n) 0 = Z.of_N n) by apply to_uint_val.
  rewrite H in Hv |- *. unfold Decimal.unorm in *.
  destruct (nzhead_headed (N.to_uint n)) as [E|E].
  - rewrite E in Hv. cbn in Hv. lia.
  - destruct (Decimal.nzhead (N.to_uint n)); cbn in E |- *;
      try discriminate; reflexivity.
Qed.

Lemma to_uint_nonnil (n : N) : N.to_uint n <> Decimal.Nil.
Proof.
  destruct n as [|p]; cbn; [discriminate|].
  apply (DecimalPos.Unsigned.to_uint_nonnil p).
Qed.

(** The number of digits of a natural number in base ten. *)
Definition digits10 (n : Z) : Z :=
  Z.of_nat (Decimal.nb_digits (N.to_uint (Z.to_N n))).

Lemma digits10_bounds (n : Z) :
  0 <= n ->
  1 <= digits10 n /\ n < 10 ^ digits10 n
  /\ (0 < n -> 10 ^ (digits10 n - 1) <= n).
Proof.
  intros Hn. unfold digits10.
  pose proof (to_uint_val (Z.to_N n)) as Hv. rewrite Z2N.id in Hv by exact Hn.
  destruct (uint_val_acc (N.to_uint (Z.to_N n)) 0) as [_ B].
  rewrite Hv in B. split; [|split].
  - pose proof (to_uint_nonnil (Z.to_N n)).
    destruct (N.to_uint (Z.to_N n)); cbn [Decimal.nb_digits]; try congruence;
      lia.
  - lia.
  - intros Hpos. rewrite <- Hv at 2. apply uint_val_headed.
    apply to_uint_headed. lia.
Qed.

Lemma digits10_unique (n L : Z) :
  1 <= L -> 10 ^ (L - 1) <= n < 10 ^ L -> digits10 n = L.
Proof.
  intros HL [Hlo Hhi].
  assert (Hpos : 0 < n).
  { pose proof (Z.pow_pos_nonneg 10 (L - 1) ltac:(lia) ltac:(lia)). lia. }
  destruct (digits10_bounds n ltac:(lia)) as (H1 & H2 & H3).
  specialize (H3 Hpos).
  destruct (Z.lt_trichotomy (digits10 n) L) as [Hlt|[Heq|Hgt]]; [|exact Heq|].
  - pose proof (Z.pow_le_mono_r 10 (digits10 n) (L - 1) ltac:(lia) ltac:(lia)).
    lia.
  - pose proof (Z.pow_le_mono_r 10 L (digits10 n - 1) ltac:(lia) ltac:(lia)).
    lia.
Qed.

Lemma digits10_le (n L : Z) :
  0 <= n < 10 ^ L -> 1 <= L -> digits10 n <= L.
Proof.
  intros [Hlo Hhi] HL.
  destruct (Z.eq_dec n 0) as [->|Hne].
  - vm_compute digits10. exact HL.
  - destruct (digits10_bounds n Hlo) as (H1 & H2 & H3).
    specialize (H3 ltac:(lia)).
    destruct (Z.le_gt_cases (digits10 n) L) as [Hle|Hgt]; [exact Hle|].
    pose proof (Z.pow_le_mono_r 10 L (digits10 n - 1) ltac:(lia) ltac:(lia)).
    lia.
Qed.

(** *** The two verbs on natural numbers *)

Lemma length_append (a b : string) :
  String.length (a +:+ b) = (String.length a + String.length b)%nat.
Proof.
  induction a as [|c a IH]; [reflexivity|].
  change (String c a +:+ b) with (String c (a +:+ b)).
  cbn [String.length Nat.add]. rewrite IH. reflexivity.
Qed.

Lemma append_String (c : ascii) (a b : string) :
  String c a +:+ b = String c (a +:+ b).
Proof. reflexivity. Qed.

Lemma append_empty_l (b : string) : "" +:+ b = b.
Proof. reflexivity. Qed.

Lemma length_repeat_char (c : ascii) (n : nat) :
  String.length (Fmt.repeat_char c n) = n.
Proof. induction n; cbn; [reflexivity | rewrite IHn; reflexivity]. Qed.

Lemma length_string_of_uint (d : Decimal.uint) :
  d <> Decimal.Nil ->
  String.length (NilZero.string_of_uint d) = Decimal.nb_digits d.
Proof.
  assert (H : forall u, String.length (NilEmpty.string_of_uint u)
                        = Decimal.nb_digits u).
  { induction u; cbn; congruence. }
  intros Hd. destruct d; try congruence; apply H.
Qed.

Lemma sprintf_d_nat (n : Z) :
  0 <= n -> Fmt.sprintf_d n = NilZero.string_of_uint (N.to_uint (Z.to_N n)).
Proof.
  intros Hn. unfold Fmt.sprintf_d, NilZero.string_of_int.
  destruct n as [|p|p]; [reflexivity | reflexivity | lia].
Qed.

Lemma length_sprintf_d (n : Z) :
  0 <= n -> Z.of_nat (String.length (Fmt.sprintf_d n)) = digits10 n.
Proof.
  intros Hn. rewrite sprintf_d_nat by exact Hn.
  rewrite length_string_of_uint by apply to_uint_nonnil. reflexivity.
Qed.

(** Zero padding to the width [w] of a natural number that has at most
    [w] digits: exactly [w] characters. *)
Lemma length_sprintf_0wd (w n : Z) :
  1 <= w -> 0 <= n < 10 ^ w ->
  Z.of_nat (String.length (Fmt.sprintf_0wd w n)) = w.
Proof.
  intros Hw Hn. unfold Fmt.sprintf_0wd.
  destruct (Z.ltb_spec n 0) as [?|_]; [lia|].
  destruct (Z.ltb_spec w 0) as [?|_]; [lia|].
  replace (Z.abs_N n) with (Z.to_N n) by (destruct n; cbn; lia || reflexivity).
  rewrite !length_append, length_repeat_char.
  rewrite length_string_of_uint by apply to_uint_nonnil.
  pose proof (digits10_le n w Hn Hw) as Hd. unfold digits10 in Hd.
  cbn [String.length]. lia.
Qed.

(** No padding is needed when the number has [w] digits already. *)
Lemma sprintf_0wd_full (w n : Z) :
  1 <= w -> 10 ^ (w - 1) <= n < 10 ^ w ->
  Fmt.sprintf_0wd w n = Fmt.sprintf_d n.
Proof.
  intros Hw Hn.
  assert (Hpos : 0 < n).
  { pose proof (Z.pow_pos_nonneg 10 (w - 1) ltac:(lia) ltac:(lia)). lia. }
  unfold Fmt.sprintf_0wd.
  destruct (Z.ltb_spec n 0) as [?|_]; [lia|].
  destruct (Z.ltb_spec w 0) as [?|_]; [lia|].
  replace (Z.abs_N n) with (Z.to_N n) by (destruct n; cbn; lia || reflexivity).
  rewrite length_string_of_uint by apply to_uint_nonnil.
  pose proof (digits10_unique n w Hw Hn) as Hd. unfold digits10 in Hd.
  cbn [String.length Nat.add].
  replace (Z.to_nat (w - Z.of_nat (Decimal.nb_digits (N.to_uint (Z.to_N n)))))
    with O by lia.
  cbn. rewrite sprintf_d_nat by lia. reflexivity.
Qed.

(** ** dispenser.go: the shape of what the kernels hand out *)

(** *** Type 1 *)

Lemma draw_unique_range (retry : nat) (min max : Z) (d d' : Dispenser.t)
      (s : string) :
  min <= max -> max < Int64.max_int ->
  0 <= min ->
  Dispenser.draw_unique retry min max d = (Ok s, d') ->
  exists n, min <= n <= max
            /\ s = Fmt.sprintf_0wd (Length (Dispenser.config d)) n.
Proof.
  intros Hspace Hmax Hmin. revert d.
  induction retry as [|k IH]; intros d; cbn [Dispenser.draw_unique].
  - discriminate.
  - assert (Hn : Int64.add (Int64.sub max min) 1 = max - min + 1).
    { unfold Int64.add, Int64.sub.
      rewrite (wrap64_id (max - min))
        by (unfold Int64.in_range, Int64.min_int, Int64.max_int in *; lia).
      apply wrap64_id.
      unfold Int64.in_range, Int64.min_int, Int64.max_int in *. lia. }
    rewrite Hn.
    destruct (Z.leb_spec (max - min + 1) 0) as [Hle|Hgt]; [discriminate|].
    unfold Int63n.
    set (r := draws (Dispenser.rng d) (rpos (Dispenser.rng d))
              mod (max - min + 1)).
    assert (Hr : 0 <= r < max - min + 1) by (apply Z.mod_pos_bound; lia).
    assert (Hnum : Int64.add min r = min + r).
    { unfold Int64.add. apply wrap64_id.
      unfold Int64.in_range, Int64.min_int, Int64.max_int in *. lia. }
    rewrite Hnum.
    cbn [Dispenser.config Dispenser.set_rng Dispenser.used].
    destruct (negb _).
    + intros [= <- _]. exists (min + r). split; [lia | reflexivity].
    + intros H. apply IH in H. exact H.
Qed.

(** A numeric-random identifier is a number of exactly [Length] digits
    without a leading zero: it is the decimal numeral of some [n] with
    [10^(Length-1) <= n <= 10^Length - 1]. *)
Theorem numeric_random_has_exactly_Length_digits
        (d d' : Dispenser.t) (s : string) :
  1 <= Length (Dispenser.config d) <= 18 ->
  Dispenser.nextNumericRandom d = (Ok s, d') ->
  exists n,
    10 ^ (Length (Dispenser.config d) - 1) <= n
    /\ n <= 10 ^ Length (Dispenser.config d) - 1
    /\ s = Fmt.sprintf_d n
    /\ Z.of_nat (String.length s) = Length (Dispenser.config d).
Proof.
  intros HL. unfold Dispenser.nextNumericRandom.
  destruct (Dispenser.over_threshold _ _); [discriminate|].
  rewrite maxValue_small by lia.
  replace (Int64.sub (Length (Dispenser.config d)) 1)
    with (Length (Dispenser.config d) - 1)
    by (unfold Int64.sub; rewrite wrap64_id;
        [reflexivity | unfold Int64.in_range, Int64.min_int, Int64.max_int; lia]).
  rewrite pow10_small by lia.
  set (L := Length (Dispenser.config d)) in *.
  pose proof (pow10_bounds L ltac:(lia)) as B1.
  pose proof (pow10_bounds (L - 1) ltac:(lia)) as B2.
  assert (Hten : 10 ^ L = 10 * 10 ^ (L - 1)).
  { replace L with (Z.succ (L - 1)) at 1 by lia. apply Z.pow_succ_r. lia. }
  assert (H62 : 10 ^ 18 < 2 ^ 62) by (vm_compute; reflexivity).
  intros H. apply draw_unique_range in H;
    [ | lia | unfold Int64.max_int; lia | lia].
  destruct H as (n & Hn & ->). fold L.
  exists n. split; [lia|]. split; [lia|].
  rewrite sprintf_0wd_full by lia. split; [reflexivity|].
  rewrite length_sprintf_d by lia. apply digits10_unique; lia.
Qed.

Definition Shape_random : Dispenser.t :=
  Dispenser.mk (mkConfig TypeNumericRandom 3 0 0 0 0 "" "" "" "" true 0)
               0 (mkRng (fun n => 41 * Z.of_nat n + 7) 0) 0 0 ∅ 0 0
               1288834974657 0.

Lemma numeric_random_has_exactly_Length_digits_witness :
  exists n, 10 ^ (3 - 1) <= n /\ n <= 10 ^ 3 - 1
            /\ "107" = Fmt.sprintf_d n
            /\ Z.of_nat (String.length "107") = 3.
Proof.
  apply (numeric_random_has_exactly_Length_digits Shape_random
           (snd (Dispenser.nextNumericRandom Shape_random)) "107").
  - cbn. lia.
  - vm_compute. reflexivity.
Defined.

(** *** Type 3 *)

Definition hexChars : string := "0123456789abcdef".

(** Every character of [s] is one of [alphabet]. *)
Definition over (alphabet s : string) : Prop :=
  Forall (fun c => In c (list_ascii_of_string alphabet))
         (list_ascii_of_string s).

Lemma get_In (s : string) (n : nat) (c : ascii) :
  String.get n s = Some c -> In c (list_ascii_of_string s).
Proof.
  revert n. induction s as [|a s IH]; intros n; cbn; [discriminate|].
  destruct n as [|n]; [intros [= ->]; left; reflexivity|].
  intros H. right. eapply IH. exact H.
Qed.

Lemma get_Some (s : string) (n : nat) :
  (n < String.length s)%nat -> exists c, String.get n s = Some c.
Proof.
  revert n. induction s as [|a s IH]; intros n; cbn; [lia|].
  destruct n as [|n]; [eauto|]. intros H. apply IH. lia.
Qed.

Lemma Hex_digit_In (n : Z) :
  0 <= n < 16 -> In (Hex.digit n) (list_ascii_of_string hexChars).
Proof.
  intros Hn. unfold Hex.digit.
  destruct (get_Some "0123456789abcdef" (Z.to_nat n)) as [c Hc].
  { cbn. lia. }
  rewrite Hc. eapply get_In. exact Hc.
Qed.

Lemma over_append (alphabet a b : string) :
  over alphabet a -> over alphabet b -> over alphabet (a +:+ b).
Proof.
  unfold over. induction a as [|c a IH]; intros Ha Hb; [exact Hb|].
  rewrite append_String. cbn [list_ascii_of_string] in *.
  inversion Ha; subst. constructor; auto.
Qed.

Lemma over_substring (alphabet s : string) (n : nat) :
  over alphabet s -> over alphabet (String.substring 0 n s).
Proof.
  unfold over. revert n. induction s as [|c s IH]; intros n Hs.
  - destruct n; constructor.
  - destruct n as [|n]; cbn [String.substring list_ascii_of_string];
      [constructor|].
    cbn [list_ascii_of_string] in Hs. inversion Hs; subst.
    constructor; auto.
Qed.

Lemma length_substring (s : string) (n : nat) :
  (n <= String.length s)%nat -> String.length (String.substring 0 n s) = n.
Proof.
  revert n. induction s as [|c s IH]; intros n Hn; cbn in Hn.
  - destruct n; [reflexivity | lia].
  - destruct n as [|n]; [reflexivity|].
    cbn [String.substring String.length]. rewrite IH by lia. reflexivity.
Qed.

Lemma Hex_EncodeToString_shape (bs : list Z) :
  Forall (fun b => 0 <= b < 256) bs ->
  String.length (Hex.EncodeToString bs) = (2 * length bs)%nat
  /\ over hexChars (Hex.EncodeToString bs).
Proof.
  induction bs as [|b bs IH]; intros HF.
  - split; [reflexivity | constructor].
  - inversion HF as [|? ? Hb HF']; subst. destruct (IH HF') as [IH1 IH2].
    unfold Hex.EncodeToString in *. cbn [fold_right].
    unfold Hex.byte at 1. rewrite !append_String, append_empty_l.
    split.
    + cbn [String.length length]. rewrite IH1. lia.
    + unfold over in *. cbn [list_ascii_of_string].
      constructor;
        [apply Hex_digit_In;
         split; [apply Z.div_pos; lia | apply Z.div_lt_upper_bound; lia]|].
      constructor; [apply Hex_digit_In; apply Z.mod_pos_bound; lia|].
      exact IH2.
Qed.

Lemma rand_Read_bytes (n : nat) (w : World) :
  length (fst (rand_Read n w)) = n
  /\ Forall (fun b => 0 <= b < 256) (fst (rand_Read n w)).
Proof.
  unfold rand_Read. cbn [fst]. split.
  - rewrite length_map, length_seq. reflexivity.
  - rewrite Forall_map. apply Forall_forall. intros i _.
    apply Z.mod_pos_bound. lia.
Qed.

Lemma base62_loop_shape (i : nat) (g : Rng) :
  String.length (fst (Dispenser.base62_loop i g)) = i
  /\ over Dispenser.base62Chars (fst (Dispenser.base62_loop i g)).
Proof.
  revert g. induction i as [|i IH]; intros g; cbn [Dispenser.base62_loop].
  - split; [reflexivity | constructor].
  - unfold Int63n.
    set (r := draws g (rpos g) mod 62).
    assert (Hr : 0 <= r < 62) by (apply Z.mod_pos_bound; lia).
    destruct (get_Some Dispenser.base62Chars (Z.to_nat r)) as [c Hc].
    { cbn. lia. }
    rewrite Hc.
    specialize (IH (mkRng (draws g) (S (rpos g)))).
    destruct (Dispenser.base62_loop i _) as [rest g2]. cbn [fst] in *.
    destruct IH as [IH1 IH2]. split.
    + cbn [String.length]. rewrite IH1. reflexivity.
    + unfold over in *. cbn [list_ascii_of_string].
      constructor; [eapply get_In; exact Hc | exact IH2].
Qed.

(** An alphanumeric identifier is always produced, has exactly [Length]
    characters, and they are lower-case hexadecimal digits, or
    characters of the base62 alphabet when that is the configured
    character set. *)
Theorem alphanumeric_has_Length_characters_of_its_charset
        (d : Dispenser.t) (w : World) :
  0 <= Length (Dispenser.config d) <= 64 ->
  exists s,
    fst (fst (Dispenser.nextAlphanumericRandom d w)) = Ok s
    /\ Z.of_nat (String.length s) = Length (Dispenser.config d)
    /\ over (if bool_decide (Charset (Dispenser.config d) = CharsetBase62)
             then Dispenser.base62Chars else hexChars) s.
Proof.
  intros HL. unfold Dispenser.nextAlphanumericRandom.
  destruct (bool_decide (Charset (Dispenser.config d) = CharsetBase62)).
  - unfold Dispenser.nextBase62.
    pose proof (base62_loop_shape (Z.to_nat (Length (Dispenser.config d)))
                                  (Dispenser.rng d)) as [H1 H2].
    destruct (Dispenser.base62_loop _ _) as [s g]. cbn [fst] in *.
    exists s. split; [reflexivity|]. split; [lia | exact H2].
  - unfold Dispenser.nextHex.
    set (L := Length (Dispenser.config d)) in *.
    assert (Hadd : Int64.add L 1 = L + 1).
    { unfold Int64.add. apply wrap64_id.
      unfold Int64.in_range, Int64.min_int, Int64.max_int. lia. }
    rewrite Hadd.
    pose proof (rand_Read_bytes (Z.to_nat (Z.quot (L + 1) 2)) w) as [Hlen HF].
    destruct (rand_Read _ w) as [bytes w1]. cbn [fst] in *.
    destruct (Hex_EncodeToString_shape bytes HF) as [Hl Ho].
    rewrite Hlen in Hl.
    assert (Hq : 2 * Z.quot (L + 1) 2 = L \/ 2 * Z.quot (L + 1) 2 = L + 1).
    { rewrite Z.quot_div_nonneg by lia.
      pose proof (Z.div_mod (L + 1) 2 ltac:(lia)).
      pose proof (Z.mod_pos_bound (L + 1) 2 ltac:(lia)). lia. }
    assert (Hq0 : 0 <= Z.quot (L + 1) 2) by (apply Z.quot_pos; lia).
    destruct (Z.gtb_spec (Z.of_nat (String.length (Hex.EncodeToString bytes))) L)
      as [Hgt|Hle].
    + eexists. split; [reflexivity|]. split.
      * rewrite length_substring by lia. lia.
      * apply over_substring. exact Ho.
    + eexists. split; [reflexivity|]. split; [lia | exact Ho].
Qed.

Definition Shape_token : Dispenser.t :=
  Dispenser.mk (mkConfig TypeAlphanumericRandom 7 0 0 0 0 "" CharsetHex "" ""
                         false 0)
               0 (mkRng (fun n => Z.of_nat n) 0) 0 0 ∅ 0 0 1288834974657 0.

Lemma alphanumeric_has_Length_characters_of_its_charset_witness :
  exists s,
    fst (fst (Dispenser.nextAlphanumericRandom
                Shape_token (Scenario.world true true None))) = Ok s
    /\ Z.of_nat (String.length s) = 7
    /\ over hexChars s.
Proof.
  apply (alphanumeric_has_Length_characters_of_its_charset
           Shape_token (Scenario.world true true None)).
  cbn. lia.
Defined.

(** *** Type 5 *)

(** A property checked on every number below a bound holds for each of
    them. *)
Lemma below_bound_check (P : Z -> bool) (n : nat) :
  forallb P (map Z.of_nat (seq 0 n)) = true ->
  forall x, 0 <= x < Z.of_nat n -> P x = true.
Proof.
  intros H x Hx. rewrite forallb_forall in H. apply H.
  apply in_map_iff. exists (Z.to_nat x). split; [lia|].
  apply in_seq. lia.
Qed.

Lemma version_nibble (b : Z) :
  0 <= Z.lor (Z.land b 15) 64 < 256
  /\ Z.lor (Z.land b 15) 64 / 16 = 4.
Proof.
  change 15 with (Z.ones 4). rewrite Z.land_ones by lia.
  pose proof (Z.mod_pos_bound b (2 ^ 4) ltac:(lia)) as Hx.
  set (x := b mod 2 ^ 4) in *.
  pose proof (below_bound_check
                (fun x => (0 <=? Z.lor x 64) && (Z.lor x 64 <? 256)
                          && (Z.lor x 64 / 16 =? 4)) 16
                ltac:(vm_compute; reflexivity) x
                ltac:(change (Z.of_nat 16) with (2 ^ 4); exact Hx)) as H.
  cbv beta in H. rewrite !andb_true_iff in H. destruct H as [[H1 H2] H3].
  apply Z.leb_le in H1. apply Z.ltb_lt in H2. apply Z.eqb_eq in H3. lia.
Qed.

Lemma variant_nibble (b : Z) :
  0 <= Z.lor (Z.land b 63) 128 < 256
  /\ 8 <= Z.lor (Z.land b 63) 128 / 16 <= 11.
Proof.
  change 63 with (Z.ones 6). rewrite Z.land_ones by lia.
  pose proof (Z.mod_pos_bound b (2 ^ 6) ltac:(lia)) as Hx.
  set (x := b mod 2 ^ 6) in *.
  pose proof (below_bound_check
                (fun x => (0 <=? Z.lor x 128) && (Z.lor x 128 <? 256)
                          && (8 <=? Z.lor x 128 / 16)
                          && (Z.lor x 128 / 16 <=? 11)) 64
                ltac:(vm_compute; reflexivity) x
                ltac:(change (Z.of_nat 64) with (2 ^ 6); exact Hx)) as H.
  cbv beta in H. rewrite !andb_true_iff in H.
  destruct H as [[[H1 H2] H3] H4].
  apply Z.leb_le in H1. apply Z.ltb_lt in H2. apply Z.leb_le in H3.
  apply Z.leb_le in H4. lia.
Qed.

Lemma variant_digit (q : Z) :
  8 <= q <= 11 -> In (Hex.digit q) ["8"; "9"; "a"; "b"]%char.
Proof.
  intros Hq.
  assert (H : q = 8 \/ q = 9 \/ q = 10 \/ q = 11) by lia.
  destruct H as [-> | [-> | [-> | ->]]]; cbn; auto.
Qed.

(** The byte slice of [nextUUID] after the version and the variant are
    set. *)
Definition uuid_bytes (w : World) : list Z :=
  alter (fun b => Z.lor (Z.land b 63) 128) 8%nat
        (alter (fun b => Z.lor (Z.land b 15) 64) 6%nat (fst (rand_Read 16 w))).

Lemma uuid_bytes_shape (w : World) :
  exists b0 b1 b2 b3 b4 b5 b6 b7 b8 b9 b10 b11 b12 b13 b14 b15,
    uuid_bytes w
    = [b0; b1; b2; b3; b4; b5; Z.lor (Z.land b6 15) 64; b7;
       Z.lor (Z.land b8 63) 128; b9; b10; b11; b12; b13; b14; b15]
    /\ Forall (fun b => 0 <= b < 256)
              [b0; b1; b2; b3; b4; b5; b7; b9; b10; b11; b12; b13; b14; b15].
Proof.
  unfold uuid_bytes.
  pose proof (rand_Read_bytes 16 w) as [Hlen HF].
  destruct (fst (rand_Read 16 w)) as [|b0 [|b1 [|b2 [|b3 [|b4 [|b5 [|b6 [|b7
            [|b8 [|b9 [|b10 [|b11 [|b12 [|b13 [|b14 [|b15 [|? ?]]]]]]]]]]]]]]]]];
    try discriminate Hlen.
  exists b0, b1, b2, b3, b4, b5, b6, b7, b8, b9, b10, b11, b12, b13, b14, b15.
  split; [reflexivity|].
  repeat match goal with
         | H : Forall _ (_ :: _) |- _ => inversion H; clear H; subst
         end.
  repeat constructor; lia.
Qed.

Definition hexAndHyphen : string := "0123456789abcdef-".

Lemma Hex_digit_In' (n : Z) :
  0 <= n < 16 -> In (Hex.digit n) (list_ascii_of_string hexAndHyphen).
Proof.
  intros Hn. pose proof (Hex_digit_In n Hn) as H.
  change (list_ascii_of_string hexAndHyphen)
    with (list_ascii_of_string hexChars ++ ["-"%char])%list.
  apply in_or_app. left. exact H.
Qed.

Lemma hyphen_In : In "-"%char (list_ascii_of_string hexAndHyphen).
Proof.
  change (list_ascii_of_string hexAndHyphen)
    with (list_ascii_of_string hexChars ++ ["-"%char])%list.
  apply in_or_app. right. left. reflexivity.
Qed.

Lemma nibbles (b : Z) :
  0 <= b < 256 -> 0 <= b / 16 < 16 /\ 0 <= b mod 16 < 16.
Proof.
  intros Hb. split.
  - split; [apply Z.div_pos; lia | apply Z.div_lt_upper_bound; lia].
  - apply Z.mod_pos_bound. lia.
Qed.

(** What a UUID is made of. *)
Definition uuid_shape (compact : bool) (s : string) : Prop :=
  if compact then
    String.length s = 32%nat
    /\ over hexChars s
    /\ String.get 12 s = Some "4"%char
    /\ (exists c, String.get 16 s = Some c /\ In c ["8"; "9"; "a"; "b"]%char)
  else
    String.length s = 36%nat
    /\ over hexAndHyphen s
    /\ String.get 8 s = Some "-"%char /\ String.get 13 s = Some "-"%char
    /\ String.get 18 s = Some "-"%char /\ String.get 23 s = Some "-"%char
    /\ String.get 14 s = Some "4"%char
    /\ (exists c, String.get 19 s = Some c /\ In c ["8"; "9"; "a"; "b"]%char).

Ltac uuid_digits :=
  repeat match goal with
         | H : Forall _ (_ :: _) |- _ => inversion H; clear H; subst
         end;
  repeat match goal with
         | H : 0 <= ?b < 256 |- _ =>
           destruct (nibbles b H); clear H
         end.

(** A UUID is always produced. In the standard format it has 36
    characters, hyphens at the positions 8, 13, 18 and 23 and lower-case
    hexadecimal digits elsewhere; in the compact format it has 32
    hexadecimal digits. The first digit of the third group is the
    version 4, and the first digit of the fourth group is 8, 9, a or b
    (the RFC 4122 variant). *)
Theorem uuid_is_version_4 (d : Dispenser.t) (w : World) :
  exists s,
    fst (fst (Dispenser.nextUUID d w)) = Ok s
    /\ uuid_shape (bool_decide (UUIDFormat (Dispenser.config d)
                                = UUIDFormatCompact)) s.
Proof.
  unfold Dispenser.nextUUID.
  pose proof (uuid_bytes_shape w) as
      (b0 & b1 & b2 & b3 & b4 & b5 & b6 & b7 & b8 & b9 & b10 & b11 & b12 & b13
       & b14 & b15 & Hb & HF).
  unfold uuid_bytes in Hb.
  destruct (rand_Read 16 w) as [bs w1]. cbn [fst] in Hb.
  cbn [Dispenser.count Dispenser.config].
  rewrite Hb. clear Hb bs.
  destruct (version_nibble b6) as [Hv1 Hv2].
  destruct (variant_nibble b8) as [Hr1 Hr2].
  pose proof (variant_digit _ Hr2) as Hvd.
  pose proof (nibbles _ Hv1) as [_ Hv3].
  pose proof (nibbles _ Hr1) as [Hr3 Hr4].
  set (v6 := Z.lor (Z.land b6 15) 64) in *.
  set (v8 := Z.lor (Z.land b8 63) 128) in *.
  uuid_digits.
  destruct (bool_decide (UUIDFormat (Dispenser.config d) = UUIDFormatCompact));
    eexists; (split; [reflexivity|]);
    cbv beta iota delta [uuid_shape Hex.EncodeToString Hex.byte fold_right
                         foldr firstn skipn append String.length String.get
                         over list_ascii_of_string].
  - split; [reflexivity|]. split.
    + repeat (apply List.Forall_cons;
              [apply Hex_digit_In; first [assumption | rewrite Hv2; lia]|]).
      apply List.Forall_nil.
    + split; [rewrite Hv2; reflexivity|]. eexists. split; [reflexivity|].
      exact Hvd.
  - split; [reflexivity|]. split.
    + repeat (apply List.Forall_cons;
              [first [ apply Hex_digit_In';
                       first [assumption | rewrite Hv2; lia]
                     | apply hyphen_In ]|]).
      apply List.Forall_nil.
    + repeat (split; [reflexivity|]).
      split; [rewrite Hv2; reflexivity|]. eexists. split; [reflexivity|].
      exact Hvd.
Qed.

(** *** Type 2 on the basic kernel *)

(** What the [i]-th call of a numeric-monotonic kernel that starts at
    [c] answers. *)
Definition counted (cfg : Config) (c : Z) (i : nat) : result string :=
  let v := c + Z.of_nat i * Step cfg in
  if bool_decide (IncrMode cfg = IncrModeFixed) then
    if v >? 10 ^ Length cfg - 1 then Err ErrNumberExhausted
    else Ok (Fmt.sprintf_0wd (Length cfg) v)
  else Ok (Fmt.sprintf_d v).



Definition Count_kernel : Dispenser.t :=
  Dispenser.mk (mkConfig TypeNumericIncremental 2 0 40 0 0 IncrModeFixed "" ""
                         StrategyMemory false 0)
               15 (mkRng (fun _ => 0) 0) 0 0 ∅ 0 0 1288834974657 0.


Example counting_to_the_cap :
  map (counted (Dispenser.config Count_kernel)
               (Dispenser.current Count_kernel)) (seq 0 4)
  = [Ok "15"; Ok "55"; Ok "95"; Err ErrNumberExhausted].
Proof. vm_compute. reflexivity. Qed.

(** ** segment_optimized.go: what a run hands out *)

(** The numbers a run handed out, first to last. *)
Fixpoint handed_out {W : Type} (obs : list (result Z * W)) : list Z :=
  match obs with
  | [] => []
  | (Ok v, _) :: rest => v :: handed_out rest
  | (Err _, _) :: rest => handed_out rest
  end.



Section Consecutive.

Context {W : Type}.
Variable cfgN : Config.
Variable size : Z.
Hypothesis Hmode : IncrMode cfgN <> IncrModeFixed.
Hypothesis Hstep : 1 <= Step cfgN.
Hypothesis Hsize : 1 <= size.














End Consecutive.



Definition Run_cfg : Config :=
  mkConfig TypeNumericIncremental 0 100 5 0 0 IncrModeSequence "" ""
           StrategyPreClose false 0.

(** Six calls, with a preload in steps and a checkpoint tick in
    between. *)
Definition Run_schedule : list event :=
  [CallNext; CallNext; PreloadEnter; PreloadPersist; PreloadFinish; CallNext;
   Tick; CallNext; CallNext; CallNext].

(** A hook whose third and fourth calls fail. *)
Definition Run_hook : Z -> nat * list Z -> option error * (nat * list Z) :=
  recording_hook (fun n => negb ((n =? 2) || (n =? 3))%nat).


Example consecutive_across_failures :
  match OptimizedSegmentDispenser.NewOptimizedSegmentDispenser
          Run_cfg 2 Float64.c0_1 1 (Some Run_hook) (O, []) with
  | (Ok osd, w1) =>
    map fst (fst (fst (osd_run Run_schedule osd 0 w1)))
    = [Ok 100; Ok 105; Ok 110; Ok 115; Err ErrIO; Ok 120]
  | (Err _, _) => False
  end.
Proof. vm_compute. reflexivity. Qed.

(** Without the proviso a number is handed out twice. The third call
    finds its segment used up and none prepared. While it is on its way
    to allocate the next segment itself, the preload goroutine that the
    second call started reads the end of the old segment and publishes
    the very segment that the call then installs. When that segment is
    used up, the published one is taken, and 110 and 115 come again.
    The hook has committed the end 120 twice. *)
Definition Race_schedule : list event :=
  [CallNext; CallNext; NextEnter; PreloadEnter; PreloadPersist;
   PreloadFinish; NextPersist; NextFinish; CallNext; CallNext; CallNext].

Example overtaken_call_repeats_numbers :
  match OptimizedSegmentDispenser.NewOptimizedSegmentDispenser
          Run_cfg 2 Float64.c0_1 1 (Some (recording_hook (fun _ => true)))
          (O, []) with
  | (Ok osd, w1) =>
    map fst (fst (fst (osd_run Race_schedule osd 0 w1)))
    = [Ok 100; Ok 105; Ok 110; Ok 115; Ok 110; Ok 115]
    /\ snd (snd (osd_run Race_schedule osd 0 w1)) = [120; 120; 110]
  | (Err _, _) => False
  end.
Proof. vm_compute. split; reflexivity. Qed.

(** ** Checkpoints and shutdown of the checkpointing dispenser *)

(** A checkpoint that went through leaves nothing for the next one to do:
    run again at once, [checkpoint] does not call the hook and changes
    neither the dispenser nor the world. After it, the position last
    persisted is the next number to hand out, unless the dispenser has no
    hook. *)
Theorem checkpoint_is_idempotent {W : Type}
        (osd : OptimizedSegmentDispenser.t W) (w : W) :
  fst (fst (OptimizedSegmentDispenser.checkpoint osd w)) = None ->
  let osd1 := snd (fst (OptimizedSegmentDispenser.checkpoint osd w)) in
  let w1 := snd (OptimizedSegmentDispenser.checkpoint osd w) in
  OptimizedSegmentDispenser.checkpoint osd1 w1 = (None, osd1, w1)
  /\ OptimizedSegmentDispenser.currentNumber osd1
     = OptimizedSegmentDispenser.currentNumber osd
  /\ (OptimizedSegmentDispenser.persistFunc osd <> None ->
      OptimizedSegmentDispenser.lastPersisted osd1
      = OptimizedSegmentDispenser.currentNumber osd).
Proof.
  unfold OptimizedSegmentDispenser.checkpoint.
  destruct (OptimizedSegmentDispenser.persistFunc osd) as [p|] eqn:Hp.
  - destruct (Z.eqb_spec (OptimizedSegmentDispenser.currentNumber osd)
                         (OptimizedSegmentDispenser.lastPersisted osd))
      as [Heq|Hne]; cbn [negb].
    + intros _. cbn [fst snd]. rewrite Hp.
      rewrite (proj2 (Z.eqb_eq _ _) Heq). cbn [negb].
      split; [reflexivity|]. split; [reflexivity|]. intros _. congruence.
    + destruct (p _ w) as [[e|] w1]; cbn [fst snd]; [discriminate|].
      intros _.
      unfold OptimizedSegmentDispenser.set_segment.
      cbn [OptimizedSegmentDispenser.persistFunc
           OptimizedSegmentDispenser.currentNumber
           OptimizedSegmentDispenser.lastPersisted].
      rewrite Hp, Z.eqb_refl. cbn [negb].
      split; [reflexivity|]. split; [reflexivity|]. intros _. reflexivity.
  - intros _. cbn [fst snd]. rewrite Hp.
    split; [reflexivity|]. split; [reflexivity|]. intros H. congruence.
Qed.

(** A dispenser between two checkpoints: two numbers handed out since
    the segment end 1100 was persisted. *)
Definition Tick_dispenser : OptimizedSegmentDispenser.t (nat * list Z) :=
  OptimizedSegmentDispenser.mk
    (mkConfig TypeNumericIncremental 0 100 1 0 0 IncrModeSequence "" ""
              StrategyPreCheckpoint false 0)
    102 1100 1000 Float64.c0_1 0 0 false
    (Some (recording_hook (fun _ => true))) 1100 true false 2 0.

Lemma checkpoint_is_idempotent_witness :
  let osd1 :=
    snd (fst (OptimizedSegmentDispenser.checkpoint Tick_dispenser (O, []))) in
  let w1 := snd (OptimizedSegmentDispenser.checkpoint Tick_dispenser (O, [])) in
  OptimizedSegmentDispenser.checkpoint osd1 w1 = (None, osd1, w1)
  /\ OptimizedSegmentDispenser.currentNumber osd1
     = OptimizedSegmentDispenser.currentNumber Tick_dispenser
  /\ (OptimizedSegmentDispenser.persistFunc Tick_dispenser <> None ->
      OptimizedSegmentDispenser.lastPersisted osd1
      = OptimizedSegmentDispenser.currentNumber Tick_dispenser).
Proof.
  apply (checkpoint_is_idempotent Tick_dispenser (O, [])).
  reflexivity.
Defined.

(** A shutdown happens once. On a dispenser that was not shut down
    before, [GracefulShutdown] calls the hook exactly once, with the next
    number to hand out, and returns what the hook returns; the position
    of the dispenser is as before. Whether that call succeeded or not,
    the stop channel is closed by then, and a second [GracefulShutdown]
    panics on closing it again, without reaching the hook. *)
Theorem shutdown_happens_once {W : Type}
        (osd : OptimizedSegmentDispenser.t W)
        (hook : Z -> W -> option error * W) (w w' : W) :
  OptimizedSegmentDispenser.stopChan osd = false ->
  OptimizedSegmentDispenser.persistFunc osd = Some hook ->
  let r := OptimizedSegmentDispenser.GracefulShutdown osd w in
  (fst (fst r), snd r) = hook (OptimizedSegmentDispenser.currentNumber osd) w
  /\ OptimizedSegmentDispenser.currentNumber (snd (fst r))
     = OptimizedSegmentDispenser.currentNumber osd
  /\ OptimizedSegmentDispenser.GracefulShutdown (snd (fst r)) w'
     = (Some (ErrPanic "close of closed channel"), snd (fst r), w').
Proof.
  intros Hs Hp. cbv zeta.
  assert (Hclosed : forall (o : OptimizedSegmentDispenser.t W) w0,
             OptimizedSegmentDispenser.stopChan o = true ->
             OptimizedSegmentDispenser.GracefulShutdown o w0
             = (Some (ErrPanic "close of closed channel"), o, w0)).
  { intros o w0 H. unfold OptimizedSegmentDispenser.GracefulShutdown.
    rewrite H. reflexivity. }
  assert (Hfirst :
    (fst (fst (OptimizedSegmentDispenser.GracefulShutdown osd w)),
     snd (OptimizedSegmentDispenser.GracefulShutdown osd w))
    = hook (OptimizedSegmentDispenser.currentNumber osd) w
    /\ OptimizedSegmentDispenser.currentNumber
         (snd (fst (OptimizedSegmentDispenser.GracefulShutdown osd w)))
       = OptimizedSegmentDispenser.currentNumber osd
    /\ OptimizedSegmentDispenser.stopChan
         (snd (fst (OptimizedSegmentDispenser.GracefulShutdown osd w)))
       = true).
  { unfold OptimizedSegmentDispenser.GracefulShutdown.
    rewrite Hs. unfold OptimizedSegmentDispenser.set_lifecycle.
    cbn [OptimizedSegmentDispenser.persistFunc
         OptimizedSegmentDispenser.currentNumber
         OptimizedSegmentDispenser.lastPersisted].
    rewrite Hp.
    destruct (hook (OptimizedSegmentDispenser.currentNumber osd) w)
      as [[e|] w1]; cbn [fst snd].
    - repeat split.
    - destruct (_ >? _); repeat split. }
  destruct Hfirst as (H1 & H2 & H3).
  split; [exact H1|]. split; [exact H2|]. apply Hclosed. exact H3.
Qed.

Lemma shutdown_happens_once_witness :
  let r := OptimizedSegmentDispenser.GracefulShutdown Tick_dispenser (O, []) in
  (fst (fst r), snd r)
  = recording_hook (fun _ => true)
      (OptimizedSegmentDispenser.currentNumber Tick_dispenser) (O, [])
  /\ OptimizedSegmentDispenser.currentNumber (snd (fst r))
     = OptimizedSegmentDispenser.currentNumber Tick_dispenser
  /\ OptimizedSegmentDispenser.GracefulShutdown (snd (fst r)) (1%nat, [102])
     = (Some (ErrPanic "close of closed channel"), snd (fst r),
        (1%nat, [102])).
Proof.
  apply (shutdown_happens_once Tick_dispenser (recording_hook (fun _ => true))
           (O, []) (1%nat, [102])).
  - reflexivity.
  - reflexivity.
Defined.

(** ** dispenser.go: segments for a distributed deployment *)

Module Segments.

(** [AllocateSegment]: the range [[start, end)] taken off the front of
    the sequence. *)
Definition AllocateSegment (d : Dispenser.t) (segmentSize : Z)
  : result (Z * Z) * Dispenser.t :=
  if negb (Type_ (Dispenser.config d) =? TypeNumericIncremental) then
    (Err (ErrNew "segment allocation only supported for incremental type"), d)
  else
    let start := Dispenser.current d in
    let end_ := Int64.add (Dispenser.current d)
                          (Int64.mul segmentSize (Step (Dispenser.config d))) in
    (Ok (start, end_), Dispenser.set_current d end_).

(** One allocation per size, in order; the allocations that failed are
    left out. *)
Fixpoint allocate_all (sizes : list Z) (d : Dispenser.t)
  : list (Z * Z) * Dispenser.t :=
  match sizes with
  | [] => ([], d)
  | n :: rest =>
    match AllocateSegment d n with
    | (Ok seg, d1) =>
      let '(segs, d2) := allocate_all rest d1 in (seg :: segs, d2)
    | (Err _, d1) => allocate_all rest d1
    end
  end.

End Segments.

(** Ranges that follow one another from [c] on: each starts where the
    one before it ends, and holds the given number of steps. *)
Fixpoint tiling (c step : Z) (sizes : list Z) : list (Z * Z) :=
  match sizes with
  | [] => []
  | n :: rest => (c, c + n * step) :: tiling (c + n * step) step rest
  end.

(** Segments allocated one after the other tile the sequence: the first
    starts at the current position, each of the others starts where the
    one before it ends, a segment of size [n] spans [n] steps, and the
    kernel's own next number is the end of the last segment, so that no
    number is in two segments or both in a segment and handed out by
    [Next] later. *)
Theorem allocated_segments_tile_the_sequence
        (sizes : list Z) (d : Dispenser.t) :
  Type_ (Dispenser.config d) = TypeNumericIncremental ->
  0 <= Dispenser.current d ->
  0 <= Step (Dispenser.config d) ->
  Forall (fun n => 0 <= n) sizes ->
  Dispenser.current d
  + fold_right Z.add 0 sizes * Step (Dispenser.config d) <= Int64.max_int ->
  let '(segs, d') := Segments.allocate_all sizes d in
  segs = tiling (Dispenser.current d) (Step (Dispenser.config d)) sizes
  /\ Dispenser.current d'
     = Dispenser.current d
       + fold_right Z.add 0 sizes * Step (Dispenser.config d)
  /\ Dispenser.config d' = Dispenser.config d.
Proof.
  pose proof min_int_neg as Hmin.
  revert d. induction sizes as [|n rest IH]; intros d HT Hc Hs HF Hmax.
  - cbn. repeat split. lia.
  - inversion HF as [|? ? Hn HF']; subst.
    cbn [fold_right] in Hmax.
    assert (Hrest : 0 <= fold_right Z.add 0 rest).
    { clear - HF'. induction HF'; cbn; lia. }
    cbn [Segments.allocate_all]. unfold Segments.AllocateSegment.
    rewrite HT. change (negb (TypeNumericIncremental =? TypeNumericIncremental))
      with false. cbv iota.
    rewrite (mul64_id n (Step (Dispenser.config d))) by nia.
    rewrite (add64_id (Dispenser.current d)) by nia.
    set (d1 := Dispenser.set_current d _).
    specialize (IH d1 HT ltac:(cbn; nia) Hs HF' ltac:(cbn; nia)).
    destruct (Segments.allocate_all rest d1) as [segs d2].
    destruct IH as (H1 & H2 & H3).
    change (Dispenser.current d1)
      with (Dispenser.current d + n * Step (Dispenser.config d)) in H1, H2.
    change (Dispenser.config d1) with (Dispenser.config d) in H1, H2, H3.
    split; [|split].
    + cbn [tiling]. rewrite H1. reflexivity.
    + rewrite H2. cbn [fold_right]. lia.
    + exact H3.
Qed.

Lemma allocated_segments_tile_the_sequence_witness :
  let '(segs, d') := Segments.allocate_all [10; 0; 5] Count_kernel in
  segs = tiling (Dispenser.current Count_kernel)
                (Step (Dispenser.config Count_kernel)) [10; 0; 5]
  /\ Dispenser.current d'
     = Dispenser.current Count_kernel
       + fold_right Z.add 0 [10; 0; 5] * Step (Dispenser.config Count_kernel)
  /\ Dispenser.config d' = Dispenser.config Count_kernel.
Proof.
  apply (allocated_segments_tile_the_sequence [10; 0; 5] Count_kernel).
  - reflexivity.
  - cbn. lia.
  - cbn. lia.
  - repeat constructor; lia.
  - vm_compute. intros H. discriminate H.
Defined.

(** ** strconv and strings, as far as the server uses them *)

Module Strconv.

(** The [Err] of the [*NumError] that the parsing functions return; the
    function name and the input it also carries are left out. *)
Definition ErrSyntax : error := ErrNew "invalid syntax".
Definition ErrRange : error := ErrNew "value out of range".

Definition digit_of (c : ascii) : option Z :=
  let n := Z.of_N (N_of_ascii c) in
  if (48 <=? n) && (n <=? 57) then Some (n - 48) else None.

Definition maxUint64 : Z := 2 ^ 64 - 1.

(** The loop of [ParseUint] for base 10 and 64 bits; [n] is the value
    of the digits read so far. A character that is not a digit is a
    syntax error, a value that leaves [uint64] a range error, whichever
    comes first. *)
Fixpoint parse_digits (s : string) (n : Z) : result Z :=
  match s with
  | EmptyString => Ok n
  | String c rest =>
    match digit_of c with
    | None => Err ErrSyntax
    | Some d =>
      if n >=? maxUint64 / 10 + 1 then Err ErrRange
      else
        let n1 := n * 10 + d in
        if n1 >? maxUint64 then Err ErrRange else parse_digits rest n1
    end
  end.

(** [ParseInt(s, 10, 64)]. *)
Definition ParseInt (s : string) : result Z :=
  match s with
  | EmptyString => Err ErrSyntax
  | String c rest =>
    let neg := Ascii.eqb c "-" in
    let body := if Ascii.eqb c "+" || neg then rest else s in
    match body with
    | EmptyString => Err ErrSyntax
    | _ =>
      match parse_digits body 0 with
      | Err e => Err e
      | Ok un =>
        if negb neg && (un >=? 2 ^ 63) then Err ErrRange
        else if neg && (un >? 2 ^ 63) then Err ErrRange
        else Ok (if neg then - un else un)
      end
    end
  end.

(** [Atoi]: an [int] has 64 bits, and the fast path of [Atoi] agrees with
    [ParseInt(s, 10, 0)]. *)
Definition Atoi (s : string) : result Z := ParseInt s.

(** [ParseBool]. *)
Definition ParseBool (s : string) : result bool :=
  if bool_decide (s = "1") || bool_decide (s = "t") || bool_decide (s = "T")
     || bool_decide (s = "TRUE") || bool_decide (s = "true")
     || bool_decide (s = "True") then Ok true
  else if bool_decide (s = "0") || bool_decide (s = "f")
          || bool_decide (s = "F") || bool_decide (s = "FALSE")
          || bool_decide (s = "false") || bool_decide (s = "False")
  then Ok false
  else Err ErrSyntax.

End Strconv.

(** ** package protocol: RESP *)

Module Protocol.

Definition CR : ascii := ascii_of_nat 13.
Definition LF : ascii := ascii_of_nat 10.
Definition CRLF : string := String CR (String LF EmptyString).

Definition ErrInvalidProtocol : error := ErrNew "invalid RESP protocol".
Definition ErrInvalidBulkSize : error := ErrNew "invalid bulk string size".
(** [io.EOF] and [io.ErrUnexpectedEOF]. *)
Definition EOF : error := ErrNew "EOF".
Definition ErrUnexpectedEOF : error := ErrNew "unexpected EOF".

Definition SimpleString : ascii := "+".
Definition Error_ : ascii := "-".
Definition Integer : ascii := ":".
Definition BulkString : ascii := "$".
Definition Array_ : ascii := "*".

(** [Value]: all five fields, whatever the type byte says; [Array] is a
    slice, [None] being nil. *)
#[local] Unset Elimination Schemes.
Inductive Value : Type :=
| mkValue (Type_ : ascii) (Str : string) (Num : Z) (Bulk : string)
          (Array : option (list Value)).
#[local] Set Elimination Schemes.

Definition Type_ (v : Value) : ascii :=
  match v with mkValue t _ _ _ _ => t end.
Definition Str (v : Value) : string :=
  match v with mkValue _ s _ _ _ => s end.
Definition Num (v : Value) : Z :=
  match v with mkValue _ _ n _ _ => n end.
Definition Bulk (v : Value) : string :=
  match v with mkValue _ _ _ b _ => b end.
Definition Array (v : Value) : option (list Value) :=
  match v with mkValue _ _ _ _ a => a end.

(** [Value{}] *)
Definition Value_zero : Value := mkValue Ascii.zero "" 0 "" None.

(** *** Reader

    A [Reader] is what is left of its input: the bytes that arrive before
    the connection ends. After an error that drained the input nothing
    is left. *)

(** [r.reader.ReadString('\n')]: the bytes up to and including the first
    line feed, or the error [EOF] when there is none. *)
Fixpoint ReadString_LF (r : string) : option (string * string) :=
  match r with
  | EmptyString => None
  | String c rest =>
    if Ascii.eqb c LF then Some (String c EmptyString, rest)
    else match ReadString_LF rest with
         | Some (line, rest') => Some (String c line, rest')
         | None => None
         end
  end.

(** [strings.TrimSuffix(s, "\r\n")] *)
Fixpoint TrimSuffix_CRLF (s : string) : string :=
  match s with
  | EmptyString => EmptyString
  | String c rest =>
    if bool_decide (s = CRLF) then EmptyString
    else String c (TrimSuffix_CRLF rest)
  end.

Definition readLine (r : string) : result string * string :=
  match ReadString_LF r with
  | None => (Err EOF, EmptyString)
  | Some (line, rest) => (Ok (TrimSuffix_CRLF line), rest)
  end.

Definition readSimpleString (r : string) : result Value * string :=
  match readLine r with
  | (Err e, r1) => (Err e, r1)
  | (Ok line, r1) => (Ok (mkValue SimpleString line 0 "" None), r1)
  end.

Definition readError (r : string) : result Value * string :=
  match readLine r with
  | (Err e, r1) => (Err e, r1)
  | (Ok line, r1) => (Ok (mkValue Error_ line 0 "" None), r1)
  end.

Definition readInteger (r : string) : result Value * string :=
  match readLine r with
  | (Err e, r1) => (Err e, r1)
  | (Ok line, r1) =>
    match Strconv.ParseInt line with
    | Err e => (Err e, r1)
    | Ok num => (Ok (mkValue Integer "" num "" None), r1)
    end
  end.

(** [io.ReadFull] for a buffer of [n] bytes, which [make] is taken to
    provide whatever [n] is. *)
Definition ReadFull (n : nat) (r : string) : result string * string :=
  if (n <=? String.length r)%nat then
    (Ok (String.substring 0 n r),
     String.substring n (String.length r - n) r)
  else if (String.length r =? 0)%nat then (Err EOF, EmptyString)
  else (Err ErrUnexpectedEOF, EmptyString).

Definition readBulkString (r : string) : result Value * string :=
  match readLine r with
  | (Err e, r1) => (Err e, r1)
  | (Ok line, r1) =>
    match Strconv.Atoi line with
    | Err _ => (Err ErrInvalidBulkSize, r1)
    | Ok size =>
      if size =? -1 then (Ok (mkValue BulkString "" 0 "" None), r1)
      else if size <? -1 then (Err ErrInvalidBulkSize, r1)
      else
        let n := Int64.add size 2 in
        if n <? 0 then (Err (ErrPanic "makeslice: len out of range"), r1)
        else
          match ReadFull (Z.to_nat n) r1 with
          | (Err e, r2) => (Err e, r2)
          | (Ok bulk, r2) =>
            (Ok (mkValue BulkString "" 0
                         (String.substring 0 (Z.to_nat size) bulk) None), r2)
          end
    end
  end.

(** The loop of [readArray] over a reader of values. *)
Fixpoint read_elements (read : string -> option (result Value * string))
         (count : nat) (r : string) (acc : list Value)
  : option (result (list Value) * string) :=
  match count with
  | O => Some (Ok (rev acc), r)
  | S k =>
    match read r with
    | None => None
    | Some (Err e, r1) => Some (Err e, r1)
    | Some (Ok val, r1) => read_elements read k r1 (val :: acc)
    end
  end.

(** [ReadValue]; [fuel] bounds the nesting of arrays, and [None] means
    that it was too small. *)
Fixpoint ReadValue (fuel : nat) (r : string) : option (result Value * string) :=
  match fuel with
  | O => None
  | S k =>
    match r with
    | EmptyString => Some (Err EOF, EmptyString)
    | String typeByte r0 =>
      if Ascii.eqb typeByte SimpleString then Some (readSimpleString r0)
      else if Ascii.eqb typeByte Error_ then Some (readError r0)
      else if Ascii.eqb typeByte Integer then Some (readInteger r0)
      else if Ascii.eqb typeByte BulkString then Some (readBulkString r0)
      else if Ascii.eqb typeByte Array_ then
        match readLine r0 with
        | (Err e, r1) => Some (Err e, r1)
        | (Ok line, r1) =>
          match Strconv.Atoi line with
          | Err e => Some (Err e, r1)
          | Ok count =>
            if count =? -1 then Some (Ok (mkValue Array_ "" 0 "" None), r1)
            else if count <? 0
            then Some (Err (ErrPanic "makeslice: len out of range"), r1)
            else
              match read_elements (ReadValue k) (Z.to_nat count) r1 [] with
              | None => None
              | Some (Err e, r2) => Some (Err e, r2)
              | Some (Ok array, r2) =>
                Some (Ok (mkValue Array_ "" 0 "" (Some array)), r2)
              end
          end
        end
      else Some (Err ErrInvalidProtocol, r0)
    end
  end.

(** *** Writer

    A [Writer] over a connection that takes every byte: what [Flush] has
    handed to the connection, and what was written since the last
    [Flush] (of which the buffered writer may have passed a first part on
    already, when it outgrew its buffer). *)
Record Writer : Type := mkWriter {
  flushed : string;
  buffered : string
}.

Definition WriteString (s : string) (w : Writer) : Writer :=
  mkWriter (flushed w) (buffered w +:+ s).

Definition Flush (w : Writer) : Writer :=
  mkWriter (flushed w +:+ buffered w) EmptyString.

Definition WriteSimpleString (s : string) (w : Writer) : option error * Writer :=
  (None, Flush (WriteString ("+" +:+ s +:+ CRLF) w)).

Definition WriteError (s : string) (w : Writer) : option error * Writer :=
  (None, Flush (WriteString ("-" +:+ s +:+ CRLF) w)).

Definition WriteInteger (n : Z) (w : Writer) : option error * Writer :=
  (None, Flush (WriteString (":" +:+ Fmt.sprintf_d n +:+ CRLF) w)).

Definition WriteBulkString (s : string) (w : Writer) : option error * Writer :=
  (None,
   Flush (WriteString ("$" +:+ Fmt.sprintf_d (Z.of_nat (String.length s))
                       +:+ CRLF +:+ s +:+ CRLF) w)).

Definition WriteNull (w : Writer) : option error * Writer :=
  (None, Flush (WriteString ("$-1" +:+ CRLF) w)).

(** The loop of [WriteArray] over a writer of values. *)
Fixpoint write_elements (write : Value -> Writer -> option error * Writer)
         (arr : list Value) (w : Writer) : option error * Writer :=
  match arr with
  | [] => (None, w)
  | val :: rest =>
    match write val w with
    | (Some e, w1) => (Some e, w1)
    | (None, w1) => write_elements write rest w1
    end
  end.

Fixpoint WriteValue (val : Value) (w : Writer) : option error * Writer :=
  match val with
  | mkValue t s n b a =>
    if Ascii.eqb t SimpleString then WriteSimpleString s w
    else if Ascii.eqb t Error_ then WriteError s w
    else if Ascii.eqb t Integer then WriteInteger n w
    else if Ascii.eqb t BulkString then WriteBulkString b w
    else if Ascii.eqb t Array_ then
      match a with
      | None => (None, Flush (WriteString ("*-1" +:+ CRLF) w))
      | Some arr =>
        let w1 := WriteString ("*" +:+ Fmt.sprintf_d (Z.of_nat (length arr))
                               +:+ CRLF) w in
        (fix loop (l : list Value) (w : Writer) : option error * Writer :=
           match l with
           | [] => (None, w)
           | val :: rest =>
             match WriteValue val w with
             | (Some e, w2) => (Some e, w2)
             | (None, w2) => loop rest w2
             end
           end) arr w1
      end
    else (Some ErrInvalidProtocol, w)
  end.

Definition WriteArray (arr : option (list Value)) (w : Writer)
  : option error * Writer :=
  match arr with
  | None => (None, Flush (WriteString ("*-1" +:+ CRLF) w))
  | Some l =>
    write_elements WriteValue l
      (WriteString ("*" +:+ Fmt.sprintf_d (Z.of_nat (length l)) +:+ CRLF) w)
  end.

End Protocol.

(** ** Numerals read back *)

Lemma uint_val_ge (d : Decimal.uint) (acc : Z) : 0 <= acc -> acc <= uint_val d acc.
Proof.
  intros Ha. destruct (uint_val_acc d acc) as [E [B _]]. rewrite E.
  pose proof (Z.pow_pos_nonneg 10 (Z.of_nat (Decimal.nb_digits d))
                ltac:(lia) ltac:(lia)). nia.
Qed.

Lemma parse_digits_uint (d : Decimal.uint) (acc : Z) :
  0 <= acc -> uint_val d acc <= Strconv.maxUint64 ->
  Strconv.parse_digits (NilEmpty.string_of_uint d) acc = Ok (uint_val d acc).
Proof.
  assert (Hcut : Strconv.maxUint64 / 10 + 1 = 1844674407370955162)
    by (vm_compute; reflexivity).
  assert (Hmax : Strconv.maxUint64 = 18446744073709551615)
    by (vm_compute; reflexivity).
  revert acc. induction d; intros acc Ha Hv;
    cbn [NilEmpty.string_of_uint Strconv.parse_digits uint_val] in *;
    [reflexivity | ..];
    match goal with
    | |- context [Strconv.digit_of ?c] =>
      let k := eval vm_compute in (Strconv.digit_of c) in
      change (Strconv.digit_of c) with k; cbv iota
    end;
    match goal with
    | H : uint_val d ?a <= _ |- _ =>
      pose proof (uint_val_ge d a ltac:(lia)) as Hge
    end;
    rewrite Hcut;
    (destruct (Z.geb_spec acc 1844674407370955162) as [?|_]; [lia|]);
    cbv zeta;
    match goal with
    | |- context [?n1 >? Strconv.maxUint64] =>
      destruct (Z.gtb_spec n1 Strconv.maxUint64) as [?|_]; [lia|]
    end;
    rewrite <- IHd by lia; f_equal; lia.
Qed.

(** A decimal digit, as a character. *)
Definition is_digit (c : ascii) : Prop := Strconv.digit_of c <> None.

Lemma string_of_uint_digits (d : Decimal.uint) :
  Forall is_digit (list_ascii_of_string (NilEmpty.string_of_uint d)).
Proof.
  induction d; cbn [NilEmpty.string_of_uint list_ascii_of_string];
    constructor; try exact IHd; vm_compute; discriminate.
Qed.

Lemma string_of_uint_cons (d : Decimal.uint) :
  d <> Decimal.Nil ->
  NilZero.string_of_uint d = NilEmpty.string_of_uint d
  /\ exists c rest, NilEmpty.string_of_uint d = String c rest /\ is_digit c.
Proof.
  intros Hd. pose proof (string_of_uint_digits d) as HF.
  destruct d; try congruence; (split; [reflexivity|]);
    cbn [NilEmpty.string_of_uint list_ascii_of_string] in *;
    inversion HF; subst; eauto.
Qed.

Lemma digit_not_sign (c : ascii) :
  is_digit c -> Ascii.eqb c "+" = false /\ Ascii.eqb c "-" = false.
Proof.
  intros H. split.
  - destruct (Ascii.eqb_spec c "+") as [->|]; [|reflexivity].
    exfalso. apply H. vm_compute. reflexivity.
  - destruct (Ascii.eqb_spec c "-") as [->|]; [|reflexivity].
    exfalso. apply H. vm_compute. reflexivity.
Qed.

Lemma ParseInt_nat (n : Z) :
  0 <= n < 2 ^ 63 -> Strconv.ParseInt (Fmt.sprintf_d n) = Ok n.
Proof.
  intros Hn. rewrite sprintf_d_nat by lia.
  destruct (string_of_uint_cons (N.to_uint (Z.to_N n)) (to_uint_nonnil _))
    as (E & c & rest & Es & Hc).
  rewrite E. unfold Strconv.ParseInt. rewrite Es.
  destruct (digit_not_sign c Hc) as [-> ->]. cbn [orb negb andb].
  rewrite <- Es.
  pose proof (to_uint_val (Z.to_N n)) as Hv. rewrite Z2N.id in Hv by lia.
  rewrite parse_digits_uint by (rewrite ?Hv; unfold Strconv.maxUint64; lia).
  rewrite Hv.
  destruct (Z.geb_spec n (2 ^ 63)); [lia | reflexivity].
Qed.

(** What [%d] prints is read back by [ParseInt] (and [Atoi]), on all of
    [int64]. *)
Lemma ParseInt_sprintf_d (n : Z) :
  Int64.in_range n -> Strconv.ParseInt (Fmt.sprintf_d n) = Ok n.
Proof.
  unfold Int64.in_range, Int64.min_int, Int64.max_int. intros Hn.
  destruct (Z.le_gt_cases 0 n) as [Hpos|Hneg]; [apply ParseInt_nat; lia|].
  destruct n as [|p|p]; try lia.
  unfold Fmt.sprintf_d, NilZero.string_of_int. cbn [Z.to_int].
  destruct (string_of_uint_cons (Pos.to_uint p)
              (DecimalPos.Unsigned.to_uint_nonnil p))
    as (E & c & rest & Es & Hc).
  rewrite E. unfold Strconv.ParseInt. cbn [Ascii.eqb Bool.eqb orb negb andb].
  rewrite Es. rewrite <- Es.
  pose proof (to_uint_val (N.pos p)) as Hv. cbn [N.to_uint Z.of_N] in Hv.
  rewrite parse_digits_uint by (rewrite ?Hv; unfold Strconv.maxUint64; lia).
  rewrite Hv.
  destruct (Z.gtb_spec (Z.pos p) (2 ^ 63)); [lia | reflexivity].
Qed.

(** ** RESP: what is written is what is read *)

(** No line feed in the string. *)
Definition one_line (s : string) : Prop :=
  Forall (fun c => c <> Protocol.LF) (list_ascii_of_string s).

Lemma append_assoc (a b c : string) : (a +:+ b) +:+ c = a +:+ (b +:+ c).
Proof.
  induction a as [|x a IH]; [reflexivity|].
  rewrite !append_String, IH. reflexivity.
Qed.

Lemma ReadString_LF_line (s rest : string) :
  one_line s ->
  Protocol.ReadString_LF (s +:+ Protocol.CRLF +:+ rest)
  = Some (s +:+ Protocol.CRLF, rest).
Proof.
  unfold one_line. induction s as [|c s IH]; intros H.
  - reflexivity.
  - cbn [list_ascii_of_string] in H. inversion H as [|? ? Hc Hs]; subst.
    rewrite !append_String. cbn [Protocol.ReadString_LF].
    destruct (Ascii.eqb_spec c Protocol.LF) as [?|_]; [contradiction|].
    rewrite (IH Hs). reflexivity.
Qed.

Lemma TrimSuffix_CRLF_line (s : string) :
  Protocol.TrimSuffix_CRLF (s +:+ Protocol.CRLF) = s.
Proof.
  induction s as [|c s IH]; [reflexivity|].
  rewrite append_String. cbn [Protocol.TrimSuffix_CRLF].
  rewrite bool_decide_eq_false_2.
  - rewrite IH. reflexivity.
  - intros H. apply (f_equal String.length) in H.
    cbn [String.length] in H. rewrite length_append in H. cbn in H. lia.
Qed.

Lemma readLine_line (s rest : string) :
  one_line s ->
  Protocol.readLine (s +:+ Protocol.CRLF +:+ rest) = (Ok s, rest).
Proof.
  intros H. unfold Protocol.readLine.
  rewrite (ReadString_LF_line s rest H), TrimSuffix_CRLF_line. reflexivity.
Qed.

Lemma digit_not_LF (c : ascii) : is_digit c -> c <> Protocol.LF.
Proof. intros H ->. apply H. vm_compute. reflexivity. Qed.

Lemma sprintf_d_one_line (n : Z) : one_line (Fmt.sprintf_d n).
Proof.
  unfold one_line, Fmt.sprintf_d, NilZero.string_of_int.
  assert (H : forall d, Forall (fun c => c <> Protocol.LF)
                          (list_ascii_of_string (NilZero.string_of_uint d))).
  { intros d. destruct (Decimal.uint_eq_dec d Decimal.Nil) as [->|Hd].
    - repeat constructor. vm_compute. discriminate.
    - destruct (string_of_uint_cons d Hd) as [-> _].
      eapply Forall_impl; [apply string_of_uint_digits|].
      cbv beta. intros c Hc. apply digit_not_LF. exact Hc. }
  destruct (Z.to_int n) as [d|d]; [apply H|].
  cbn [list_ascii_of_string]. constructor; [vm_compute; discriminate | apply H].
Qed.

Lemma substring_prefix (a b : string) :
  String.substring 0 (String.length a) (a +:+ b) = a.
Proof.
  induction a as [|c a IH].
  - destruct b; reflexivity.
  - rewrite append_String. cbn [String.length String.substring].
    rewrite IH. reflexivity.
Qed.

Lemma substring_all (b : string) :
  String.substring 0 (String.length b) b = b.
Proof. induction b as [|c b IH]; cbn; [reflexivity | rewrite IH; reflexivity]. Qed.

Lemma substring_suffix (a b : string) :
  String.substring (String.length a) (String.length b) (a +:+ b) = b.
Proof.
  induction a as [|c a IH].
  - apply substring_all.
  - rewrite append_String. cbn [String.length String.substring]. exact IH.
Qed.

Lemma ReadFull_exact (a rest : string) :
  Protocol.ReadFull (String.length a) (a +:+ rest) = (Ok a, rest).
Proof.
  unfold Protocol.ReadFull. rewrite length_append.
  destruct (Nat.leb_spec (String.length a)
                         (String.length a + String.length rest)) as [_|?];
    [|lia].
  rewrite substring_prefix.
  replace (String.length a + String.length rest - String.length a)%nat
    with (String.length rest) by lia.
  rewrite substring_suffix. reflexivity.
Qed.

Module Wire.

Import Protocol.

(** The depth of the arrays in a value. *)
Fixpoint depth (v : Value) : nat :=
  match v with
  | mkValue _ _ _ _ None => O
  | mkValue _ _ _ _ (Some l) =>
    S ((fix most (l : list Value) : nat :=
          match l with
          | [] => O
          | x :: rest => Nat.max (depth x) (most rest)
          end) l)
  end.

(** The values that the reader builds: the field that the type byte
    names, the other fields zero; a status line holds no line feed, a
    number is an [int64], and lengths fit an [int]. *)
Fixpoint canonical (v : Value) : Prop :=
  match v with
  | mkValue t s n b a =>
    ((t = SimpleString \/ t = Error_)
     /\ one_line s /\ n = 0 /\ b = "" /\ a = None)
    \/ (t = Integer /\ s = "" /\ Int64.in_range n /\ b = "" /\ a = None)
    \/ (t = BulkString /\ s = "" /\ n = 0 /\ a = None
        /\ Z.of_nat (String.length b) + 2 <= Int64.max_int)
    \/ (t = Array_ /\ s = "" /\ n = 0 /\ b = ""
        /\ match a with
           | None => True
           | Some l =>
             Z.of_nat (length l) <= Int64.max_int
             /\ (fix all (l : list Value) : Prop :=
                   match l with
                   | [] => True
                   | x :: rest => canonical x /\ all rest
                   end) l
           end)
  end.

(** The bytes of a value on the wire. *)
Fixpoint encode (v : Value) : string :=
  match v with
  | mkValue t s n b a =>
    if Ascii.eqb t SimpleString then "+" +:+ s +:+ CRLF
    else if Ascii.eqb t Error_ then "-" +:+ s +:+ CRLF
    else if Ascii.eqb t Integer then ":" +:+ Fmt.sprintf_d n +:+ CRLF
    else if Ascii.eqb t BulkString then
      "$" +:+ Fmt.sprintf_d (Z.of_nat (String.length b)) +:+ CRLF
      +:+ b +:+ CRLF
    else if Ascii.eqb t Array_ then
      match a with
      | None => "*-1" +:+ CRLF
      | Some l =>
        "*" +:+ Fmt.sprintf_d (Z.of_nat (length l)) +:+ CRLF
        +:+ (fix all (l : list Value) : string :=
               match l with
               | [] => ""
               | x :: rest => encode x +:+ all rest
               end) l
      end
    else ""
  end.

Definition encode_all (l : list Value) : string :=
  fold_right (fun x acc => encode x +:+ acc) "" l.

Definition written (w : Writer) : string := flushed w +:+ buffered w.

End Wire.

Module WireFacts.

Import Protocol Wire.

(** Decides the comparisons of type bytes. *)
Ltac type_bytes :=
  repeat match goal with
         | |- context [Ascii.eqb ?a ?b] =>
           let r := eval vm_compute in (Ascii.eqb a b) in
           change (Ascii.eqb a b) with r
         end;
  cbv iota.

Lemma append_empty_r (a : string) : a +:+ "" = a.
Proof.
  induction a as [|c a IH]; [reflexivity|].
  rewrite append_String, IH. reflexivity.
Qed.

Lemma written_WriteString (s : string) (w : Writer) :
  written (WriteString s w) = written w +:+ s.
Proof. unfold written, WriteString. cbn. rewrite append_assoc. reflexivity. Qed.

Lemma written_Flush (w : Writer) : written (Flush w) = written w.
Proof. unfold written, Flush. cbn. apply append_empty_r. Qed.

Lemma encode_Array (s : string) (n : Z) (b : string) (l : list Value) :
  encode (mkValue Array_ s n b (Some l))
  = "*" +:+ Fmt.sprintf_d (Z.of_nat (length l)) +:+ CRLF +:+ encode_all l.
Proof.
  cbn [encode].
  change (Ascii.eqb Array_ SimpleString) with false.
  change (Ascii.eqb Array_ Error_) with false.
  change (Ascii.eqb Array_ Integer) with false.
  change (Ascii.eqb Array_ BulkString) with false.
  change (Ascii.eqb Array_ Array_) with true. cbv iota.
  assert (H : forall l0 : list Value,
             (fix all (l1 : list Value) : string :=
                match l1 with
                | [] => ""
                | x :: rest => encode x +:+ all rest
                end) l0 = encode_all l0).
  { induction l0 as [|x l0 IH]; [reflexivity|].
    unfold encode_all. cbn [fold_right]. fold (encode_all l0).
    rewrite <- IH. reflexivity. }
  rewrite H. reflexivity.
Qed.

Lemma canonical_Array (s : string) (n : Z) (b : string) (l : list Value) :
  canonical (mkValue Array_ s n b (Some l)) ->
  s = "" /\ n = 0 /\ b = "" /\ Z.of_nat (length l) <= Int64.max_int
  /\ Forall canonical l.
Proof.
  cbn [canonical].
  intros [([H|H] & _)|[(H & _)|[(H & _)|(_ & Hs & Hn & Hb & Hl & Hall)]]];
    try discriminate H.
  repeat split; try assumption.
  clear Hl. induction l as [|x l IH]; constructor; [tauto|].
  apply IH. tauto.
Qed.

Lemma depth_Array (t : ascii) (s : string) (n : Z) (b : string)
      (l : list Value) (k : nat) :
  (depth (mkValue t s n b (Some l)) < S k)%nat ->
  Forall (fun x => (depth x < k)%nat) l.
Proof.
  cbn [depth]. intros H. apply PeanoNat.lt_S_n in H.
  induction l as [|x l IH]; constructor.
  - lia.
  - apply IH. lia.
Qed.

(** The writer puts the bytes of the value on the wire, and reports no
    error, whenever the type byte is one of the five. *)
Lemma WriteValue_written (v : Value) :
  canonical v ->
  forall w, fst (WriteValue v w) = None
            /\ written (snd (WriteValue v w)) = written w +:+ encode v.
Proof.
  revert v. fix IH 1. intros [t s n b a] Hc w.
  destruct a as [l|].
  - assert (Ht : t = Array_).
    { cbn [canonical] in Hc.
      destruct Hc as [(_ & _ & _ & _ & H)|[(_ & _ & _ & _ & H)
                     |[(_ & _ & _ & H & _)|(H & _)]]];
        try discriminate H. exact H. }
    subst t. destruct (canonical_Array _ _ _ _ Hc) as (_ & _ & _ & _ & Hall).
    rewrite encode_Array. cbn [WriteValue].
    change (Ascii.eqb Array_ SimpleString) with false.
    change (Ascii.eqb Array_ Error_) with false.
    change (Ascii.eqb Array_ Integer) with false.
    change (Ascii.eqb Array_ BulkString) with false.
    change (Ascii.eqb Array_ Array_) with true. cbv iota.
    set (loop := fix loop (l : list Value) (w : Writer) {struct l} :=
                   match l with
                   | [] => (None, w)
                   | val :: rest =>
                     match WriteValue val w with
                     | (Some e, w2) => (Some e, w2)
                     | (None, w2) => loop rest w2
                     end
                   end).
    assert (Hloop : forall w0, fst (loop l w0) = None
                               /\ written (snd (loop l w0))
                                  = written w0 +:+ encode_all l).
    { clear Hc. revert l Hall. fix IHl 1. intros [|x l] Hall w0.
      - cbn. rewrite append_empty_r. split; reflexivity.
      - inversion Hall as [|? ? Hx Hl]; subst.
        destruct (IH x Hx w0) as [He Hw].
        cbn [loop]. fold loop.
        destruct (WriteValue x w0) as [[e|] w2]; cbn [fst snd] in *;
          [discriminate|].
        destruct (IHl l Hl w2) as [He2 Hw2].
        split; [exact He2|]. rewrite Hw2, Hw.
        unfold encode_all. cbn [fold_right]. apply append_assoc. }
    destruct (Hloop (WriteString ("*" +:+ Fmt.sprintf_d (Z.of_nat (length l))
                                  +:+ CRLF) w)) as [He Hw].
    split; [exact He|]. rewrite Hw, written_WriteString.
    rewrite !append_assoc. reflexivity.
  - cbn [canonical] in Hc.
    destruct Hc as [([-> | ->] & _)|[(-> & _)|[(-> & _)|(-> & _)]]];
      cbn [WriteValue encode]; type_bytes;
      unfold WriteSimpleString, WriteError, WriteInteger, WriteBulkString;
      cbn [fst snd]; rewrite ?written_Flush, ?written_WriteString;
      split; reflexivity.
Qed.

Lemma plus_append (x : string) : "+" +:+ x = String SimpleString x.
Proof. reflexivity. Qed.
Lemma minus_append (x : string) : "-" +:+ x = String Error_ x.
Proof. reflexivity. Qed.
Lemma colon_append (x : string) : ":" +:+ x = String Integer x.
Proof. reflexivity. Qed.
Lemma dollar_append (x : string) : "$" +:+ x = String BulkString x.
Proof. reflexivity. Qed.
Lemma star_append (x : string) : "*" +:+ x = String Array_ x.
Proof. reflexivity. Qed.

Lemma readBulkString_payload (b tail rest : string) :
  Z.of_nat (String.length b) + 2 <= Int64.max_int ->
  String.length tail = 2%nat ->
  readBulkString (Fmt.sprintf_d (Z.of_nat (String.length b)) +:+ CRLF
                  +:+ b +:+ tail +:+ rest)
  = (Ok (mkValue BulkString "" 0 b None), rest).
Proof.
  intros Hlen Htail. unfold readBulkString.
  rewrite readLine_line by apply sprintf_d_one_line.
  unfold Strconv.Atoi. rewrite ParseInt_sprintf_d
    by (pose proof min_int_neg;
        unfold Int64.in_range, Int64.max_int, Int64.min_int in *; lia).
  destruct (Z.eqb_spec (Z.of_nat (String.length b)) (-1)) as [?|_]; [lia|].
  destruct (Z.ltb_spec (Z.of_nat (String.length b)) (-1)) as [?|_]; [lia|].
  cbv zeta. pose proof min_int_neg.
  rewrite add64_id by lia.
  destruct (Z.ltb_spec (Z.of_nat (String.length b) + 2) 0) as [?|_]; [lia|].
  replace (Z.to_nat (Z.of_nat (String.length b) + 2))
    with (String.length (b +:+ tail))
    by (rewrite length_append, Htail; lia).
  rewrite <- (append_assoc b tail rest).
  rewrite ReadFull_exact. rewrite Nat2Z.id, substring_prefix. reflexivity.
Qed.

Lemma read_elements_all (k : nat) (l : list Value) :
  Forall (fun x => forall rest,
            ReadValue k (encode x +:+ rest) = Some (Ok x, rest)) l ->
  forall acc rest,
    read_elements (ReadValue k) (length l) (encode_all l +:+ rest) acc
    = Some (Ok (rev acc ++ l)%list, rest).
Proof.
  induction l as [|x l IH]; intros HF acc rest; cbn [length read_elements].
  - rewrite app_nil_r. reflexivity.
  - inversion HF as [|? ? Hx Hl]; subst.
    unfold encode_all. cbn [fold_right]. rewrite append_assoc.
    rewrite Hx. fold (encode_all l). rewrite (IH Hl).
    cbn [rev]. rewrite <- app_assoc. reflexivity.
Qed.

(** The reader inverts the encoding, with fuel beyond the depth of the
    value. *)
Lemma ReadValue_encode (fuel : nat) :
  forall v, (depth v < fuel)%nat -> canonical v ->
            forall rest, ReadValue fuel (encode v +:+ rest) = Some (Ok v, rest).
Proof.
  induction fuel as [|k IH]; intros v Hd Hc rest; [lia|].
  destruct v as [t s n b a].
  destruct a as [l|].
  - assert (Ht : t = Array_).
    { cbn [canonical] in Hc.
      destruct Hc as [(_ & _ & _ & _ & H)|[(_ & _ & _ & _ & H)
                     |[(_ & _ & _ & H & _)|(H & _)]]];
        try discriminate H. exact H. }
    subst t.
    destruct (canonical_Array _ _ _ _ Hc) as (-> & -> & -> & Hlen & Hall).
    pose proof (depth_Array _ _ _ _ _ _ Hd) as Hdl.
    rewrite encode_Array, star_append, append_String, !append_assoc.
    cbn [ReadValue].
    change (Ascii.eqb Array_ SimpleString) with false.
    change (Ascii.eqb Array_ Error_) with false.
    change (Ascii.eqb Array_ Integer) with false.
    change (Ascii.eqb Array_ BulkString) with false.
    change (Ascii.eqb Array_ Array_) with true. cbv iota.
    rewrite readLine_line by apply sprintf_d_one_line.
    unfold Strconv.Atoi. rewrite ParseInt_sprintf_d
      by (pose proof min_int_neg;
          unfold Int64.in_range, Int64.max_int, Int64.min_int in *; lia).
    destruct (Z.eqb_spec (Z.of_nat (length l)) (-1)) as [?|_]; [lia|].
    destruct (Z.ltb_spec (Z.of_nat (length l)) 0) as [?|_]; [lia|].
    rewrite Nat2Z.id.
    rewrite read_elements_all; [reflexivity|].
    clear Hlen Hd Hc.
    induction l as [|x l IHl]; constructor.
    + inversion Hall; inversion Hdl; subst. intros r. apply IH; assumption.
    + inversion Hall; inversion Hdl; subst. apply IHl; assumption.
  - cbn [canonical] in Hc.
    destruct Hc as [([-> | ->] & Hs & -> & -> & _)
                   |[(-> & -> & Hn & -> & _)
                   |[(-> & -> & -> & _ & Hb)|(-> & -> & -> & -> & _)]]];
      cbn [encode].
    + change (Ascii.eqb SimpleString SimpleString) with true. cbv iota.
      rewrite plus_append, append_String, !append_assoc. cbn [ReadValue].
      change (Ascii.eqb SimpleString SimpleString) with true. cbv iota.
      unfold readSimpleString. rewrite readLine_line by exact Hs. reflexivity.
    + change (Ascii.eqb Error_ SimpleString) with false.
      change (Ascii.eqb Error_ Error_) with true. cbv iota.
      rewrite minus_append, append_String, !append_assoc. cbn [ReadValue].
      change (Ascii.eqb Error_ SimpleString) with false.
      change (Ascii.eqb Error_ Error_) with true. cbv iota.
      unfold readError. rewrite readLine_line by exact Hs. reflexivity.
    + change (Ascii.eqb Integer SimpleString) with false.
      change (Ascii.eqb Integer Error_) with false.
      change (Ascii.eqb Integer Integer) with true. cbv iota.
      rewrite colon_append, append_String, !append_assoc. cbn [ReadValue].
      change (Ascii.eqb Integer SimpleString) with false.
      change (Ascii.eqb Integer Error_) with false.
      change (Ascii.eqb Integer Integer) with true. cbv iota.
      unfold readInteger. rewrite readLine_line by apply sprintf_d_one_line.
      rewrite ParseInt_sprintf_d by exact Hn. reflexivity.
    + change (Ascii.eqb BulkString SimpleString) with false.
      change (Ascii.eqb BulkString Error_) with false.
      change (Ascii.eqb BulkString Integer) with false.
      change (Ascii.eqb BulkString BulkString) with true. cbv iota.
      rewrite dollar_append, append_String, !append_assoc. cbn [ReadValue].
      change (Ascii.eqb BulkString SimpleString) with false.
      change (Ascii.eqb BulkString Error_) with false.
      change (Ascii.eqb BulkString Integer) with false.
      change (Ascii.eqb BulkString BulkString) with true. cbv iota.
      rewrite readBulkString_payload by (exact Hb || reflexivity).
      reflexivity.
    + change (Ascii.eqb Array_ SimpleString) with false.
      change (Ascii.eqb Array_ Error_) with false.
      change (Ascii.eqb Array_ Integer) with false.
      change (Ascii.eqb Array_ BulkString) with false.
      change (Ascii.eqb Array_ Array_) with true. cbv iota.
      change ("*-1" +:+ CRLF) with ("*" +:+ "-1" +:+ CRLF).
      rewrite star_append, append_String, !append_assoc. cbn [ReadValue].
      change (Ascii.eqb Array_ SimpleString) with false.
      change (Ascii.eqb Array_ Error_) with false.
      change (Ascii.eqb Array_ Integer) with false.
      change (Ascii.eqb Array_ BulkString) with false.
      change (Ascii.eqb Array_ Array_) with true. cbv iota.
      rewrite (readLine_line "-1" rest)
        by (repeat constructor; vm_compute; discriminate).
      reflexivity.
Qed.

End WireFacts.

(** RESP round trip. A value as the reader builds them (the field its
    type byte names, the others zero; no line feed in a status or error
    line; nested arrays allowed, nil or not) is written without error,
    and reading the bytes written gives the value back and leaves
    whatever follows them unread, with any fuel beyond the depth of the
    value. *)
Theorem RESP_round_trip (v : Protocol.Value) (rest : string) (fuel : nat) :
  Wire.canonical v ->
  (Wire.depth v < fuel)%nat ->
  let r := Protocol.WriteValue v (Protocol.mkWriter "" "") in
  fst r = None
  /\ Protocol.ReadValue fuel (Wire.written (snd r) +:+ rest)
     = Some (Ok v, rest).
Proof.
  intros Hc Hd. cbv zeta.
  destruct (WireFacts.WriteValue_written v Hc (Protocol.mkWriter "" ""))
    as [He Hw].
  split; [exact He|]. rewrite Hw.
  change (Wire.written (Protocol.mkWriter "" "")) with "".
  rewrite append_empty_l. apply WireFacts.ReadValue_encode; assumption.
Qed.

(** The command [GET k] as a client sends it. *)
Definition Wire_get : Protocol.Value :=
  Protocol.mkValue Protocol.Array_ "" 0 ""
    (Some [Protocol.mkValue Protocol.BulkString "" 0 "GET" None;
           Protocol.mkValue Protocol.BulkString "" 0 "k" None]).

Lemma RESP_round_trip_witness :
  let r := Protocol.WriteValue Wire_get (Protocol.mkWriter "" "") in
  fst r = None
  /\ Protocol.ReadValue 2 (Wire.written (snd r) +:+ "+PONG")
     = Some (Ok Wire_get, "+PONG").
Proof.
  apply (RESP_round_trip Wire_get "+PONG" 2).
  - cbn. right. right. right. repeat split; try (vm_compute; discriminate).
    + right. right. left. repeat split. vm_compute. discriminate.
    + right. right. left. repeat split. vm_compute. discriminate.
  - cbn. lia.
Defined.

(** The reader takes the length of a bulk string at its word: the two
    bytes that follow the payload are consumed without being looked at,
    whatever they are. *)
Theorem bulk_terminator_is_not_checked
        (b : string) (x y : ascii) (rest : string) (fuel : nat) :
  Z.of_nat (String.length b) + 2 <= Int64.max_int ->
  Protocol.ReadValue (S fuel)
    ("$" +:+ Fmt.sprintf_d (Z.of_nat (String.length b)) +:+ Protocol.CRLF
     +:+ b +:+ String x (String y "") +:+ rest)
  = Some (Ok (Protocol.mkValue Protocol.BulkString "" 0 b None), rest).
Proof.
  intros Hb. rewrite WireFacts.dollar_append. cbn [Protocol.ReadValue].
  change (Ascii.eqb Protocol.BulkString Protocol.SimpleString) with false.
  change (Ascii.eqb Protocol.BulkString Protocol.Error_) with false.
  change (Ascii.eqb Protocol.BulkString Protocol.Integer) with false.
  change (Ascii.eqb Protocol.BulkString Protocol.BulkString) with true.
  cbv iota.
  rewrite WireFacts.readBulkString_payload by (exact Hb || reflexivity).
  reflexivity.
Qed.

Lemma bulk_terminator_is_not_checked_witness :
  Protocol.ReadValue 1
    ("$" +:+ Fmt.sprintf_d (Z.of_nat (String.length "GET")) +:+ Protocol.CRLF
     +:+ "GET" +:+ String "!"%char (String "?"%char "") +:+ ":1")
  = Some (Ok (Protocol.mkValue Protocol.BulkString "" 0 "GET" None), ":1").
Proof.
  apply (bulk_terminator_is_not_checked "GET" "!"%char "?"%char ":1" 0).
  vm_compute. intros H. discriminate H.
Defined.

(** *** Type 4 *)

(** The clock over the readings from the next one up to [horizon]: it
    does not go back, and it stays within the 41 bits after the epoch. *)
Definition clock_sane (epoch : Z) (w : World) (horizon : nat) : Prop :=
  forall n, (ticks w <= n < horizon)%nat ->
    clock w n <= clock w (S n) /\ epoch <= clock w n < epoch + 2 ^ 41.

(** Over these readings the clock has moved on after [k] more. *)
Definition clock_advances (k : nat) (w : World) (horizon : nat) : Prop :=
  forall n, (ticks w <= n < horizon)%nat -> clock w n < clock w (n + k)%nat.

(** The identifier as a sum of its fields. *)
Definition snowflake_sum (timestamp : Z) (cfg : Config) (seq : Z) : Z :=
  timestamp * 2 ^ 22 + Z.land (DatacenterID cfg) 31 * 2 ^ 17
  + Z.land (MachineID cfg) 31 * 2 ^ 12 + seq.

Lemma lor_low (a b k : Z) :
  0 <= k -> 0 <= b < 2 ^ k -> Z.lor (a * 2 ^ k) b = a * 2 ^ k + b.
Proof.
  intros Hk Hb.
  assert (Z.land (a * 2 ^ k) b = 0) as Hd.
  { apply Z.bits_inj'. intros n Hn. rewrite Z.land_spec, Z.bits_0.
    destruct (Z.lt_ge_cases n k).
    - rewrite Z.mul_pow2_bits_low by lia. reflexivity.
    - rewrite (testbit_small b k n) by lia. apply andb_false_r. }
  rewrite <- Z.lxor_lor by exact Hd.
  symmetry. apply Z.add_nocarry_lxor. exact Hd.
Qed.

Lemma land_31_range (x : Z) : 0 <= Z.land x 31 < 32.
Proof.
  change 31 with (Z.ones 5). rewrite Z.land_ones by lia.
  change (2 ^ 5) with 32. apply Z.mod_pos_bound. lia.
Qed.

Lemma snowflakeID_sum (timestamp : Z) (cfg : Config) (seq : Z) :
  0 <= timestamp < 2 ^ 41 -> 0 <= seq < 4096 ->
  Dispenser.snowflakeID timestamp cfg seq = snowflake_sum timestamp cfg seq.
Proof.
  intros Ht Hs. unfold Dispenser.snowflakeID, snowflake_sum, Int64.shl.
  pose proof (land_31_range (DatacenterID cfg)) as Hd.
  pose proof (land_31_range (MachineID cfg)) as Hm.
  cbv zeta. rewrite !Z.shiftl_mul_pow2 by lia.
  set (dc := Z.land (DatacenterID cfg) 31) in *.
  set (m := Z.land (MachineID cfg) 31) in *.
  rewrite !wrap64_id
    by (unfold Int64.in_range, Int64.min_int, Int64.max_int; lia).
  rewrite (lor_low timestamp (dc * 2 ^ 17) 22) by lia.
  replace (timestamp * 2 ^ 22 + dc * 2 ^ 17)
    with ((timestamp * 32 + dc) * 2 ^ 17) by lia.
  rewrite (lor_low _ (m * 2 ^ 12) 17) by lia.
  replace ((timestamp * 32 + dc) * 2 ^ 17 + m * 2 ^ 12)
    with (((timestamp * 32 + dc) * 32 + m) * 2 ^ 12) by lia.
  rewrite (lor_low _ seq 12) by lia. lia.
Qed.

(** The order of the identifiers is the order of (timestamp, sequence
    number). *)
Lemma snowflake_sum_lt (t1 t2 : Z) (cfg : Config) (s1 s2 : Z) :
  0 <= s1 < 4096 -> 0 <= s2 < 4096 ->
  t1 < t2 \/ (t1 = t2 /\ s1 < s2) ->
  snowflake_sum t1 cfg s1 < snowflake_sum t2 cfg s2.
Proof. unfold snowflake_sum. intros H1 H2 [H|[-> H]]; lia. Qed.

Lemma snowflake_sum_range (t : Z) (cfg : Config) (s : Z) :
  0 <= t < 2 ^ 41 -> 0 <= s < 4096 ->
  0 <= snowflake_sum t cfg s < 2 ^ 63.
Proof.
  intros Ht Hs. unfold snowflake_sum.
  pose proof (land_31_range (DatacenterID cfg)).
  pose proof (land_31_range (MachineID cfg)). lia.
Qed.

(** The busy-wait returns once the clock has passed [last], with the
    reading that passed it. *)
Lemma spin_returns (fuel : nat) (last : Z) :
  forall (timestamp : Z) (w : World),
    (exists m, (m < fuel)%nat /\ last < clock w (ticks w + m)%nat) ->
    exists t1 w2,
      Dispenser.spin fuel last timestamp w = Some (t1, w2)
      /\ last < t1
      /\ clock w2 = clock w
      /\ ((t1 = timestamp /\ w2 = w)
          \/ exists m, ticks w2 = S m /\ (ticks w <= m < ticks w + fuel)%nat
                       /\ t1 = clock w m).
Proof.
  induction fuel as [|k IH]; intros timestamp w [m [Hm Hc]].
  - lia.
  - cbn [Dispenser.spin]. destruct (Z.leb_spec timestamp last) as [Hle|Hgt].
    + unfold now.
      set (w1 := mkWorld _ _ _ _ _ _ _ _ _ _ _).
      destruct (Z.leb_spec (clock w (ticks w)) last) as [Hle1|Hgt1].
      * destruct m as [|m'].
        { rewrite Nat.add_0_r in Hc. lia. }
        destruct (IH (clock w (ticks w)) w1) as [t1 [w2 [E [H1 [H2 H3]]]]].
        { exists m'. split; [lia|]. subst w1. cbn [clock ticks].
          replace (S (ticks w) + m')%nat with (ticks w + S m')%nat by lia.
          exact Hc. }
        exists t1, w2. split; [exact E|]. split; [exact H1|].
        split; [rewrite H2; reflexivity|]. right.
        destruct H3 as [[-> _]|[m0 [Ht [Hm0 Ht1]]]]; [lia|].
        exists m0. subst w1. cbn [clock ticks] in *.
        split; [exact Ht|]. split; [lia|exact Ht1].
      * exists (clock w (ticks w)), w1.
        split.
        { destruct k; cbn [Dispenser.spin];
            destruct (Z.leb_spec (clock w (ticks w)) last); try lia;
              reflexivity. }
        split; [lia|]. split; [reflexivity|]. right.
        exists (ticks w). split; [reflexivity|]. split; [lia|reflexivity].
    + exists timestamp, w. split; [reflexivity|]. split; [lia|].
      split; [reflexivity|]. left. split; reflexivity.
Qed.

(** The identifier follows the (timestamp, sequence number) the
    dispenser used last. *)
Definition after_key (d : Dispenser.t) (ts sq : Z) : Prop :=
  Dispenser.lastTimestamp d < ts
  \/ (Dispenser.lastTimestamp d = ts /\ Dispenser.seqCounter d < sq).

(** One call: it returns, the identifier is the sum of its fields for
    the last reading of the clock and a sequence number, and the pair
    follows the pair used before. *)
Lemma nextSnowflake_step (fuel horizon : nat) (d : Dispenser.t) (w : World) :
  clock_sane (Dispenser.snowflakeEpoch d) w horizon ->
  clock_advances fuel w horizon ->
  (ticks w + S fuel <= horizon)%nat ->
  exists ts sq w1,
    Dispenser.nextSnowflake fuel d w
    = Some (Ok (Fmt.sprintf_d
                  (snowflake_sum (ts - Dispenser.snowflakeEpoch d)
                                 (Dispenser.config d) sq)),
            Dispenser.count (Dispenser.set_clockstate d sq ts), w1)
    /\ clock w1 = clock w
    /\ (exists m, ticks w1 = S m /\ (ticks w <= m < ticks w + S fuel)%nat
                  /\ ts = clock w m)
    /\ 0 <= sq < 4096
    /\ (Dispenser.lastTimestamp d <= clock w (ticks w) ->
        0 <= Dispenser.seqCounter d < 4096 -> after_key d ts sq).
Proof.
  intros Hsane Hadv Hh.
  assert (forall ts sq m, (ticks w <= m < ticks w + S fuel)%nat ->
            ts = clock w m -> 0 <= sq < 4096 ->
            Dispenser.snowflakeID
              (Int64.sub ts (Dispenser.snowflakeEpoch d))
              (Dispenser.config d) sq
            = snowflake_sum (ts - Dispenser.snowflakeEpoch d)
                            (Dispenser.config d) sq) as Hid.
  { intros ts sq m Hm -> Hsq.
    destruct (Hsane m ltac:(lia)) as [_ Hr].
    unfold Int64.sub. rewrite wrap64_id
      by (unfold Int64.in_range, Int64.min_int, Int64.max_int; lia).
    apply snowflakeID_sum; lia. }
  unfold Dispenser.nextSnowflake, now.
  set (w1 := mkWorld _ _ _ _ _ _ _ _ _ _ _).
  destruct (Z.eqb_spec (clock w (ticks w)) (Dispenser.lastTimestamp d))
    as [Heq|Hne].
  - pose proof (land_4095_range (Int64.add (Dispenser.seqCounter d) 1)) as R.
    set (sq := Z.land (Int64.add (Dispenser.seqCounter d) 1) 4095) in *.
    destruct (Z.eqb_spec sq 0) as [Hz|Hnz].
    + destruct (spin_returns fuel (Dispenser.lastTimestamp d)
                             (clock w (ticks w)) w1)
        as [t1 [w2 [E [H1 [H2 H3]]]]].
      { pose proof (Hadv (ticks w) ltac:(lia)) as Ha.
        destruct fuel as [|k]; [rewrite Nat.add_0_r in Ha; lia|].
        exists k. split; [lia|]. subst w1. cbn [clock ticks].
        replace (S (ticks w) + k)%nat with (ticks w + S k)%nat by lia.
        rewrite <- Heq. exact Ha. }
      rewrite E. destruct H3 as [[Ht _]|[m [Ht [Hm Ht1]]]]; [lia|].
      subst w1. cbn [clock ticks] in *.
      exists t1, sq, w2. cbn [Dispenser.set_clockstate Dispenser.config
        Dispenser.seqCounter Dispenser.snowflakeEpoch].
      rewrite (Hid t1 sq m) by (try lia; rewrite Ht1, ?H2; reflexivity).
      split; [reflexivity|]. split; [exact H2|].
      split; [exists m; split; [exact Ht|]; split; [lia|exact Ht1]|].
      split; [exact R|]. intros _ _. left. exact H1.
    + exists (clock w (ticks w)), sq, w1.
      cbn [Dispenser.set_clockstate Dispenser.config
        Dispenser.seqCounter Dispenser.snowflakeEpoch].
      rewrite (Hid (clock w (ticks w)) sq (ticks w)) by (lia || reflexivity).
      split; [reflexivity|]. split; [reflexivity|].
      split; [exists (ticks w); split; [reflexivity|]; split;
              [lia|reflexivity]|].
      split; [exact R|]. intros _ Hs. right. split; [congruence|].
      subst sq. unfold Int64.add in *.
      rewrite wrap64_id in *
        by (unfold Int64.in_range, Int64.min_int, Int64.max_int; lia).
      change 4095 with (Z.ones 12) in *. rewrite Z.land_ones in * by lia.
      change (2 ^ 12) with 4096 in *.
      destruct (Z.eq_dec (Dispenser.seqCounter d) 4095) as [E|E].
      * rewrite E in Hnz. vm_compute in Hnz. congruence.
      * rewrite Z.mod_small by lia. lia.
  - exists (clock w (ticks w)), 0, w1.
    cbn [Dispenser.set_clockstate Dispenser.config
      Dispenser.seqCounter Dispenser.snowflakeEpoch].
    rewrite (Hid (clock w (ticks w)) 0 (ticks w)) by (lia || reflexivity).
    split; [reflexivity|]. split; [reflexivity|].
    split; [exists (ticks w); split; [reflexivity|]; split;
            [lia|reflexivity]|].
    split; [lia|]. intros Hl _. left. lia.
Qed.

Definition snowflake_results (ids : list Z) : list (result string) :=
  map (fun id => Ok (Fmt.sprintf_d id)) ids.

Lemma snowflake_run (fuel horizon n : nat) :
  forall (d : Dispenser.t) (w : World),
    Type_ (Dispenser.config d) = TypeSnowflake ->
    clock_sane (Dispenser.snowflakeEpoch d) w horizon ->
    clock_advances fuel w horizon ->
    (ticks w + n * S fuel <= horizon)%nat ->
    Dispenser.lastTimestamp d <= clock w (ticks w) ->
    0 <= Dispenser.seqCounter d < 4096 ->
    exists ids d' w',
      calls fuel n d w = Some (snowflake_results ids, d', w')
      /\ length ids = n
      /\ Sorted.StronglySorted Z.lt ids
      /\ Forall (fun id =>
                   snowflake_sum
                     (Dispenser.lastTimestamp d - Dispenser.snowflakeEpoch d)
                     (Dispenser.config d) (Dispenser.seqCounter d) < id
                   /\ 0 <= id < 2 ^ 63) ids.
Proof.
  induction n as [|k IH]; intros d w Hty Hsane Hadv Hh Hlast Hseq.
  - exists [], d, w. repeat split; constructor.
  - destruct (nextSnowflake_step fuel horizon d w Hsane Hadv ltac:(lia))
      as [ts [sq [w1 [E [Hc [[m [Ht [Hm Hts]]] [Hsq Hkey]]]]]]].
    specialize (Hkey Hlast Hseq).
    set (d1 := Dispenser.count (Dispenser.set_clockstate d sq ts)) in *.
    destruct (IH d1 w1) as [ids [d' [w' [Ec [Hlen [Hsorted Hall]]]]]].
    + exact Hty.
    + intros i Hi. rewrite Hc. apply Hsane. lia.
    + intros i Hi. rewrite Hc. apply Hadv. lia.
    + lia.
    + subst d1. cbn [Dispenser.count Dispenser.set_clockstate
                       Dispenser.lastTimestamp].
      rewrite Hc, Ht, Hts. apply Hsane. lia.
    + exact Hsq.
    + unfold d1 in Hall. cbn [Dispenser.count Dispenser.set_clockstate
        Dispenser.lastTimestamp Dispenser.seqCounter
        Dispenser.snowflakeEpoch Dispenser.config] in Hall.
      set (id1 := snowflake_sum (ts - Dispenser.snowflakeEpoch d)
                                (Dispenser.config d) sq) in *.
      assert (snowflake_sum
                (Dispenser.lastTimestamp d - Dispenser.snowflakeEpoch d)
                (Dispenser.config d) (Dispenser.seqCounter d) < id1) as Hlt.
      { apply snowflake_sum_lt; [exact Hseq|exact Hsq|].
        destruct Hkey as [H|[H1 H2]]; [left; lia|right; split; [lia|exact H2]]. }
      assert (0 <= id1 < 2 ^ 63) as Hr.
      { apply snowflake_sum_range; [|exact Hsq].
        destruct (Hsane m ltac:(lia)) as [_ Hb]. rewrite Hts. lia. }
      exists (id1 :: ids), d', w'.
      split.
      { cbn [calls]. unfold Dispenser.Next. rewrite Hty.
        change (TypeSnowflake =? TypeNumericRandom) with false.
        change (TypeSnowflake =? TypeNumericIncremental) with false.
        change (TypeSnowflake =? TypeAlphanumericRandom) with false.
        change (TypeSnowflake =? TypeSnowflake) with true.
        cbv iota. rewrite E, Ec. reflexivity. }
      split; [cbn; lia|].
      split.
      * constructor; [exact Hsorted|].
        eapply List.Forall_impl; [|exact Hall]. cbn. intros a [Ha _]. exact Ha.
      * constructor; [split; [exact Hlt|exact Hr]|].
        eapply List.Forall_impl; [|exact Hall]. cbn. intros a [Ha Hb].
        split; [lia|exact Hb].
Qed.

(** While the clock does not go back and moves on within [fuel]
    readings, every call of a snowflake dispenser returns, in whatever
    state the dispenser is, and the identifiers handed out are numbers of
    63 bits that increase strictly from call to call: none is handed out
    twice. *)
Theorem snowflake_ids_increase (fuel horizon n : nat) (d : Dispenser.t)
        (w : World) :
  Type_ (Dispenser.config d) = TypeSnowflake ->
  clock_sane (Dispenser.snowflakeEpoch d) w horizon ->
  clock_advances fuel w horizon ->
  (ticks w + n * S fuel <= horizon)%nat ->
  exists ids d' w',
    calls fuel n d w = Some (snowflake_results ids, d', w')
    /\ length ids = n
    /\ Sorted.StronglySorted Z.lt ids
    /\ Forall (fun id => 0 <= id < 2 ^ 63) ids.
Proof.
  intros Hty Hsane Hadv Hh. destruct n as [|k].
  - exists [], d, w. repeat split; constructor.
  - destruct (nextSnowflake_step fuel horizon d w Hsane Hadv ltac:(lia))
      as [ts [sq [w1 [E [Hc [[m [Ht [Hm Hts]]] [Hsq _]]]]]]].
    set (d1 := Dispenser.count (Dispenser.set_clockstate d sq ts)) in *.
    destruct (snowflake_run fuel horizon k d1 w1)
      as [ids [d' [w' [Ec [Hlen [Hsorted Hall]]]]]].
    + exact Hty.
    + intros i Hi. rewrite Hc. apply Hsane. lia.
    + intros i Hi. rewrite Hc. apply Hadv. lia.
    + lia.
    + subst d1. cbn [Dispenser.count Dispenser.set_clockstate
                       Dispenser.lastTimestamp].
      rewrite Hc, Ht, Hts. apply Hsane. lia.
    + exact Hsq.
    + unfold d1 in Hall. cbn [Dispenser.count Dispenser.set_clockstate
        Dispenser.lastTimestamp Dispenser.seqCounter
        Dispenser.snowflakeEpoch Dispenser.config] in Hall.
      set (id1 := snowflake_sum (ts - Dispenser.snowflakeEpoch d)
                                (Dispenser.config d) sq) in *.
      assert (0 <= id1 < 2 ^ 63) as Hr.
      { apply snowflake_sum_range; [|exact Hsq].
        destruct (Hsane m ltac:(lia)) as [_ Hb]. rewrite Hts. lia. }
      exists (id1 :: ids), d', w'.
      split.
      { cbn [calls]. unfold Dispenser.Next. rewrite Hty.
        change (TypeSnowflake =? TypeNumericRandom) with false.
        change (TypeSnowflake =? TypeNumericIncremental) with false.
        change (TypeSnowflake =? TypeAlphanumericRandom) with false.
        change (TypeSnowflake =? TypeSnowflake) with true.
        cbv iota. rewrite E, Ec. reflexivity. }
      split; [cbn; lia|].
      split.
      * constructor; [exact Hsorted|].
        eapply List.Forall_impl; [|exact Hall]. cbn. intros a [Ha _]. exact Ha.
      * constructor; [exact Hr|].
        eapply List.Forall_impl; [|exact Hall]. cbn. intros a [_ Hb]. exact Hb.
Qed.

(** A clock that is read three times in each millisecond. *)
Definition Snow_world : World :=
  let w := Scenario.world true true None in
  mkWorld (kinds w) (fun n => 1700000000000 + Z.of_nat n / 3) 0 (entropy w)
          (epos w)
          (seeds w) (nseed w) (disk_ok w) (ios w) (disk w) (fs w).

Definition Snow_dispenser : Dispenser.t :=
  Dispenser.mk (mkConfig TypeSnowflake 0 0 0 5 3 "" "" "" StrategyMemory
                         false 0)
               0 (mkRng (fun _ => 0) 0) 0 0 ∅ 0 0 1288834974657 0.

Lemma snowflake_ids_increase_witness :
  exists ids d' w',
    calls 3 4 Snow_dispenser Snow_world = Some (snowflake_results ids, d', w')
    /\ length ids = 4%nat
    /\ Sorted.StronglySorted Z.lt ids
    /\ Forall (fun id => 0 <= id < 2 ^ 63) ids.
Proof.
  apply (snowflake_ids_increase 3 16 4 Snow_dispenser Snow_world).
  - reflexivity.
  - intros n Hn.
    cbv [Snow_world Snow_dispenser clock ticks Dispenser.snowflakeEpoch]
      in *.
    rewrite Nat2Z.inj_succ.
    change (2 ^ 41) with 2199023255552.
    Z.div_mod_to_equations. lia.
  - intros n Hn. cbv [Snow_world clock ticks] in *.
    rewrite Nat2Z.inj_add. Z.div_mod_to_equations. lia.
  - cbv [Snow_world ticks]. lia.
Defined.

(** Three identifiers of one millisecond and the first of the next. *)
Example snowflake_within_a_millisecond :
  (fun r => fst (fst r)) <$> calls 3 4 Snow_dispenser Snow_world
  = Some [Ok "1724551110456659968"; Ok "1724551110456659969";
          Ok "1724551110456659970"; Ok "1724551110460854272"].
Proof. vm_compute. reflexivity. Qed.

(** ** server.go: restoring the registry *)

(** A dispenser of the basic kernel as [NewDispenser] builds it, set to
    a position. *)
Definition restored (cfg : Config) (position : Z) (k : Dispenser.t) : Prop :=
  exists k0 w0 w1,
    Dispenser.NewDispenser (with_default_strategy cfg) w0 = (Ok k0, w1)
    /\ k = Dispenser.SetCurrent k0 position.

Lemma NewDispenser_valid (cfg : Config) (w : World) :
  validateConfig cfg = None ->
  exists k w1, Dispenser.NewDispenser cfg w = (Ok k, w1).
Proof.
  intros Hv. unfold Dispenser.NewDispenser. rewrite Hv.
  destruct (new_Rng w) as [g w1]. eexists _, _. reflexivity.
Qed.

Lemma load_fold_basic (name : string) (dat : DispenserData) :
  AutoDisk (with_default_strategy (dConfig dat)) = StrategyMemory
  \/ AutoDisk (with_default_strategy (dConfig dat)) = StrategyElegantClose ->
  validateConfig (dConfig dat) = None ->
  forall (l : list (string * DispenserData)) (s : Server) (w : World),
    NoDup (l.*1) -> (name, dat) ∈ l ->
    exists k,
      dispensers (fst (foldr Srv.loadOne (s, w) l)) !! name = Some (Basic k)
      /\ restored (dConfig dat) (dCurrent dat) k.
Proof.
  intros Hst Hv. induction l as [|[n dat'] l IH]; intros s w Hnd Hin.
  - apply elem_of_nil in Hin. contradiction.
  - cbn [foldr]. rewrite fmap_cons in Hnd. cbn [fst] in Hnd.
    apply NoDup_cons in Hnd. destruct Hnd as [Hfresh Hnd].
    destruct (foldr Srv.loadOne (s, w) l) as [s' w'] eqn:Ef.
    apply elem_of_cons in Hin. destruct Hin as [Heq|Hin].
    + injection Heq as <- <-. unfold Srv.loadOne.
      rewrite CreateDispenser_basic by exact Hst.
      destruct (NewDispenser_valid (with_default_strategy (dConfig dat)) w')
        as [k [w1 Ek]].
      { unfold with_default_strategy. destruct (bool_decide _);
          [rewrite validateConfig_AutoDisk|]; exact Hv. }
      rewrite Ek. cbn [Factory.lift ND.SetCurrent fst].
      unfold Srv.set_dispensers. cbn [dispensers].
      rewrite lookup_insert_eq. eexists. split; [reflexivity|].
      exists k, w', w1. split; [exact Ek|reflexivity].
    + assert (n <> name) as Hne.
      { intros ->. apply Hfresh. apply list_elem_of_fmap.
        exists (name, dat). split; [reflexivity|exact Hin]. }
      specialize (IH s w Hnd Hin). rewrite Ef in IH. cbn [fst] in IH.
      destruct IH as [k [Hk Hr]]. exists k. split; [|exact Hr].
      unfold Srv.loadOne.
      destruct (Factory.CreateDispenser _ _ _ _) as [[d|e] w1]; cbn [fst].
      * unfold Srv.set_dispensers. cbn [dispensers].
        rewrite lookup_insert_ne by exact Hne. exact Hk.
      * exact Hk.
Qed.

(** A start from a snapshot file puts every entry of the basic kernel
    back under its name, at the position saved. *)
Lemma NewServer_restores (w : World) (snapshot : gmap string DispenserData)
      (name : string) (dat : DispenserData) :
  disk w = Some snapshot ->
  snapshot !! name = Some dat ->
  AutoDisk (with_default_strategy (dConfig dat)) = StrategyMemory
  \/ AutoDisk (with_default_strategy (dConfig dat)) = StrategyElegantClose ->
  validateConfig (dConfig dat) = None ->
  exists k,
    dispensers (fst (Srv.NewServer w)) !! name = Some (Basic k)
    /\ restored (dConfig dat) (dCurrent dat) k.
Proof.
  intros Hdisk Hdat Hst Hv. unfold Srv.NewServer, Srv.loadDispensers.
  apply load_fold_basic; [exact Hst|exact Hv|apply NoDup_fst_map_to_list|].
  apply elem_of_map_to_list.
  unfold Storage.ListAll, Storage.NewFileStorage, Storage.loadFromDisk, set_fs.
  cbn [fs]. rewrite Hdisk. cbn [data]. exact Hdat.
Qed.

Lemma restored_position (cfg : Config) (position : Z) (k : Dispenser.t) :
  restored cfg position k -> Dispenser.GetCurrent k = position.
Proof. intros [k0 [w0 [w1 [_ ->]]]]. reflexivity. Qed.

Lemma restored_sequence (cfg : Config) (position : Z) (k : Dispenser.t) :
  restored cfg position k ->
  Type_ cfg = TypeNumericIncremental ->
  IncrMode cfg = IncrModeSequence ->
  Type_ (Dispenser.config k) = TypeNumericIncremental
  /\ IncrMode (Dispenser.config k) = IncrModeSequence.
Proof.
  intros [k0 [w0 [w1 [E ->]]]] Hty Hmode.
  assert (Type_ (with_default_strategy cfg) = TypeNumericIncremental
          /\ IncrMode (with_default_strategy cfg) = IncrModeSequence)
    as [Hty' Hmode'].
  { unfold with_default_strategy. destruct (bool_decide _); split; assumption. }
  revert E. generalize (with_default_strategy cfg) Hty' Hmode'.
  clear. intros cfg Hty Hmode.
  unfold Dispenser.NewDispenser.
  destruct (validateConfig cfg); [discriminate|].
  destruct (new_Rng w0) as [g w2]. rewrite Hty.
  change (TypeNumericIncremental =? TypeNumericRandom) with false.
  change (TypeNumericIncremental =? TypeNumericIncremental) with true.
  cbv iota. intros E. injection E as <- _.
  cbn [Dispenser.SetCurrent Dispenser.set_current Dispenser.config
       Dispenser.set_config].
  destruct (Step cfg =? 0);
    cbn [Dispenser.config Dispenser.set_config Dispenser.set_current
         IncrMode set_Step];
    rewrite Hmode;
    (rewrite bool_decide_eq_false_2 by discriminate);
    cbn [Dispenser.config Dispenser.set_config Dispenser.set_current
         IncrMode Type_ set_Step];
    split; assumption.
Qed.

(** After a start from a snapshot file, an entry whose strategy is
    memory or elegant_close (the default) and whose configuration is
    valid is back in the registry under its name, on the basic kernel, at
    the position saved; if it counts in sequence mode, the first GET
    answers that position. *)
Theorem restart_resumes_at_the_saved_position
        (fuel : nat) (w : World) (snapshot : gmap string DispenserData)
        (name : string) (dat : DispenserData) :
  disk w = Some snapshot ->
  snapshot !! name = Some dat ->
  AutoDisk (with_default_strategy (dConfig dat)) = StrategyMemory
  \/ AutoDisk (with_default_strategy (dConfig dat)) = StrategyElegantClose ->
  validateConfig (dConfig dat) = None ->
  let s := fst (Srv.NewServer w) in
  let w1 := snd (Srv.NewServer w) in
  exists k,
    dispensers s !! name = Some (Basic k)
    /\ Dispenser.GetCurrent k = dCurrent dat
    /\ (Type_ (dConfig dat) = TypeNumericIncremental ->
        IncrMode (dConfig dat) = IncrModeSequence ->
        exists s2 w2,
          Srv.handleGet fuel s name w1
          = Some (BulkString (Fmt.sprintf_d (dCurrent dat)), s2, w2)).
Proof.
  intros Hdisk Hdat Hst Hv s w1.
  destruct (NewServer_restores w snapshot name dat Hdisk Hdat Hst Hv)
    as [k [Hk Hr]].
  exists k. split; [exact Hk|]. split; [exact (restored_position _ _ _ Hr)|].
  intros Hty Hmode.
  destruct (restored_sequence _ _ _ Hr Hty Hmode) as [Hty' Hmode'].
  unfold Srv.handleGet. subst s. rewrite Hk.
  cbn [ND.Next]. unfold Dispenser.Next. rewrite Hty'.
  change (TypeNumericIncremental =? TypeNumericRandom) with false.
  change (TypeNumericIncremental =? TypeNumericIncremental) with true.
  cbv iota.
  destruct Hr as [k0 [w0 [w3 [_ Hk0]]]].
  pose proof (restart_basic_kernel_sequence k0 (dCurrent dat)) as Hn.
  rewrite <- Hk0 in Hn.
  assert (IncrMode (Dispenser.config k0) <> IncrModeFixed) as Hnf.
  { rewrite Hk0 in Hmode'. cbn in Hmode'. rewrite Hmode'. discriminate. }
  specialize (Hn Hnf).
  destruct (Dispenser.nextNumericIncremental k) as [r k1]. cbn [fst] in Hn.
  subst r. eexists _, _. reflexivity.
Qed.

Definition Restart_cfg : Config :=
  mkConfig TypeNumericIncremental 0 1 1 0 0 IncrModeSequence "" ""
           StrategyElegantClose false 0.

Definition Restart_snapshot : gmap string DispenserData :=
  <["c" := mkData Restart_cfg 5000 0]> ∅.

Lemma restart_resumes_at_the_saved_position_witness :
  exists k,
    dispensers (fst (Srv.NewServer
                       (Scenario.world true true (Some Restart_snapshot))))
      !! "c" = Some (Basic k)
    /\ Dispenser.GetCurrent k = 5000
    /\ (Type_ Restart_cfg = TypeNumericIncremental ->
        IncrMode Restart_cfg = IncrModeSequence ->
        exists s2 w2,
          Srv.handleGet 0
            (fst (Srv.NewServer
                    (Scenario.world true true (Some Restart_snapshot))))
            "c"
            (snd (Srv.NewServer
                    (Scenario.world true true (Some Restart_snapshot))))
          = Some (BulkString (Fmt.sprintf_d 5000), s2, w2)).
Proof.
  apply (restart_resumes_at_the_saved_position
           0 (Scenario.world true true (Some Restart_snapshot))
           Restart_snapshot "c" (mkData Restart_cfg 5000 0)).
  - reflexivity.
  - apply lookup_insert_eq.
  - right. reflexivity.
  - reflexivity.
Defined.

(** After a [Save] the dirty flag is down only if the file holds the
    snapshot in memory. *)
Definition written_out (w : World) : Prop :=
  dirty (fs w) = false -> disk w = Some (JSON.file (data (fs w))).

Lemma Save_written_out (name : string) (cfg : Config) (current : Z)
      (w : World) :
  written_out (snd (Storage.Save name cfg current w)).
Proof.
  unfold written_out, Storage.Save, now, set_fs, Storage.saveToDisk.
  cbn [fst snd fs autoSave data dirty clock ticks disk_ok ios].
  destruct (autoSave (fs w)); cbn [negb snd fs dirty]; [discriminate|].
  destruct (disk_ok w (ios w)); cbn [snd fs dirty disk data];
    [reflexivity|discriminate].
Qed.

Lemma persistAll_on_disk (s : Server) (w : World) (name : string)
      (d : NumberDispenser) :
  dispensers s !! name = Some d ->
  fst (Srv.persistAll s w) = None ->
  disk (snd (Srv.persistAll s w))
  = Some (JSON.file (data (fs (snd (Srv.persistAll s w))))).
Proof.
  intros Hd. unfold Srv.persistAll.
  assert (written_out (foldr Srv.persistOne w (map_to_list (dispensers s))))
    as Hw.
  { destruct (map_to_list (dispensers s)) as [|[n d'] l] eqn:E.
    - apply map_to_list_empty_iff in E. rewrite E in Hd.
      rewrite lookup_empty in Hd. discriminate.
    - cbn [foldr]. unfold Srv.persistOne at 1. apply Save_written_out. }
  revert Hw. generalize (foldr Srv.persistOne w (map_to_list (dispensers s))).
  intros w0 Hw. unfold Storage.Flush, Storage.saveToDisk.
  destruct (dirty (fs w0)) eqn:Ed; cbn [negb].
  - destruct (disk_ok w0 (ios w0)); cbn [fst snd fs disk data];
      [reflexivity|discriminate].
  - intros _. cbn [snd]. apply Hw. exact Ed.
Qed.

Lemma shutdown_fold_basic (name : string) (k : Dispenser.t)
      (l : list (string * NumberDispenser)) (s : Server) (w : World) :
  (forall d, assoc name l = Some d -> d = Basic k) ->
  dispensers s !! name = Some (Basic k) ->
  fst (fst (foldr Lifecycle.shutdownOne (None, s, w) l)) = None ->
  dispensers (snd (fst (foldr Lifecycle.shutdownOne (None, s, w) l))) !! name
  = Some (Basic k).
Proof.
  induction l as [|[n d] l IH]; cbn [foldr assoc]; intros Hl Hs.
  - intros _. exact Hs.
  - unfold Lifecycle.shutdownOne at 1 3.
    destruct (foldr Lifecycle.shutdownOne (None, s, w) l) as [[p s1] w1] eqn:Ef.
    cbn [fst snd] in *. destruct p as [m|]; [discriminate|].
    destruct (bool_decide (n = name)) eqn:E.
    + apply bool_decide_eq_true in E. subst n.
      rewrite (Hl d eq_refl). cbn [ND.Shutdown Dispenser.Shutdown fst snd].
      intros _. unfold Srv.set_dispensers. cbn [dispensers].
      apply lookup_insert_eq.
    + apply bool_decide_eq_false in E.
      destruct (ND.Shutdown d w1) as [[e d1] w2].
      intros Hp.
      assert (H : <[n := d1]> (dispensers s1) !! name = Some (Basic k)).
      { rewrite lookup_insert_ne by exact E. apply (IH Hl Hs). reflexivity. }
      destruct e as [[]|]; cbn [fst snd] in *; try discriminate;
        unfold Srv.set_dispensers; cbn [dispensers]; exact H.
Qed.

(** A clean stop followed by a start loses nothing of a dispenser of
    the basic kernel: when [Stop] returns without error, which it does
    not when it panics, and every name and string of the snapshot it
    leaves is valid UTF-8, the server started next from the same
    directory holds the dispenser under its name at the position it had
    when the stop began, and in sequence mode the first GET answers
    that position. *)
Theorem clean_stop_then_restart_resumes
        (fuel : nat) (s : Server) (w : World) (name : string)
        (k : Dispenser.t) :
  dispensers s !! name = Some (Basic k) ->
  AutoDisk (with_default_strategy (Dispenser.config k)) = StrategyMemory
  \/ AutoDisk (with_default_strategy (Dispenser.config k))
     = StrategyElegantClose ->
  validateConfig (Dispenser.config k) = None ->
  fst (fst (Lifecycle.Stop s w)) = None ->
  JSON.clean (Storage.ListAll (snd (Lifecycle.Stop s w))) = true ->
  let w1 := snd (Lifecycle.Stop s w) in
  let s2 := fst (Srv.NewServer w1) in
  let w2 := snd (Srv.NewServer w1) in
  exists k2,
    dispensers s2 !! name = Some (Basic k2)
    /\ Dispenser.GetCurrent k2 = Dispenser.GetCurrent k
    /\ (Type_ (Dispenser.config k) = TypeNumericIncremental ->
        IncrMode (Dispenser.config k) = IncrModeSequence ->
        exists s3 w3,
          Srv.handleGet fuel s2 name w2
          = Some (BulkString (Fmt.sprintf_d (Dispenser.GetCurrent k)),
                  s3, w3)).
Proof.
  intros Hd Hst Hv. unfold Lifecycle.Stop, Lifecycle.shutdownAll.
  pose proof (shutdown_fold_basic name k (map_to_list (dispensers s)) s w)
    as Hf.
  destruct (foldr Lifecycle.shutdownOne (None, s, w)
                  (map_to_list (dispensers s))) as [[p s1] w0].
  cbn [fst snd] in Hf. destruct p as [m|]; [discriminate|].
  assert (dispensers s1 !! name = Some (Basic k)) as Hd1.
  { apply Hf; [|exact Hd|reflexivity]. intros d. rewrite assoc_map_to_list, Hd.
    intros [= <-]. reflexivity. }
  clear Hf.
  pose proof (persistAll_on_disk s1 w0 name (Basic k) Hd1) as Hdisk.
  pose proof (persistAll_entry s1 w0 name) as He. rewrite Hd1 in He.
  destruct (Srv.persistAll s1 w0) as [e w1]. cbn [fst snd] in *.
  intros Hnone Hclean. set (s2 := fst (Srv.NewServer w1)).
  specialize (Hdisk Hnone). unfold Storage.ListAll in Hclean.
  rewrite (file_clean _ Hclean) in Hdisk.
  unfold entry_of in He.
  destruct (data (fs w1) !! name) as [dat|] eqn:Edat; [|discriminate].
  cbn in He. injection He as Hc Hp.
  unfold Dispenser.GetConfig in Hc. unfold Dispenser.GetCurrent in Hp.
  assert (restored_ok :
    exists k2, dispensers s2 !! name = Some (Basic k2)
               /\ restored (dConfig dat) (dCurrent dat) k2).
  { apply (NewServer_restores w1 (data (fs w1)) name dat Hdisk Edat).
    - rewrite Hc. exact Hst.
    - rewrite Hc. exact Hv. }
  destruct restored_ok as [k2 [Hk2 Hr]].
  exists k2. split; [exact Hk2|].
  split; [rewrite (restored_position _ _ _ Hr); exact Hp|].
  intros Hty Hmode. rewrite <- Hc in Hty, Hmode.
  destruct (restored_sequence _ _ _ Hr Hty Hmode) as [Hty' Hmode'].
  unfold Srv.handleGet. rewrite Hk2.
  cbn [ND.Next]. unfold Dispenser.Next. rewrite Hty'.
  change (TypeNumericIncremental =? TypeNumericRandom) with false.
  change (TypeNumericIncremental =? TypeNumericIncremental) with true.
  cbv iota.
  destruct Hr as [k0 [w3 [w4 [_ Hk0]]]].
  pose proof (restart_basic_kernel_sequence k0 (dCurrent dat)) as Hn.
  rewrite <- Hk0 in Hn.
  assert (IncrMode (Dispenser.config k0) <> IncrModeFixed) as Hnf.
  { rewrite Hk0 in Hmode'. cbn in Hmode'. rewrite Hmode'. discriminate. }
  specialize (Hn Hnf).
  destruct (Dispenser.nextNumericIncremental k2) as [r k3]. cbn [fst] in Hn.
  subst r. unfold Dispenser.GetCurrent. rewrite <- Hp.
  eexists _, _. reflexivity.
Qed.

(** A server that holds one elegant_close dispenser, at 5000. *)
Definition Restart_kernel : Dispenser.t :=
  Dispenser.mk Restart_cfg 5000 (mkRng (fun _ => 0) 0) 0 0 ∅ 0 0
               1288834974657 0.

Definition Restart_server : Server :=
  mkServer (<["c" := Basic Restart_kernel]> ∅)
           (mkFactory (Some Storage.Save)).

Definition Restart_stopped : World :=
  snd (Lifecycle.Stop Restart_server (Scenario.world true true None)).

Lemma clean_stop_then_restart_resumes_witness :
  exists k2,
    dispensers (fst (Srv.NewServer Restart_stopped)) !! "c" = Some (Basic k2)
    /\ Dispenser.GetCurrent k2 = 5000
    /\ (Type_ Restart_cfg = TypeNumericIncremental ->
        IncrMode Restart_cfg = IncrModeSequence ->
        exists s3 w3,
          Srv.handleGet 0 (fst (Srv.NewServer Restart_stopped)) "c"
                        (snd (Srv.NewServer Restart_stopped))
          = Some (BulkString (Fmt.sprintf_d 5000), s3, w3)).
Proof.
  apply (clean_stop_then_restart_resumes
           0 Restart_server (Scenario.world true true None) "c"
           Restart_kernel).
  - apply lookup_insert_eq.
  - right. reflexivity.
  - reflexivity.
  - vm_compute. reflexivity.
  - vm_compute. reflexivity.
Defined.

(** ** dispenser.go: the statistics of the basic kernel *)

Record DispenserStats : Type := mkStats {
  TotalGenerated : Z;
  TotalWasted : Z;
  WasteRate : spec_float;
  Strategy : string
}.

Module Stats.

Definition GetStats (d : Dispenser.t) : DispenserStats :=
  mkStats (Dispenser.totalGenerated d) 0 Float64.zero
          (AutoDisk (Dispenser.config d)).

End Stats.

(** What one call does to the counter. *)
Definition counts_one (d : Dispenser.t) (r : result string)
           (d1 : Dispenser.t) : Prop :=
  Dispenser.config d1 = Dispenser.config d
  /\ Dispenser.totalGenerated d1
     = match r with
       | Ok _ => Int64.add (Dispenser.totalGenerated d) 1
       | Err _ => Dispenser.totalGenerated d
       end.

Lemma draw_unique_counts (retry : nat) (min max : Z) :
  forall (d d1 : Dispenser.t) (r : result string),
    Dispenser.draw_unique retry min max d = (r, d1) -> counts_one d r d1.
Proof.
  induction retry as [|k IH]; intros d d1 r; cbn [Dispenser.draw_unique].
  - intros [= <- <-]. split; reflexivity.
  - destruct (_ <=? 0); [intros [= <- <-]; split; reflexivity|].
    destruct (Int63n _ _) as [x g].
    destruct (negb _).
    + intros [= <- <-]. split; reflexivity.
    + intros H. apply IH in H. exact H.
Qed.

Lemma Next_counts (fuel : nat) (d d1 : Dispenser.t) (w w1 : World)
      (r : result string) :
  Dispenser.Next fuel d w = Some (r, d1, w1) -> counts_one d r d1.
Proof.
  unfold Dispenser.Next.
  destruct (_ =? TypeNumericRandom).
  { unfold Dispenser.nextNumericRandom.
    destruct (Dispenser.over_threshold _ _).
    - intros [= <- <- _]. split; reflexivity.
    - destruct (Dispenser.draw_unique _ _ _ _) as [r0 d0] eqn:E.
      intros [= <- <- _]. exact (draw_unique_counts _ _ _ _ _ _ E). }
  destruct (_ =? TypeNumericIncremental).
  { unfold Dispenser.nextNumericIncremental, Dispenser.nextIncrFixed,
      Dispenser.nextIncrSequence.
    destruct (bool_decide _); [destruct (_ >? _)|];
      intros [= <- <- _]; split; reflexivity. }
  destruct (_ =? TypeAlphanumericRandom).
  { unfold Dispenser.nextAlphanumericRandom, Dispenser.nextBase62,
      Dispenser.nextHex.
    destruct (bool_decide _).
    - destruct (Dispenser.base62_loop _ _) as [s g].
      intros [= <- <- _]. split; reflexivity.
    - destruct (rand_Read _ _) as [bs w0].
      intros [= <- <- _]. split; reflexivity. }
  destruct (_ =? TypeSnowflake).
  { unfold Dispenser.nextSnowflake. destruct (now w) as [t0 w0].
    destruct (t0 =? _).
    - destruct (_ =? 0).
      + destruct (Dispenser.spin _ _ _ _) as [[t1 w2]|]; [|discriminate].
        intros [= <- <- _]. split; reflexivity.
      + intros [= <- <- _]. split; reflexivity.
    - intros [= <- <- _]. split; reflexivity. }
  destruct (_ =? TypeUUID).
  { unfold Dispenser.nextUUID. destruct (rand_Read _ _) as [bs w0].
    destruct (bool_decide _); intros [= <- <- _]; split; reflexivity. }
  intros [= <- <- _]. split; reflexivity.
Qed.

(** The statistics of the basic kernel count the identifiers handed
    out: over any calls of [Next], of whatever type, [TotalGenerated]
    grows by the number of calls that returned an identifier and by
    nothing for a call that failed; nothing is ever reported wasted, and
    the strategy reported is the configured one. *)
Theorem basic_kernel_counts_what_it_hands_out
        (fuel n : nat) (d d' : Dispenser.t) (w w' : World)
        (rs : list (result string)) :
  0 <= Dispenser.totalGenerated d ->
  Dispenser.totalGenerated d + Z.of_nat n <= Int64.max_int ->
  calls fuel n d w = Some (rs, d', w') ->
  TotalGenerated (Stats.GetStats d')
  = TotalGenerated (Stats.GetStats d) + Z.of_nat (length (successes rs))
  /\ TotalWasted (Stats.GetStats d') = 0
  /\ WasteRate (Stats.GetStats d') = Float64.zero
  /\ Strategy (Stats.GetStats d') = Strategy (Stats.GetStats d).
Proof.
  unfold Stats.GetStats. cbn [TotalGenerated TotalWasted WasteRate Strategy].
  revert d d' w w' rs.
  induction n as [|k IH]; intros d d' w w' rs H0 Hmax; cbn [calls].
  - intros [= <- <- _]. cbn. repeat split. lia.
  - destruct (Dispenser.Next fuel d w) as [[[r d1] w1]|] eqn:En;
      [|discriminate].
    destruct (calls fuel k d1 w1) as [[[rs0 d2] w2]|] eqn:E; [|discriminate].
    intros [= <- <- _].
    destruct (Next_counts _ _ _ _ _ _ En) as [Hc Ht].
    assert (Dispenser.totalGenerated d1
            = Dispenser.totalGenerated d
              + match r with Ok _ => 1 | Err _ => 0 end) as Ht'.
    { rewrite Ht. destruct r; [|lia]. apply add64_id.
      unfold Int64.min_int, Int64.max_int in *. lia. }
    destruct (IH d1 d2 w1 w2 rs0) as [Hg [_ [_ Hs]]].
    + rewrite Ht'. destruct r; lia.
    + rewrite Ht'. destruct r; lia.
    + exact E.
    + split; [|split; [reflexivity|split; [reflexivity|]]].
      * rewrite Hg, Ht'. destruct r; cbn [successes length]; lia.
      * rewrite Hs, Hc. reflexivity.
Qed.

(** The kernel [Count_kernel] after three numbers and a refusal. *)
Definition Count_kernel_after : Dispenser.t :=
  Dispenser.mk (Dispenser.config Count_kernel) 135 (mkRng (fun _ => 0) 0)
               0 0 ∅ 0 0 1288834974657 3.

Lemma basic_kernel_counts_what_it_hands_out_witness :
  TotalGenerated (Stats.GetStats Count_kernel_after)
  = TotalGenerated (Stats.GetStats Count_kernel)
    + Z.of_nat (length (successes [Ok "15"; Ok "55"; Ok "95";
                                   Err ErrNumberExhausted]))
  /\ TotalWasted (Stats.GetStats Count_kernel_after) = 0
  /\ WasteRate (Stats.GetStats Count_kernel_after) = Float64.zero
  /\ Strategy (Stats.GetStats Count_kernel_after)
     = Strategy (Stats.GetStats Count_kernel).
Proof.
  apply (basic_kernel_counts_what_it_hands_out
           0 4 Count_kernel Count_kernel_after
           (Scenario.world true true None) (Scenario.world true true None)).
  - cbn. lia.
  - vm_compute. discriminate.
  - reflexivity.
Defined.

(** ** segment_optimized.go: the statistics *)

Module OSDStats.

Definition mul (x y : spec_float) : spec_float := SFmul 53 1024 x y.

Definition GetStats {W : Type} (osd : OptimizedSegmentDispenser.t W)
  : DispenserStats :=
  let generated := OptimizedSegmentDispenser.totalGenerated osd in
  let wasted := OptimizedSegmentDispenser.totalWasted osd in
  let wasteRate :=
    if generated >? 0 then
      mul (Float64.div (Float64.of_int64 wasted)
                       (Float64.of_int64 (Int64.add generated wasted)))
          (Float64.of_int64 100)
    else Float64.zero in
  mkStats generated wasted wasteRate
          (AutoDisk (OptimizedSegmentDispenser.config osd)).

End OSDStats.

Lemma osd_take_counts {W : Type} (osd : OptimizedSegmentDispenser.t W)
      (w : W) :
  let r := OptimizedSegmentDispenser.take osd w in
  OptimizedSegmentDispenser.config (snd (fst r))
  = OptimizedSegmentDispenser.config osd
  /\ OptimizedSegmentDispenser.totalGenerated (snd (fst r))
     = match fst (fst (fst r)) with
       | Ok _ => Int64.add (OptimizedSegmentDispenser.totalGenerated osd) 1
       | Err _ => OptimizedSegmentDispenser.totalGenerated osd
       end.
Proof.
  cbv zeta.
  unfold OptimizedSegmentDispenser.take, OptimizedSegmentDispenser.rollover,
    OptimizedSegmentDispenser.allocateSegment.
  destruct (_ >=? _).
  - destruct (OptimizedSegmentDispenser.nextSegmentReady osd).
    + cbn. split; reflexivity.
    + destruct (_ && _); [cbn; split; reflexivity|].
      destruct (OptimizedSegmentDispenser.persistFunc osd) as [p|].
      * destruct (p _ w) as [[e|] w1]; cbn; split; reflexivity.
      * cbn. split; reflexivity.
  - cbn. split; reflexivity.
Qed.

Lemma osd_preload_counts {W : Type} (osd : OptimizedSegmentDispenser.t W)
      (w : W) :
  let r := OptimizedSegmentDispenser.preloadNextSegment osd w in
  OptimizedSegmentDispenser.config (fst r)
  = OptimizedSegmentDispenser.config osd
  /\ OptimizedSegmentDispenser.totalGenerated (fst r)
     = OptimizedSegmentDispenser.totalGenerated osd.
Proof.
  cbv zeta. unfold OptimizedSegmentDispenser.preloadNextSegment.
  destruct (OptimizedSegmentDispenser.nextSegmentReady osd);
    [split; reflexivity|].
  destruct (OptimizedSegmentDispenser.persistFunc osd) as [p|].
  - destruct (p _ w) as [[e|] w1]; cbn; split; reflexivity.
  - cbn. split; reflexivity.
Qed.

Lemma osd_checkpoint_counts {W : Type} (osd : OptimizedSegmentDispenser.t W)
      (w : W) :
  let r := OptimizedSegmentDispenser.checkpoint osd w in
  OptimizedSegmentDispenser.config (snd (fst r))
  = OptimizedSegmentDispenser.config osd
  /\ OptimizedSegmentDispenser.totalGenerated (snd (fst r))
     = OptimizedSegmentDispenser.totalGenerated osd.
Proof.
  cbv zeta. unfold OptimizedSegmentDispenser.checkpoint.
  destruct (OptimizedSegmentDispenser.persistFunc osd) as [p|].
  - destruct (negb _); [|split; reflexivity].
    destruct (p _ w) as [[e|] w1]; cbn; split; reflexivity.
  - split; reflexivity.
Qed.

(** The calls under way: a call in steps that has not returned. *)
Definition inflight (f : flight) : nat :=
  match call f with
  | NoCall => O
  | _ => 1%nat
  end.

(** The calls that an event begins. *)
Definition begins (ev : event) : nat :=
  match ev with
  | CallNext | NextEnter => 1%nat
  | _ => O
  end.

(** The numbers that an event hands out. *)
Definition hands_out {W : Type} (o : option (result Z * W)) : nat :=
  match o with
  | Some (Ok _, _) => 1%nat
  | _ => O
  end.

Lemma osd_step_counts {W : Type} (ev : event)
      (osd : OptimizedSegmentDispenser.t W) (pending : nat) (f : flight)
      (w : W) :
  let r := osd_step ev osd pending f w in
  let osd1 := snd (fst (fst (fst r))) in
  let o := fst (fst (fst (fst r))) in
  OptimizedSegmentDispenser.config osd1 = OptimizedSegmentDispenser.config osd
  /\ OptimizedSegmentDispenser.totalGenerated osd1
     = match hands_out o with
       | O => OptimizedSegmentDispenser.totalGenerated osd
       | S _ => Int64.add (OptimizedSegmentDispenser.totalGenerated osd) 1
       end
  /\ (inflight (snd (fst r)) + hands_out o <= inflight f + begins ev)%nat.
Proof.
  cbv zeta. unfold inflight.
  destruct ev; cbn [osd_step begins].
  - (* CallNext *)
    destruct (call f) eqn:Ec; cbn [fst snd hands_out]; rewrite ?Ec;
      try (repeat split; lia).
    destruct (_ && _); cbn [fst snd hands_out]; rewrite ?Ec;
      try (repeat split; lia).
    pose proof (osd_take_counts osd w) as [Hc Ht]. cbv zeta in Hc, Ht.
    destruct (OptimizedSegmentDispenser.take osd w) as [[[r spawn] osd1] w1].
    cbn [fst snd] in *. rewrite Ec.
    split; [exact Hc|]. destruct r; cbn [hands_out]; (split; [exact Ht|lia]).
  - (* RunPreload *)
    destruct pending as [|p]; cbn [fst snd hands_out];
      try (repeat split; lia).
    destruct (load f); cbn [fst snd hands_out]; try (repeat split; lia).
    pose proof (osd_preload_counts osd w) as [Hc Ht]. cbv zeta in Hc, Ht.
    destruct (OptimizedSegmentDispenser.preloadNextSegment osd w)
      as [osd1 w1].
    cbn [fst snd hands_out] in *. repeat split; auto; lia.
  - (* Tick *)
    destruct (call f) eqn:Ec; cbn [fst snd hands_out]; rewrite ?Ec;
      try (repeat split; lia).
    destruct (tick f); cbn [fst snd hands_out]; rewrite ?Ec;
      try (repeat split; lia).
    destruct (OptimizedSegmentDispenser.checkpointTicker osd);
      cbn [fst snd hands_out]; rewrite ?Ec; try (repeat split; lia).
    pose proof (osd_checkpoint_counts osd w) as [Hc Ht]. cbv zeta in Hc, Ht.
    destruct (OptimizedSegmentDispenser.checkpoint osd w) as [[e osd1] w1].
    cbn [fst snd hands_out] in *. rewrite Ec. repeat split; auto; lia.
  - (* NextEnter *)
    destruct (call f) eqn:Ec; cbn [fst snd hands_out]; rewrite ?Ec;
      try (repeat split; lia).
    destruct (load f); cbn [fst snd hands_out]; rewrite ?Ec;
      try (repeat split; lia).
    destruct (_ && _); cbn [fst snd hands_out call set_call]; rewrite ?Ec;
      repeat split; lia.
  - (* NextPersist *)
    destruct (call f) eqn:Ec; cbn [fst snd hands_out]; rewrite ?Ec;
      try (repeat split; lia).
    destruct (OptimizedSegmentDispenser.persistSegment osd _ w)
      as [[e|err] w1]; cbn [fst snd hands_out call set_call];
      repeat split; lia.
  - (* NextFinish *)
    destruct (call f) eqn:Ec; cbn [fst snd hands_out]; rewrite ?Ec;
      try (repeat split; lia).
    unfold OptimizedSegmentDispenser.issue.
    cbn [fst snd hands_out call set_call]. repeat split; try reflexivity; lia.
  - (* PreloadEnter *)
    destruct pending as [|p]; cbn [fst snd hands_out];
      try (repeat split; lia).
    destruct (load f); cbn [fst snd hands_out]; try (repeat split; lia).
    destruct (OptimizedSegmentDispenser.nextSegmentReady osd);
      cbn [fst snd hands_out call set_load]; repeat split; lia.
  - (* PreloadPersist *)
    destruct (load f); cbn [fst snd hands_out]; try (repeat split; lia).
    destruct (OptimizedSegmentDispenser.persistNext osd start w)
      as [[e|] w1]; cbn [fst snd hands_out call set_load]; repeat split; lia.
  - (* PreloadFinish *)
    destruct (load f); cbn [fst snd hands_out call set_load];
      repeat split; lia.
  - (* TickRead *)
    destruct (call f) eqn:Ec; cbn [fst snd hands_out]; rewrite ?Ec;
      try (repeat split; lia).
    destruct (tick f); cbn [fst snd hands_out]; rewrite ?Ec;
      try (repeat split; lia).
    destruct (OptimizedSegmentDispenser.checkpointTicker osd);
      cbn [fst snd hands_out call set_tick]; rewrite ?Ec; repeat split; lia.
  - (* TickPersist *)
    destruct (tick f); cbn [fst snd hands_out]; try (repeat split; lia).
    destruct (OptimizedSegmentDispenser.persistCheckpoint osd current w)
      as [[|] w1]; cbn [fst snd hands_out call set_tick]; repeat split; lia.
  - (* TickFinish *)
    destruct (tick f); cbn [fst snd hands_out call set_tick];
      repeat split; lia.
Qed.

Lemma handed_out_observed {W : Type} (o : option (result Z * W))
      (obs : list (result Z * W)) :
  length (handed_out (observed o obs))
  = (hands_out o + length (handed_out obs))%nat.
Proof. destruct o as [[[v|e] w]|]; reflexivity. Qed.

Lemma osd_steps_counts {W : Type} (evs : list event) :
  forall (osd : OptimizedSegmentDispenser.t W) (pending : nat) (f : flight)
         (w : W),
    0 <= OptimizedSegmentDispenser.totalGenerated osd ->
    OptimizedSegmentDispenser.totalGenerated osd
    + Z.of_nat (inflight f + calls_in evs) <= Int64.max_int ->
    let obs := fst (fst (osd_steps evs osd pending f w)) in
    let osd' := snd (fst (osd_steps evs osd pending f w)) in
    OptimizedSegmentDispenser.totalGenerated osd'
    = OptimizedSegmentDispenser.totalGenerated osd
      + Z.of_nat (length (handed_out obs))
    /\ AutoDisk (OptimizedSegmentDispenser.config osd')
       = AutoDisk (OptimizedSegmentDispenser.config osd).
Proof.
  induction evs as [|ev evs IH]; intros osd pending f w H0 Hmax; cbv zeta;
    cbn [osd_steps].
  - cbn. split; [lia|reflexivity].
  - pose proof (osd_step_counts ev osd pending f w) as (Hc & Ht & Hb).
    cbv zeta in Hc, Ht, Hb.
    assert (Hcalls : calls_in (ev :: evs) = (begins ev + calls_in evs)%nat)
      by (destruct ev; reflexivity).
    rewrite Hcalls in Hmax.
    destruct (osd_step ev osd pending f w) as [[[[o osd1] p1] f1] w1].
    cbn [fst snd] in Hc, Ht, Hb.
    assert (Ht' : OptimizedSegmentDispenser.totalGenerated osd1
                  = OptimizedSegmentDispenser.totalGenerated osd
                    + Z.of_nat (hands_out o)).
    { rewrite Ht. destruct (hands_out o) as [|n] eqn:E; [lia|].
      assert (n = O) by (destruct o as [[[v|e] wr]|]; cbn in E; congruence).
      subst n. apply add64_id.
      unfold Int64.min_int, Int64.max_int in *. lia. }
    specialize (IH osd1 p1 f1 w1). cbv zeta in IH.
    destruct (osd_steps evs osd1 p1 f1 w1) as [[obs osd2] w2].
    cbn [fst snd] in *.
    destruct IH as [Hg Hs]; [lia | lia |].
    split; [|rewrite Hs, Hc; reflexivity].
    rewrite handed_out_observed, Hg, Ht'. lia.
Qed.

(** The statistics of a checkpointing dispenser count the numbers
    handed out: over any schedule of calls, preloads and checkpoint
    ticks, whole or in steps, with the hook failing at will,
    [TotalGenerated] grows by one for each call that handed out a number
    and by nothing otherwise, and the strategy reported stays the
    configured one. *)
Theorem checkpointing_dispenser_counts_what_it_hands_out {W : Type}
        (evs : list event) (osd : OptimizedSegmentDispenser.t W)
        (pending : nat) (w : W) :
  0 <= OptimizedSegmentDispenser.totalGenerated osd ->
  OptimizedSegmentDispenser.totalGenerated osd + Z.of_nat (calls_in evs)
  <= Int64.max_int ->
  let obs := fst (fst (osd_run evs osd pending w)) in
  let osd' := snd (fst (osd_run evs osd pending w)) in
  TotalGenerated (OSDStats.GetStats osd')
  = TotalGenerated (OSDStats.GetStats osd)
    + Z.of_nat (length (handed_out obs))
  /\ Strategy (OSDStats.GetStats osd') = Strategy (OSDStats.GetStats osd).
Proof.
  intros H0 Hmax. unfold OSDStats.GetStats. cbn [TotalGenerated Strategy].
  unfold osd_run. apply (osd_steps_counts evs osd pending idle w H0).
  cbn [inflight call idle Nat.add]. exact Hmax.
Qed.

Lemma checkpointing_dispenser_counts_what_it_hands_out_witness :
  let obs := fst (fst (osd_run Run_schedule Tick_dispenser 0 (O, []))) in
  let osd' := snd (fst (osd_run Run_schedule Tick_dispenser 0 (O, []))) in
  TotalGenerated (OSDStats.GetStats osd')
  = TotalGenerated (OSDStats.GetStats Tick_dispenser)
    + Z.of_nat (length (handed_out obs))
  /\ Strategy (OSDStats.GetStats osd')
     = Strategy (OSDStats.GetStats Tick_dispenser).
Proof.
  apply (checkpointing_dispenser_counts_what_it_hands_out
           Run_schedule Tick_dispenser 0 (O, [])).
  - cbn. lia.
  - vm_compute. discriminate.
Defined.

(** ** handlers.go: a dispenser that was just created *)






